(* ===== verification/_CoqProject ===== *)
-Q . S2P
Prelude.v
GoText.v
Json.v
GoTime.v
Decode.v
ProtoDef.v
Protocol.v
ToCompute.v
Room.v
Config.v
Token.v
Rpc.v
State.v
Client.v
Utils.v
Pump.v
Subscribe.v
Stream.v
Heartbeat.v
Stat.v
Service.v
Outgoing.v
Interleave.v
Lifecycle.v
LifecycleRuns.v
Settle.v
Races.v
Purge.v
Naming.v
Redis.v
LogFactory.v
Main.v
Shutdown.v
TestClient.v
HttpCli.v
