(* ===== verification/Prelude.v ===== *)
(** * A verification of the connector server

The connector (src/src/server/connector) accepts TCP connections through the
package bdmsg, registers each under a user id, forwards the chat messages of
its users to compute servers, and pushes to its users what a router publishes
over redis. Several goroutines share its state: one per connection that runs
the handlers, one per client that writes its queue to the connection ([a]), one
that waits for the connection to stop ([monitor]), one per token that arms the
session timer ([expire]), and the tickers of the heartbeat check, of the consumer of
chat messages, of the discovery of compute servers and of the published figures.

** Files

All paths are under src/src; connectsvc stands for
server/connector/internal/service/connectsvc.

- Prelude.v (this file): errors (common/errdef), panics and the monad [M] of state
  and panics, machine integers, bytes, Go maps, orders of iteration over maps,
  the hint databases and tactics.
- GoText.v: the parts of strings, unicode/utf8 and strconv the code uses.
- Json.v: encoding/json: a parser with fuel (linear in the length of the input,
  see [p_value_fuel]), decoding into structs with case-insensitive field
  names and partial results, printing, and the round trip of the two.
- GoTime.v: package time: [Duration.String] and [ParseDuration], whose fractions are
  computed in doubles, and their round trip.
- Decode.v: decoding of JSON into types with decoders of their own: values keep
  their text, slices, embedded structs and quoted booleans; on plain destinations it
  is the decoding of Json.v ([Unmarshal_plain]).
- ProtoDef.v: common/datadef and protodef/protodef.go.
- Protocol.v: protodef/pconnector: the messages, [Unmarshal], [Marshal] with
  its cache; what a client reads of a pushed message.
- ToCompute.v: connectsvc/tocompute.go and the record of
  RoomMsgToCompute.pb.go: the bounded queues of chat messages per room, with the
  interleavings of their critical sections.
- Room.v: connectsvc/room.go: who is in which room, with its interleavings.
- Config.v: the configuration (common/config, server/connector/internal/config): the
  structs and their [Check] methods, the JSON forms of durations and addresses, the
  flags, [ParseConfig].
- Token.v: [decrypt] of connectsvc/token.go and [refreshToken0] of client.go.
- Rpc.v: connectsvc/plainrpc.go: frames, retries, discovery of servers.
- State.v: the shared state: connections, clients, pushed messages, managers,
  queues, counters, and the goroutines started but not yet run ([World]).
- Client.v: connectsvc/client.go over [World], and the invariant [world_ok].
- Utils.v: the helpers without state: common/utility/time.go, connectsvc/utils.go,
  [intValue] and [MSC] of client.go.
- Pump.v: the goroutine [Client.a] against [ServerHello] and [ending] at the grain
  of its critical sections.
- Subscribe.v: connectsvc/subscribe.go: delivery of publications.
- Stream.v: the loop of [subscribe] over what is received, up to the connections; a
  turn of the output goroutine over [World] against its steps in Pump.v.
- Purge.v: [subscriber.purge] of subscribe.go, which the code does not call at
  present.
- Heartbeat.v: connectsvc/heartbeat.go. Stat.v: connectsvc/stat.go and the sum
  of the queues in subscribe.go.
- Service.v: connectsvc/connectsvc.go: handlers, mux, consumer, and the server
  as the transition system [step].
- Interleave.v: the delivery of a publication at the grain of its locks ([dpc],
  [d_next]), against the steps of the rest of the server, each of them whole.
- Outgoing.v: chat messages from the handlers to the connection of a compute server.
- Lifecycle.v: registration, the entering of rooms and the end of clients at the grain of
  the locks ([h_next], [e_next], [life_step]), with the invariant [life_ok].
- LifecycleRuns.v: its runs: composition to the steps of Service.v, single steps,
  ended clients that stay in rooms.
- Settle.v: how it comes to rest: the goroutines under way and the monitors of stopped
  connections alone ([life_own]).
- Races.v: the sections of a delivery between those of handlers and endings ([race_step]).
- Naming.v: connectsvc/naming.go: the vote on the server's own address.
- Redis.v: the redis clients of naming.go, plainrpc.go and subscribe.go, the hashes they
  touch, the timer of the subscriber.
- LogFactory.v: connectsvc/logfactory.go: log.json, levels, directories, loggers, [init].
- Main.v: the process: [init] of token.go, [Start] and [newService], the entry of the
  server in the redis hash "go-servers" (stat.go, naming.go), common/service/debugsvc,
  server/connector/internal/manager, main.go up to its wait for a signal.
- Shutdown.v: main.go from the pid file to its end, call by call ([main_next]), against the
  goroutines of Lifecycle.v.
- TestClient.v: tool/testclient, and what the server makes of it.
- HttpCli.v: common/service/httpcli.

** Conventions

Objects behind pointers are entries of finite maps from locations; a message
pushed to many clients is one object, and so is the inner map of a room.
Handlers are functions of the monad [M World]: they keep the state they reached
when they panic, and a deferred recover sees it. Operations without panics
are functions [World -> World]; on a location that is not allocated, which does
not happen under [world_ok], they do nothing. A [range] over a Go map is a
function of the order of the keys, and the theorems hold for every order. Times
are arguments, in nanoseconds since 1970. Integers are in Z with their
wrap-around written out. Mutexes appear in the grain of the steps: what runs under a
lock is one step. In [step] a whole handler is one step; the sections inside the
handlers are interleaved in ToCompute.v, Room.v, Pump.v, Lifecycle.v and Races.v, and
tied to the whole ones by [calls_alone], [a_iter_refines], [subscriber_alone] and
[lifecycle_refines]. In Lifecycle.v at most one handler of a connection is under way, since
bdmsg hands out its messages one after the other, and the goroutines that leave the
registrations, the rooms and the clients' ends alone are one kind of step, [quiet_for];
[step_quiet] shows that all steps of Service.v but three kinds of messages and the monitors
are of that kind.

Packages that are not part of the repository are type classes whose laws, where
needed, are classes of their own: [BDMsg] (a connection can be stopped, carries
user data, is written to; [BDMsgLaws]), [Net] (dial, write, close), [Zlib]
([ZlibLaws]: decompression inverts compression), [Proto], [Gorsa], [Http],
[HttpClient], [RedisServers] ([RedisLaws]: a hash reads back what was set and not deleted),
[OldProtocol] (what the test client takes from pconnector and pconnector does not define),
[Lumber] (with units and gologf), [Files] (os and ioutil), [Resolver]
(net), [BinaryHeap] ([BinaryHeapLaws]: it holds what was pushed and
not popped). A new connection carries itself as user data, as bdmsg sets it up.
Every class a theorem with hypotheses depends on has an instance for its
witness.

** What the theorems show

- The server as a whole (Service.v, Client.v): the invariant of all
  reachable states; a registration replaces the older client of its id and an
  ending client spares its successor; connections that stop take their clients
  with them; the gate of the handshake; where a chat message is queued.
- Registrations against each other and against the end of clients (Lifecycle.v,
  LifecycleRuns.v, Settle.v): the invariant between the locks; how an entry of the manager
  can change; an ended client never comes back; the goroutines under way, left alone, are
  done after a bounded number of sections and leave registered exactly the clients whose
  connection runs. There a connection that has stopped is supposed to stay so
  ([lasting_step]), as it does in every step of Service.v ([step_lasting]).
- Pushes (Subscribe.v, Stream.v, Interleave.v, Races.v, Pump.v, Protocol.v): who gets a
  publication and how often, owner first, also with the rest of the server running
  between the locks, in whole steps ([interleaved_delivery]) and lock by lock
  ([locked_delivery]); order without loss or repetition in every interleaving of
  the output goroutine; series of publications end to end; the bytes written decode
  to what the router sent.
- The process (Main.v, Config.v, LogFactory.v): which configurations are accepted and
  what each failure does; durations round-trip; what runs after [Start]; a started
  process touches only its own entry of the table of servers; the end of [main] leaves
  nobody registered, whatever the order of the monitors, and stops the services in order (Shutdown.v); the table of servers is
  the redis hash (Redis.v).
- Towards the compute servers (ToCompute.v, Rpc.v, Service.v, Outgoing.v): chat messages
  reach the chosen server complete and in order of their rooms; queues that drop a message
  only for one that finds 100 waiting ([ledger]) and keep order, with concurrent calls that never get stuck;
  frames that can be read back; retries; a consumer tick that writes what it took.
- Tokens, addresses, figures, calls, times (Token.v, Naming.v, Stat.v, HttpCli.v,
  Heartbeat.v, Purge.v, Utils.v, TestClient.v): functional specifications of every branch.
- Defects, as theorems about the code as it is: [lost_wakeup],
  [session_outlives_token], [consume_without_servers], [always_the_same_server],
  [wrong_user_data_panics], [room_change_keeps_old], [deprecated_fields_ignored],
  [delivery_race], [ghost_member] (an ended client stays in a room), [late_registration],
  [test_client_waits], [redis_db_ignored],
  [registration_outlives_server] (with [process_safety]);
  also [push_message] (the content field is never sent) and [resolveIp_majority]
  (the empty answer can win).

** Bounds

The fuel of the JSON parser is twice the length of the text and two more
([json_fuel]); [p_value_fuel] shows that more makes no difference. The loop of
[ParseDuration] has the length of the text as fuel, and each turn consumes at least
one character ([ParseDuration_total]). [trySend]
recurses on the number of attempts the code passes (3). All other recursion is
structural, or on a length that bounds it.

** Not modelled

Writing to logs; the measurement of processor and memory and the answers of redis, which
are arguments; delivery of signals, and what the waits of main.go for requests and clients
wait for, which are inputs of [main_next]; what [Stop] of bdmsg does to connections already
accepted, of which the code says nothing; the generated getters of RoomMsgToCompute.pb.go;
fairness of the Go scheduler and data races on plain fields: a field of a client that is
read without a lock is read in one piece with the section it belongs to. Nor is the
concurrent access of the discovery and of [send] to [connectionMap] (plainrpc.go:83 and
:163): [send] locks a copy of the lock, so nothing keeps the two apart, and Go gives
unsynchronized access to a map no meaning; in the model each of them is one step. Slices
of the token's bytes have no spare capacity in Token.v: an index between length and
capacity, which the code never uses ([split_loop_cuts]), would not panic in Go.

The Go release matters in three places. [ParseDuration] is that of the releases the
vendored packages are from, which refuses the smallest duration its [String] prints;
[flag_Parse] exits with 2 also for -h; and conversions from float64 to int64 out of
range give what amd64 gives. When a key for a slice comes twice in one JSON object, the
elements beyond the length of the second value are forgotten, where Go could find them
again in the capacity for a third one. *)

From Stdlib Require Export ZArith Lia ZifyBool.
From Stdlib Require Export Strings.Byte.
From stdpp Require Export base gmap strings list fin_maps sorting.

(** * Errors and panics *)

(** The error values of common/errdef. *)
Inductive errdef :=
  | ErrUnknown
  | ErrCancel
  | ErrPanic
  | ErrUnexpected
  | ErrNotFound
  | ErrAlreadyExist
  | ErrParameter
  | ErrKey
  | ErrAddress.

(** Go's [error] values as the connector can meet them: one of its own, an
error of encoding/json (the input is not JSON, or a value does not have the
type of its destination), or an error of another package with its text. *)
Inductive error :=
  | EDef (e : errdef)
  | EJsonSyntax
  | EJsonType
  | EText (s : string).

(** The run-time panics the modelled code can raise. *)
Inductive rt_panic :=
  | NilDeref
  | IndexRange
  | SliceBounds
  | DivByZero
  | TypeAssertion.

(** What [recover] receives. *)
Inductive panic_value :=
  | PErr (e : error)
  | PRt (r : rt_panic)
  | PText (s : string).

(** How a call ends: with a value, with a panic that unwinds to the nearest
[recover], or never (a loop without exit, a mutex that nobody unlocks). *)
Inductive outcome (A : Type) :=
  | Ret (a : A)
  | Panic (p : panic_value)
  | Stuck.
Arguments Ret {A} a.
Arguments Panic {A} p.
Arguments Stuck {A}.

#[export] Instance errdef_eq_dec : EqDecision errdef.
Proof. solve_decision. Defined.
#[export] Instance error_eq_dec : EqDecision error.
Proof. solve_decision. Defined.
#[export] Instance rt_panic_eq_dec : EqDecision rt_panic.
Proof. solve_decision. Defined.
#[export] Instance panic_value_eq_dec : EqDecision panic_value.
Proof. solve_decision. Defined.
#[export] Instance outcome_eq_dec {A} `{EqDecision A} : EqDecision (outcome A).
Proof. solve_decision. Defined.

(** * The state and panic monad

A panic keeps the state reached when it is raised: a deferred [recover] sees
the effects made before it. *)
Definition M (S A : Type) : Type := S -> outcome A * S.

#[export] Instance M_ret {S} : MRet (M S) := fun A a s => (Ret a, s).
#[export] Instance M_bind {S} : MBind (M S) := fun A B k m s =>
  match m s with
  | (Ret a, s') => k a s'
  | (Panic p, s') => (Panic p, s')
  | (Stuck, s') => (Stuck, s')
  end.

Definition get {S} : M S S := fun s => (Ret s, s).
Definition gets {S A} (f : S -> A) : M S A := fun s => (Ret (f s), s).
Definition modify {S} (f : S -> S) : M S unit := fun s => (Ret tt, f s).
Definition throw {S A} (p : panic_value) : M S A := fun s => (Panic p, s).
Definition stuck {S A} : M S A := fun s => (Stuck, s).
Definition deref {S A} (f : S -> option A) : M S A := fun s =>
  match f s with
  | Some a => (Ret a, s)
  | None => (Panic (PRt NilDeref), s)
  end.
(** [defer func() { if err := recover(); err != nil { h err } }()] around a body. *)
Definition recovering {S A} (body : M S A) (h : panic_value -> M S A) : M S A := fun s =>
  match body s with
  | (Panic p, s') => h p s'
  | r => r
  end.
(** [defer d] without a recover: [d] runs on return and on panic. *)
Definition deferring {S A} (body : M S A) (d : M S unit) : M S A := fun s =>
  match body s with
  | (Ret a, s') => match d s' with
                   | (Ret _, s'') => (Ret a, s'')
                   | (Panic p, s'') => (Panic p, s'')
                   | (Stuck, s'') => (Stuck, s'')
                   end
  | (Panic p, s') => match d s' with
                     | (Ret _, s'') => (Panic p, s'')
                     | (Panic p', s'') => (Panic p', s'')
                     | (Stuck, s'') => (Stuck, s'')
                     end
  | (Stuck, s') => (Stuck, s')
  end.
(** [for _, x := range l { f x }] *)
Fixpoint for_each {S A} (f : A -> M S unit) (l : list A) : M S unit :=
  match l with
  | [] => mret tt
  | x :: l' => f x ≫= fun _ => for_each f l'
  end.

(** * Machine integers *)

(** Reduction to an unsigned and to a signed integer of [w] bits. *)
Definition wrap_u (w z : Z) : Z := (z mod 2 ^ w)%Z.
Definition wrap_s (w z : Z) : Z := ((z + 2 ^ (w - 1)) mod 2 ^ w - 2 ^ (w - 1))%Z.
Definition to_int32 : Z -> Z := wrap_s 32.
Definition to_int64 : Z -> Z := wrap_s 64.
Definition to_uint64 : Z -> Z := wrap_u 64.

(** * Bytes, strings and maps *)

(** A Go byte slice by value. A Go string is a [string]: its characters are bytes. *)
Definition bytes : Type := list byte.
Definition byte_of_Z (z : Z) : byte :=
  match Byte.of_N (Z.to_N (z mod 256)) with Some b => b | None => x00 end.
Definition Z_of_byte (b : byte) : Z := Z.of_N (Byte.to_N b).
Definition bytes_of_string (s : string) : bytes := String.list_byte_of_string s.
Definition string_of_bytes (b : bytes) : string := String.string_of_list_byte b.
Definition len {A} (l : list A) : Z := Z.of_nat (length l).

(** Addresses of heap objects. *)
Definition loc : Type := positive.

(** A Go map of string keys: [None] is the nil map. *)
Definition gomap (A : Type) : Type := option (gmap string A).
Definition gm_lookup {A} (m : gomap A) (k : string) : option A :=
  match m with Some m' => m' !! k | None => None end.
Definition gm_content {A} (m : gomap A) : gmap string A :=
  match m with Some m' => m' | None => ∅ end.

(** The keys a [range] over a map visits: each key once, in any order. *)
Definition iterates {A} (m : gmap string A) (ks : list string) : Prop :=
  ks ≡ₚ (map_to_list m).*1.

(** * Scope, hints, tactics *)

Declare Scope go_scope.
Delimit Scope go_scope with go.
Notation "s .+ t" := (String.append s t) (at level 60, right associativity) : go_scope.

Create HintDb go.
Create Rewrite HintDb go.

(** Evaluate one monadic call: unfold the monad and reduce. *)
Ltac run := unfold mbind, M_bind, mret, M_ret, get, gets, modify, throw, stuck, deref in *; cbn in *.
(** Case analysis of every match left in the goal, discarding the impossible ones. *)
Ltac cases := repeat (case_match; simplify_eq/=; try done).

(** * Lemmas *)

Lemma wrap_s_range w z : (0 < w)%Z -> (- 2 ^ (w - 1) <= wrap_s w z < 2 ^ (w - 1))%Z.
Proof.
  intros Hw. unfold wrap_s.
  assert (2 ^ w = 2 * 2 ^ (w - 1))%Z as E.
  { rewrite <-Z.pow_succ_r by lia. f_equal. lia. }
  pose proof (Z.mod_pos_bound (z + 2 ^ (w - 1)) (2 ^ w) ltac:(lia)). lia.
Qed.

Lemma wrap_s_id w z : (0 < w)%Z -> (- 2 ^ (w - 1) <= z < 2 ^ (w - 1))%Z -> wrap_s w z = z.
Proof.
  intros Hw Hz. unfold wrap_s.
  assert (2 ^ w = 2 * 2 ^ (w - 1))%Z as E.
  { rewrite <-Z.pow_succ_r by lia. f_equal. lia. }
  rewrite Z.mod_small; lia.
Qed.

Lemma wrap_s_add_l w a b : (0 < w)%Z -> wrap_s w (wrap_s w a + b) = wrap_s w (a + b).
Proof.
  intros Hw. unfold wrap_s.
  set (P := (2 ^ (w - 1))%Z).
  replace (((a + P) mod 2 ^ w - P + b + P))%Z with (((a + P) mod 2 ^ w) + b)%Z by lia.
  rewrite Z.add_mod_idemp_l by (apply Z.pow_nonzero; lia).
  f_equal. f_equal. lia.
Qed.

Lemma wrap_u_range w z : (0 <= w)%Z -> (0 <= wrap_u w z < 2 ^ w)%Z.
Proof. intros. apply Z.mod_pos_bound. lia. Qed.

Lemma wrap_u_id w z : (0 <= z < 2 ^ w)%Z -> wrap_u w z = z.
Proof. apply Z.mod_small. Qed.

Lemma Z_of_byte_range b : (0 <= Z_of_byte b < 256)%Z.
Proof. unfold Z_of_byte. pose proof (Byte.to_N_bounded b). lia. Qed.

Lemma Z_of_byte_of_Z z : Z_of_byte (byte_of_Z z) = (z mod 256)%Z.
Proof.
  unfold byte_of_Z, Z_of_byte.
  pose proof (Z.mod_pos_bound z 256 ltac:(lia)).
  destruct (Byte.of_N (Z.to_N (z mod 256))) as [b|] eqn:E.
  - apply Byte.to_of_N in E. rewrite E. lia.
  - apply Byte.of_N_None_iff in E. lia.
Qed.

Lemma byte_of_Z_of_byte b : byte_of_Z (Z_of_byte b) = b.
Proof. by destruct b. Qed.

Lemma string_of_bytes_of_string s : string_of_bytes (bytes_of_string s) = s.
Proof. apply String.string_of_list_byte_of_string. Qed.

Lemma bytes_of_string_of_bytes b : bytes_of_string (string_of_bytes b) = b.
Proof. apply String.list_byte_of_string_of_list_byte. Qed.

Lemma len_nonneg {A} (l : list A) : (0 <= len l)%Z.
Proof. unfold len. lia. Qed.

Lemma len_nil {A} : len (@nil A) = 0%Z.
Proof. done. Qed.

Lemma len_cons {A} (x : A) l : len (x :: l) = (1 + len l)%Z.
Proof. unfold len. cbn [length]. lia. Qed.

Lemma len_app {A} (l k : list A) : len (l ++ k) = (len l + len k)%Z.
Proof. unfold len. rewrite length_app. lia. Qed.

Lemma iterates_NoDup {A} (m : gmap string A) ks : iterates m ks -> NoDup ks.
Proof. intros H. rewrite H. apply NoDup_fst_map_to_list. Qed.

Lemma iterates_elem {A} (m : gmap string A) ks k :
  iterates m ks -> k ∈ ks <-> is_Some (m !! k).
Proof.
  intros H. rewrite H, list_elem_of_fmap. split.
  - intros ([k' v] & -> & Hv). apply elem_of_map_to_list in Hv. by exists v.
  - intros [v Hv]. exists (k, v). split; [done|]. by apply elem_of_map_to_list.
Qed.

Lemma iterates_self {A} (m : gmap string A) : iterates m (map_to_list m).*1.
Proof. unfold iterates. done. Qed.

Lemma iterates_nil {A} (ks : list string) : iterates (∅ : gmap string A) ks -> ks = [].
Proof. unfold iterates. rewrite map_to_list_empty. apply Permutation_nil_r. Qed.

Lemma for_each_app {S A} (f : A -> M S unit) l k s :
  for_each f (l ++ k) s =
  match for_each f l s with
  | (Ret _, s') => for_each f k s'
  | r => r
  end.
Proof.
  revert s. induction l as [|x l IH]; intros s; cbn; [done|].
  unfold mbind, M_bind. destruct (f x s) as [[[]|p|] s']; [apply IH|done|done].
Qed.

(** A loop whose body always returns is a fold of its effects on the state. *)
Lemma for_each_fold {S A} (f : A -> M S unit) (g : A -> S -> S) l s :
  (forall x s, f x s = (Ret tt, g x s)) ->
  for_each f l s = (Ret tt, foldl (fun s x => g x s) s l).
Proof.
  intros H. revert s. induction l as [|x l IH]; intros s; cbn; [done|].
  unfold mbind, M_bind. rewrite H. apply IH.
Qed.

(** An invariant of the state through the constructs of the monad. *)
Lemma bind_inv {S A B} (I : S -> Prop) (m : M S A) (k : A -> M S B) s :
  I (m s).2 -> (forall a s', m s = (Ret a, s') -> I s' -> I (k a s').2) -> I ((m ≫= k) s).2.
Proof.
  intros Hm Hk. unfold mbind, M_bind. destruct (m s) as [[a|p|] s'] eqn:E; cbn in Hm; try done. by apply Hk.
Qed.

Lemma recovering_inv {S A} (I : S -> Prop) (body : M S A) h s :
  I (body s).2 -> (forall p s', I s' -> I (h p s').2) -> I (recovering body h s).2.
Proof. intros Hb Hh. unfold recovering. destruct (body s) as [[a|p|] s']; cbn in Hb; auto. Qed.

#[export] Hint Resolve len_nonneg iterates_self Z_of_byte_range : go.
#[export] Hint Rewrite @len_nil @len_cons @len_app : go.
