(* ===== verification/GoText.v ===== *)
(** Text as Go sees it: a string is a sequence of bytes that is read as UTF-8.
The parts of unicode/utf8, strings and strconv the connector uses. *)

From Stdlib Require Export Strings.Ascii.
From Stdlib Require Import DecimalString DecimalFacts DecimalZ DecimalN.
From S2P Require Import Prelude.
Local Open Scope Z_scope.

(** * Bytes of strings *)

Definition code (c : ascii) : Z := Z.of_N (Ascii.N_of_ascii c).
Definition chr (z : Z) : ascii := Ascii.ascii_of_N (Z.to_N (z mod 256)).
Definition in_range (lo hi : Z) (c : ascii) : bool := (lo <=? code c) && (code c <=? hi).

Fixpoint str_all (p : ascii -> bool) (s : string) : bool :=
  match s with
  | EmptyString => true
  | String c s' => p c && str_all p s'
  end.

Definition str_len (s : string) : Z := Z.of_nat (String.length s).

(** * UTF-8 *)

Definition cont (c : ascii) : bool := in_range 128 191 c.

(** The number of bytes of the well-formed sequence a string starts with; [O]
if it starts with none. *)
Definition utf8_width (s : string) : nat :=
  match s with
  | EmptyString => 0
  | String a s1 =>
      if (code a <? 128)%Z then 1 else
      match s1 with
      | EmptyString => 0
      | String b s2 =>
          if in_range 194 223 a then (if cont b then 2 else 0) else
          match s2 with
          | EmptyString => 0
          | String c s3 =>
              if (code a =? 224)%Z then (if in_range 160 191 b && cont c then 3 else 0) else
              if in_range 225 236 a then (if cont b && cont c then 3 else 0) else
              if (code a =? 237)%Z then (if in_range 128 159 b && cont c then 3 else 0) else
              if in_range 238 239 a then (if cont b && cont c then 3 else 0) else
              match s3 with
              | EmptyString => 0
              | String d _ =>
                  if (code a =? 240)%Z then (if in_range 144 191 b && cont c && cont d then 4 else 0) else
                  if in_range 241 243 a then (if cont b && cont c && cont d then 4 else 0) else
                  if (code a =? 244)%Z then (if in_range 128 143 b && cont c && cont d then 4 else 0) else
                  0
              end
          end
      end
  end%nat.

Definition rune_error : Z := 65533.

(** [utf8.DecodeRuneInString]: the rune and its width, the error rune and 1
for a byte that starts no well-formed sequence. *)
Definition decode_rune (s : string) : Z * nat :=
  match utf8_width s, s with
  | 1%nat, String a _ => (code a, 1%nat)
  | 2%nat, String a (String b _) => (code a mod 32 * 64 + code b mod 64, 2%nat)
  | 3%nat, String a (String b (String c _)) =>
      (code a mod 16 * 4096 + code b mod 64 * 64 + code c mod 64, 3%nat)
  | 4%nat, String a (String b (String c (String d _))) =>
      (code a mod 8 * 262144 + code b mod 64 * 4096 + code c mod 64 * 64 + code d mod 64, 4%nat)
  | _, _ => (rune_error, 1%nat)
  end.

Fixpoint str_drop (n : nat) (s : string) : string :=
  match n, s with
  | S n', String _ s' => str_drop n' s'
  | _, _ => s
  end.

Fixpoint str_take (n : nat) (s : string) : string :=
  match n, s with
  | S n', String c s' => String c (str_take n' s')
  | _, _ => EmptyString
  end.

(** [[]rune(s)]. Every rune takes at least one byte, so the length of the
string bounds the number of steps. *)
Fixpoint runes_aux (fuel : nat) (s : string) : list Z :=
  match fuel, s with
  | S n, String _ _ => let '(r, w) := decode_rune s in r :: runes_aux n (str_drop w s)
  | _, _ => []
  end.
Definition runes (s : string) : list Z := runes_aux (String.length s) s.

(** [utf8.EncodeRune]: surrogates and values out of range give the error rune. *)
Definition encode_rune (r : Z) : string :=
  let enc2 := fun r => String (chr (192 + r / 64)) (String (chr (128 + r mod 64)) "") in
  let enc3 := fun r => String (chr (224 + r / 4096))
    (String (chr (128 + r / 64 mod 64)) (String (chr (128 + r mod 64)) "")) in
  if (0 <=? r) && (r <? 128) then String (chr r) ""
  else if (128 <=? r) && (r <? 2048) then enc2 r
  else if (2048 <=? r) && (r <? 65536) && negb ((55296 <=? r) && (r <? 57344)) then enc3 r
  else if (65536 <=? r) && (r <=? 1114111) then
    String (chr (240 + r / 262144)) (String (chr (128 + r / 4096 mod 64))
      (String (chr (128 + r / 64 mod 64)) (String (chr (128 + r mod 64)) "")))
  else enc3 rune_error.

(** [string(rs)] for a slice of runes. *)
Definition string_of_runes (rs : list Z) : string :=
  foldr (fun r s => String.append (encode_rune r) s) "" rs.

(** Well-formed UTF-8 strings. *)
Fixpoint utf8_valid_aux (fuel : nat) (s : string) : bool :=
  match s, fuel with
  | EmptyString, _ => true
  | _, O => false
  | String _ _, S n =>
      match utf8_width s with O => false | w => utf8_valid_aux n (str_drop w s) end
  end.
Definition utf8_valid (s : string) : bool := utf8_valid_aux (String.length s) s.

Definition is_ascii (s : string) : bool := str_all (fun c => code c <? 128) s.

(** * package strings *)

Fixpoint str_prefix (p s : string) : bool :=
  match p, s with
  | EmptyString, _ => true
  | String a p', String b s' => (code a =? code b) && str_prefix p' s'
  | _, _ => false
  end.

(** [strings.Index] *)
Fixpoint strings_Index (s sub : string) : Z :=
  if str_prefix sub s then 0 else
  match s with
  | EmptyString => -1
  | String _ s' => let i := strings_Index s' sub in if i =? -1 then -1 else 1 + i
  end.

(** [strings.LastIndex] *)
Fixpoint strings_LastIndex (s sub : string) : Z :=
  match s with
  | EmptyString => if str_prefix sub s then 0 else -1
  | String _ s' =>
      let i := strings_LastIndex s' sub in
      if i =? -1 then (if str_prefix sub s then 0 else -1) else 1 + i
  end.

(** * package strconv *)

(** [strconv.FormatInt(z, 10)], [strconv.FormatUint(z, 10)] *)
Definition format_int (z : Z) : string := NilZero.string_of_int (Z.to_int z).

(** The integer a run of decimal digits with an optional minus sign denotes. *)
Definition parse_int (s : string) : option Z := option_map Z.of_int (NilZero.int_of_string s).

#[global] Arguments String.append : simpl nomatch.
#[global] Arguments code : simpl never.
#[global] Arguments chr : simpl never.

(** * Lemmas *)

Lemma code_range c : 0 <= code c < 256.
Proof. unfold code. destruct c as [[] [] [] [] [] [] [] []]; cbn; lia. Qed.

Lemma code_chr z : code (chr z) = z mod 256.
Proof.
  unfold code, chr. pose proof (Z.mod_pos_bound z 256 ltac:(lia)).
  rewrite Ascii.N_ascii_embedding; lia.
Qed.

Lemma chr_code c : chr (code c) = c.
Proof. by destruct c as [[] [] [] [] [] [] [] []]. Qed.

Lemma code_inj a b : code a = code b -> a = b.
Proof. intros H. by rewrite <-(chr_code a), <-(chr_code b), H. Qed.

Lemma str_prefix_refl_app p s : str_prefix p (String.append p s) = true.
Proof.
  induction p as [|c p IH]; [by destruct s|]. cbn [str_prefix String.append].
  by rewrite Z.eqb_refl.
Qed.

Lemma str_app_nil s : String.append s "" = s.
Proof. induction s as [|c s IH]; cbn; [done|]. by rewrite IH. Qed.

Lemma str_app_assoc s t u : String.append (String.append s t) u = String.append s (String.append t u).
Proof. induction s as [|c s IH]; cbn; [done|]. by rewrite IH. Qed.

Lemma str_length_app s t : String.length (String.append s t) = (String.length s + String.length t)%nat.
Proof. induction s as [|c s IH]; cbn; [done|]. by rewrite IH. Qed.

Lemma str_take_drop n s : String.append (str_take n s) (str_drop n s) = s.
Proof. revert s. induction n as [|n IH]; intros [|c s]; cbn; [done..|]. by rewrite IH. Qed.

Lemma str_length_drop n s : String.length (str_drop n s) = (String.length s - n)%nat.
Proof. revert s. induction n as [|n IH]; intros [|c s]; cbn; [done..|]. apply IH. Qed.

Lemma str_drop_length_app s t : str_drop (String.length s) (String.append s t) = t.
Proof. induction s as [|c s IH]; [by destruct t|]. apply IH. Qed.

Lemma parse_format_int z : parse_int (format_int z) = Some z.
Proof.
  unfold parse_int, format_int. rewrite NilZero.isi; cbn.
  - by rewrite DecimalZ.of_to.
  - destruct z; [done|..]; cbn; intros [= H];
      by apply (DecimalPos.Unsigned.to_uint_nonnil p).
  - destruct z; [done|..]; cbn; intros [= H];
      by apply (DecimalPos.Unsigned.to_uint_nonnil p).
Qed.

(** On ASCII text runes are bytes. *)
Lemma decode_rune_ascii c s : code c < 128 -> decode_rune (String c s) = (code c, 1%nat).
Proof. intros H. unfold decode_rune, utf8_width. by replace (code c <? 128) with true by lia. Qed.

Lemma encode_rune_ascii c : code c < 128 -> encode_rune (code c) = String c "".
Proof.
  intros H. pose proof (code_range c). unfold encode_rune.
  replace ((0 <=? code c) && (code c <? 128)) with true by lia. by rewrite chr_code.
Qed.

Lemma runes_ascii s : is_ascii s = true -> runes s = map code (String.list_ascii_of_string s).
Proof.
  unfold runes. induction s as [|c s IH]; [done|]. cbn [is_ascii str_all].
  intros [Hc Hs]%andb_prop. cbn [String.length runes_aux].
  rewrite decode_rune_ascii by lia. cbn. by rewrite IH.
Qed.

Lemma strings_LastIndex_bound s sub :
  sub <> "" -> -1 <= strings_LastIndex s sub < str_len s \/ strings_LastIndex s sub = -1.
Proof.
  intros Hsub. unfold str_len. induction s as [|c s IH]; cbn [strings_LastIndex].
  - destruct sub; [done|]. by right.
  - cbn [String.length]. destruct (strings_LastIndex s sub =? -1) eqn:E; [|lia].
    destruct (str_prefix sub (String c s)); [left|by right]. lia.
Qed.
