(* ===== verification/Json.v ===== *)
(** encoding/json as the connector uses it: the syntax check and the parser
of [json.Unmarshal], its decoding into the fields of a struct (errors of type
are remembered while the other fields are still filled), and [json.Marshal] of
strings, integers, string maps and structs. *)

From Stdlib Require Import DecimalString DecimalFacts DecimalZ DecimalN DecimalPos.
From S2P Require Import Prelude GoText.
Local Open Scope Z_scope.

#[warnings="-register-all"]
Inductive json :=
  | JNull
  | JBool (b : bool)
  | JNumber (lit : string)
  | JString (s : string)
  | JArray (l : list json)
  | JObject (ms : list (string * json)).

(** * Parsing *)

Definition char_is (z : Z) (c : ascii) : bool := code c =? z.
Definition is_ws (c : ascii) : bool :=
  char_is 32 c || char_is 9 c || char_is 10 c || char_is 13 c.

Fixpoint skip_ws (s : string) : string :=
  match s with
  | String c s' => if is_ws c then skip_ws s' else s
  | EmptyString => EmptyString
  end.

(** If [s] starts with the byte [z], what follows it. *)
Definition expect (z : Z) (s : string) : option string :=
  match s with
  | String c s' => if char_is z c then Some s' else None
  | EmptyString => None
  end.

Definition hex_digit (c : ascii) : option Z :=
  if in_range 48 57 c then Some (code c - 48)
  else if in_range 97 102 c then Some (code c - 87)
  else if in_range 65 70 c then Some (code c - 55)
  else None.

Definition hex4 (s : string) : option (Z * string) :=
  match s with
  | String a (String b (String c (String d s'))) =>
      match hex_digit a, hex_digit b, hex_digit c, hex_digit d with
      | Some a, Some b, Some c, Some d => Some (a * 4096 + b * 256 + c * 16 + d, s')
      | _, _, _, _ => None
      end
  | _ => None
  end.

(** The rune of two UTF-16 halves. *)
Definition utf16_pair (r1 r2 : Z) : option Z :=
  if (55296 <=? r1) && (r1 <? 56320) && (56320 <=? r2) && (r2 <? 57344)
  then Some ((r1 - 55296) * 1024 + (r2 - 56320) + 65536) else None.

(** What the escapes with one letter stand for. *)
Definition unescape (e : ascii) : option ascii :=
  if char_is 34 e || char_is 92 e || char_is 47 e then Some e
  else if char_is 98 e then Some (chr 8)
  else if char_is 102 e then Some (chr 12)
  else if char_is 110 e then Some (chr 10)
  else if char_is 114 e then Some (chr 13)
  else if char_is 116 e then Some (chr 9)
  else None.

Definition cons_str (t : string) (r : option (string * string)) : option (string * string) :=
  match r with Some (s, rest) => Some (String.append t s, rest) | None => None end.

(** The characters of a string literal up to its closing quote, decoded. *)
Fixpoint p_chars (fuel : nat) (s : string) : option (string * string) :=
  match fuel, s with
  | S n, String c s1 =>
      if char_is 34 c then Some ("", s1)
      else if char_is 92 c then
        match s1 with
        | EmptyString => None
        | String e s2 =>
            if char_is 117 e then
              match hex4 s2 with
              | None => None
              | Some (r, s3) =>
                  if (55296 <=? r) && (r <? 57344) then
                    match (expect 92 s3 ≫= expect 117) ≫= hex4 with
                    | Some (r2, s4) =>
                        match utf16_pair r r2 with
                        | Some r => cons_str (encode_rune r) (p_chars n s4)
                        | None => cons_str (encode_rune rune_error) (p_chars n s3)
                        end
                    | None => cons_str (encode_rune rune_error) (p_chars n s3)
                    end
                  else cons_str (encode_rune r) (p_chars n s3)
              end
            else match unescape e with
                 | Some c => cons_str (String c "") (p_chars n s2)
                 | None => None
                 end
        end
      else if code c <? 32 then None
      else match utf8_width s with
           | O => cons_str (encode_rune rune_error) (p_chars n s1)
           | w => cons_str (str_take w s) (p_chars n (str_drop w s))
           end
  | _, _ => None
  end.

Definition is_digit (c : ascii) : bool := in_range 48 57 c.

(** The longest run of digits and what follows it. *)
Fixpoint span_digits (s : string) : string * string :=
  match s with
  | String c s' =>
      if is_digit c then let '(d, r) := span_digits s' in (String c d, r) else ("", s)
  | EmptyString => ("", "")
  end.

Definition p_frac (s : string) : option (string * string) :=
  match expect 46 s with
  | None => Some ("", s)
  | Some s1 => let '(d, r) := span_digits s1 in
               if bool_decide (d = "") then None else Some (String (chr 46) d, r)
  end.

Definition p_exp (s : string) : option (string * string) :=
  match s with
  | String c s1 =>
      if char_is 101 c || char_is 69 c then
        let '(sign, s2) := match s1 with
          | String g s2 => if char_is 43 g || char_is 45 g then (String g "", s2) else ("", s1)
          | EmptyString => ("", s1)
          end in
        let '(d, r) := span_digits s2 in
        if bool_decide (d = "") then None else Some (String c (String.append sign d), r)
      else Some ("", s)
  | EmptyString => Some ("", s)
  end.

Definition p_number (s : string) : option (string * string) :=
  let '(sign, s1) := match expect 45 s with Some s1 => ("-", s1) | None => ("", s) end in
  let '(d, s2) := match expect 48 s1 with Some s2 => ("0", s2) | None => span_digits s1 end in
  if bool_decide (d = "") then None else
  match p_frac s2 with
  | None => None
  | Some (f, s3) =>
      match p_exp s3 with
      | None => None
      | Some (e, s4) =>
          Some (String.append sign (String.append d (String.append f e)), s4)
      end
  end.

Definition p_literal (word : string) (v : json) (s : string) : option (json * string) :=
  if str_prefix word s then Some (v, str_drop (String.length word) s) else None.

Fixpoint p_value (fuel : nat) (s : string) : option (json * string) :=
  match fuel with
  | O => None
  | S n =>
      match skip_ws s with
      | EmptyString => None
      | String c s1 =>
          if char_is 123 c then
            match expect 125 (skip_ws s1) with
            | Some s2 => Some (JObject [], s2)
            | None => match p_members n s1 with
                      | Some (ms, s2) => Some (JObject ms, s2)
                      | None => None
                      end
            end
          else if char_is 91 c then
            match expect 93 (skip_ws s1) with
            | Some s2 => Some (JArray [], s2)
            | None => match p_elems n s1 with
                      | Some (l, s2) => Some (JArray l, s2)
                      | None => None
                      end
            end
          else if char_is 34 c then
            match p_chars (S (String.length s1)) s1 with
            | Some (t, s2) => Some (JString t, s2)
            | None => None
            end
          else if char_is 110 c then p_literal "null" JNull (String c s1)
          else if char_is 116 c then p_literal "true" (JBool true) (String c s1)
          else if char_is 102 c then p_literal "false" (JBool false) (String c s1)
          else match p_number (String c s1) with
               | Some (lit, s2) => Some (JNumber lit, s2)
               | None => None
               end
      end
  end
with p_elems (fuel : nat) (s : string) : option (list json * string) :=
  match fuel with
  | O => None
  | S n =>
      match p_value n s with
      | None => None
      | Some (v, s1) =>
          match expect 93 (skip_ws s1) with
          | Some s2 => Some ([v], s2)
          | None =>
              match expect 44 (skip_ws s1) with
              | None => None
              | Some s2 => match p_elems n s2 with
                           | Some (l, s3) => Some (v :: l, s3)
                           | None => None
                           end
              end
          end
      end
  end
with p_members (fuel : nat) (s : string) : option (list (string * json) * string) :=
  match fuel with
  | O => None
  | S n =>
      match expect 34 (skip_ws s) with
      | None => None
      | Some s0 =>
          match p_chars (S (String.length s0)) s0 with
          | None => None
          | Some (k, s1) =>
              match expect 58 (skip_ws s1) with
              | None => None
              | Some s2 =>
                  match p_value n s2 with
                  | None => None
                  | Some (v, s3) =>
                      match expect 125 (skip_ws s3) with
                      | Some s4 => Some ([(k, v)], s4)
                      | None =>
                          match expect 44 (skip_ws s3) with
                          | None => None
                          | Some s4 => match p_members n s4 with
                                       | Some (ms, s5) => Some ((k, v) :: ms, s5)
                                       | None => None
                                       end
                          end
                      end
                  end
              end
          end
      end
  end.

(** The fuel of a whole text: every value, element and member takes at least
one byte, see [p_value_fuel]. *)
Definition json_fuel (s : string) : nat := (2 * String.length s + 2)%nat.

Definition json_parse (s : string) : option json :=
  match p_value (json_fuel s) s with
  | Some (v, rest) => match skip_ws rest with EmptyString => Some v | _ => None end
  | None => None
  end.

(** * Decoding into a struct *)

(** A field: its name and how a value is stored into it. *)
Record field (S : Type) := mk_field {
  f_name : string;
  f_set : json -> S -> S * option error;
}.
Arguments mk_field {S}.
Arguments f_name {S}.
Arguments f_set {S}.

(** Equality of keys up to case, with the two letters outside ASCII that fold
to k and s. *)
Definition fold_rune (r : Z) : Z :=
  if (65 <=? r) && (r <=? 90) then r + 32
  else if r =? 8490 then 107
  else if r =? 383 then 115
  else r.
Definition fold_key (s : string) : list Z := map fold_rune (runes s).

(** The field a key denotes: the one of that very name, or else the first one
whose name is equal up to case. *)
Definition find_field {S} (fs : list (field S)) (k : string) : option (field S) :=
  match List.find (fun f => bool_decide (f_name f = k)) fs with
  | Some f => Some f
  | None => List.find (fun f => bool_decide (fold_key (f_name f) = fold_key k)) fs
  end.

(** The error kept is the first one. *)
Definition first_error (e e' : option error) : option error :=
  match e with Some _ => e | None => e' end.

Fixpoint decode_members {S} (fs : list (field S)) (ms : list (string * json)) (s : S)
    (err : option error) : S * option error :=
  match ms with
  | [] => (s, err)
  | (k, v) :: ms' =>
      match find_field fs k with
      | None => decode_members fs ms' s err
      | Some f => let '(s', e) := f_set f v s in decode_members fs ms' s' (first_error err e)
      end
  end.

(** A parsed value into a struct. *)
Definition decode_struct {S} (fs : list (field S)) (j : json) (s : S) : S * option error :=
  match j with
  | JObject ms => decode_members fs ms s None
  | JNull => (s, None)
  | _ => (s, Some EJsonType)
  end.

(** [json.Unmarshal(b, p)] for a pointer to a struct: nothing is stored when
the text is not JSON. *)
Definition json_Unmarshal {S} (fs : list (field S)) (b : bytes) (s : S) : S * option error :=
  match json_parse (string_of_bytes b) with
  | None => (s, Some EJsonSyntax)
  | Some j => decode_struct fs j s
  end.

(** Values into fields of the types the connector has. *)
Definition set_string (j : json) (old : string) : string * option error :=
  match j with
  | JString t => (t, None)
  | JNull => (old, None)
  | _ => (old, Some EJsonType)
  end.

Definition set_int64 (j : json) (old : Z) : Z * option error :=
  match j with
  | JNumber lit =>
      match parse_int lit with
      | Some z => if (- 2 ^ 63 <=? z) && (z <? 2 ^ 63) then (z, None) else (old, Some EJsonType)
      | None => (old, Some EJsonType)
      end
  | JNull => (old, None)
  | _ => (old, Some EJsonType)
  end.

Definition set_bool (j : json) (old : bool) : bool * option error :=
  match j with
  | JBool b => (b, None)
  | JNull => (old, None)
  | _ => (old, Some EJsonType)
  end.

(** A map of strings: every key is stored, with the empty string when its
value is not a string. *)
Fixpoint set_entries (ms : list (string * json)) (m : gmap string string) (err : option error)
    : gmap string string * option error :=
  match ms with
  | [] => (m, err)
  | (k, v) :: ms' =>
      let '(x, e) := set_string v "" in set_entries ms' (<[k := x]> m) (first_error err e)
  end.

Definition set_map (j : json) (old : gomap string) : gomap string * option error :=
  match j with
  | JObject ms => let '(m, e) := set_entries ms (gm_content old) None in (Some m, e)
  | JNull => (None, None)
  | _ => (old, Some EJsonType)
  end.

(** A field given by its projection and its update. *)
Definition lens_field {S A} (name : string) (proj : S -> A) (upd : S -> A -> S)
    (set : json -> A -> A * option error) : field S :=
  mk_field name (fun j s => let '(a, e) := set j (proj s) in (upd s a, e)).

(** * Encoding *)

Definition hex_char (z : Z) : ascii := if z <? 10 then chr (48 + z) else chr (87 + z).

(** One ASCII character of a string literal: quotes, backslashes and control
characters are escaped, and so are the characters special to HTML. *)
Definition esc_ascii (c : ascii) : string :=
  if char_is 34 c || char_is 92 c then String (chr 92) (String c "")
  else if char_is 10 c then "\n"
  else if char_is 13 c then "\r"
  else if char_is 9 c then "\t"
  else if (code c <? 32) || char_is 60 c || char_is 62 c || char_is 38 c then
    String.append "\u00" (String (hex_char (code c / 16)) (String (hex_char (code c mod 16)) ""))
  else String c "".

(** The line separators U+2028 and U+2029. *)
Definition line_sep : string := String (chr 226) (String (chr 128) (String (chr 168) "")).
Definition par_sep : string := String (chr 226) (String (chr 128) (String (chr 169) "")).

Fixpoint enc_chars (fuel : nat) (s : string) : string :=
  match fuel, s with
  | S n, String c s1 =>
      if code c <? 128 then String.append (esc_ascii c) (enc_chars n s1)
      else match utf8_width s with
           | O => String.append "\ufffd" (enc_chars n s1)
           | w =>
               if str_prefix line_sep s then String.append "\u2028" (enc_chars n (str_drop 3 s))
               else if str_prefix par_sep s then String.append "\u2029" (enc_chars n (str_drop 3 s))
               else String.append (str_take w s) (enc_chars n (str_drop w s))
           end
  | _, _ => ""
  end.

Definition quote : string := String (chr 34) "".
Definition enc_string (s : string) : string :=
  String.append quote (String.append (enc_chars (String.length s) s) quote).

Fixpoint join (sep : string) (l : list string) : string :=
  match l with
  | [] => ""
  | [x] => x
  | x :: l' => String.append x (String.append sep (join sep l'))
  end.

(** The text of a value. *)
Fixpoint json_print (j : json) : string :=
  match j with
  | JNull => "null"
  | JBool true => "true"
  | JBool false => "false"
  | JNumber lit => lit
  | JString s => enc_string s
  | JArray l => String.append "[" (String.append (join "," (map json_print l)) "]")
  | JObject ms =>
      String.append "{" (String.append (join ","
        (map (fun kv => String.append (enc_string kv.1) (String.append ":" (json_print kv.2))) ms)) "}")
  end.

Definition JInt (z : Z) : json := JNumber (format_int z).

(** A map of strings is written with its keys in order, a nil map as null. *)
Definition sorted_keys {A} (m : gmap string A) : list string :=
  merge_sort String.le (map_to_list m).*1.
Definition JMap (m : gomap string) : json :=
  match m with
  | None => JNull
  | Some m => JObject (map (fun k => (k, JString (default "" (m !! k)))) (sorted_keys m))
  end.

Definition json_Marshal (j : json) : bytes := bytes_of_string (json_print j).

(** Text with apostrophes for double quotes, to write JSON in examples. *)
Fixpoint js (s : string) : string :=
  match s with
  | EmptyString => EmptyString
  | String c s' => String (if char_is 39 c then chr 34 else c) (js s')
  end.
Definition jsb (s : string) : bytes := bytes_of_string (js s).

Example parse_object :
  json_parse (js " {'a' : [1, -2.5e3, true], 'b\u00e9\n':null} ") = Some
    (JObject [("a", JArray [JNumber "1"; JNumber "-2.5e3"; JBool true]);
              (String "b" (String (chr 195) (String (chr 169) (String (chr 10) ""))), JNull)]).
Proof. reflexivity. Qed.

Example print_map :
  json_print (JMap (Some {[ "b" := "<x>"; "a" := "1" ]})) = js "{'a':'1','b':'\u003cx\u003e'}".
Proof. vm_compute. reflexivity. Qed.

(** * Lemmas: the parser consumes its input, so its fuel is enough *)

Lemma skip_ws_length s : (String.length (skip_ws s) <= String.length s)%nat.
Proof. induction s as [|c s IH]; cbn; [lia|]. destruct (is_ws c); cbn; lia. Qed.

Lemma expect_length z s s' : expect z s = Some s' -> String.length s = S (String.length s').
Proof. destruct s as [|c s]; [done|]. cbn. destruct (char_is z c); [|done]. by intros [= ->]. Qed.

Lemma expect_ws_length z s s' :
  expect z (skip_ws s) = Some s' -> (String.length s' < String.length s)%nat.
Proof. intros H%expect_length. pose proof (skip_ws_length s). lia. Qed.

Lemma hex4_length s r s' : hex4 s = Some (r, s') -> String.length s = (4 + String.length s')%nat.
Proof.
  destruct s as [|a [|b [|c [|d s]]]]; [done..|]. cbn.
  repeat (case_match; [|done]). by intros [= <- <-].
Qed.

Lemma cons_str_Some t r s rest :
  cons_str t r = Some (s, rest) -> exists s', r = Some (s', rest) /\ s = String.append t s'.
Proof. destruct r as [[s' rest']|]; [|done]. intros [= <- <-]. eauto. Qed.

Lemma surrogate_length s r s' :
  (expect 92 s ≫= expect 117) ≫= hex4 = Some (r, s') -> (String.length s' < String.length s)%nat.
Proof.
  destruct (expect 92 s) as [s1|] eqn:E1; [|done]. cbn.
  destruct (expect 117 s1) as [s2|] eqn:E2; [|done]. cbn. intros H%hex4_length.
  apply expect_length in E1, E2. lia.
Qed.

Lemma p_chars_length n s t r :
  p_chars n s = Some (t, r) -> (String.length r < String.length s)%nat.
Proof.
  revert s t. induction n as [|n IH]; intros [|c s] t; [done..|]. cbn [p_chars].
  repeat case_match; try done; rewrite ?str_length_drop in *;
    try (intros (t' & Ht & ->)%cons_str_Some; apply IH in Ht); cbn [String.length] in *;
    rewrite ?str_length_drop in *;
    repeat match goal with
    | H : hex4 _ = _ |- _ => apply hex4_length in H
    | H : _ ≫= hex4 = _ |- _ => apply surrogate_length in H
    end; cbn [String.length] in *; try lia.
  intros [= <- <-]. lia.
Qed.

Lemma p_chars_fuel n m s :
  (String.length s < n)%nat -> (String.length s < m)%nat -> p_chars n s = p_chars m s.
Proof.
  revert m s. induction n as [|n IH]; intros [|m] [|c s] Hn Hm; try done; cbn [String.length] in *; try lia.
  cbn [p_chars]. repeat case_match; try done; f_equal; apply IH; rewrite ?str_length_drop;
    repeat match goal with
    | H : hex4 _ = _ |- _ => apply hex4_length in H
    | H : _ ≫= hex4 = _ |- _ => apply surrogate_length in H
    end; cbn [String.length] in *; simplify_eq; lia.
Qed.

Lemma span_digits_app s d r : span_digits s = (d, r) -> s = String.append d r.
Proof.
  revert d. induction s as [|c s IH]; intros d; cbn; [by intros [= <- <-]|].
  destruct (is_digit c); [|by intros [= <- <-]].
  destruct (span_digits s) as [d' r'] eqn:E. intros [= <- <-]. cbn. by rewrite (IH d').
Qed.

Lemma span_digits_length s d r :
  span_digits s = (d, r) -> d <> "" -> (String.length r < String.length s)%nat.
Proof.
  intros ->%span_digits_app Hd. rewrite str_length_app. destruct d; [done|]. cbn. lia.
Qed.

Lemma p_frac_length s f r : p_frac s = Some (f, r) -> (String.length r <= String.length s)%nat.
Proof.
  unfold p_frac. destruct (expect 46 s) as [s1|] eqn:E; [|by intros [= <- <-]].
  apply expect_length in E. destruct (span_digits s1) as [d r'] eqn:Ed.
  apply span_digits_app in Ed as ->. case_bool_decide; [done|]. intros [= <- <-].
  rewrite str_length_app in E. lia.
Qed.

Lemma p_exp_length s f r : p_exp s = Some (f, r) -> (String.length r <= String.length s)%nat.
Proof.
  destruct s as [|c s]; cbn; [by intros [= <- <-]|].
  destruct (_ || _); [|by intros [= <- <-]].
  destruct s as [|g s]; [done|]. cbn [String.length].
  destruct (_ || _); cbn beta iota; (destruct (span_digits _) as [d r'] eqn:Ed);
    apply span_digits_app, (f_equal String.length) in Ed; rewrite str_length_app in Ed;
    cbn [String.length] in Ed; case_bool_decide; try done; intros [= <- <-]; lia.
Qed.

Lemma p_number_length s lit r :
  p_number s = Some (lit, r) -> (String.length r < String.length s)%nat.
Proof.
  unfold p_number. destruct (match expect 45 s with Some s1 => _ | None => _ end) as [sign s1] eqn:E1.
  assert (String.length s1 <= String.length s)%nat as H1.
  { destruct (expect 45 s) eqn:E; simplify_eq; [apply expect_length in E|]; lia. }
  destruct (match expect 48 s1 with Some s2 => _ | None => _ end) as [d s2] eqn:E2.
  case_bool_decide as Hd; [done|].
  assert (String.length s2 < String.length s1)%nat as H2.
  { destruct (expect 48 s1) eqn:E; simplify_eq; [apply expect_length in E; lia|].
    by eapply span_digits_length. }
  destruct (p_frac s2) as [[f s3]|] eqn:E3; [|done]. apply p_frac_length in E3.
  destruct (p_exp s3) as [[e s4]|] eqn:E4; [|done]. apply p_exp_length in E4.
  intros [= <- <-]. lia.
Qed.

Lemma str_prefix_length p s : str_prefix p s = true -> (String.length p <= String.length s)%nat.
Proof.
  revert s. induction p as [|c p IH]; intros [|d s]; cbn; [lia|lia|done|].
  intros [_ H%IH]%andb_prop. lia.
Qed.

Lemma p_literal_length w v s j r :
  p_literal w v s = Some (j, r) -> w <> "" -> (String.length r < String.length s)%nat.
Proof.
  unfold p_literal. destruct (str_prefix w s) eqn:E; [|done]. intros [= <- <-] Hw.
  apply str_prefix_length in E. rewrite str_length_drop. destruct w; [done|]. cbn in *. lia.
Qed.

(** The facts about lengths, for [lia]. *)
Ltac lengths :=
  repeat match goal with
  | H : expect _ (skip_ws _) = Some _ |- _ => apply expect_ws_length in H
  | H : p_chars _ _ = Some _ |- _ => apply p_chars_length in H
  | H : p_number _ = Some _ |- _ => apply p_number_length in H
  | H : p_literal _ _ _ = Some _ |- _ => apply p_literal_length in H; [|done]
  | H : skip_ws ?s = String _ _ |- _ =>
      let L := fresh in pose proof (skip_ws_length s) as L; rewrite H in L; clear H
  end; cbn [String.length] in *.

Lemma parse_length n :
  (forall s v r, p_value n s = Some (v, r) -> (String.length r < String.length s)%nat) /\
  (forall s v r, p_elems n s = Some (v, r) -> (String.length r < String.length s)%nat) /\
  (forall s v r, p_members n s = Some (v, r) -> (String.length r < String.length s)%nat).
Proof.
  induction n as [|n (IHv & IHe & IHm)]; [done|]. split_and!; intros s v r.
  - cbn [p_value]. intros H. repeat (case_match; simplify_eq); try done; simplify_eq;
      repeat match goal with
      | H : p_elems _ _ = Some _ |- _ => apply IHe in H
      | H : p_members _ _ = Some _ |- _ => apply IHm in H
      end; lengths; lia.
  - cbn [p_elems]. intros H. repeat (case_match; simplify_eq); try done; simplify_eq;
      repeat match goal with
      | H : p_value _ _ = Some _ |- _ => apply IHv in H
      | H : p_elems _ _ = Some _ |- _ => apply IHe in H
      end; lengths; lia.
  - cbn [p_members]. intros H. repeat (case_match; simplify_eq); try done; simplify_eq;
      repeat match goal with
      | H : p_value _ _ = Some _ |- _ => apply IHv in H
      | H : p_members _ _ = Some _ |- _ => apply IHm in H
      end; lengths; lia.
Qed.

Lemma p_value_length n s v r :
  p_value n s = Some (v, r) -> (String.length r < String.length s)%nat.
Proof. apply parse_length. Qed.

(** With fuel above twice the length of the text the result does not depend on it. *)
Lemma parse_fuel n : forall m,
  (forall s, (2 * String.length s < n)%nat -> (2 * String.length s < m)%nat ->
    p_value n s = p_value m s) /\
  (forall s, (2 * String.length s + 1 < n)%nat -> (2 * String.length s + 1 < m)%nat ->
    p_elems n s = p_elems m s) /\
  (forall s, (2 * String.length s + 1 < n)%nat -> (2 * String.length s + 1 < m)%nat ->
    p_members n s = p_members m s).
Proof.
  induction n as [|n IH]; intros [|m]; [split_and!; intros; lia..|].
  destruct (IH m) as (IHv & IHe & IHm). split_and!; intros s Hn Hm.
  - cbn [p_value]. destruct (skip_ws s) as [|c s1] eqn:E; [done|]. lengths.
    rewrite (IHe s1), (IHm s1) by lia. done.
  - cbn [p_elems]. rewrite (IHv s) by lia. destruct (p_value m s) as [[v s1]|] eqn:Ev; [|done].
    apply p_value_length in Ev. destruct (expect 93 (skip_ws s1)); [done|].
    destruct (expect 44 (skip_ws s1)) as [s2|] eqn:E2; [|done]. lengths. by rewrite (IHe s2) by lia.
  - cbn [p_members]. destruct (expect 34 (skip_ws s)) as [s0|] eqn:E0; [|done].
    destruct (p_chars (S (String.length s0)) s0) as [[k s1]|] eqn:E1; [|done].
    destruct (expect 58 (skip_ws s1)) as [s2|] eqn:E2; [|done]. lengths.
    rewrite (IHv s2) by lia. destruct (p_value m s2) as [[v s3]|] eqn:Ev; [|done].
    apply p_value_length in Ev. destruct (expect 125 (skip_ws s3)); [done|].
    destruct (expect 44 (skip_ws s3)) as [s4|] eqn:E4; [|done]. lengths. by rewrite (IHm s4) by lia.
Qed.

Lemma p_value_fuel n s :
  (2 * String.length s < n)%nat -> p_value n s = p_value (json_fuel s) s.
Proof. intros H. unfold json_fuel. apply (parse_fuel n (2 * String.length s + 2)); lia. Qed.

(** * Lemmas: what is printed parses back *)

Lemma char_is_eq z c : char_is z c = true -> c = chr z.
Proof. unfold char_is. intros H. rewrite <-(chr_code c). f_equal. lia. Qed.

Lemma p_chars_esc n c rest :
  code c < 128 ->
  p_chars (S n) (String.append (esc_ascii c) rest) = cons_str (String c "") (p_chars n rest).
Proof.
  intros H. cbn [p_chars].
  destruct c as [[] [] [] [] [] [] [] []]; try (exfalso; revert H; by vm_compute);
    cbv -[p_chars cons_str]; reflexivity.
Qed.

Lemma utf8_width_take s rest w :
  utf8_width s = w -> w <> O -> utf8_width (String.append (str_take w s) rest) = w.
Proof.
  intros <-. destruct s as [|a [|b [|c [|d s]]]]; cbn [utf8_width]; repeat case_match; try done;
    cbn [str_take String.append utf8_width]; intros _;
    repeat match goal with H : ?x = _ |- context [?x] => rewrite H end; try done.
Qed.

Lemma utf8_width_length s : (utf8_width s <= String.length s)%nat.
Proof.
  destruct s as [|a [|b [|c [|d s]]]]; cbn [utf8_width String.length]; repeat case_match; lia.
Qed.

Lemma str_take_app w s rest :
  (w <= String.length s)%nat -> str_take w (String.append (str_take w s) rest) = str_take w s.
Proof. revert s. induction w as [|w IH]; intros [|c s] H; cbn in *; try done; try lia. by rewrite IH by lia. Qed.

Lemma str_drop_app w s rest :
  (w <= String.length s)%nat -> str_drop w (String.append (str_take w s) rest) = rest.
Proof.
  revert s. induction w as [|w IH]; intros [|c s] H; cbn in *; try done; try lia; [by destruct rest..|].
  by rewrite IH by lia.
Qed.

Lemma str_prefix_take p s : str_prefix p s = true -> s = String.append p (str_drop (String.length p) s).
Proof.
  revert s. induction p as [|c p IH]; intros s; [by destruct s|].
  destruct s as [|d s]; [done|]. cbn [str_prefix String.length str_drop].
  intros [Hc Hp]%andb_prop. cbn. rewrite <-(IH s Hp). f_equal. apply code_inj. lia.
Qed.

Lemma p_chars_enc n k k' s rest :
  utf8_valid_aux k s = true -> (String.length s <= k')%nat -> (String.length s < n)%nat ->
  p_chars n (String.append (enc_chars k' s) (String.append quote rest)) = Some (s, rest).
Proof.
  revert k k' s. induction n as [|n IH]; intros k k' s Hv Hk Hn; [lia|].
  destruct s as [|c s]; [by destruct k'|]. destruct k' as [|k']; [cbn in Hk; lia|].
  destruct k as [|k]; [done|]. cbn [utf8_valid_aux] in Hv.
  destruct (utf8_width (String c s)) as [|w] eqn:Hw; [done|].
  pose proof (utf8_width_length (String c s)) as Hlen. rewrite Hw in Hlen.
  assert (forall u, u = str_drop (S w) (String c s) ->
    p_chars n (String.append (enc_chars k' u) (String.append quote rest)) = Some (u, rest)) as Hrec.
  { intros u ->. apply (IH k); [done|rewrite str_length_drop..]; cbn [String.length] in *; lia. }
  cbn [enc_chars]. destruct (code c <? 128) eqn:Hc.
  - assert (w = O) as -> by (unfold utf8_width in Hw; rewrite Hc in Hw; lia).
    rewrite str_app_assoc, p_chars_esc, (Hrec s) by (done || lia). done.
  - rewrite Hw. destruct (str_prefix line_sep (String c s)) eqn:Hl;
      [|destruct (str_prefix par_sep (String c s)) eqn:Hp].
    + apply str_prefix_take in Hl. set (u := str_drop _ _) in *.
      assert (w = 2%nat) as -> by (rewrite Hl in Hw; cbv in Hw; lia).
      rewrite str_app_assoc. change (str_drop 3 (String c s)) with u.
      transitivity (cons_str line_sep (p_chars n (String.append (enc_chars k' u) (String.append quote rest)))); [done|].
      by rewrite Hrec, Hl.
    + apply str_prefix_take in Hp. set (u := str_drop _ _) in *.
      assert (w = 2%nat) as -> by (rewrite Hp in Hw; cbv in Hw; lia).
      rewrite str_app_assoc. change (str_drop 3 (String c s)) with u.
      transitivity (cons_str par_sep (p_chars n (String.append (enc_chars k' u) (String.append quote rest)))); [done|].
      by rewrite Hrec, Hp.
    + set (u := str_drop (S w) (String c s)). rewrite str_app_assoc.
      set (X := String.append (enc_chars k' u) _).
      transitivity (cons_str (str_take (S w) (String c s)) (p_chars n X)).
      * pose proof (utf8_width_take (String c s) X (S w) Hw ltac:(lia)) as Ht.
        pose proof (str_take_app (S w) (String c s) X Hlen) as Ht1.
        pose proof (str_drop_app (S w) (String c s) X Hlen) as Ht2.
        revert Ht Ht1 Ht2. cbn [str_take String.append]. set (Y := String.append _ X).
        intros Ht Ht1 Ht2. cbn [p_chars]. unfold char_is.
        replace (code c =? 34) with false by lia. replace (code c =? 92) with false by lia.
        replace (code c <? 32) with false by lia. rewrite Ht. cbn [str_take str_drop] in *.
        by rewrite Ht1, Ht2.
      * unfold X. rewrite Hrec by done. cbn. by rewrite str_take_drop.
Qed.

(** A text a number can be followed by: what follows is not part of it. *)
Definition stops (s : string) : bool :=
  match s with
  | EmptyString => true
  | String c _ => negb (is_digit c || char_is 46 c || char_is 101 c || char_is 69 c)
  end.

Lemma span_digits_uint d rest :
  stops rest = true ->
  span_digits (String.append (NilEmpty.string_of_uint d) rest) = (NilEmpty.string_of_uint d, rest).
Proof.
  intros Hrest. induction d; cbn [NilEmpty.string_of_uint String.append];
    try (cbn [span_digits]; rewrite IHd; reflexivity).
  destruct rest as [|c rest]; [done|]. cbn in *.
  destruct (is_digit c); [done|]. done.
Qed.

(** The decimal digits of a positive number do not start with zero. *)
Lemma to_uint_head p :
  match Pos.to_uint p with Decimal.Nil | Decimal.D0 _ => False | _ => True end.
Proof.
  assert (Decimal.unorm (Pos.to_uint p) = Pos.to_uint p) as H.
  { rewrite <-DecimalN.Unsigned.to_of.
    change (Pos.to_uint p) with (N.to_uint (Npos p)). by rewrite DecimalN.Unsigned.of_to. }
  assert (N.of_uint (Pos.to_uint p) = Npos p) as Hp.
  { change (Pos.to_uint p) with (N.to_uint (Npos p)). apply DecimalN.Unsigned.of_to. }
  destruct (Pos.to_uint p) as [|d|d|d|d|d|d|d|d|d|d]; try done.
  unfold Decimal.unorm in H. cbn [Decimal.nzhead] in H.
  destruct (Decimal.nzhead d) as [|d'| | | | | | | | |] eqn:E; try done.
  - injection H as <-. done.
  - by apply DecimalFacts.nzhead_nonzero in E.
Qed.

Lemma p_number_digits d rest :
  stops rest = true -> d <> Decimal.Nil -> (forall d', d <> Decimal.D0 d') ->
  match expect 48 (String.append (NilEmpty.string_of_uint d) rest) with
  | Some s2 => ("0", s2)
  | None => span_digits (String.append (NilEmpty.string_of_uint d) rest)
  end = (NilEmpty.string_of_uint d, rest) /\
  expect 45 (String.append (NilEmpty.string_of_uint d) rest) = None /\
  NilEmpty.string_of_uint d <> "".
Proof.
  intros Hrest Hnil H0. rewrite (span_digits_uint d rest Hrest).
  destruct d as [|d|d|d|d|d|d|d|d|d|d]; try done. by destruct (H0 d).
Qed.

Lemma p_frac_stops rest : stops rest = true -> p_frac rest = Some ("", rest).
Proof.
  destruct rest as [|c rest]; [done|]. unfold stops, p_frac, expect.
  destruct (char_is 46 c); [|done]. by rewrite orb_true_r.
Qed.

Lemma p_exp_stops rest : stops rest = true -> p_exp rest = Some ("", rest).
Proof.
  destruct rest as [|c rest]; [done|]. unfold stops, p_exp.
  destruct (char_is 101 c); [by rewrite orb_true_r|].
  destruct (char_is 69 c); [by rewrite orb_true_r|]. done.
Qed.

Lemma p_number_format z rest :
  stops rest = true -> p_number (String.append (format_int z) rest) = Some (format_int z, rest).
Proof.
  intros Hrest. unfold format_int. pose proof (p_frac_stops rest Hrest) as Hf.
  pose proof (p_exp_stops rest Hrest) as He. destruct z as [|p|p]; cbn [Z.to_int].
  - change (NilZero.string_of_int _) with "0". unfold p_number. cbn [String.append].
    change (expect 45 _) with (@None string). cbn iota. change (expect 48 _) with (Some rest). cbn iota.
    rewrite bool_decide_false, Hf, He by done. done.
  - pose proof (to_uint_head p) as Hhead. change (NilZero.string_of_int _) with
      (NilZero.string_of_uint (Pos.to_uint p)).
    assert (NilZero.string_of_uint (Pos.to_uint p) = NilEmpty.string_of_uint (Pos.to_uint p)) as ->.
    { by destruct (Pos.to_uint p). }
    destruct (p_number_digits (Pos.to_uint p) rest) as (H1 & H2 & H3);
      [done|by intros E; rewrite E in Hhead|by intros d E; rewrite E in Hhead|].
    unfold p_number. rewrite H2, H1, bool_decide_false, Hf, He by done.
    by rewrite !str_app_nil.
  - pose proof (to_uint_head p) as Hhead. change (NilZero.string_of_int _) with
      (String (chr 45) (NilZero.string_of_uint (Pos.to_uint p))).
    assert (NilZero.string_of_uint (Pos.to_uint p) = NilEmpty.string_of_uint (Pos.to_uint p)) as ->.
    { by destruct (Pos.to_uint p). }
    destruct (p_number_digits (Pos.to_uint p) rest) as (H1 & H2 & H3);
      [done|by intros E; rewrite E in Hhead|by intros d E; rewrite E in Hhead|].
    unfold p_number. cbn [String.append expect]. change (char_is 45 (chr 45)) with true. cbn iota.
    rewrite H1, bool_decide_false, Hf, He by done. by rewrite str_app_nil.
Qed.

(** Values whose text parses back: strings are UTF-8, numbers are integers. *)
Fixpoint json_ok (j : json) : Prop :=
  match j with
  | JNull | JBool _ => True
  | JNumber lit => exists z, lit = format_int z
  | JString s => utf8_valid s = true
  | JArray l => foldr (fun j P => json_ok j /\ P) True l
  | JObject ms => foldr (fun kv P => (utf8_valid kv.1 = true /\ json_ok kv.2) /\ P) True ms
  end.

Fixpoint json_size (j : json) : nat :=
  match j with
  | JArray l => S (foldr (fun j n => S (json_size j + n)) 0 l)
  | JObject ms => S (foldr (fun kv n => S (json_size kv.2 + n)) 0 ms)
  | _ => 1
  end%nat.

(** Induction that goes into arrays and objects. *)
Lemma json_nested_ind (P : json -> Prop) :
  P JNull -> (forall b, P (JBool b)) -> (forall lit, P (JNumber lit)) -> (forall s, P (JString s)) ->
  (forall l, Forall P l -> P (JArray l)) ->
  (forall ms, Forall (fun kv => P kv.2) ms -> P (JObject ms)) ->
  forall j, P j.
Proof.
  intros Hnull Hbool Hnum Hstr Harr Hobj. fix IH 1. intros [|b|lit|s|l|ms].
  - exact Hnull.
  - apply Hbool.
  - apply Hnum.
  - apply Hstr.
  - apply Harr. induction l as [|j l IHl]; constructor; [apply IH|exact IHl].
  - apply Hobj. induction ms as [|[k j] ms IHms]; constructor; [apply IH|exact IHms].
Qed.

(** The first character of a printed value is not a space, nor the end of a
list or an object. *)
Definition starts_value (s : string) : bool :=
  match s with
  | String c _ => negb (is_ws c || char_is 93 c || char_is 125 c)
  | EmptyString => false
  end.

Lemma starts_value_skip s : starts_value s = true -> skip_ws s = s /\ expect 93 s = None /\ expect 125 s = None.
Proof.
  destruct s as [|c s]; [done|]. cbn. destruct (is_ws c), (char_is 93 c), (char_is 125 c); done.
Qed.

Lemma format_int_head z :
  exists c s, format_int z = String c s /\ (char_is 45 c = true \/ is_digit c = true).
Proof.
  unfold format_int. destruct z as [|p|p]; cbn [Z.to_int].
  - exists "0"%char, "". vm_compute. auto.
  - pose proof (to_uint_head p) as H. cbn.
    destruct (Pos.to_uint p); try done; cbn; eexists _, _; split; try reflexivity; vm_compute; auto.
  - eexists _, _. split; [reflexivity|]. vm_compute. auto.
Qed.

Lemma starts_value_print j rest : json_ok j -> starts_value (String.append (json_print j) rest) = true.
Proof.
  destruct j as [|[]|lit|s|l|ms]; try done. cbn. intros [z ->].
  destruct (format_int_head z) as (c & s & -> & Hc). cbn. unfold is_ws, char_is, is_digit, in_range in *.
  destruct Hc as [Hc|Hc]; lia.
Qed.

Lemma p_chars_print s rest :
  utf8_valid s = true ->
  let t := String.append (enc_chars (String.length s) s) (String.append quote rest) in
  p_chars (S (String.length t)) t = Some (s, rest).
Proof.
  intros Hs t. rewrite <-(p_chars_enc (S (String.length s + String.length t)) _ (String.length s) s rest Hs)
    by lia. fold t. apply p_chars_fuel; lia.
Qed.

(** Meeting one punctuation character, or another one. *)
Lemma expect_here z s :
  is_ws (chr z) = false -> char_is z (chr z) = true -> expect z (skip_ws (String (chr z) s)) = Some s.
Proof. intros H1 H2. cbn [skip_ws]. rewrite H1. cbn. by rewrite H2. Qed.

Lemma expect_other z y s :
  is_ws (chr y) = false -> char_is z (chr y) = false -> expect z (skip_ws (String (chr y) s)) = None.
Proof. intros H1 H2. cbn [skip_ws]. rewrite H1. cbn. by rewrite H2. Qed.

(** What the printer puts between the brackets. *)
Definition print_member (kv : string * json) : string :=
  String.append (enc_string kv.1) (String.append ":" (json_print kv.2)).

Definition parses (j : json) : Prop :=
  json_ok j -> forall n rest, stops rest = true -> (json_size j <= n)%nat ->
  p_value n (String.append (json_print j) rest) = Some (j, rest).

Lemma p_elems_print l n rest :
  Forall parses l -> l <> [] -> foldr (fun j P => json_ok j /\ P) True l ->
  (foldr (fun j m => S (json_size j + m)) 0 l <= n)%nat ->
  p_elems n (String.append (join "," (map json_print l)) (String.append "]" rest)) = Some (l, rest).
Proof.
  intros Hl. revert n. induction Hl as [|j l Hj Hl IH]; intros n Hne Hok Hn; [done|].
  cbn in Hok, Hn. destruct Hok as [Hok Hoks]. destruct n as [|n]; [lia|].
  destruct l as [|j' l].
  - cbn [map join p_elems]. rewrite (Hj Hok n) by (done || lia). reflexivity.
  - change (join "," (map json_print (j :: j' :: l))) with
      (String.append (json_print j) (String.append "," (join "," (map json_print (j' :: l))))).
    rewrite !str_app_assoc. cbn [p_elems]. rewrite (Hj Hok n) by (done || lia).
    set (X := String.append (join "," _) _). change (String.append "," X) with (String (chr 44) X).
    rewrite expect_other, expect_here by done. unfold X.
    rewrite (IH n); [done|done|done|cbn in *; lia].
Qed.

Lemma p_members_print ms n rest :
  Forall (fun kv => parses kv.2) ms -> ms <> [] ->
  foldr (fun kv P => (utf8_valid kv.1 = true /\ json_ok kv.2) /\ P) True ms ->
  (foldr (fun kv m => S (json_size kv.2 + m)) 0 ms <= n)%nat ->
  p_members n (String.append (join "," (map print_member ms)) (String.append "}" rest)) = Some (ms, rest).
Proof.
  intros Hl. revert n. induction Hl as [|[k j] ms Hj Hl IH]; intros n Hne Hok Hn; [done|].
  cbn in Hok, Hn, Hj. destruct Hok as [[Hk Hok] Hoks]. destruct n as [|n]; [lia|].
  assert (forall X, stops X = true ->
    exists X', expect 34 (skip_ws (String.append (print_member (k, j)) X)) = Some X' /\
    p_chars (S (String.length X')) X' = Some (k, String (chr 58) (String.append (json_print j) X)) /\
    p_value n (String.append (json_print j) X) = Some (j, X)) as Hstep.
  { intros X HX. unfold print_member, enc_string. cbn [fst snd]. rewrite !str_app_assoc.
    eexists. split; [reflexivity|]. split; [by apply p_chars_print|]. apply Hj; [done..|lia]. }
  destruct ms as [|kv ms].
  - destruct (Hstep (String.append "}" rest) eq_refl) as (X' & H1 & H2 & H3).
    cbn [map join p_members]. rewrite H1, H2, expect_here, H3 by done.
    change (String.append "}" rest) with (String (chr 125) rest). by rewrite expect_here.
  - change (join "," (map print_member ((k, j) :: kv :: ms))) with
      (String.append (print_member (k, j)) (String.append "," (join "," (map print_member (kv :: ms))))).
    rewrite (str_app_assoc (print_member (k, j))).
    set (X := String.append _ (String.append "}" rest)).
    destruct (Hstep X eq_refl) as (X' & H1 & H2 & H3). cbn [p_members].
    rewrite H1, H2, expect_here, H3 by done. unfold X. rewrite str_app_assoc.
    set (Y := String.append _ (String.append "}" rest)).
    change (String.append "," Y) with (String (chr 44) Y).
    rewrite expect_other, expect_here by done. unfold Y.
    rewrite (IH n); [done|done|done|cbn in *; lia].
Qed.

Lemma p_value_print j : parses j.
Proof.
  induction j as [|b|lit|s|l IH|ms IH] using json_nested_ind; intros Hok n rest Hrest Hn;
    (destruct n as [|n]; [cbn in Hn; lia|]).
  - done.
  - by destruct b.
  - destruct Hok as [z ->]. pose proof (p_number_format z rest Hrest) as Hnum.
    destruct (format_int_head z) as (c & s & E & Hc). cbn [json_print]. rewrite E in Hnum |- *.
    cbn [String.append p_value skip_ws] in *.
    assert (is_ws c = false) as -> by
      (unfold is_ws, char_is, is_digit, in_range in *; destruct Hc; lia).
    assert (forall y, y = 123 \/ y = 91 \/ y = 34 \/ y = 110 \/ y = 116 \/ y = 102 -> char_is y c = false) as Hno
      by (unfold char_is, is_digit, in_range in *; destruct Hc; lia).
    rewrite !Hno by lia. by rewrite Hnum.
  - cbn [json_print]. unfold enc_string. rewrite !str_app_assoc.
    pose proof (p_chars_print s rest Hok) as Hs. cbn zeta in Hs.
    set (t := String.append (enc_chars _ _) _) in *.
    transitivity (match p_chars (S (String.length t)) t with
                  | Some (t, s2) => Some (JString t, s2) | None => None end); [done|].
    by rewrite Hs.
  - cbn [json_print]. rewrite !str_app_assoc. destruct l as [|j l]; [done|].
    cbn [String.append p_value skip_ws]. change (is_ws "["%char) with false. cbn iota.
    set (X := String.append (join _ _) _).
    assert (expect 93 (skip_ws X) = None) as Hopen.
    { assert (starts_value X = true) as Hv; [|destruct (starts_value_skip X Hv) as (-> & ? & _); done].
      unfold X. destruct Hok as [Hok _]. destruct l as [|j' l]; cbn [map join];
        rewrite ?str_app_assoc; by apply starts_value_print. }
    change (char_is 123 _) with false. change (char_is 91 _) with true. cbn iota. rewrite Hopen.
    assert (p_elems n X = Some (j :: l, rest)) as ->; [|done].
    apply p_elems_print; [done|done|exact Hok|cbn in *; lia].
  - cbn [json_print]. fold print_member. rewrite !str_app_assoc. destruct ms as [|kv ms]; [done|].
    cbn [String.append p_value skip_ws]. change (is_ws "{"%char) with false. cbn iota.
    set (X := String.append (join _ _) _).
    assert (expect 125 (skip_ws X) = None) as Hopen.
    { unfold X. destruct ms as [|kv' ms]; reflexivity. }
    change (char_is 123 _) with true. cbn iota. rewrite Hopen.
    assert (p_members n X = Some (kv :: ms, rest)) as ->; [|done].
    apply p_members_print; [done|done|exact Hok|cbn in *; lia].
Qed.

(** Printing then parsing is the identity. *)
Lemma json_parse_print j : json_ok j -> json_parse (json_print j) = Some j.
Proof.
  intros Hok. unfold json_parse. set (s := json_print j).
  rewrite <-(p_value_fuel (json_size j + (2 * String.length s + 1))%nat s) by lia.
  pose proof (p_value_print j Hok (json_size j + (2 * String.length s + 1))%nat "" eq_refl ltac:(lia)) as H.
  rewrite str_app_nil in H. fold s in H. by rewrite H.
Qed.

(** Decoding into a struct what was marshalled from an object. *)
Lemma json_Unmarshal_Marshal {S} (fs : list (field S)) ms s :
  json_ok (JObject ms) ->
  json_Unmarshal fs (json_Marshal (JObject ms)) s = decode_members fs ms s None.
Proof.
  intros Hok. unfold json_Unmarshal, json_Marshal.
  by rewrite string_of_bytes_of_string, (json_parse_print _ Hok).
Qed.

Lemma JInt_ok z : json_ok (JInt z).
Proof. by exists z. Qed.

Lemma set_int64_JInt z old :
  - 2 ^ 63 <= z < 2 ^ 63 -> set_int64 (JInt z) old = (z, None).
Proof.
  intros H. unfold set_int64, JInt. rewrite parse_format_int.
  by replace ((- 2 ^ 63 <=? z) && (z <? 2 ^ 63)) with true by lia.
Qed.

(** Evaluate the decoding of a struct whose keys are known; integers whose range
is known are stored as they are. *)
Ltac decode :=
  repeat (cbv -[set_int64 JInt]; rewrite set_int64_JInt by (assumption || lia)); cbv -[set_int64 JInt].

#[export] Hint Resolve JInt_ok : go.
#[global] Arguments json_parse : simpl never.
#[global] Arguments json_print : simpl never.
