(* ===== verification/GoTime.v ===== *)
(** Package time as the configuration uses it: [Duration.String] and
[ParseDuration] of Go's standard library, with their integers of 64 bits and the
double precision arithmetic of fractions, and that parsing inverts printing. *)

From Stdlib Require Import Floats.SpecFloat.
From S2P Require Import Prelude GoText Json.
Local Open Scope Z_scope.
Local Open Scope go_scope.

(** * float64 *)

Definition float64 (z : Z) : spec_float := binary_normalize 53 1024 z 0 false.
Definition f_mul : spec_float -> spec_float -> spec_float := SFmul 53 1024.
Definition f_div : spec_float -> spec_float -> spec_float := SFdiv 53 1024.

(** [int64(x)]: truncation toward zero, for values in the range of int64. *)
Definition f_trunc (x : spec_float) : Z :=
  match x with
  | S754_finite s m e =>
      let a := if 0 <=? e then Zpos m * 2 ^ e else Zpos m / 2 ^ (- e) in if s then - a else a
  | _ => 0
  end.

(** * Duration.String *)

Definition Nanosecond : Z := 1.
Definition Microsecond : Z := 1000.
Definition Millisecond : Z := 1000000.
Definition Second : Z := 1000000000.
Definition Minute : Z := 60 * Second.
Definition Hour : Z := 60 * Minute.

Definition digit (z : Z) : ascii := chr (48 + z).

(** [fmtFrac(buf, v, prec)]: the buffer is filled from its end. *)
Fixpoint fmtFrac (prec : nat) (v : Z) (print : bool) (buf : string) : string * Z :=
  match prec with
  | O => (if print then String "."%char buf else buf, v)
  | S n =>
      let d := v mod 10 in
      let print := print || negb (d =? 0) in
      fmtFrac n (v / 10) print (if print then String (digit d) buf else buf)
  end.

(** [fmtInt(buf, v)]: an unsigned integer of 64 bits has at most 20 digits. *)
Fixpoint fmt_digits (n : nat) (v : Z) (buf : string) : string :=
  match n with
  | O => buf
  | S n => if v =? 0 then buf else fmt_digits n (v / 10) (String (digit (v mod 10)) buf)
  end.
Definition fmtInt (v : Z) (buf : string) : string :=
  if v =? 0 then String "0"%char buf else fmt_digits 20 v buf.

(** The micro sign, U+00B5. *)
Definition micro : string := String (chr 194) (String (chr 181) "").

(** A number with a fraction of [prec] digits before a unit. *)
Definition fmtUnit (prec : nat) (u : Z) (unit : string) : string :=
  let '(buf, u) := fmtFrac prec u false unit in fmtInt u buf.

(** Hours, minutes and seconds. *)
Definition fmtSeconds (u : Z) : string :=
  let '(buf, u) := fmtFrac 9 u false "s" in
  let buf := fmtInt (u mod 60) buf in
  let u := u / 60 in
  if 0 <? u then
    let buf := fmtInt (u mod 60) ("m" .+ buf) in
    let u := u / 60 in
    if 0 <? u then fmtInt u ("h" .+ buf) else buf
  else buf.

(** What [String] prints without the sign. *)
Definition body (u : Z) : string :=
  if u <? Second then
    if u =? 0 then "0s"
    else if u <? Microsecond then fmtUnit 0 u "ns"
    else if u <? Millisecond then fmtUnit 3 u (micro .+ "s")
    else fmtUnit 6 u "ms"
  else fmtSeconds u.

(** The absolute value, in an unsigned integer. *)
Definition magnitude (d : Z) : Z := if d <? 0 then to_uint64 (- to_uint64 d) else to_uint64 d.

Definition Duration_String (d : Z) : string :=
  if d <? 0 then "-" .+ body (magnitude d) else body (magnitude d).

(** * ParseDuration *)

(** [leadingInt]: [None] on overflow. *)
Fixpoint leadingInt (x : Z) (s : string) : option (Z * string) :=
  match s with
  | String c s' =>
      if is_digit c then
        if (2 ^ 63 - 1) / 10 <? x then None else
        let x := to_int64 (x * 10 + code c - 48) in
        if x <? 0 then None else leadingInt x s'
      else Some (x, s)
  | EmptyString => Some (x, s)
  end.

(** [leadingFraction]: digits that do not fit are dropped. *)
Fixpoint leadingFraction (x : Z) (scale : spec_float) (overflow : bool) (s : string)
    : Z * spec_float * string :=
  match s with
  | String c s' =>
      if is_digit c then
        if overflow then leadingFraction x scale true s'
        else if (2 ^ 63 - 1) / 10 <? x then leadingFraction x scale true s'
        else let y := to_int64 (x * 10 + code c - 48) in
             if y <? 0 then leadingFraction x scale true s'
             else leadingFraction y (f_mul scale (float64 10)) false s'
      else (x, scale, s)
  | EmptyString => (x, scale, s)
  end.

(** The unit ends at a period, a digit or the end. *)
Definition ends_unit (c : ascii) : bool := char_is 46 c || is_digit c.
Fixpoint span_unit (s : string) : string * string :=
  match s with
  | String c s' => if ends_unit c then ("", s) else let '(u, r) := span_unit s' in (String c u, r)
  | EmptyString => ("", s)
  end.

(** Greek mu, U+03BC. *)
Definition mu : string := String (chr 206) (String (chr 188) "").
Definition unitMap : list (string * Z) :=
  [ ("ns", Nanosecond); ("us", Microsecond); (micro .+ "s", Microsecond); (mu .+ "s", Microsecond);
    ("ms", Millisecond); ("s", Second); ("m", Minute); ("h", Hour) ].
Definition unit_of (u : string) : option Z :=
  snd <$> List.find (fun p => bool_decide (p.1 = u)) unitMap.

Definition invalid (orig : string) : error := EText ("time: invalid duration " .+ orig).

(** One turn of the loop on a text that is not empty: the sum with the next number
and unit, and what follows them. *)
Definition component (orig s : string) (d : Z) : Z * string + error :=
  match s with
  | EmptyString => inr (invalid orig)
  | String c _ =>
      if negb (ends_unit c) then inr (invalid orig) else
      match leadingInt 0 s with
      | None => inr (invalid orig)
      | Some (v, s1) =>
          let pre := negb (str_len s1 =? str_len s) in
          let '(f, scale, s2, post) :=
            match expect 46 s1 with
            | Some s1 => let '(f, scale, s2) := leadingFraction 0 (float64 1) false s1 in
                         (f, scale, s2, negb (str_len s2 =? str_len s1))
            | None => (0, float64 1, s1, false)
            end in
          if negb pre && negb post then inr (invalid orig) else
          let '(u, s3) := span_unit s2 in
          if bool_decide (u = "") then inr (EText ("time: missing unit in duration " .+ orig)) else
          match unit_of u with
          | None => inr (EText ("time: unknown unit " .+ u .+ " in duration " .+ orig))
          | Some unit =>
              if (2 ^ 63 - 1) / unit <? v then inr (invalid orig) else
              let v := v * unit in
              let v := if 0 <? f
                       then to_int64 (v + f_trunc (f_mul (float64 f) (f_div (float64 unit) scale)))
                       else v in
              if v <? 0 then inr (invalid orig) else
              let d := to_int64 (d + v) in
              if d <? 0 then inr (invalid orig) else inl (d, s3)
          end
      end
  end.

(** The loop; every turn takes at least one byte, see [parse_loop_total]. *)
Fixpoint parse_loop (fuel : nat) (orig s : string) (d : Z) : option (Z + error) :=
  match s, fuel with
  | EmptyString, _ => Some (inl d)
  | _, O => None
  | _, S n =>
      match component orig s d with
      | inl (d, s) => parse_loop n orig s d
      | inr e => Some (inr e)
      end
  end.

Definition ParseDuration (orig : string) : option (Z + error) :=
  let '(neg, s) := match expect 45 orig with
                   | Some s => (true, s)
                   | None => match expect 43 orig with Some s => (false, s) | None => (false, orig) end
                   end in
  if bool_decide (s = "0") then Some (inl 0)
  else if bool_decide (s = "") then Some (inr (invalid orig))
  else match parse_loop (String.length s) orig s 0 with
       | Some (inl d) => Some (inl (if (neg : bool) then to_int64 (- d) else d))
       | r => r
       end.

Example parse_samples :
  (ParseDuration "2m", ParseDuration "1h30m0.5s", ParseDuration "-1.5h", ParseDuration "+.5us",
   ParseDuration ("1" .+ micro .+ "s"), ParseDuration "0", ParseDuration "9223372036854775807ns") =
  (Some (inl 120000000000), Some (inl 5400500000000), Some (inl (-5400000000000)), Some (inl 500),
   Some (inl 1000), Some (inl 0), Some (inl (2 ^ 63 - 1))).
Proof. vm_compute. reflexivity. Qed.
Example parse_errors :
  (ParseDuration "", ParseDuration "3", ParseDuration "1x", ParseDuration ".s", ParseDuration "9223372036854775808ns",
   ParseDuration "2562048h") =
  (Some (inr (invalid "")), Some (inr (EText "time: missing unit in duration 3")),
   Some (inr (EText "time: unknown unit x in duration 1x")), Some (inr (invalid ".s")),
   Some (inr (invalid "9223372036854775808ns")), Some (inr (invalid "2562048h"))).
Proof. vm_compute. reflexivity. Qed.
Example print_samples :
  map Duration_String [0; 1; 1500; 2000000; 120000000000; 5400500000000; -1; - 2 ^ 63] =
  ["0s"; "1ns"; "1.5" .+ micro .+ "s"; "2ms"; "2m0s"; "1h30m0.5s"; "-1ns"; "-2562047h47m16.854775808s"].
Proof. vm_compute. reflexivity. Qed.

(** * Exact arithmetic on doubles

A double that stands for the positive integer [n]. *)
Definition f_is (x : spec_float) (n : Z) : Prop :=
  exists m e, x = S754_finite false m e /\ e <= 0 /\ Zpos m = n * 2 ^ (- e).

Lemma digits2_bounds p : 2 ^ (Zpos (digits2_pos p) - 1) <= Zpos p < 2 ^ Zpos (digits2_pos p).
Proof.
  induction p as [p IH|p IH|]; cbn [digits2_pos]; [| |lia];
    (rewrite Pos2Z.inj_succ; replace (Z.succ (Zpos (digits2_pos p)) - 1) with (Zpos (digits2_pos p)) by lia;
     rewrite Z.pow_succ_r by lia;
     replace (Zpos (digits2_pos p)) with (Z.succ (Zpos (digits2_pos p) - 1)) at 1 by lia;
     rewrite Z.pow_succ_r by lia).
  - rewrite (Pos2Z.inj_xI p). lia.
  - rewrite (Pos2Z.inj_xO p). lia.
Qed.

Lemma shr_1_even m : 0 < m -> shr_1 (Build_shr_record (m * 2) false false) = Build_shr_record m false false.
Proof. intros Hm. destruct m as [|p|p]; [done| |done]. by rewrite Z.mul_comm. Qed.

Lemma iter_shr_exact p m :
  0 < m -> SpecFloat.iter_pos shr_1 p (Build_shr_record (m * 2 ^ Zpos p) false false) = Build_shr_record m false false.
Proof.
  revert m. induction p as [p IH|p IH|]; intros m Hm; cbn [SpecFloat.iter_pos].
  - rewrite (Pos2Z.inj_xI p). replace (2 * Zpos p + 1) with (Zpos p + Zpos p + 1) by lia.
    rewrite !Z.pow_add_r by lia. rewrite !Z.mul_assoc. change (2 ^ 1) with 2. rewrite shr_1_even by lia.
    by rewrite IH, IH by lia.
  - rewrite (Pos2Z.inj_xO p). replace (2 * Zpos p) with (Zpos p + Zpos p) by lia.
    rewrite Z.pow_add_r, Z.mul_assoc by lia. by rewrite IH, IH by lia.
  - change (2 ^ 1) with 2. by apply shr_1_even.
Qed.

Lemma shr_fexp_exact n e :
  e <= 0 -> 0 < n < 2 ^ 53 ->
  exists e', e' <= 0 /\
    shr_fexp 53 1024 (n * 2 ^ (- e)) e loc_Exact = (Build_shr_record (n * 2 ^ (- e')) false false, e').
Proof.
  intros He Hn. unfold shr_fexp, fexp, emin. set (M := n * 2 ^ (- e)).
  assert (0 < M < 2 ^ (53 - e)) as HM.
  { unfold M. replace (53 - e) with (53 + - e) by lia. rewrite Z.pow_add_r by lia.
    pose proof (Z.pow_pos_nonneg 2 (- e) ltac:(lia) ltac:(lia)). nia. }
  assert (Zdigits2 M <= 53 - e) as Hd.
  { destruct M as [|p|p]; [lia| |lia]. cbn [Zdigits2]. pose proof (digits2_bounds p) as [Hp _].
    assert (2 ^ (Zpos (digits2_pos p) - 1) < 2 ^ (53 - e)) as Hlt by lia.
    apply Z.pow_lt_mono_r_iff in Hlt; lia. }
  set (e' := Z.max _ _). assert (e' <= 0) by (unfold e'; lia).
  destruct (e' - e) as [|p|p] eqn:E; cbn [shr shr_record_of_loc].
  - by exists e.
  - exists e'. split; [done|]. f_equal; [|lia].
    unfold M. replace (- e) with (- e' + Zpos p) by lia. rewrite Z.pow_add_r, Z.mul_assoc by lia.
    apply iter_shr_exact. pose proof (Z.pow_pos_nonneg 2 (- e') ltac:(lia) ltac:(lia)). lia.
  - by exists e.
Qed.

Lemma round_exact n e :
  e <= 0 -> 0 < n < 2 ^ 53 -> f_is (binary_round_aux 53 1024 false (n * 2 ^ (- e)) e loc_Exact) n.
Proof.
  intros He Hn. unfold binary_round_aux. destruct (shr_fexp_exact n e He Hn) as (e1 & He1 & ->).
  cbn [shr_m loc_of_shr_record round_nearest_even].
  destruct (shr_fexp_exact n e1 He1 Hn) as (e2 & He2 & ->). cbn [shr_m].
  pose proof (Z.pow_pos_nonneg 2 (- e2) ltac:(lia) ltac:(lia)) as Hp.
  destruct (n * 2 ^ (- e2)) as [|p|p] eqn:E; [lia| |lia].
  replace (e2 <=? 1024 - 53) with true by lia. exists p, e2. auto.
Qed.

Lemma iter_xO d p : Zpos (Pos.iter xO p d) = Zpos p * 2 ^ Zpos d.
Proof.
  induction d as [|d IH] using Pos.peano_ind; [cbn [Pos.iter]; lia|].
  rewrite Pos.iter_succ, Pos2Z.inj_xO, IH, Pos2Z.inj_succ, Z.pow_succ_r by lia. lia.
Qed.

Lemma float64_is n : 0 < n < 2 ^ 53 -> f_is (float64 n) n.
Proof.
  intros Hn. unfold float64. destruct n as [|p|p]; [lia| |lia]. cbn [binary_normalize].
  unfold binary_round, shl_align. rewrite Z.add_0_r, Z.sub_0_r.
  destruct (fexp 53 1024 (Zpos (digits2_pos p))) as [|d|d].
  - pose proof (round_exact (Zpos p) 0 ltac:(lia) Hn) as H. by rewrite Z.mul_1_r in H.
  - pose proof (round_exact (Zpos p) 0 ltac:(lia) Hn) as H. by rewrite Z.mul_1_r in H.
  - rewrite iter_xO. exact (round_exact (Zpos p) (Zneg d) ltac:(lia) Hn).
Qed.

Lemma f_mul_is x y n k : f_is x n -> f_is y k -> 0 < n * k < 2 ^ 53 -> f_is (f_mul x y) (n * k).
Proof.
  intros (m1 & e1 & -> & He1 & E1) (m2 & e2 & -> & He2 & E2) H. unfold f_mul. cbn [SFmul xorb].
  rewrite Pos2Z.inj_mul, E1, E2.
  replace (n * 2 ^ (- e1) * (k * 2 ^ (- e2))) with (n * k * 2 ^ (- (e1 + e2))).
  - apply round_exact; lia.
  - replace (- (e1 + e2)) with (- e1 + - e2) by lia. rewrite Z.pow_add_r by lia. lia.
Qed.

Lemma f_trunc_is x n : f_is x n -> f_trunc x = n.
Proof.
  intros (m & e & -> & He & E). unfold f_trunc. rewrite E. case_match.
  - replace e with 0 by lia. cbn. lia.
  - rewrite Z.div_mul; [done|]. apply Z.pow_nonzero; lia.
Qed.

(** * The loop of ParseDuration ends *)

Lemma leadingInt_rest x s y r : leadingInt x s = Some (y, r) -> str_len r <= str_len s.
Proof.
  revert x. unfold str_len. induction s as [|c s IH]; intros x; cbn [leadingInt String.length]; [naive_solver|].
  repeat (case_match; try done); [|naive_solver]. intros ?%IH. lia.
Qed.

Lemma leadingFraction_rest x sc o s y sc' r :
  leadingFraction x sc o s = (y, sc', r) -> str_len r <= str_len s.
Proof.
  revert x sc o. unfold str_len. induction s as [|c s IH]; intros x sc o; cbn [leadingFraction String.length];
    [naive_solver|].
  destruct (is_digit c); [|naive_solver]. repeat case_match; intros ?%IH; lia.
Qed.

Lemma span_unit_rest s u r : span_unit s = (u, r) -> str_len u + str_len r = str_len s.
Proof.
  revert u r. unfold str_len. induction s as [|c s IH]; intros u r; cbn [span_unit String.length].
  - intros [= <- <-]. done.
  - destruct (ends_unit c); [intros [= <- <-]; done|].
    destruct (span_unit s) as [u' r'] eqn:E. intros [= <- <-]. specialize (IH _ _ eq_refl). cbn [String.length]. lia.
Qed.

Lemma expect_rest z s r : expect z s = Some r -> str_len s = 1 + str_len r.
Proof. destruct s as [|c s]; [done|]. cbn. case_match; [|done]. intros [= <-]. unfold str_len. cbn [String.length]. lia. Qed.

Lemma str_len_pos s : s <> "" -> 0 < str_len s.
Proof. destruct s; [done|]. unfold str_len. cbn [String.length]. lia. Qed.

(** Every turn takes at least the unit. *)
Lemma component_shrinks orig s d d' s' : component orig s d = inl (d', s') -> str_len s' < str_len s.
Proof.
  unfold component. destruct s as [|c s0]; [done|]. set (s := String c s0).
  destruct (negb (ends_unit c)); [done|].
  destruct (leadingInt 0 s) as [[v s1]|] eqn:E1; [|done]. apply leadingInt_rest in E1.
  assert (forall f sc s2 post,
    match expect 46 s1 with
    | Some s1 => let '(f, scale, s2) := leadingFraction 0 (float64 1) false s1 in
                 (f, scale, s2, negb (str_len s2 =? str_len s1))
    | None => (0, float64 1, s1, false)
    end = (f, sc, s2, post) -> str_len s2 <= str_len s1) as H2.
  { intros f sc s2 post. destruct (expect 46 s1) as [r|] eqn:Er; [|naive_solver].
    apply expect_rest in Er. destruct (leadingFraction 0 (float64 1) false r) as [[f' sc'] s2'] eqn:Ef.
    apply leadingFraction_rest in Ef. intros [= <- <- <- <-]. lia. }
  destruct (match expect 46 s1 with Some _ => _ | None => _ end) as [[[f sc] s2] post].
  specialize (H2 _ _ _ _ eq_refl). destruct (_ && _); [done|].
  destruct (span_unit s2) as [u s3] eqn:Eu. apply span_unit_rest in Eu.
  case_bool_decide as Hu; [done|]. apply str_len_pos in Hu.
  destruct (unit_of u); [|done]. repeat (case_match; try done); intros [= <- <-]; lia.
Qed.

(** Any fuel that is enough gives the same answer, and the length of the text
is enough. *)
Lemma parse_loop_fuel n m orig s d :
  str_len s <= Z.of_nat n -> str_len s <= Z.of_nat m -> parse_loop n orig s d = parse_loop m orig s d.
Proof.
  revert m s d. unfold str_len. induction n as [|n IH]; intros m s d Hn Hm.
  - destruct s; [by destruct m|]. cbn [String.length] in Hn. lia.
  - destruct s as [|c s]; [by destruct m|]. destruct m as [|m]; [cbn [String.length] in Hm; lia|].
    cbn [parse_loop]. destruct (component orig (String c s) d) as [[d' s']|e] eqn:E; [|done].
    apply component_shrinks in E. unfold str_len in E. apply IH; lia.
Qed.

Lemma parse_loop_eq orig s d :
  s <> "" ->
  parse_loop (String.length s) orig s d =
  match component orig s d with
  | inl (d', s') => parse_loop (String.length s') orig s' d'
  | inr e => Some (inr e)
  end.
Proof.
  destruct s as [|c s]; [done|]. intros _. cbn [String.length parse_loop].
  destruct (component orig (String c s) d) as [[d' s']|e] eqn:E; [|done].
  apply component_shrinks in E. unfold str_len in E. cbn [String.length] in E.
  apply parse_loop_fuel; unfold str_len; lia.
Qed.

Lemma parse_loop_total n orig s d :
  str_len s <= Z.of_nat n -> exists r, parse_loop n orig s d = Some r.
Proof.
  revert s d. unfold str_len. induction n as [|n IH]; intros s d Hn.
  - destruct s; [by exists (inl d)|]. cbn [String.length] in Hn. lia.
  - destruct s as [|c s]; [by exists (inl d)|]. cbn [parse_loop].
    destruct (component orig (String c s) d) as [[d' s']|e] eqn:E; [|by eexists].
    apply component_shrinks in E. unfold str_len in E. apply IH. lia.
Qed.

Lemma ParseDuration_total s : exists r, ParseDuration s = Some r.
Proof.
  unfold ParseDuration. destruct (match expect 45 s with Some _ => _ | None => _ end) as [neg s'].
  case_bool_decide; [by eexists|]. case_bool_decide; [by eexists|].
  destruct (parse_loop_total (String.length s') s s' 0) as [[d|e] ->]; [done|by eexists|by eexists].
Qed.

(** * Digits *)

Definition digits (s : string) : Prop := str_all is_digit s = true.

(** The value of digits after others worth [x]. *)
Fixpoint dval (x : Z) (s : string) : Z :=
  match s with
  | String c s' => dval (x * 10 + code c - 48) s'
  | EmptyString => x
  end.

Lemma dval_app x s t : dval x (s .+ t) = dval (dval x s) t.
Proof. revert x. induction s as [|c s IH]; intros x; cbn; [done|]. apply IH. Qed.

Lemma str_all_append p s t : str_all p (s .+ t) = str_all p s && str_all p t.
Proof. induction s as [|c s IH]; cbn; [done|]. by rewrite IH, andb_assoc. Qed.

Lemma str_len_app s t : str_len (s .+ t) = str_len s + str_len t.
Proof. unfold str_len. induction s as [|c s IH]; cbn [String.append String.length] in *; lia. Qed.

Lemma digit_spec z : 0 <= z < 10 -> is_digit (digit z) = true /\ code (digit z) = 48 + z.
Proof. intros Hz. unfold is_digit, in_range, digit. rewrite code_chr, Z.mod_small by lia. lia. Qed.

Lemma dval_mono x s : 0 <= x -> digits s -> x <= dval x s.
Proof.
  revert x. induction s as [|c s IH]; intros x Hx; cbn; [lia|]. unfold digits. cbn. intros [Hc Hs]%andb_true_iff.
  unfold is_digit, in_range in Hc. specialize (IH (x * 10 + code c - 48) ltac:(lia) Hs). lia.
Qed.

Lemma fmt_digits_spec n v buf :
  0 <= v < 10 ^ Z.of_nat n ->
  exists s, fmt_digits n v buf = s .+ buf /\ digits s /\ dval 0 s = v /\ (0 < v -> s <> "").
Proof.
  revert v buf. induction n as [|n IH]; intros v buf Hv.
  { cbn in Hv. exists "". cbn. split_and!; done || lia. }
  cbn [fmt_digits]. destruct (v =? 0) eqn:E.
  { exists "". split_and!; done || (cbn; lia). }
  rewrite Nat2Z.inj_succ, Z.pow_succ_r in Hv by lia.
  destruct (IH (v / 10) (String (digit (v mod 10)) buf)) as (s & -> & Hs & Hd & _).
  { split; [apply Z.div_pos; lia|]. apply Z.div_lt_upper_bound; lia. }
  destruct (digit_spec (v mod 10)) as [H1 H2]; [apply Z.mod_pos_bound; lia|].
  exists (s .+ String (digit (v mod 10)) ""). rewrite str_app_assoc, dval_app, Hd. split_and!.
  - done.
  - unfold digits in *. rewrite str_all_append, Hs. cbn. by rewrite H1.
  - cbn. rewrite H2. pose proof (Z.div_mod v 10). lia.
  - by destruct s.
Qed.

Lemma fmtInt_spec v buf :
  0 <= v < 2 ^ 64 -> exists s, fmtInt v buf = s .+ buf /\ digits s /\ dval 0 s = v /\ s <> "".
Proof.
  intros Hv. unfold fmtInt. destruct (v =? 0) eqn:E.
  - apply Z.eqb_eq in E as ->. by exists "0".
  - destruct (fmt_digits_spec 20 v buf) as (s & ? & ? & ? & ?); [split; [lia|]; cbn; lia|].
    exists s. split_and!; auto with lia.
Qed.

(** * Fractions *)

Lemma fmtFrac_print n v buf :
  0 <= v ->
  exists s, fmtFrac n v true buf = (String "."%char (s .+ buf), v / 10 ^ Z.of_nat n) /\
    digits s /\ str_len s = Z.of_nat n /\ dval 0 s = v mod 10 ^ Z.of_nat n.
Proof.
  revert v buf. induction n as [|n IH]; intros v buf Hv.
  { exists "". cbn. rewrite Z.div_1_r, Z.mod_1_r. done. }
  cbn [fmtFrac orb]. destruct (IH (v / 10) (String (digit (v mod 10)) buf)) as (s & -> & Hs & Hl & Hd).
  { apply Z.div_pos; lia. }
  destruct (digit_spec (v mod 10)) as [H1 H2]; [apply Z.mod_pos_bound; lia|].
  rewrite Nat2Z.inj_succ, Z.pow_succ_r by lia. set (P := 10 ^ Z.of_nat n) in *.
  assert (0 < P) by (apply Z.pow_pos_nonneg; lia).
  exists (s .+ String (digit (v mod 10)) ""). rewrite str_app_assoc, str_len_app, dval_app, Hd, Hl. split_and!.
  - by rewrite Z.div_div by lia.
  - unfold digits in *. rewrite str_all_append, Hs. cbn. by rewrite H1.
  - unfold str_len. cbn [String.length]. lia.
  - cbn [dval]. rewrite H2, Z.rem_mul_r by lia. lia.
Qed.

(** What is printed for the fraction [r] of [10 ^ prec]. *)
Definition frac (F : string) (prec r : Z) : Prop :=
  (F = "" /\ r = 0) \/
  exists s, F = String "."%char s /\ digits s /\ 0 < str_len s <= prec /\ 0 < dval 0 s /\
    dval 0 s * 10 ^ (prec - str_len s) = r.

Lemma fmtFrac_spec n v buf :
  0 <= v ->
  exists F, fmtFrac n v false buf = (F .+ buf, v / 10 ^ Z.of_nat n) /\
    frac F (Z.of_nat n) (v mod 10 ^ Z.of_nat n).
Proof.
  revert v buf. induction n as [|n IH]; intros v buf Hv.
  { exists "". cbn. rewrite Z.div_1_r, Z.mod_1_r. split; [done|]. by left. }
  pose proof (fmtFrac_print (S n) v buf Hv) as (s & Hp & Hs & Hl & Hd).
  cbn [fmtFrac orb] in *. destruct (v mod 10 =? 0) eqn:E; cbn [negb].
  - rewrite Nat2Z.inj_succ, Z.pow_succ_r by lia. set (P := 10 ^ Z.of_nat n) in *.
    assert (0 < P) by (apply Z.pow_pos_nonneg; lia).
    destruct (IH (v / 10) buf) as (F & -> & HF); [apply Z.div_pos; lia|]. exists F.
    split; [by rewrite Z.div_div by lia|]. rewrite Z.rem_mul_r by lia. destruct HF as [[-> HF]|(t & -> & Ht)].
    + left. split; [done|]. fold P in HF. lia.
    + right. exists t. destruct Ht as (? & ? & ? & Ht). split_and!; try done || lia.
      replace (Z.succ (Z.of_nat n) - str_len t) with (Z.succ (Z.of_nat n - str_len t)) by lia.
      rewrite Z.pow_succ_r by lia. fold P in Ht. lia.
  - exists (String "."%char s). split; [exact Hp|]. right. exists s. split_and!; try done || lia.
    + rewrite Hd, Nat2Z.inj_succ, Z.pow_succ_r by lia. set (P := 10 ^ Z.of_nat n) in *.
      assert (0 < P) by (apply Z.pow_pos_nonneg; lia). rewrite Z.rem_mul_r by lia.
      pose proof (Z.mod_pos_bound (v / 10) P ltac:(lia)). pose proof (Z.mod_pos_bound v 10 ltac:(lia)). lia.
    + rewrite Hl, Z.sub_diag. lia.
Qed.

(** * Reading back *)

(** A text no number or unit continues with. *)
Definition next (rest : string) : bool :=
  match rest with String c _ => is_digit c | EmptyString => true end.

Definition not_digit (rest : string) : bool :=
  match rest with String c _ => negb (is_digit c) | EmptyString => true end.

Lemma to_int64_id z : 0 <= z < 2 ^ 63 -> to_int64 z = z.
Proof. intros Hz. apply wrap_s_id; [lia|]. cbn in *. lia. Qed.

Lemma leadingInt_digits s x rest :
  digits s -> not_digit rest = true -> 0 <= x -> dval x s < 2 ^ 63 ->
  leadingInt x (s .+ rest) = Some (dval x s, rest).
Proof.
  intros Hs Hr. revert x Hs. unfold digits. induction s as [|c s IH]; intros x Hs Hx Hd.
  - destruct rest as [|c rest]; [done|]. cbn in *. by destruct (is_digit c).
  - cbn in Hs. apply andb_prop in Hs as [Hc Hs]. cbn [String.append leadingInt dval] in *. rewrite Hc.
    unfold is_digit, in_range in Hc.
    pose proof (dval_mono (x * 10 + code c - 48) s ltac:(lia) Hs) as Hm.
    replace ((2 ^ 63 - 1) / 10 <? x) with false.
    2:{ symmetry. apply Z.ltb_ge. apply Z.div_le_lower_bound; lia. }
    rewrite to_int64_id by lia. replace (_ <? 0) with false by lia. apply IH; done || lia.
Qed.

Definition scale (k : nat) : spec_float := Nat.iter k (fun s => f_mul s (float64 10)) (float64 1).

Lemma leadingFraction_digits s x k rest :
  digits s -> not_digit rest = true -> 0 <= x -> dval x s < 2 ^ 63 ->
  leadingFraction x (scale k) false (s .+ rest) = (dval x s, scale (String.length s + k), rest).
Proof.
  intros Hs Hr. revert x k Hs. unfold digits. induction s as [|c s IH]; intros x k Hs Hx Hd.
  - destruct rest as [|c rest]; [done|]. cbn in *. by destruct (is_digit c).
  - cbn in Hs. apply andb_prop in Hs as [Hc Hs]. cbn [String.append leadingFraction dval String.length] in *. rewrite Hc.
    unfold is_digit, in_range in Hc.
    pose proof (dval_mono (x * 10 + code c - 48) s ltac:(lia) Hs) as Hm.
    replace ((2 ^ 63 - 1) / 10 <? x) with false.
    2:{ symmetry. apply Z.ltb_ge. apply Z.div_le_lower_bound; lia. }
    rewrite to_int64_id by lia. replace (_ <? 0) with false by lia.
    change (f_mul (scale k) (float64 10)) with (scale (S k)). rewrite IH by (done || lia).
    f_equal. f_equal. f_equal. lia.
Qed.

(** The unit over the scale is a power of ten, exactly. *)
Definition f_isb (x : spec_float) (n : Z) : bool :=
  match x with
  | S754_finite false m e => (e <=? 0) && (Zpos m =? n * 2 ^ (- e))
  | _ => false
  end.
Lemma f_isb_is x n : f_isb x n = true -> f_is x n.
Proof. destruct x as [| | |[] m e]; try done. unfold f_isb. intros H. exists m, e. split; [done|]. lia. Qed.

Lemma scale_div prec k :
  prec ∈ [3; 6; 9]%nat -> (0 < k <= prec)%nat ->
  f_is (f_div (float64 (10 ^ Z.of_nat prec)) (scale k)) (10 ^ (Z.of_nat prec - Z.of_nat k)).
Proof.
  intros Hp Hk. apply f_isb_is.
  assert (forallb (fun prec => forallb (fun k =>
    f_isb (f_div (float64 (10 ^ Z.of_nat prec)) (scale k)) (10 ^ (Z.of_nat prec - Z.of_nat k)))
    (seq 1 prec)) [3; 6; 9]%nat = true) as H by (vm_compute; reflexivity).
  rewrite forallb_forall in H. specialize (H prec ltac:(by apply list_elem_of_In)).
  rewrite forallb_forall in H. apply H. apply in_seq. lia.
Qed.

Lemma span_unit_here u rest :
  str_all (fun c => negb (ends_unit c)) u = true -> next rest = true -> span_unit (u .+ rest) = (u, rest).
Proof.
  intros Hu Hr. induction u as [|c u IH].
  - destruct rest as [|c rest]; [done|]. cbn in *. unfold ends_unit. by rewrite Hr, orb_true_r.
  - cbn in *. apply andb_prop in Hu as [Hc Hu]. destruct (ends_unit c); [done|]. by rewrite IH.
Qed.

Lemma head_unit u rest :
  u <> "" -> str_all (fun c => negb (ends_unit c)) u = true ->
  not_digit (u .+ rest) = true /\ expect 46 (u .+ rest) = None.
Proof.
  destruct u as [|c u]; [done|]. intros _. cbn. unfold ends_unit. destruct (char_is 46 c), (is_digit c); done.
Qed.

(** The value of the fraction, as the doubles compute it. *)
Lemma fraction_exact (prec : nat) s :
  prec ∈ [3; 6; 9]%nat -> 0 < str_len s <= Z.of_nat prec -> 0 < dval 0 s ->
  dval 0 s * 10 ^ (Z.of_nat prec - str_len s) < 10 ^ Z.of_nat prec ->
  f_trunc (f_mul (float64 (dval 0 s)) (f_div (float64 (10 ^ Z.of_nat prec)) (scale (String.length s)))) =
  dval 0 s * 10 ^ (Z.of_nat prec - str_len s).
Proof.
  unfold str_len. intros Hp Hk Hf Hr. set (k := String.length s) in *. set (f := dval 0 s) in *.
  assert (10 ^ Z.of_nat prec <= 10 ^ 9) as H9.
  { apply Z.pow_le_mono_r; [lia|]. set_unfold in Hp. lia. }
  pose proof (Z.pow_pos_nonneg 10 (Z.of_nat prec - Z.of_nat k) ltac:(lia) ltac:(lia)) as Hpos.
  apply f_trunc_is, f_mul_is.
  - apply float64_is. split; [lia|]. nia.
  - apply scale_div; [done|lia].
  - split; [nia|]. lia.
Qed.

Lemma component_spec orig D F (prec : nat) u U r rest d :
  digits D -> D <> "" -> frac F (Z.of_nat prec) r -> prec = 0%nat \/ prec ∈ [3; 6; 9]%nat /\ U = 10 ^ Z.of_nat prec ->
  r < U -> unit_of u = Some U -> u <> "" -> str_all (fun c => negb (ends_unit c)) u = true -> next rest = true ->
  0 <= d -> d + (dval 0 D * U + r) < 2 ^ 63 ->
  component orig (D .+ F .+ u .+ rest) d = inl (d + (dval 0 D * U + r), rest).
Proof.
  intros HD HDne HF HU HrU Hu Hune Hua Hrest Hd Hb.
  set (v := dval 0 D) in *. assert (0 <= v) as Hv by (apply (dval_mono 0 D); done || lia).
  assert (0 <= r) as Hr.
  { destruct HF as [[_ ->]|(s & _ & _ & ? & ? & <-)]; [done|].
    pose proof (Z.pow_nonneg 10 (Z.of_nat prec - str_len s)). nia. }
  assert (v <= v * U) by nia.
  destruct (head_unit u rest Hune Hua) as [Hh1 Hh2].
  assert (not_digit (F .+ u .+ rest) = true) as HFd by (destruct HF as [[-> _]|(s & -> & _)]; done).
  pose proof (leadingInt_digits D 0 (F .+ u .+ rest) HD HFd ltac:(lia) ltac:(fold v; lia)) as HI. fold v in HI.
  assert (exists c s0, D .+ F .+ u .+ rest = String c s0 /\ ends_unit c = true) as (c & s0 & Es & Hc).
  { destruct D as [|c D]; [done|]. unfold digits in HD. cbn in HD. apply andb_prop in HD as [HD _].
    eexists _, _. split; [reflexivity|]. unfold ends_unit. by rewrite HD, orb_true_r. }
  assert (str_len (F .+ u .+ rest) <> str_len (D .+ F .+ u .+ rest)) as Hpre.
  { rewrite (str_len_app D). apply str_len_pos in HDne. lia. }
  unfold component. rewrite Es in HI, Hpre |- *. rewrite Hc, HI. cbn [negb].
  replace (str_len (F .+ u .+ rest) =? _) with false by lia. cbn [negb andb].
  destruct HF as [[-> ->]|(s & -> & Hs & Hl & Hf & <-)].
  - cbn [String.append] in *. rewrite Hh2, (span_unit_here u rest Hua Hrest). rewrite bool_decide_false, Hu by done.
    replace (_ <? v) with false by (symmetry; apply Z.ltb_ge, Z.div_le_lower_bound; lia).
    change (0 <? 0) with false. cbn iota. replace (v * U <? 0) with false by lia.
    rewrite to_int64_id, Z.add_0_r by lia. by replace (d + v * U <? 0) with false by lia.
  - destruct HU as [->|[HU ->]]; [lia|].
    cbn [String.append expect]. change (char_is 46 ".") with true. cbn iota.
    pose proof (leadingFraction_digits s 0 0 (u .+ rest) Hs Hh1 ltac:(lia)) as HL. rewrite Nat.add_0_r in HL.
    change (scale 0) with (float64 1) in HL.
    pose proof (fraction_exact prec s HU Hl Hf HrU) as Hx.
    set (r := dval 0 s * 10 ^ (Z.of_nat prec - str_len s)) in *.
    assert (dval 0 s <= r).
    { unfold r. pose proof (Z.pow_pos_nonneg 10 (Z.of_nat prec - str_len s) ltac:(lia) ltac:(lia)). nia. }
    rewrite HL by lia. rewrite (span_unit_here u rest Hua Hrest), bool_decide_false, Hu by done.
    replace (_ <? v) with false by (symmetry; apply Z.ltb_ge, Z.div_le_lower_bound; lia).
    replace (0 <? dval 0 s) with true by lia. rewrite Hx, (to_int64_id (_ + r)) by lia.
    replace (_ + r <? 0) with false by lia. rewrite to_int64_id by lia.
    by replace (d + _ <? 0) with false by lia.
Qed.

(** * Parsing inverts printing *)

(** The loop on [s], with [d] read before, ends with [z]; [s] starts with digits
and is more than digits. *)
Definition reads (orig s : string) (d z : Z) : Prop :=
  parse_loop (String.length s) orig s d = Some (inl z) /\
  (s = "" \/ exists D X, s = D .+ X /\ digits D /\ D <> "" /\ X <> "").

Lemma reads_next orig s d z : reads orig s d z -> next s = true.
Proof.
  intros [_ [->|(D & X & -> & HD & Hne & _)]]; [done|]. destruct D as [|c D]; [done|].
  unfold digits in HD. cbn in *. by apply andb_prop in HD as [? _].
Qed.

Lemma reads_component orig D F (prec : nat) u U r rest d z :
  digits D -> D <> "" -> frac F (Z.of_nat prec) r -> prec = 0%nat \/ prec ∈ [3; 6; 9]%nat /\ U = 10 ^ Z.of_nat prec ->
  r < U -> (unit_of u = Some U /\ u <> "" /\ str_all (fun c => negb (ends_unit c)) u = true) ->
  0 <= d -> d + (dval 0 D * U + r) < 2 ^ 63 -> reads orig rest (d + (dval 0 D * U + r)) z ->
  reads orig (D .+ F .+ u .+ rest) d z.
Proof.
  intros HD HDne HF HU Hr (Hu & Hune & Hua) Hd Hb Hrest. split.
  - rewrite parse_loop_eq by (by destruct D).
    rewrite (component_spec orig D F prec u U r rest d) by (done || by eapply reads_next). apply Hrest.
  - right. exists D, (F .+ u .+ rest). split_and!; try done. destruct HF as [[-> _]|(s & -> & _)]; [by destruct u|done].
Qed.

Lemma reads_end orig d : reads orig "" d d.
Proof. split; [done|]. by left. Qed.

(** A whole number of a unit. *)
Lemma reads_int orig v u U rest d z :
  0 <= v < 2 ^ 64 -> 0 < U -> unit_of u = Some U /\ u <> "" /\ str_all (fun c => negb (ends_unit c)) u = true ->
  0 <= d -> d + v * U < 2 ^ 63 -> reads orig rest (d + v * U) z -> reads orig (fmtInt v (u .+ rest)) d z.
Proof.
  intros Hv HU Hu Hd Hb Hrest. destruct (fmtInt_spec v (u .+ rest) Hv) as (D & -> & HD & <- & HDne).
  apply (reads_component orig D "" 0 u U 0 rest d z); try done; try lia; [by left|].
  by rewrite Z.add_0_r.
Qed.

Lemma reads_fraction orig v F (prec : nat) u U r d :
  0 <= v < 2 ^ 64 -> frac F (Z.of_nat prec) r -> prec ∈ [3; 6; 9]%nat /\ U = 10 ^ Z.of_nat prec -> r < U ->
  unit_of u = Some U /\ u <> "" /\ str_all (fun c => negb (ends_unit c)) u = true ->
  0 <= d -> d + (v * U + r) < 2 ^ 63 -> reads orig (fmtInt v (F .+ u)) d (d + (v * U + r)).
Proof.
  intros Hv HF HU Hr Hu Hd Hb. destruct (fmtInt_spec v (F .+ u) Hv) as (D & -> & HD & <- & HDne).
  rewrite <-(str_app_nil u). apply (reads_component orig D F prec u U r "" d); try done.
  - by right.
  - apply reads_end.
Qed.

Lemma reads_fmtUnit orig prec u unit U :
  0 <= u < 2 ^ 63 -> prec ∈ [3; 6; 9]%nat /\ U = 10 ^ Z.of_nat prec ->
  unit_of unit = Some U /\ unit <> "" /\ str_all (fun c => negb (ends_unit c)) unit = true ->
  reads orig (fmtUnit prec u unit) 0 u.
Proof.
  intros Hu HU Hunit. unfold fmtUnit. destruct (fmtFrac_spec prec u unit ltac:(lia)) as (F & -> & HF).
  destruct HU as [Hp ->]. set (U := 10 ^ Z.of_nat prec) in *.
  assert (0 < U) by (apply Z.pow_pos_nonneg; lia).
  pose proof (Z.div_mod u U ltac:(lia)) as Hdm. pose proof (Z.mod_pos_bound u U ltac:(lia)).
  pose proof (Z.div_pos u U ltac:(lia) ltac:(lia)).
  assert (0 + (u / U * U + u mod U) = u) as E by lia. rewrite <-E at 2.
  apply (reads_fraction orig (u / U) F prec unit U); try done; lia || nia.
Qed.

Ltac seconds := unfold Hour, Minute, Second in *; lia.

Lemma reads_fmtSeconds orig u : 0 <= u < 2 ^ 63 -> reads orig (fmtSeconds u) 0 u.
Proof.
  intros Hu. unfold fmtSeconds. destruct (fmtFrac_spec 9 u "s" ltac:(lia)) as (F & -> & HF).
  change (10 ^ Z.of_nat 9) with Second in *. set (sec := u / Second).
  pose proof (Z.div_mod u Second ltac:(done)) as E1. fold sec in E1.
  pose proof (Z.div_mod sec 60 ltac:(done)) as E2. pose proof (Z.div_mod (sec / 60) 60 ltac:(done)) as E3.
  pose proof (Z.mod_pos_bound u Second ltac:(done)). pose proof (Z.mod_pos_bound sec 60 ltac:(done)).
  pose proof (Z.mod_pos_bound (sec / 60) 60 ltac:(done)).
  assert (0 <= sec) by (apply Z.div_pos; unfold Second; lia).
  assert (0 <= sec / 60) by (apply Z.div_pos; lia). assert (0 <= sec / 60 / 60) by (apply Z.div_pos; lia).
  unfold Second in E1.
  assert (forall d, 0 <= d -> d + (sec mod 60 * Second + u mod Second) = u ->
    reads orig (fmtInt (sec mod 60) (F .+ "s")) d u) as Hs.
  { intros d Hd Ed. rewrite <-Ed. apply (reads_fraction orig (sec mod 60) F 9 "s" Second); try done; try seconds.
    split; [set_solver|done]. }
  destruct (0 <? sec / 60) eqn:Em; [|apply Hs; seconds].
  assert (forall d, 0 <= d -> d + (sec / 60 mod 60 * Minute + (sec mod 60 * Second + u mod Second)) = u ->
    reads orig (fmtInt (sec / 60 mod 60) ("m" .+ fmtInt (sec mod 60) (F .+ "s"))) d u) as Hm.
  { intros d Hd Ed. apply (reads_int orig _ "m" Minute); try done; try seconds.
    apply Hs; seconds. }
  destruct (0 <? sec / 60 / 60) eqn:Eh; [|apply Hm; seconds].
  apply (reads_int orig _ "h" Hour); try done; try seconds.
  apply Hm; seconds.
Qed.

Lemma reads_body orig u : 0 < u < 2 ^ 63 -> reads orig (body u) 0 u.
Proof.
  intros Hu. unfold body. destruct (u <? Second); [|apply reads_fmtSeconds; lia].
  replace (u =? 0) with false by lia. destruct (u <? Microsecond).
  - unfold fmtUnit. cbn [fmtFrac]. apply (reads_int orig u "ns" 1 "" 0 u); try done; try lia.
    replace (0 + u * 1) with u by lia. apply reads_end.
  - destruct (u <? Millisecond); [apply (reads_fmtUnit _ _ _ _ Microsecond)|apply (reads_fmtUnit _ _ _ _ Millisecond)];
      try done; try lia; (split; [set_solver|done]).
Qed.

Lemma reads_head orig s d z :
  reads orig s d z -> s <> "" -> s <> "0" /\ expect 45 s = None /\ expect 43 s = None.
Proof.
  intros [_ [->|(D & X & -> & HD & HDne & HX)]] Hs; [done|]. destruct D as [|c D]; [done|].
  unfold digits in HD. cbn in HD. apply andb_prop in HD as [HD _]. split.
  - cbn. intros [= _ E]. destruct D, X; done.
  - cbn. unfold is_digit, in_range, char_is in *. split; by rewrite (proj2 (Z.eqb_neq _ _)) by lia.
Qed.

Lemma magnitude_abs d : - 2 ^ 63 <= d < 2 ^ 63 -> magnitude d = Z.abs d.
Proof.
  intros Hd. unfold magnitude, to_uint64, wrap_u. destruct (d <? 0) eqn:E; [|rewrite Z.mod_small; lia].
  rewrite <-(Z.mod_add d 1), (Z.mod_small (d + _)) by lia.
  rewrite <-(Z.mod_add (- _) 1), Z.mod_small by lia. lia.
Qed.

Lemma ParseDuration_String d :
  - 2 ^ 63 < d < 2 ^ 63 -> ParseDuration (Duration_String d) = Some (inl d).
Proof.
  intros Hd. destruct (decide (d = 0)) as [->|Hne]; [vm_compute; reflexivity|].
  unfold Duration_String. rewrite magnitude_abs by lia. set (u := Z.abs d).
  assert (0 < u < 2 ^ 63) as Hu' by lia.
  unfold ParseDuration. destruct (d <? 0) eqn:E.
  - destruct (reads_body ("-" .+ body u) u Hu') as [Hr Hs].
    set (orig := "-" .+ body u) in *. change (expect 45 orig) with (Some (body u)). cbn iota.
    assert (body u <> "") as Hne' by (intros Eb; rewrite Eb in Hr; injection Hr; lia).
    destruct (reads_head _ _ _ _ (conj Hr Hs) Hne') as [Hb _].
    rewrite !bool_decide_false, Hr by done. do 2 f_equal. unfold to_int64. rewrite wrap_s_id by lia. lia.
  - destruct (reads_body (body u) u Hu') as [Hr Hs].
    assert (body u <> "") as Hne' by (intros Eb; rewrite Eb in Hr; injection Hr; lia).
    destruct (reads_head _ _ _ _ (conj Hr Hs) Hne') as (Hb & -> & ->).
    rewrite !bool_decide_false, Hr by done. do 2 f_equal. lia.
Qed.

(** * The range of what is parsed *)

Lemma parse_loop_range n orig s d z :
  0 <= d < 2 ^ 63 -> parse_loop n orig s d = Some (inl z) -> 0 <= z < 2 ^ 63.
Proof.
  revert s d. induction n as [|n IH]; intros s d Hd; cbn [parse_loop]; [destruct s; naive_solver|].
  destruct s as [|c s]; [naive_solver|]. destruct (component orig (String c s) d) as [[d' s']|e] eqn:E; [|done].
  intros Hz. apply (IH s' d'); [|done]. revert E. unfold component.
  destruct (negb (ends_unit c)); [done|]. destruct (leadingInt 0 _) as [[v s1]|]; [|done].
  destruct (match expect 46 s1 with Some _ => _ | None => _ end) as [[[f sc] s2] post].
  destruct (_ && _); [done|]. destruct (span_unit s2) as [u s3]. case_bool_decide; [done|].
  destruct (unit_of u) as [U|]; [|done]. destruct (_ <? v); [done|].
  set (w := if 0 <? f then _ else _). destruct (w <? 0); [done|].
  destruct (to_int64 (d + w) <? 0) eqn:E; [done|]. intros [= <- _].
  pose proof (wrap_s_range 64 (d + w) ltac:(lia)) as Hw. unfold to_int64 in *. lia.
Qed.

Lemma ParseDuration_range s z : ParseDuration s = Some (inl z) -> - 2 ^ 63 <= z < 2 ^ 63.
Proof.
  unfold ParseDuration. destruct (match expect 45 s with Some _ => _ | None => _ end) as [neg s'].
  case_bool_decide; [by intros [= <-]|]. case_bool_decide; [done|].
  destruct (parse_loop (String.length s') s s' 0) as [[d|e]|] eqn:E; [|done..].
  apply parse_loop_range in E; [|lia]. intros [= <-].
  pose proof (wrap_s_range 64 (- d) ltac:(lia)) as Hw. unfold to_int64. destruct neg; lia.
Qed.
