(* ===== verification/Decode.v ===== *)
(** encoding/json where the text of a value matters: values that remember the
text they were read from, for the types that have an [UnmarshalJSON] of their own,
and the decoding of nested structs, slices and quoted booleans. *)

From S2P Require Import Prelude GoText Json.
Local Open Scope Z_scope.

(** * Values with their text *)

#[warnings="-register-all"]
Inductive rjson :=
  | RScalar (raw : string) (v : json)
  | RArray (raw : string) (l : list rjson)
  | RObject (raw : string) (ms : list (string * rjson)).

Definition raw_text (r : rjson) : string :=
  match r with RScalar raw _ | RArray raw _ | RObject raw _ => raw end.

Fixpoint erase (r : rjson) : json :=
  match r with
  | RScalar _ v => v
  | RArray _ l => JArray (map erase l)
  | RObject _ ms => JObject (map (fun kv => (kv.1, erase kv.2)) ms)
  end.

(** The text of the value at the start of [s] that ends where [rest] begins. *)
Definition raw_of (s rest : string) : string :=
  let t := skip_ws s in str_take (String.length t - String.length rest) t.

Fixpoint r_value (fuel : nat) (s : string) : option (rjson * string) :=
  match fuel with
  | O => None
  | S n =>
      match skip_ws s with
      | EmptyString => None
      | String c s1 =>
          if char_is 123 c then
            match expect 125 (skip_ws s1) with
            | Some s2 => Some (RObject (raw_of s s2) [], s2)
            | None => match r_members n s1 with
                      | Some (ms, s2) => Some (RObject (raw_of s s2) ms, s2)
                      | None => None
                      end
            end
          else if char_is 91 c then
            match expect 93 (skip_ws s1) with
            | Some s2 => Some (RArray (raw_of s s2) [], s2)
            | None => match r_elems n s1 with
                      | Some (l, s2) => Some (RArray (raw_of s s2) l, s2)
                      | None => None
                      end
            end
          else match p_value (S n) s with
               | Some (v, s2) => Some (RScalar (raw_of s s2) v, s2)
               | None => None
               end
      end
  end
with r_elems (fuel : nat) (s : string) : option (list rjson * string) :=
  match fuel with
  | O => None
  | S n =>
      match r_value n s with
      | None => None
      | Some (v, s1) =>
          match expect 93 (skip_ws s1) with
          | Some s2 => Some ([v], s2)
          | None =>
              match expect 44 (skip_ws s1) with
              | None => None
              | Some s2 => match r_elems n s2 with
                           | Some (l, s3) => Some (v :: l, s3)
                           | None => None
                           end
              end
          end
      end
  end
with r_members (fuel : nat) (s : string) : option (list (string * rjson) * string) :=
  match fuel with
  | O => None
  | S n =>
      match expect 34 (skip_ws s) with
      | None => None
      | Some s0 =>
          match p_chars (S (String.length s0)) s0 with
          | None => None
          | Some (k, s1) =>
              match expect 58 (skip_ws s1) with
              | None => None
              | Some s2 =>
                  match r_value n s2 with
                  | None => None
                  | Some (v, s3) =>
                      match expect 125 (skip_ws s3) with
                      | Some s4 => Some ([(k, v)], s4)
                      | None =>
                          match expect 44 (skip_ws s3) with
                          | None => None
                          | Some s4 => match r_members n s4 with
                                       | Some (ms, s5) => Some ((k, v) :: ms, s5)
                                       | None => None
                                       end
                          end
                      end
                  end
              end
          end
      end
  end.

Definition json_annotate (s : string) : option rjson :=
  match r_value (json_fuel s) s with
  | Some (r, rest) => match skip_ws rest with EmptyString => Some r | _ => None end
  | None => None
  end.

(** * Decoding

A decoder stores a value over an old one. A mismatch of types is remembered
while the decoding goes on; an error of an [UnmarshalJSON] ends it. *)

Inductive decoded (A : Type) :=
  | Done (a : A) (saved : option error)
  | Halted (a : A) (e : error).
Arguments Done {A}.
Arguments Halted {A}.

Definition decoder (A : Type) : Type := rjson -> A -> decoded A.

Definition plain {A} (set : json -> A -> A * option error) : decoder A := fun r old =>
  let '(a, e) := set (erase r) old in Done a e.

(** A type with [UnmarshalJSON], which gets the text, null included. *)
Definition unmarshaler {A} (UnmarshalJSON : bytes -> A -> A * option error) : decoder A := fun r old =>
  match UnmarshalJSON (bytes_of_string (raw_text r)) old with
  | (a, None) => Done a None
  | (a, Some e) => Halted a e
  end.

(** A boolean with the option [string]: a JSON value inside a JSON string. *)
Definition quoted_bool : decoder bool := plain (fun j old =>
  match j with
  | JString t => if bool_decide (t = "true") then (true, None)
                 else if bool_decide (t = "false") then (false, None)
                 else if bool_decide (t = "null") then (old, None)
                 else (old, Some EJsonType)
  | JNull => (old, None)
  | _ => (old, Some EJsonType)
  end).

(** Into a slice: every element goes over the one the slice had at its place, or
over a zero value. *)
Fixpoint slice_elems {A} (elem : decoder A) (zero : A) (l : list rjson) (old : list A)
    (err : option error) : decoded (list A) :=
  match l with
  | [] => Done [] err
  | r :: l' =>
      match elem r (default zero (head old)) with
      | Halted a e => Halted (a :: tail old) e
      | Done a e =>
          match slice_elems elem zero l' (tail old) (first_error err e) with
          | Done rest err => Done (a :: rest) err
          | Halted rest e => Halted (a :: rest) e
          end
      end
  end.

Definition slice {A} (elem : decoder A) (zero : A) : decoder (list A) := fun r old =>
  match r with
  | RArray _ l => slice_elems elem zero l old None
  | RScalar _ JNull => Done [] None
  | _ => Done old (Some EJsonType)
  end.

Record rfield (S : Type) := mk_rfield { rf_name : string; rf_dec : decoder S }.
Arguments mk_rfield {S}.
Arguments rf_name {S}.
Arguments rf_dec {S}.

(** A field given by its projection and its update. *)
Definition rlens {S A} (name : string) (proj : S -> A) (upd : S -> A -> S) (dec : decoder A) : rfield S :=
  mk_rfield name (fun r s =>
    match dec r (proj s) with
    | Done a e => Done (upd s a) e
    | Halted a e => Halted (upd s a) e
    end).

Definition find_rfield {S} (fs : list (rfield S)) (k : string) : option (rfield S) :=
  match List.find (fun f => bool_decide (rf_name f = k)) fs with
  | Some f => Some f
  | None => List.find (fun f => bool_decide (fold_key (rf_name f) = fold_key k)) fs
  end.

Fixpoint struct_members {S} (fs : list (rfield S)) (ms : list (string * rjson)) (s : S)
    (err : option error) : decoded S :=
  match ms with
  | [] => Done s err
  | (k, r) :: ms' =>
      match find_rfield fs k with
      | None => struct_members fs ms' s err
      | Some f =>
          match rf_dec f r s with
          | Done s e => struct_members fs ms' s (first_error err e)
          | Halted s e => Halted s e
          end
      end
  end.

Definition struct {S} (fs : list (rfield S)) : decoder S := fun r old =>
  match r with
  | RObject _ ms => struct_members fs ms old None
  | RScalar _ JNull => Done old None
  | _ => Done old (Some EJsonType)
  end.

(** [json.Unmarshal(b, &s)] *)
Definition Unmarshal {S} (dec : decoder S) (b : bytes) (s : S) : S * option error :=
  match json_annotate (string_of_bytes b) with
  | None => (s, Some EJsonSyntax)
  | Some r => match dec r s with
              | Done s e => (s, e)
              | Halted s e => (s, Some e)
              end
  end.

(** * Lemmas *)

(** The values with text are the values. *)
Lemma r_erase n :
  (forall s, p_value n s = (fun '(r, rest) => (erase r, rest)) <$> r_value n s) /\
  (forall s, p_elems n s = (fun '(l, rest) => (map erase l, rest)) <$> r_elems n s) /\
  (forall s, p_members n s =
     (fun '(ms, rest) => (map (fun kv => (kv.1, erase kv.2)) ms, rest)) <$> r_members n s).
Proof.
  induction n as [|n (IHv & IHe & IHm)]; [done|]. split_and!; intros s.
  - cbn [p_value r_value]. destruct (skip_ws s) as [|c s1]; [done|].
    destruct (char_is 123 c) eqn:E1.
    { destruct (expect 125 (skip_ws s1)); [done|]. rewrite IHm. by destruct (r_members n s1) as [[ms s2]|]. }
    destruct (char_is 91 c) eqn:E2.
    { destruct (expect 93 (skip_ws s1)); [done|]. rewrite IHe. by destruct (r_elems n s1) as [[ms s2]|]. }
    by repeat case_match.
  - cbn [p_elems r_elems]. rewrite IHv. destruct (r_value n s) as [[v s1]|]; [|done]. cbn.
    destruct (expect 93 (skip_ws s1)); [done|]. destruct (expect 44 (skip_ws s1)) as [s2|]; [|done].
    rewrite IHe. by destruct (r_elems n s2) as [[l s3]|].
  - cbn [p_members r_members]. destruct (expect 34 (skip_ws s)) as [s0|]; [|done].
    destruct (p_chars _ s0) as [[k s1]|]; [|done]. destruct (expect 58 (skip_ws s1)) as [s2|]; [|done].
    rewrite IHv. destruct (r_value n s2) as [[v s3]|]; [|done]. cbn.
    destruct (expect 125 (skip_ws s3)); [done|]. destruct (expect 44 (skip_ws s3)) as [s4|]; [|done].
    rewrite IHm. by destruct (r_members n s4) as [[ms s5]|].
Qed.

Lemma json_annotate_parse s : json_parse s = erase <$> json_annotate s.
Proof.
  unfold json_parse, json_annotate. destruct (r_erase (json_fuel s)) as [H _]. rewrite H.
  destruct (r_value (json_fuel s) s) as [[r rest]|]; [|done]. cbn. by destruct (skip_ws rest).
Qed.

(** On structs of plain fields the two ways to decode agree. *)
Definition as_rfield {S} (f : field S) : rfield S := mk_rfield (f_name f) (plain (f_set f)).

Lemma find_as_rfield {S} (fs : list (field S)) k :
  find_rfield (map as_rfield fs) k = as_rfield <$> find_field fs k.
Proof.
  assert (forall p : string -> bool,
    List.find (fun f => p (rf_name f)) (map as_rfield fs) =
    as_rfield <$> List.find (fun f => p (f_name f)) fs) as H.
  { intros p. induction fs as [|f fs IH]; [done|]. cbn. destruct (p (f_name f)); [done|]. apply IH. }
  unfold find_rfield, find_field. pose proof (H (fun n => bool_decide (n = k))) as H1.
  pose proof (H (fun n => bool_decide (fold_key n = fold_key k))) as H2. cbn beta in H1, H2. rewrite H1, H2.
  by destruct (List.find _ fs).
Qed.

Lemma struct_members_plain {S} (fs : list (field S)) ms s err :
  struct_members (map as_rfield fs) ms s err =
  let '(s, e) := decode_members fs (map (fun kv => (kv.1, erase kv.2)) ms) s err in Done s e.
Proof.
  revert s err. induction ms as [|[k r] ms IH]; intros s err; [done|]. cbn.
  rewrite find_as_rfield. destruct (find_field fs k) as [f|]; [|apply IH]. cbn. unfold plain.
  destruct (f_set f (erase r) s) as [s' e]. apply IH.
Qed.

Lemma annotate_scalar s raw v : json_annotate s = Some (RScalar raw v) -> forall ms, v <> JObject ms.
Proof.
  unfold json_annotate. destruct (r_value (json_fuel s) s) as [[r rest]|] eqn:E; [|done].
  destruct (skip_ws rest); [|done]. intros [= ->]. revert E. unfold json_fuel.
  rewrite Nat.add_comm. cbn [Nat.add r_value]. destruct (skip_ws s) as [|c s1] eqn:Ew; [done|].
  destruct (char_is 123 c) eqn:Ec; [repeat case_match; done|].
  destruct (char_is 91 c) eqn:Ec2; [repeat case_match; done|].
  cbn [p_value]. rewrite Ew, Ec, Ec2. unfold p_literal. repeat (case_match; try done); naive_solver.
Qed.

Lemma Unmarshal_plain {S} (fs : list (field S)) b s :
  Unmarshal (struct (map as_rfield fs)) b s = json_Unmarshal fs b s.
Proof.
  unfold Unmarshal, json_Unmarshal. rewrite json_annotate_parse.
  destruct (json_annotate (string_of_bytes b)) as [[raw v|raw l|raw ms]|] eqn:E; cbn; try done.
  - pose proof (annotate_scalar _ _ _ E) as H. destruct v; try done. by destruct (H ms).
  - rewrite struct_members_plain. by destruct (decode_members fs _ s None).
Qed.

#[global] Arguments json_annotate : simpl never.

(** ** What decoding keeps

A predicate of the old value holds of the new one, whatever the text is and
however the decoding ends. *)
Definition keeps {A} (P : A -> Prop) (dec : decoder A) : Prop := forall r a,
  P a -> match dec r a with Done a _ | Halted a _ => P a end.

Lemma keeps_True {A} (dec : decoder A) : keeps (fun _ => True) dec.
Proof. intros r a _. by destruct (dec r a). Qed.

Lemma keeps_int64 : keeps (fun z => - 2 ^ 63 <= z < 2 ^ 63) (plain set_int64).
Proof.
  intros r a Ha. unfold plain, set_int64. destruct (erase r); try done.
  destruct (parse_int lit) as [z|]; [|done]. destruct (_ && _) eqn:E; [|done]. lia.
Qed.

Lemma keeps_unmarshaler {A} (P : A -> Prop) um :
  (forall b a, P a -> P (um b a).1) -> keeps P (unmarshaler um).
Proof.
  intros H r a Ha. unfold unmarshaler. specialize (H (bytes_of_string (raw_text r)) a Ha).
  by destruct (um _ a) as [a' [e|]].
Qed.

Lemma keeps_rlens {S A} (P : S -> Prop) (Q : A -> Prop) name proj upd dec :
  (forall s, P s -> Q (proj s)) -> (forall s a, P s -> Q a -> P (upd s a)) -> keeps Q dec ->
  keeps P (rf_dec (rlens name proj upd dec)).
Proof.
  intros Hp Hu Hd r s Hs. cbn. specialize (Hd r (proj s) (Hp s Hs)). destruct (dec r (proj s)); by apply Hu.
Qed.

Lemma find_rfield_In {S} (fs : list (rfield S)) k f : find_rfield fs k = Some f -> In f fs.
Proof.
  unfold find_rfield. destruct (List.find _ fs) as [g|] eqn:E.
  - intros [= <-]. by apply find_some in E as [? _].
  - intros Hf. by apply find_some in Hf as [? _].
Qed.

Lemma keeps_struct {S} (P : S -> Prop) fs : Forall (fun f => keeps P (rf_dec f)) fs -> keeps P (struct fs).
Proof.
  intros Hfs. assert (forall ms s err, P s ->
    match struct_members fs ms s err with Done s _ | Halted s _ => P s end) as H.
  { induction ms as [|[k r] ms IH]; intros s err Hs; cbn; [done|].
    destruct (find_rfield fs k) as [f|] eqn:E; [|by apply IH].
    apply find_rfield_In in E. rewrite List.Forall_forall in Hfs. specialize (Hfs f E r s Hs).
    destruct (rf_dec f r s); [by apply IH|done]. }
  intros r s Hs. destruct r as [raw []|raw l|raw ms]; try done. by apply H.
Qed.

Lemma keeps_Unmarshal {S} (P : S -> Prop) dec b s : keeps P dec -> P s -> P (Unmarshal dec b s).1.
Proof.
  intros Hd Hs. unfold Unmarshal. destruct (json_annotate _) as [r|]; [|done].
  specialize (Hd r s Hs). by destruct (dec r s).
Qed.

#[export] Hint Resolve keeps_True keeps_int64 : go.
