(* ===== verification/ProtoDef.v ===== *)
(** The interfaces of common/datadef and the conventions of protodef: reading
a body into a value, writing a value to a body. *)

From S2P Require Import Prelude GoText Json.
Local Open Scope Z_scope.

(** * common/datadef *)

Class Valider (A : Type) := Valid : A -> bool.
(** [Marshal() ([]byte, error)] *)
Class Marshaler (A : Type) := Marshal : A -> bytes * option error.
(** [Unmarshal([]byte) error] on a pointer receiver: the value after the call
and the error. *)
Class Unmarshaler (A : Type) := Unmarshal : bytes -> A -> A * option error.
Class ValidMarshaler (A : Type) := {
  vm_Valider :: Valider A;
  vm_Marshaler :: Marshaler A;
}.
Class ValidUnmarshaler (A : Type) := {
  vu_Valider :: Valider A;
  vu_Unmarshaler :: Unmarshaler A;
}.

(** * protodef *)

Definition CodeResponseOK : Z := 1.
Definition BodyResponseOK : string := js "{'code':1}".
Definition CodeResponseRunOut : Z := 2.
Definition InfoResponseRunOut : string := "run out".
Definition BodyResponseRunOut : string := js "{'code':2,'info':'run out'}".
Definition CheckStatusApi : string := "/checkstatus".
Definition DefaultRequestContentType : string := "application/json; charset=utf-8".
Definition DefaultResponseContentType : string := "application/json; charset=utf-8".

(** What [ioutil.ReadAll] returns for a reader. *)
Record io_Reader := { read_all : bytes; read_err : option error }.

Section ReadWrite.
Context {A : Type}.

Definition ReadUnmarshal `{Unmarshaler A} (r : io_Reader) (o : A) : A * option error :=
  match read_err r with
  | Some err => (o, Some err)
  | None =>
      match Unmarshal (read_all r) o with
      | (o', Some err) => (o', Some err)
      | (o', None) => (o', None)
      end
  end.

Definition ReadUnmarshalValid `{ValidUnmarshaler A} (r : io_Reader) (o : A)
    : A * option error :=
  match read_err r with
  | Some err => (o, Some err)
  | None =>
      match Unmarshal (read_all r) o with
      | (o', Some err) => (o', Some err)
      | (o', None) => if Valid o' then (o', None) else (o', Some (EDef ErrParameter))
      end
  end.

(** A writer by its [Write]: the writer after the call and the error. *)
Definition MarshalWrite `{Marshaler A} {W} (Write : W -> bytes -> W * option error)
    (w : W) (o : A) : W * option error :=
  match Marshal o with
  | (_, Some err) => (w, Some err)
  | (b, None) => Write w b
  end.

End ReadWrite.

(** A [bytes.Buffer] as a writer. *)
Definition buffer_Write (w b : bytes) : bytes * option error := (w ++ b, None).

(** * Properties *)

(** The two bodies are what marshalling their codes and text gives. *)
Theorem response_bodies :
  json_print (JObject [("code", JInt CodeResponseOK)]) = BodyResponseOK /\
  json_print (JObject [("code", JInt CodeResponseRunOut); ("info", JString InfoResponseRunOut)]) = BodyResponseRunOut.
Proof. vm_compute. split; reflexivity. Qed.

(** [ReadUnmarshalValid] succeeds exactly when the body is read, is a value, and the value
is valid; the value is kept in any case. *)
Theorem ReadUnmarshalValid_spec `{ValidUnmarshaler A} r (o o' : A) :
  ReadUnmarshalValid r o = (o', None) <->
  read_err r = None /\ Unmarshal (read_all r) o = (o', None) /\ Valid o' = true.
Proof.
  unfold ReadUnmarshalValid. destruct (read_err r) as [e|]; [naive_solver|].
  destruct (Unmarshal (read_all r) o) as [o1 [e|]]; [naive_solver|].
  destruct (Valid o1) eqn:Hv; naive_solver congruence.
Qed.
