(* ===== verification/Protocol.v ===== *)
(** The connector's protocol (protodef/pconnector): the messages clients send,
the message the router publishes and its [Unmarshal], the message pushed to
clients and its [Marshal], which compresses once and keeps the result. *)

From S2P Require Import Prelude GoText Json ProtoDef.
Local Open Scope Z_scope.

(** * Message types *)

Definition MsgTypeRegister : Z := 0.
Definition MsgTypeChat : Z := 1.
Definition MsgTypeEnterRoom : Z := 4.
Definition MsgTypeRefreshToken : Z := 10.
Definition MsgTypeHeartBeat : Z := 11.
Definition MsgTypePush : Z := 30001.

(** * From clients *)

Record Register := {
  rg_UserId : string;
  rg_Token : string;
  rg_ClientToConnectorVersion : Z;
}.
Record RefreshToken := { rt_Token : string }.
Record HeartBeat := { hb_ClientTime : Z }.
Record Chat := {
  ch_RoomId : string;
  ch_Content : string;
  ch_Nickname : string;
  ch_Level : Z;
  ch_ClientTime : Z;
}.
Record EnterRoom := { er_RoomId : string; er_Nickname : string; er_Level : Z }.

(** The zero values of [var x T]. *)
Definition zero_Register : Register := Build_Register "" "" 0.
Definition zero_RefreshToken : RefreshToken := Build_RefreshToken "".
Definition zero_HeartBeat : HeartBeat := Build_HeartBeat 0.
Definition zero_Chat : Chat := Build_Chat "" "" "" 0 0.
Definition zero_EnterRoom : EnterRoom := Build_EnterRoom "" "" 0.

(** Their fields under the names encoding/json gives them. *)
Definition Register_fields : list (field Register) :=
  [ lens_field "UserId" rg_UserId
      (fun r x => Build_Register x (rg_Token r) (rg_ClientToConnectorVersion r)) set_string;
    lens_field "Token" rg_Token
      (fun r x => Build_Register (rg_UserId r) x (rg_ClientToConnectorVersion r)) set_string;
    lens_field "ClientToConnectorVersion" rg_ClientToConnectorVersion
      (fun r x => Build_Register (rg_UserId r) (rg_Token r) x) set_int64 ].
Definition RefreshToken_fields : list (field RefreshToken) :=
  [ lens_field "Token" rt_Token (fun _ x => Build_RefreshToken x) set_string ].
Definition HeartBeat_fields : list (field HeartBeat) :=
  [ lens_field "ClientTime" hb_ClientTime (fun _ x => Build_HeartBeat x) set_int64 ].
Definition Chat_fields : list (field Chat) :=
  [ lens_field "RoomId" ch_RoomId
      (fun c x => Build_Chat x (ch_Content c) (ch_Nickname c) (ch_Level c) (ch_ClientTime c)) set_string;
    lens_field "Content" ch_Content
      (fun c x => Build_Chat (ch_RoomId c) x (ch_Nickname c) (ch_Level c) (ch_ClientTime c)) set_string;
    lens_field "Nickname" ch_Nickname
      (fun c x => Build_Chat (ch_RoomId c) (ch_Content c) x (ch_Level c) (ch_ClientTime c)) set_string;
    lens_field "Level" ch_Level
      (fun c x => Build_Chat (ch_RoomId c) (ch_Content c) (ch_Nickname c) x (ch_ClientTime c)) set_int64;
    lens_field "ClientTime" ch_ClientTime
      (fun c x => Build_Chat (ch_RoomId c) (ch_Content c) (ch_Nickname c) (ch_Level c) x) set_int64 ].
Definition EnterRoom_fields : list (field EnterRoom) :=
  [ lens_field "RoomId" er_RoomId (fun e x => Build_EnterRoom x (er_Nickname e) (er_Level e)) set_string;
    lens_field "Nickname" er_Nickname (fun e x => Build_EnterRoom (er_RoomId e) x (er_Level e)) set_string;
    lens_field "Level" er_Level (fun e x => Build_EnterRoom (er_RoomId e) (er_Nickname e) x) set_int64 ].

#[export] Instance Register_Unmarshal : Unmarshaler Register := json_Unmarshal Register_fields.
#[export] Instance RefreshToken_Unmarshal : Unmarshaler RefreshToken := json_Unmarshal RefreshToken_fields.
#[export] Instance HeartBeat_Unmarshal : Unmarshaler HeartBeat := json_Unmarshal HeartBeat_fields.
#[export] Instance Chat_Unmarshal : Unmarshaler Chat := json_Unmarshal Chat_fields.
#[export] Instance EnterRoom_Unmarshal : Unmarshaler EnterRoom := json_Unmarshal EnterRoom_fields.

Definition Register_json (r : Register) : list (string * json) :=
  [ ("UserId", JString (rg_UserId r)); ("Token", JString (rg_Token r));
    ("ClientToConnectorVersion", JInt (rg_ClientToConnectorVersion r)) ].
#[export] Instance Register_Marshal : Marshaler Register :=
  fun r => (json_Marshal (JObject (Register_json r)), None).

(** * From the router *)

Record FromRouterMessage := {
  fr_MessageId : string;
  fr_Time : Z;
  fr_TimeText : string;
  fr_ToUserId : string;
  fr_ToRoomId : string;
  fr_Params : gomap string;
  fr_UserId : string;
  fr_RoomId : string;
  fr_Content : string;
}.

Definition zero_FromRouterMessage : FromRouterMessage :=
  Build_FromRouterMessage "" 0 "" "" "" None "" "" "".

Definition set_fr_ToUserId (m : FromRouterMessage) (x : string) : FromRouterMessage :=
  Build_FromRouterMessage (fr_MessageId m) (fr_Time m) (fr_TimeText m) x (fr_ToRoomId m)
    (fr_Params m) (fr_UserId m) (fr_RoomId m) (fr_Content m).
Definition set_fr_ToRoomId (m : FromRouterMessage) (x : string) : FromRouterMessage :=
  Build_FromRouterMessage (fr_MessageId m) (fr_Time m) (fr_TimeText m) (fr_ToUserId m) x
    (fr_Params m) (fr_UserId m) (fr_RoomId m) (fr_Content m).

Definition FromRouterMessage_fields : list (field FromRouterMessage) :=
  [ lens_field "messageId" fr_MessageId
      (fun m x => Build_FromRouterMessage x (fr_Time m) (fr_TimeText m) (fr_ToUserId m) (fr_ToRoomId m)
        (fr_Params m) (fr_UserId m) (fr_RoomId m) (fr_Content m)) set_string;
    lens_field "time" fr_Time
      (fun m x => Build_FromRouterMessage (fr_MessageId m) x (fr_TimeText m) (fr_ToUserId m) (fr_ToRoomId m)
        (fr_Params m) (fr_UserId m) (fr_RoomId m) (fr_Content m)) set_int64;
    lens_field "timeText" fr_TimeText
      (fun m x => Build_FromRouterMessage (fr_MessageId m) (fr_Time m) x (fr_ToUserId m) (fr_ToRoomId m)
        (fr_Params m) (fr_UserId m) (fr_RoomId m) (fr_Content m)) set_string;
    lens_field "toUserId" fr_ToUserId set_fr_ToUserId set_string;
    lens_field "toRoomId" fr_ToRoomId set_fr_ToRoomId set_string;
    lens_field "params" fr_Params
      (fun m x => Build_FromRouterMessage (fr_MessageId m) (fr_Time m) (fr_TimeText m) (fr_ToUserId m)
        (fr_ToRoomId m) x (fr_UserId m) (fr_RoomId m) (fr_Content m)) set_map;
    lens_field "userId" fr_UserId
      (fun m x => Build_FromRouterMessage (fr_MessageId m) (fr_Time m) (fr_TimeText m) (fr_ToUserId m)
        (fr_ToRoomId m) (fr_Params m) x (fr_RoomId m) (fr_Content m)) set_string;
    lens_field "roomId" fr_RoomId
      (fun m x => Build_FromRouterMessage (fr_MessageId m) (fr_Time m) (fr_TimeText m) (fr_ToUserId m)
        (fr_ToRoomId m) (fr_Params m) (fr_UserId m) x (fr_Content m)) set_string;
    lens_field "content" fr_Content
      (fun m x => Build_FromRouterMessage (fr_MessageId m) (fr_Time m) (fr_TimeText m) (fr_ToUserId m)
        (fr_ToRoomId m) (fr_Params m) (fr_UserId m) (fr_RoomId m) x) set_string ].

(** The block of [FromRouterMessage.Unmarshal] that runs when [result != nil]. *)
Definition fr_compat (p : FromRouterMessage) : FromRouterMessage :=
  let p := if negb (bool_decide (fr_UserId p = "")) && bool_decide (fr_ToUserId p = "")
           then set_fr_ToUserId p (fr_UserId p) else p in
  let p := if negb (bool_decide (fr_RoomId p = "")) && bool_decide (fr_ToRoomId p = "")
           then set_fr_ToRoomId p (fr_RoomId p) else p in
  let '(v, ok) := match gm_lookup (fr_Params p) "content" with
                  | Some v => (v, true) | None => ("", false) end in
  if negb (bool_decide (fr_Content p = "")) && (negb ok || bool_decide (v = ""))
  then set_fr_ToUserId p v else p.

#[export] Instance FromRouterMessage_Unmarshal : Unmarshaler FromRouterMessage := fun b p =>
  match json_Unmarshal FromRouterMessage_fields b p with
  | (p', Some err) => (fr_compat p', Some err)
  | (p', None) => (p', None)
  end.

(** * To clients *)

(** The mutex is not state here: the two critical sections of [Marshal] are
modelled as such below. *)
Record ToClientMessage := {
  tc_MessageId : string;
  tc_ToUserId : string;
  tc_ToRoomId : string;
  tc_Params : gomap string;
  tc_Time : Z;
  tc_TimeText : string;
  tc_UserId : string;
  tc_RoomId : string;
  tc_Content : string;
  tc_Importance : Z;
  tc_serializedBytes : option bytes;
}.

Definition set_tc_serializedBytes (m : ToClientMessage) (b : option bytes) : ToClientMessage :=
  Build_ToClientMessage (tc_MessageId m) (tc_ToUserId m) (tc_ToRoomId m) (tc_Params m) (tc_Time m)
    (tc_TimeText m) (tc_UserId m) (tc_RoomId m) (tc_Content m) (tc_Importance m) b.

(** The exported fields with the names of their tags. *)
Definition ToClientMessage_tags (m : ToClientMessage) : list (string * json) :=
  [ ("messageId", JString (tc_MessageId m)); ("toUserId", JString (tc_ToUserId m));
    ("toRoomId", JString (tc_ToRoomId m)); ("params", JMap (tc_Params m));
    ("time", JInt (tc_Time m)); ("timeText", JString (tc_TimeText m));
    ("userId", JString (tc_UserId m)); ("roomId", JString (tc_RoomId m));
    ("content", JString (tc_Content m)); ("content", JInt (tc_Importance m)) ].

(** encoding/json's rule for fields of one struct whose tags carry the same
name: none of them is used. *)
Definition dominant_fields (fs : list (string * json)) : list (string * json) :=
  filter (fun f => length (filter (fun g => g.1 = f.1) fs) = 1%nat) fs.

Definition ToClientMessage_json (m : ToClientMessage) : json :=
  JObject (dominant_fields (ToClientMessage_tags m)).

(** compress/zlib: a writer that is written once and closed yields bytes a
reader decompresses to the same text. *)
Class Zlib := {
  zlib_compress : bytes -> bytes;
  zlib_decompress : bytes -> option bytes;
}.
Class ZlibLaws `{Zlib} : Prop := {
  zlib_inverse b : zlib_decompress (zlib_compress b) = Some b;
}.

Section ToClient.
Context `{Zlib}.

Definition doZlibCompress (src : bytes) : bytes := zlib_compress src.

(** The bytes a message is sent as: the mark of the compression, the compressed text. *)
Definition wire (m : ToClientMessage) : bytes :=
  x01 :: doZlibCompress (json_Marshal (ToClientMessage_json m)).

(** The first critical section of [Marshal], under the read lock. *)
Definition tc_read (m : ToClientMessage) : option bytes := tc_serializedBytes m.

(** The second one, under the write lock, entered when nothing was cached. *)
Definition tc_fill (m : ToClientMessage) : bytes * ToClientMessage :=
  match tc_serializedBytes m with
  | Some b => (b, m)
  | None =>
      let serialized := [x01] ++ doZlibCompress (json_Marshal (ToClientMessage_json m)) in
      (serialized, set_tc_serializedBytes m (Some serialized))
  end.

(** [ToClientMessage.Marshal]; json.Marshal does not fail on this struct. *)
Definition tc_Marshal (m : ToClientMessage) : bytes * option error * ToClientMessage :=
  match tc_read m with
  | Some b => (b, None, m)
  | None => let '(b, m') := tc_fill m in (b, None, m')
  end.

End ToClient.

(** What a client does with a pushed message: check the mark, decompress, parse. *)
Definition receive `{Zlib} (b : bytes) : option json :=
  match b with
  | x01 :: z => match zlib_decompress z with
                | Some t => json_parse (string_of_bytes t)
                | None => None
                end
  | _ => None
  end.

(** The cache holds nothing or the bytes of this very message. *)
Definition cache_ok `{Zlib} (m : ToClientMessage) : Prop :=
  match tc_serializedBytes m with Some b => b = wire m | None => True end.

(** All strings of a message are UTF-8. *)
Definition tc_utf8 (m : ToClientMessage) : Prop :=
  utf8_valid (tc_MessageId m) = true /\ utf8_valid (tc_ToUserId m) = true /\
  utf8_valid (tc_ToRoomId m) = true /\ utf8_valid (tc_TimeText m) = true /\
  utf8_valid (tc_UserId m) = true /\ utf8_valid (tc_RoomId m) = true /\
  (forall k v, gm_lookup (tc_Params m) k = Some v -> utf8_valid k = true /\ utf8_valid v = true).

(** * Lemmas *)

Lemma ToClientMessage_dominant m :
  dominant_fields (ToClientMessage_tags m) =
  [ ("messageId", JString (tc_MessageId m)); ("toUserId", JString (tc_ToUserId m));
    ("toRoomId", JString (tc_ToRoomId m)); ("params", JMap (tc_Params m));
    ("time", JInt (tc_Time m)); ("timeText", JString (tc_TimeText m));
    ("userId", JString (tc_UserId m)); ("roomId", JString (tc_RoomId m)) ].
Proof. reflexivity. Qed.

Lemma JMap_ok (m : gomap string) :
  (forall k v, gm_lookup m k = Some v -> utf8_valid k = true /\ utf8_valid v = true) ->
  json_ok (JMap m).
Proof.
  destruct m as [m|]; [|done]. cbn. intros Hm.
  assert (Forall (fun k => k ∈ (map_to_list m).*1) (sorted_keys m)) as Hks.
  { apply Forall_forall. intros k. unfold sorted_keys. by rewrite merge_sort_Permutation. }
  induction Hks as [|k ks Hk Hks IH]; [done|]. cbn. split; [|apply IH].
  apply list_elem_of_fmap in Hk as ([k' v] & -> & Hv). cbn.
  apply elem_of_map_to_list in Hv. rewrite Hv. cbn. by apply Hm.
Qed.

Lemma ToClientMessage_json_ok m : tc_utf8 m -> json_ok (ToClientMessage_json m).
Proof.
  intros (? & ? & ? & ? & ? & ? & Hp). unfold ToClientMessage_json. rewrite ToClientMessage_dominant.
  pose proof (JMap_ok _ Hp). cbn [json_ok foldr fst snd]. split_and!; try done; by eexists.
Qed.

Lemma wire_set m b `{Zlib} : wire (set_tc_serializedBytes m b) = wire m.
Proof. done. Qed.

Lemma tc_fill_spec `{Zlib} m :
  cache_ok m ->
  (tc_fill m).1 = wire m /\ cache_ok (tc_fill m).2 /\ wire (tc_fill m).2 = wire m /\
  tc_serializedBytes (tc_fill m).2 = Some (wire m).
Proof.
  unfold cache_ok, tc_fill. destruct (tc_serializedBytes m) as [b|] eqn:E; [|done].
  intros ->. cbn. by rewrite E.
Qed.

Lemma tc_Marshal_spec `{Zlib} m :
  cache_ok m ->
  exists m', tc_Marshal m = (wire m, None, m') /\ cache_ok m' /\ wire m' = wire m /\
             tc_serializedBytes m' = Some (wire m).
Proof.
  intros Hm. unfold tc_Marshal, tc_read. destruct (tc_serializedBytes m) as [b|] eqn:E.
  - pose proof Hm as Hb. unfold cache_ok in Hb. rewrite E in Hb. subst b. by exists m.
  - destruct (tc_fill_spec m Hm) as (H1 & H2 & H3 & H4). destruct (tc_fill m) as [b m'].
    cbn in *. subst b. by exists m'.
Qed.

(** What a client reads of a pushed message. *)
Lemma receive_wire `{ZlibLaws} m : tc_utf8 m -> receive (wire m) = Some (ToClientMessage_json m).
Proof.
  intros Hm. unfold receive, wire, doZlibCompress. rewrite zlib_inverse. unfold json_Marshal.
  rewrite string_of_bytes_of_string. apply json_parse_print, ToClientMessage_json_ok, Hm.
Qed.

(** * Properties *)

(** The registration a client marshals is the one the server unmarshals,
whatever the destination held, for UTF-8 strings and a version of 64 bits. *)
Theorem Register_roundtrip (r r0 : Register) :
  utf8_valid (rg_UserId r) = true -> utf8_valid (rg_Token r) = true ->
  - 2 ^ 63 <= rg_ClientToConnectorVersion r < 2 ^ 63 ->
  let '(b, err) := Register_Marshal r in err = None /\ Register_Unmarshal b r0 = (r, None).
Proof.
  intros Hu Ht Hv. cbn. split; [done|]. unfold Register_Unmarshal.
  rewrite json_Unmarshal_Marshal.
  - destruct r as [u t v], r0. cbn in *. decode. reflexivity.
  - cbn [json_ok foldr fst snd Register_json]. split_and!; auto with go.
Qed.

(** C30: the bytes a pushed message is sent as. [Marshal] succeeds, marking the
bytes as compressed, and from then on returns the same bytes without building
them again; a client that checks the mark and decompresses finds the JSON object of
eight of the ten fields: [Content] and [Importance] carry the same name and
encoding/json leaves both out. *)
Theorem push_message `{ZlibLaws} m :
  cache_ok m -> tc_utf8 m ->
  exists b m', tc_Marshal m = (b, None, m') /\ tc_Marshal m' = (b, None, m') /\
    receive b = Some (JObject
      [ ("messageId", JString (tc_MessageId m)); ("toUserId", JString (tc_ToUserId m));
        ("toRoomId", JString (tc_ToRoomId m)); ("params", JMap (tc_Params m));
        ("time", JInt (tc_Time m)); ("timeText", JString (tc_TimeText m));
        ("userId", JString (tc_UserId m)); ("roomId", JString (tc_RoomId m)) ]).
Proof.
  intros Hc Hu. destruct (tc_Marshal_spec m Hc) as (m' & HM & Hc' & Hw & Hs).
  exists (wire m), m'. split; [done|]. split; [unfold tc_Marshal, tc_read; by rewrite Hs|].
  rewrite receive_wire by done. unfold ToClientMessage_json. by rewrite ToClientMessage_dominant.
Qed.

(** A well-formed publication that addresses its user, its room or its
content by the deprecated fields is for nobody: the block that copies them to
the current fields only runs when [json.Unmarshal] has failed. *)
Theorem deprecated_fields_ignored u r c :
  utf8_valid u = true -> utf8_valid r = true -> utf8_valid c = true ->
  let '(fr, err) := FromRouterMessage_Unmarshal
    (json_Marshal (JObject [("userId", JString u); ("roomId", JString r); ("content", JString c)]))
    zero_FromRouterMessage in
  err = None /\ fr_ToUserId fr = "" /\ fr_ToRoomId fr = "" /\ fr_Params fr = None /\
  fr_UserId fr = u /\ fr_RoomId fr = r /\ fr_Content fr = c.
Proof.
  intros Hu Hr Hc. unfold FromRouterMessage_Unmarshal. rewrite json_Unmarshal_Marshal by done.
  unfold zero_FromRouterMessage. by cbn.
Qed.

(** When it does run, after a failure, a deprecated content without a
current one takes the user away: the user id is overwritten by the missing
content. *)
Theorem compat_clears_user b p q e :
  json_Unmarshal FromRouterMessage_fields b p = (q, Some e) ->
  fr_Content q <> "" -> default "" (gm_lookup (fr_Params q) "content") = "" ->
  FromRouterMessage_Unmarshal b p = (fr_compat q, Some e) /\ fr_ToUserId (fr_compat q) = "".
Proof.
  intros Hq Hc Hp. unfold FromRouterMessage_Unmarshal. rewrite Hq. split; [done|].
  unfold fr_compat. set (q1 := if _ && _ then set_fr_ToUserId q _ else q).
  set (q2 := if _ && _ then set_fr_ToRoomId q1 _ else q1).
  assert (fr_Params q2 = fr_Params q /\ fr_Content q2 = fr_Content q) as [-> ->].
  { unfold q2, q1. by repeat case_match. }
  rewrite (bool_decide_false (fr_Content q = "")) by done.
  destruct (gm_lookup (fr_Params q) "content") as [v|]; cbn in *; [subst v|]; done.
Qed.

(** * Witnesses *)

Definition test_zlib : Zlib := {| zlib_compress := fun b => b; zlib_decompress := Some |}.
Lemma test_zlib_laws : @ZlibLaws test_zlib.
Proof. by constructor. Qed.

Definition sample_message : ToClientMessage :=
  Build_ToClientMessage "m1" "ann" "" (Some {["content" := "hi"]}) 7 "now" "ann" "" "hi" 0 None.

Lemma Register_roundtrip_witness :
  Register_Unmarshal (Register_Marshal (Build_Register "ann" "00FF" 100)).1 zero_Register =
  (Build_Register "ann" "00FF" 100, None).
Proof.
  pose proof (Register_roundtrip (Build_Register "ann" "00FF" 100) zero_Register eq_refl eq_refl) as H.
  apply H. cbn. lia.
Defined.

Lemma push_message_witness :
  exists b m', @tc_Marshal test_zlib sample_message = (b, None, m') /\
    @tc_Marshal test_zlib m' = (b, None, m').
Proof.
  destruct (@push_message test_zlib test_zlib_laws sample_message) as (b & m' & H1 & H2 & _).
  - exact I.
  - unfold tc_utf8. split_and!; try reflexivity.
    intros k v Hk. cbn in Hk. apply lookup_singleton_Some in Hk as [<- <-]. by split.
  - exists b, m'. split; [exact H1|exact H2].
Defined.

Lemma deprecated_fields_ignored_witness :
  fr_ToUserId (FromRouterMessage_Unmarshal
    (json_Marshal (JObject [("userId", JString "ann"); ("roomId", JString "r"); ("content", JString "hi")]))
    zero_FromRouterMessage).1 = "".
Proof.
  pose proof (deprecated_fields_ignored "ann" "r" "hi" eq_refl eq_refl eq_refl) as H.
  destruct (FromRouterMessage_Unmarshal _ _) as [fr err]. apply H.
Defined.

Lemma compat_clears_user_witness :
  fr_ToUserId (FromRouterMessage_Unmarshal
    (jsb "{'toUserId':'ann','content':'hi','time':'soon'}") zero_FromRouterMessage).1 = "".
Proof.
  destruct (compat_clears_user (jsb "{'toUserId':'ann','content':'hi','time':'soon'}")
    zero_FromRouterMessage (Build_FromRouterMessage "" 0 "" "ann" "" None "" "" "hi") EJsonType) as [-> H].
  - vm_compute. reflexivity.
  - discriminate.
  - reflexivity.
  - exact H.
Defined.
