(* ===== verification/ToCompute.v ===== *)
(** The queues of chat messages on their way to the compute servers
(connectsvc/tocompute.go): a bounded queue per room, the group of all queues,
[Add] as its three critical sections and as a whole, [DrainTo]. *)

From S2P Require Import Prelude.
Local Open Scope Z_scope.

(** * Data *)

(** connectsvc/RoomMsgToCompute.pb.go *)
Record FromConnectorMessage := {
  fc_MessageId : string;
  fc_RoomId : string;
  fc_UserId : string;
  fc_Nickname : string;
  fc_Time : Z;
  fc_Level : Z;
  fc_Type : Z;
  fc_Params : gomap string;
}.

Record MessageQueue := {
  mq_queue : list FromConnectorMessage;
  mq_maxSize : Z;
}.

(** The group keeps pointers to its queues: [Add] fetches the pointer of its
room in one critical section and uses it in a later one. *)
Record MessageQueueGroup := {
  mqg_group : gomap loc;
  mqg_heap : gmap loc MessageQueue;
}.

(** The zero value of [var messageQueueGroup]. *)
Definition messageQueueGroup : MessageQueueGroup :=
  {| mqg_group := None; mqg_heap := ∅ |}.

(** * Operations *)

Definition NewMessageQueue : MessageQueue :=
  {| mq_queue := []; mq_maxSize := 100 |}.

(** The discarding loop of [Add]: it leaves when the queue is within its
bound, and spins if the queue is empty and the bound negative. *)
Fixpoint mq_discard (maxSize : Z) (q : list FromConnectorMessage)
    : outcome (list FromConnectorMessage) :=
  match q with
  | [] => if maxSize <? 0 then Stuck else Ret []
  | _ :: q' => if maxSize <? len q then mq_discard maxSize q' else Ret q
  end.

(** [MessageQueue.Add] *)
Definition mq_Add (m : MessageQueue) (msg : FromConnectorMessage) : outcome MessageQueue :=
  match mq_discard (mq_maxSize m) (mq_queue m ++ [msg]) with
  | Ret q => Ret {| mq_queue := q; mq_maxSize := mq_maxSize m |}
  | Panic p => Panic p
  | Stuck => Stuck
  end.

(** The first loop of [MessageQueue.DrainTo]: copy while there is room. *)
Fixpoint mq_collect (q msgs : list FromConnectorMessage) (maxLength : Z)
    : list FromConnectorMessage :=
  match q with
  | [] => msgs
  | m :: q' => if len msgs <? maxLength then mq_collect q' (msgs ++ [m]) maxLength else msgs
  end.

(** Its second loop: remove as many elements from the front. *)
Fixpoint mq_remove (n : nat) (q : list FromConnectorMessage) : list FromConnectorMessage :=
  match n with
  | O => q
  | S n' => mq_remove n' (match q with [] => [] | _ :: q' => q' end)
  end.

(** [MessageQueue.DrainTo]: the messages, the length left, the queue left. *)
Definition mq_DrainTo (m : MessageQueue) (msgs : list FromConnectorMessage) (maxLength : Z)
    : list FromConnectorMessage * Z * MessageQueue :=
  let msgs' := mq_collect (mq_queue m) msgs maxLength in
  let q' := mq_remove (length msgs' - length msgs) (mq_queue m) in
  (msgs', len q', {| mq_queue := q'; mq_maxSize := mq_maxSize m |}).

(** The read-locked section of [MessageQueueGroup.Add]. *)
Definition mqg_find (g : MessageQueueGroup) (room : string) : option loc :=
  gm_lookup (mqg_group g) room.

(** Its write-locked section, entered when no queue was found. *)
Definition mqg_create (g : MessageQueueGroup) (room : string) : loc * MessageQueueGroup :=
  let group := gm_content (mqg_group g) in
  match group !! room with
  | Some l => (l, {| mqg_group := Some group; mqg_heap := mqg_heap g |})
  | None =>
      let l := fresh (dom (mqg_heap g)) in
      (l, {| mqg_group := Some (<[room := l]> group);
             mqg_heap := <[l := NewMessageQueue]> (mqg_heap g) |})
  end.

(** [mq.Add(msg)] through the pointer. *)
Definition mqg_push (g : MessageQueueGroup) (l : loc) (msg : FromConnectorMessage)
    : outcome MessageQueueGroup :=
  match mqg_heap g !! l with
  | None => Panic (PRt NilDeref)
  | Some m =>
      match mq_Add m msg with
      | Ret m' => Ret {| mqg_group := mqg_group g; mqg_heap := <[l := m']> (mqg_heap g) |}
      | Panic p => Panic p
      | Stuck => Stuck
      end
  end.

(** [MessageQueueGroup.Add], run without interruption. *)
Definition mqg_Add (g : MessageQueueGroup) (msg : FromConnectorMessage)
    : outcome MessageQueueGroup :=
  match mqg_find g (fc_RoomId msg) with
  | Some l => mqg_push g l msg
  | None => let '(l, g') := mqg_create g (fc_RoomId msg) in mqg_push g' l msg
  end.

(** [MessageQueueGroup.DrainTo]: the queues are visited in the order [rooms],
which is any order of the map's keys. (The pointers in a Go map value are
never dangling; the branches for a key or a pointer that is not there are not
taken by a run that starts from the code's states, see [mqg_wf].) *)
Fixpoint mqg_drain (rooms : list string) (g : MessageQueueGroup)
    (msgs : list FromConnectorMessage) (maxLength total : Z)
    : list FromConnectorMessage * Z * MessageQueueGroup :=
  match rooms with
  | [] => (msgs, total, g)
  | r :: rooms' =>
      match mqg_find g r with
      | None => mqg_drain rooms' g msgs maxLength total
      | Some l =>
          match mqg_heap g !! l with
          | None => mqg_drain rooms' g msgs maxLength total
          | Some m =>
              let '(msgs', rest, m') := mq_DrainTo m msgs maxLength in
              mqg_drain rooms'
                {| mqg_group := mqg_group g; mqg_heap := <[l := m']> (mqg_heap g) |}
                msgs' maxLength (total + rest)
          end
      end
  end.

Definition mqg_DrainTo (rooms : list string) (g : MessageQueueGroup)
    (msgs : list FromConnectorMessage) (maxLength : Z)
    : list FromConnectorMessage * Z * MessageQueueGroup :=
  mqg_drain rooms g msgs maxLength 0.

(** * Interleaving of concurrent calls

A goroutine in [MessageQueueGroup.Add] is before its first critical section,
before the second one, or before the third one with the pointer it fetched. *)
Inductive add_pc :=
  | AddStart (msg : FromConnectorMessage)
  | AddCreate (msg : FromConnectorMessage)
  | AddPush (l : loc) (msg : FromConnectorMessage).

Definition add_msg (p : add_pc) : FromConnectorMessage :=
  match p with AddStart m | AddCreate m | AddPush _ m => m end.

(** A goroutine in [MessageQueueGroup.DrainTo], between two queues: the rooms
still to visit, the messages gathered, the room there is, the count so far.
It holds the read lock of the group until it returns. *)
Record drain_pc := {
  dp_rooms : list string;
  dp_msgs : list FromConnectorMessage;
  dp_max : Z;
  dp_total : Z;
}.

(** The configuration: the goroutines inside [Add], the one inside [DrainTo]
(there is a single consumer), the group, and two ghosts: the messages whose
[Add] has returned, in the order of their last step, and the messages handed
out by the drains that have returned. *)
Record mq_conf := {
  mc_adds : list add_pc;
  mc_drain : option drain_pc;
  mc_group : MessageQueueGroup;
  mc_done : list FromConnectorMessage;
  mc_out : list FromConnectorMessage;
}.

Inductive mq_step : mq_conf -> mq_conf -> Prop :=
  | step_call t dr g d o msg :
      mq_step (Build_mq_conf t dr g d o) (Build_mq_conf (AddStart msg :: t) dr g d o)
  | step_found t1 t2 dr g d o msg l :
      mqg_find g (fc_RoomId msg) = Some l ->
      mq_step (Build_mq_conf (t1 ++ AddStart msg :: t2) dr g d o)
              (Build_mq_conf (t1 ++ AddPush l msg :: t2) dr g d o)
  | step_missing t1 t2 dr g d o msg :
      mqg_find g (fc_RoomId msg) = None ->
      mq_step (Build_mq_conf (t1 ++ AddStart msg :: t2) dr g d o)
              (Build_mq_conf (t1 ++ AddCreate msg :: t2) dr g d o)
  | step_create t1 t2 g d o msg l g' :
      mqg_create g (fc_RoomId msg) = (l, g') ->
      mq_step (Build_mq_conf (t1 ++ AddCreate msg :: t2) None g d o)
              (Build_mq_conf (t1 ++ AddPush l msg :: t2) None g' d o)
  | step_push t1 t2 dr g d o l msg g' :
      mqg_push g l msg = Ret g' ->
      mq_step (Build_mq_conf (t1 ++ AddPush l msg :: t2) dr g d o)
              (Build_mq_conf (t1 ++ t2) dr g' (d ++ [msg]) o)
  | step_drain_start t g d o rooms max :
      iterates (gm_content (mqg_group g)) rooms ->
      mq_step (Build_mq_conf t None g d o)
              (Build_mq_conf t (Some (Build_drain_pc rooms [] max 0)) g d o)
  | step_drain_room t g d o r rooms msgs msgs' max tot tot' g' :
      mqg_drain [r] g msgs max tot = (msgs', tot', g') ->
      mq_step (Build_mq_conf t (Some (Build_drain_pc (r :: rooms) msgs max tot)) g d o)
              (Build_mq_conf t (Some (Build_drain_pc rooms msgs' max tot')) g' d o)
  | step_drain_end t g d o msgs max tot :
      mq_step (Build_mq_conf t (Some (Build_drain_pc [] msgs max tot)) g d o)
              (Build_mq_conf t None g d (o ++ msgs)).

Definition mq_init : mq_conf := Build_mq_conf [] None messageQueueGroup [] [].

(** All messages taken out so far, those of a drain under way included. *)
Definition mc_taken (c : mq_conf) : list FromConnectorMessage :=
  mc_out c ++ match mc_drain c with Some d => dp_msgs d | None => [] end.

(** * Views and invariants *)

(** The messages waiting for a room. *)
Definition content (g : MessageQueueGroup) (room : string) : list FromConnectorMessage :=
  match mqg_find g room with
  | Some l => match mqg_heap g !! l with Some m => mq_queue m | None => [] end
  | None => []
  end.

(** Well-formed groups: queues are allocated, not shared between rooms, hold
messages of their room only, and respect their bound of 100. *)
Record mqg_wf (g : MessageQueueGroup) : Prop := {
  wf_alloc : forall r l, mqg_find g r = Some l -> is_Some (mqg_heap g !! l);
  wf_inj : forall r r' l, mqg_find g r = Some l -> mqg_find g r' = Some l -> r = r';
  wf_room : forall r, Forall (fun m => fc_RoomId m = r) (content g r);
  wf_max : forall l m, mqg_heap g !! l = Some m -> mq_maxSize m = 100;
  wf_bound : forall l m, mqg_heap g !! l = Some m -> len (mq_queue m) <= 100;
}.

(** The last [n] elements of a list. *)
Definition lastn {A} (n : nat) (l : list A) : list A := drop (length l - n) l.

(** The messages of one room among [l]. *)
Definition of_room (r : string) (l : list FromConnectorMessage) : list FromConnectorMessage :=
  filter (fun m => fc_RoomId m = r) l.

(** The number of messages waiting in the queues of [rooms]. *)
Definition waiting (g : MessageQueueGroup) (rooms : list string) : Z :=
  foldr (fun r n => len (content g r) + n) 0 rooms.

(** Groups that hold the same messages for every room. *)
#[export] Instance mqg_equiv : Equiv MessageQueueGroup :=
  fun g g' => forall r, content g r = content g' r.
#[export] Instance mqg_equivalence : Equivalence (≡@{MessageQueueGroup}).
Proof.
  split; [by intros g r | by intros g g' H r | intros g1 g2 g3 H H' r].
  by rewrite H, H'.
Qed.

#[export] Instance content_proper : Proper ((≡) ==> (=) ==> (=)) content.
Proof. intros g g' H r ? <-. apply H. Qed.

Arguments of_room : simpl never.
Arguments content : simpl never.

(** * Lemmas *)

Lemma lastn_all {A} n (l : list A) : (length l <= n)%nat -> lastn n l = l.
Proof. intros. unfold lastn. by replace (length l - n)%nat with O by lia. Qed.

Lemma length_lastn {A} n (l : list A) : length (lastn n l) = Nat.min n (length l).
Proof. unfold lastn. rewrite length_drop. lia. Qed.

Lemma lastn_suffix {A} n (l : list A) : exists k, l = k ++ lastn n l.
Proof. exists (take (length l - n) l). unfold lastn. by rewrite take_drop. Qed.

Lemma mq_discard_spec max q :
  0 <= max -> mq_discard max q = Ret (lastn (Z.to_nat max) q).
Proof.
  intros Hmax. induction q as [|m q IH].
  - unfold mq_discard. replace (max <? 0) with false by lia. done.
  - cbn [mq_discard]. destruct (max <? len (m :: q)) eqn:E; unfold len in E; cbn [length] in E.
    + rewrite IH. f_equal. unfold lastn. cbn [length].
      by replace (S (length q) - Z.to_nat max)%nat
        with (S (length q - Z.to_nat max)) by lia.
    + rewrite lastn_all; [done|]. cbn [length]. lia.
Qed.

Lemma mq_Add_spec m msg :
  0 <= mq_maxSize m ->
  mq_Add m msg = Ret {| mq_queue := lastn (Z.to_nat (mq_maxSize m)) (mq_queue m ++ [msg]);
                        mq_maxSize := mq_maxSize m |}.
Proof. intros. unfold mq_Add. by rewrite mq_discard_spec. Qed.

Lemma mq_collect_spec q msgs max :
  mq_collect q msgs max = msgs ++ take (Z.to_nat (max - len msgs)) q.
Proof.
  revert msgs. induction q as [|m q IH]; intros msgs; cbn [mq_collect].
  - by rewrite take_nil, app_nil_r.
  - destruct (len msgs <? max) eqn:E.
    + rewrite IH, <-app_assoc. f_equal. rewrite len_app. change (len [m]) with 1.
      replace (Z.to_nat (max - len msgs)) with (S (Z.to_nat (max - (len msgs + 1)))) by lia.
      done.
    + replace (Z.to_nat (max - len msgs)) with O by lia. by rewrite app_nil_r.
Qed.

Lemma mq_remove_spec n q : mq_remove n q = drop n q.
Proof.
  revert q. induction n as [|n IH]; intros q; [done|]. cbn. rewrite IH.
  destruct q; [by rewrite drop_nil|done].
Qed.

Lemma mq_DrainTo_spec m msgs max :
  mq_DrainTo m msgs max =
  let n := Z.to_nat (max - len msgs) in
  (msgs ++ take n (mq_queue m), len (drop n (mq_queue m)),
   {| mq_queue := drop n (mq_queue m); mq_maxSize := mq_maxSize m |}).
Proof.
  unfold mq_DrainTo. rewrite mq_collect_spec, mq_remove_spec, length_app.
  rewrite Nat.add_comm, Nat.add_sub, length_take. set (n := Z.to_nat _). cbn zeta.
  replace (drop (n `min` length (mq_queue m)) (mq_queue m)) with (drop n (mq_queue m)); [done|].
  destruct (decide (n <= length (mq_queue m))%nat); [by rewrite Nat.min_l|].
  rewrite Nat.min_r, !drop_ge by lia. done.
Qed.

Lemma of_room_app r l k : of_room r (l ++ k) = of_room r l ++ of_room r k.
Proof. apply filter_app. Qed.

Lemma of_room_all r l : Forall (fun m => fc_RoomId m = r) l -> of_room r l = l.
Proof.
  unfold of_room. induction 1 as [|m l Hm Hl IH]; [done|].
  by rewrite filter_cons_True, IH.
Qed.

Lemma of_room_none r r' l : r <> r' -> Forall (fun m => fc_RoomId m = r') l -> of_room r l = [].
Proof.
  intros Hr. unfold of_room. induction 1 as [|m l Hm Hl IH]; [done|].
  rewrite filter_cons_False; [done|congruence].
Qed.

#[export] Hint Resolve wf_alloc wf_inj wf_room wf_max wf_bound : go.

(** The rooms a walk over the group meets. *)
Lemma iterates_find g rooms r :
  iterates (gm_content (mqg_group g)) rooms -> r ∈ rooms <-> is_Some (mqg_find g r).
Proof.
  intros Hit. rewrite (iterates_elem _ rooms r Hit). unfold mqg_find, gm_lookup, gm_content.
  destruct (mqg_group g); [done|]. by rewrite lookup_empty.
Qed.

(** The pointer of a room leads to a well-formed queue. *)
Lemma wf_find g r l :
  mqg_wf g -> mqg_find g r = Some l ->
  exists m, mqg_heap g !! l = Some m /\ mq_maxSize m = 100 /\
            len (mq_queue m) <= 100 /\ content g r = mq_queue m.
Proof.
  intros Hwf Hl. destruct (wf_alloc g Hwf r l Hl) as [m Hm].
  exists m. split_and!; eauto with go. unfold content. by rewrite Hl, Hm.
Qed.

Lemma find_update g h r : mqg_find {| mqg_group := mqg_group g; mqg_heap := h |} r = mqg_find g r.
Proof. done. Qed.

(** Replacing the queue of one room changes what that room holds and nothing else. *)
Lemma content_update g r l m r' :
  mqg_wf g -> mqg_find g r = Some l ->
  content {| mqg_group := mqg_group g; mqg_heap := <[l := m]> (mqg_heap g) |} r' =
  if decide (r' = r) then mq_queue m else content g r'.
Proof.
  intros Hwf Hl. unfold content. rewrite find_update. cbn [mqg_heap].
  case_decide as Hr.
  - subst r'. by rewrite Hl, lookup_insert_eq.
  - destruct (mqg_find g r') as [l'|] eqn:Hl'; [|done].
    rewrite lookup_insert_ne; [done|]. intros ->. by apply Hr, (wf_inj g Hwf _ _ l').
Qed.

Lemma wf_update g r l m :
  mqg_wf g -> mqg_find g r = Some l -> mq_maxSize m = 100 -> len (mq_queue m) <= 100 ->
  Forall (fun m => fc_RoomId m = r) (mq_queue m) ->
  mqg_wf {| mqg_group := mqg_group g; mqg_heap := <[l := m]> (mqg_heap g) |}.
Proof.
  intros Hwf Hl Hmax Hlen Hroom. split; cbn [mqg_heap].
  - intros r' l' Hl'. rewrite lookup_insert_is_Some'. right. by apply (wf_alloc g Hwf r').
  - apply (wf_inj g Hwf).
  - intros r'. rewrite (content_update g r) by done. case_decide; [by subst|eauto with go].
  - intros l' m'. rewrite lookup_insert_Some. intros [[_ <-]|[_ H]]; eauto with go.
  - intros l' m'. rewrite lookup_insert_Some. intros [[_ <-]|[_ H]]; eauto with go.
Qed.

Lemma mqg_push_spec g r l msg :
  mqg_wf g -> mqg_find g r = Some l -> fc_RoomId msg = r ->
  exists g', mqg_push g l msg = Ret g' /\ mqg_wf g' /\ mqg_group g' = mqg_group g /\
    forall r', content g' r' =
      if decide (r' = r) then lastn 100 (content g r ++ [msg]) else content g r'.
Proof.
  intros Hwf Hl Hr. destruct (wf_find g r l Hwf Hl) as (m & Hm & Hmax & Hlen & Hc).
  unfold mqg_push. rewrite Hm, mq_Add_spec, Hmax by lia. eexists. split; [done|].
  split; [|split; [done|]].
  - apply (wf_update g r); [done..| |]; cbn [mq_queue].
    + unfold len. rewrite length_lastn. lia.
    + apply Forall_drop, Forall_app. split; [|by repeat constructor].
      rewrite <-Hc. eauto with go.
  - intros r'. rewrite (content_update g r) by done. by rewrite Hc.
Qed.

Lemma mqg_create_spec g room l g' :
  mqg_wf g -> mqg_create g room = (l, g') ->
  mqg_wf g' /\ g' ≡ g /\ mqg_find g' room = Some l /\
  (forall r l', mqg_find g r = Some l' -> mqg_find g' r = Some l').
Proof.
  intros Hwf. unfold mqg_create.
  destruct (gm_content (mqg_group g) !! room) as [l0|] eqn:E; intros [= <- <-].
  - assert (forall r, mqg_find {| mqg_group := Some (gm_content (mqg_group g));
                                  mqg_heap := mqg_heap g |} r = mqg_find g r) as Hf.
    { intros r. unfold mqg_find, gm_lookup. cbn. by destruct (mqg_group g). }
    assert (forall r, content {| mqg_group := Some (gm_content (mqg_group g));
                                 mqg_heap := mqg_heap g |} r = content g r) as Hc.
    { intros r. unfold content. by rewrite Hf. }
    split_and!; [|done|done|intros r l'; by rewrite Hf].
    split; cbn [mqg_heap]; [intros r l'; rewrite Hf|intros r r' l'; rewrite !Hf|intros r; rewrite Hc| |];
      eauto with go.
  - set (l := fresh _). assert (mqg_heap g !! l = None) as Hfresh.
    { apply not_elem_of_dom, is_fresh. }
    set (g' := Build_MessageQueueGroup _ _).
    assert (forall r, mqg_find g' r = if decide (room = r) then Some l else mqg_find g r) as Hf.
    { intros r. unfold mqg_find, gm_lookup. cbn. rewrite lookup_insert.
      case_decide; [done|]. by destruct (mqg_group g). }
    assert (mqg_find g room = None) as Hnone.
    { unfold mqg_find, gm_lookup. by destruct (mqg_group g). }
    assert (forall r, mqg_find g r <> Some l) as Hold.
    { intros r Hr. destruct (wf_alloc g Hwf r l Hr) as [m Hm]. congruence. }
    assert (forall r, content g' r = content g r) as Hc.
    { intros r. unfold content. rewrite Hf. cbn [mqg_heap g']. case_decide as Hr.
      - subst r. by rewrite Hnone, lookup_insert_eq.
      - destruct (mqg_find g r) as [l'|] eqn:Hl'; [|done].
        rewrite lookup_insert_ne; [done|]. intros <-. by apply (Hold r). }
    split_and!; [|done|by rewrite Hf, decide_True|].
    + split; cbn [mqg_heap g'].
      * intros r l'. rewrite Hf. case_decide; [intros [= <-]|].
        { rewrite lookup_insert_eq. eauto. }
        { intros Hr. rewrite lookup_insert_is_Some'. eauto with go. }
      * intros r r' l'. rewrite !Hf. repeat case_decide; naive_solver eauto with go.
      * intros r. rewrite Hc. eauto with go.
      * intros l' m'. rewrite lookup_insert_Some. intros [[_ <-]|[_ H]]; [done|eauto with go].
      * intros l' m'. rewrite lookup_insert_Some. intros [[_ <-]|[_ H]]; [done|eauto with go].
    + intros r l' Hr. rewrite Hf, decide_False; [done|]. congruence.
Qed.

Lemma mqg_drain_cons r rooms g msgs max tot :
  mqg_drain (r :: rooms) g msgs max tot =
  let '(msgs', tot', g') := mqg_drain [r] g msgs max tot in mqg_drain rooms g' msgs' max tot'.
Proof.
  cbn [mqg_drain]. destruct (mqg_find g r) as [l|]; [|done].
  destruct (mqg_heap g !! l) as [m|]; [|done]. by destruct (mq_DrainTo m msgs max) as [[? ?] ?].
Qed.

(** Draining one queue: a prefix moves to the output, the rest stays. *)
Lemma mqg_drain_room g r msgs max tot :
  mqg_wf g -> is_Some (mqg_find g r) ->
  let n := Z.to_nat (max - len msgs) in
  exists g',
    mqg_drain [r] g msgs max tot =
      (msgs ++ take n (content g r), tot + len (drop n (content g r)), g') /\
    mqg_wf g' /\ mqg_group g' = mqg_group g /\
    (forall r', content g' r' = if decide (r' = r) then drop n (content g r) else content g r').
Proof.
  intros Hwf [l Hl] n. destruct (wf_find g r l Hwf Hl) as (m & Hm & Hmax & Hlen & Hc).
  cbn [mqg_drain]. rewrite Hl, Hm, mq_DrainTo_spec. fold n. cbn zeta.
  eexists. split; [by rewrite Hc|]. split; [|split; [done|]].
  - apply (wf_update g r); [done..| |]; cbn [mq_queue].
    + unfold len in *. rewrite length_drop. lia.
    + apply Forall_drop. rewrite <-Hc. eauto with go.
  - intros r'. rewrite (content_update g r) by done. by rewrite Hc.
Qed.

Lemma waiting_cons g r rooms : waiting g (r :: rooms) = len (content g r) + waiting g rooms.
Proof. done. Qed.

Lemma waiting_ext g g' rooms :
  (forall r, r ∈ rooms -> content g r = content g' r) -> waiting g rooms = waiting g' rooms.
Proof.
  induction rooms as [|r rooms IH]; intros H; [done|].
  rewrite !waiting_cons, (H r), IH; [done|intros; apply H; by right|by left].
Qed.

Lemma waiting_nonneg g rooms : 0 <= waiting g rooms.
Proof. induction rooms as [|r rooms IH]; [done|]. rewrite waiting_cons. pose proof (len_nonneg (content g r)). lia. Qed.

(** Draining any duplicate-free list of rooms of the group. *)
Lemma mqg_drain_spec rooms g msgs max tot msgs' tot' g' :
  mqg_wf g -> NoDup rooms -> (forall r, r ∈ rooms -> is_Some (mqg_find g r)) ->
  mqg_drain rooms g msgs max tot = (msgs', tot', g') ->
  mqg_wf g' /\ mqg_group g' = mqg_group g /\
  tot' = tot + waiting g' rooms /\
  (forall r, r ∉ rooms -> content g' r = content g r) /\
  (len msgs <= max -> len msgs' <= max /\ (0 < waiting g' rooms -> len msgs' = max)) /\
  exists out, msgs' = msgs ++ out /\
    (forall r, r ∈ rooms -> content g r = of_room r out ++ content g' r) /\
    (forall r, r ∉ rooms -> of_room r out = []).
Proof.
  revert g msgs tot. induction rooms as [|r rooms IH]; intros g msgs tot Hwf Hnd Hin.
  { intros [= <- <- <-]. split_and!; [done..|cbn; lia|done|cbn; lia|].
    exists []. rewrite app_nil_r. split_and!; [done| |done]. intros r Hr. by apply not_elem_of_nil in Hr. }
  apply NoDup_cons in Hnd as [Hr Hnd].
  destruct (mqg_drain_room g r msgs max tot Hwf) as (g1 & Hd & Hwf1 & Hg1 & Hc1); [apply Hin; by left|].
  rewrite mqg_drain_cons, Hd. set (n := Z.to_nat _) in *. intros Hrun.
  assert (forall r', mqg_find g1 r' = mqg_find g r') as Hf1 by (intros; unfold mqg_find; by rewrite Hg1).
  apply IH in Hrun as (Hwf' & Hg' & Htot & Hout & Hmax & out & -> & Hrooms & Hnone);
    [|done|done|intros r' Hr'; rewrite Hf1; apply Hin; by right].
  assert (content g' r = drop n (content g r)) as Hcr.
  { rewrite (Hout r Hr), Hc1. by rewrite decide_True. }
  assert (of_room r (take n (content g r)) = take n (content g r)) as Htake.
  { apply of_room_all, Forall_take. eauto with go. }
  split_and!; [done|congruence|rewrite waiting_cons, Hcr; lia| | |].
  - intros r' [Hne Hr']%not_elem_of_cons. rewrite (Hout r' Hr'), Hc1. by rewrite decide_False.
  - intros Hm. rewrite waiting_cons, Hcr.
    assert (len (msgs ++ take n (content g r)) <= max) as Hm1.
    { unfold len in *. rewrite length_app, length_take. lia. }
    destruct (Hmax Hm1) as [H1 H2]. split; [done|].
    destruct (decide (0 < waiting g' rooms)) as [?|Hw]; [auto|].
    unfold len in *. rewrite !length_app, length_drop, length_take in *.
    pose proof (waiting_nonneg g' rooms). lia.
  - exists (take n (content g r) ++ out). rewrite app_assoc. split_and!; [done| |].
    + intros r' Hr'. rewrite of_room_app. destruct (decide (r' = r)) as [->|Hne].
      * by rewrite Htake, (Hnone r Hr), app_nil_r, Hcr, take_drop.
      * rewrite (of_room_none r' r); [|done|apply Forall_take; eauto with go].
        rewrite app_nil_l, <-(Hrooms r') by (by apply elem_of_cons in Hr' as [?|?]).
        rewrite Hc1. by rewrite decide_False.
    + intros r' [Hne Hr']%not_elem_of_cons. rewrite of_room_app, (Hnone r' Hr').
      rewrite (of_room_none r' r); [done|done|apply Forall_take; eauto with go].
Qed.

Arguments mqg_drain : simpl never.

Lemma wf_init : mqg_wf messageQueueGroup.
Proof. split; cbn; try done; intros *; rewrite lookup_empty; done. Qed.

(** * The queues under concurrent callers *)

Definition add_ready (g : MessageQueueGroup) (p : add_pc) : Prop :=
  match p with
  | AddPush l msg => mqg_find g (fc_RoomId msg) = Some l
  | _ => True
  end.

Definition drain_ready (g : MessageQueueGroup) (d : option drain_pc) : Prop :=
  match d with
  | Some d => NoDup (dp_rooms d) /\ Forall (fun r => is_Some (mqg_find g r)) (dp_rooms d)
  | None => True
  end.

(** The queue of one room as a bounded queue: what it was given ([all]), what was taken out,
what it dropped and what waits. It is given a message while less than 100 wait, and
drops nothing; it is given one while 100 wait, and drops exactly the oldest of them; or the
oldest of the waiting ones are taken out. *)
Inductive ledger : list FromConnectorMessage -> list FromConnectorMessage -> list FromConnectorMessage ->
    list FromConnectorMessage -> Prop :=
  | ledger_new : ledger [] [] [] []
  | ledger_keeps all taken lost waits msg :
      ledger all taken lost waits -> (length waits < 100)%nat ->
      ledger (all ++ [msg]) taken lost (waits ++ [msg])
  | ledger_drops all taken lost old waits msg :
      ledger all taken lost (old :: waits) -> length (old :: waits) = 100%nat ->
      ledger (all ++ [msg]) taken (lost ++ [old]) (waits ++ [msg])
  | ledger_takes all taken lost out waits :
      ledger all taken lost (out ++ waits) -> ledger all (taken ++ out) lost waits.

(** Two lists shuffled into one, both in order. *)
Inductive shuffle {A} : list A -> list A -> list A -> Prop :=
  | shuffle_nil : shuffle [] [] []
  | shuffle_l x l k m : shuffle l k m -> shuffle (l ++ [x]) k (m ++ [x])
  | shuffle_r x l k m : shuffle l k m -> shuffle l (k ++ [x]) (m ++ [x]).

Record mq_inv (c : mq_conf) : Prop := {
  inv_wf : mqg_wf (mc_group c);
  inv_adds : Forall (add_ready (mc_group c)) (mc_adds c);
  inv_drain : drain_ready (mc_group c) (mc_drain c);
  inv_ledger : forall r, exists lost,
    ledger (of_room r (mc_done c)) (of_room r (mc_taken c)) lost (content (mc_group c) r);
}.

Lemma shuffle_l_app {A} (out l k m : list A) : shuffle l k m -> shuffle (l ++ out) k (m ++ out).
Proof.
  intros H. induction out as [|x out IH] using rev_ind; [by rewrite !app_nil_r|].
  rewrite !app_assoc. by constructor.
Qed.

(** Everything given was taken, was dropped or waits, in order. *)
Lemma ledger_shuffle all taken lost waits :
  ledger all taken lost waits -> exists consumed, all = consumed ++ waits /\ shuffle taken lost consumed.
Proof.
  induction 1 as [|all taken lost waits msg _ (consumed & -> & Hs) _
    |all taken lost old waits msg _ (consumed & -> & Hs) _|all taken lost out waits _ (consumed & -> & Hs)].
  - exists []. split; [done|constructor].
  - exists consumed. split; [by rewrite app_assoc|done].
  - exists (consumed ++ [old]). split; [by rewrite <-!app_assoc|by constructor].
  - exists (consumed ++ out). split; [by rewrite <-app_assoc|by apply shuffle_l_app].
Qed.

(** Whatever was dropped had 100 messages behind it. *)
Lemma ledger_lost all taken lost waits msg :
  ledger all taken lost waits -> msg ∈ lost ->
  exists before behind, all = before ++ msg :: behind /\ (100 <= length behind)%nat.
Proof.
  intros H Hm. induction H as [|all taken lost waits m _ IH _|all taken lost old waits m Hl IH Hlen|]; [by apply elem_of_nil in Hm| | |auto].
  - destruct (IH Hm) as (b & k & -> & Hk). exists b, (k ++ [m]). rewrite <-app_assoc, length_app. split; [done|]. lia.
  - apply elem_of_app in Hm as [Hm| ->%list_elem_of_singleton].
    + destruct (IH Hm) as (b & k & -> & Hk). exists b, (k ++ [m]). rewrite <-app_assoc, length_app. split; [done|]. lia.
    + destruct (ledger_shuffle _ _ _ _ Hl) as (consumed & -> & _). exists consumed, (waits ++ [m]).
      rewrite <-app_assoc, length_app. split; [done|]. cbn in *. lia.
Qed.

Lemma ledger_bound all taken lost waits : ledger all taken lost waits -> (length waits <= 100)%nat.
Proof. induction 1; cbn in *; rewrite ?length_app in *; cbn; lia. Qed.

Lemma ledger_add all taken lost waits msg :
  ledger all taken lost waits ->
  exists lost', ledger (all ++ [msg]) taken lost' (lastn 100 (waits ++ [msg])).
Proof.
  intros H. pose proof (ledger_bound _ _ _ _ H) as Hb.
  destruct (decide (length waits < 100)%nat) as [Hlt|Hge].
  - exists lost. rewrite lastn_all by (rewrite length_app; cbn; lia). by apply ledger_keeps.
  - destruct waits as [|old waits]; [cbn in Hge; lia|]. exists (lost ++ [old]).
    assert (lastn 100 ((old :: waits) ++ [msg]) = waits ++ [msg]) as ->.
    { unfold lastn. replace (length ((old :: waits) ++ [msg]) - 100)%nat with 1%nat; [done|].
      rewrite length_app. cbn in *. lia. }
    apply ledger_drops; [done|lia].
Qed.

Lemma ledger_take all taken lost waits n :
  ledger all taken lost waits -> ledger all (taken ++ take n waits) lost (drop n waits).
Proof. intros H. apply ledger_takes. by rewrite take_drop. Qed.

Lemma add_ready_mono g g' p :
  (forall r l, mqg_find g r = Some l -> mqg_find g' r = Some l) ->
  add_ready g p -> add_ready g' p.
Proof. destruct p; cbn; auto. Qed.

Lemma find_same g g' r : mqg_group g' = mqg_group g -> mqg_find g' r = mqg_find g r.
Proof. unfold mqg_find. by intros ->. Qed.

Lemma adds_mono g g' t :
  (forall r l, mqg_find g r = Some l -> mqg_find g' r = Some l) ->
  Forall (add_ready g) t -> Forall (add_ready g') t.
Proof. intros H Ht. eapply Forall_impl; [done|]. intros p. by apply add_ready_mono. Qed.

Lemma adds_same g g' t :
  mqg_group g' = mqg_group g -> Forall (add_ready g) t -> Forall (add_ready g') t.
Proof. intros H. apply adds_mono. intros r l. by rewrite (find_same g g'). Qed.

Lemma drain_same g g' d :
  mqg_group g' = mqg_group g -> drain_ready g d -> drain_ready g' d.
Proof.
  intros H. destruct d as [d|]; [|done]. intros [Hnd Hd]. split; [done|].
  eapply Forall_impl; [done|]. intros r. by rewrite (find_same g g').
Qed.

(** What one message does to the ledger of every room. *)
Lemma ledgers_add (done taken : list FromConnectorMessage) (waits : string -> list FromConnectorMessage) msg r :
  (forall r, exists lost, ledger (of_room r done) (of_room r taken) lost (waits r)) ->
  exists lost, ledger (of_room r (done ++ [msg])) (of_room r taken) lost
    (if decide (r = fc_RoomId msg) then lastn 100 (waits (fc_RoomId msg) ++ [msg]) else waits r).
Proof.
  intros Hled. rewrite of_room_app. case_decide as Hr.
  - subst r. rewrite (of_room_all _ [msg]) by (by constructor). destruct (Hled (fc_RoomId msg)) as [lost Hl]. by eapply ledger_add.
  - rewrite (of_room_none r (fc_RoomId msg) [msg]) by (by repeat constructor || done).
    by rewrite app_nil_r.
Qed.

(** What draining [n] messages of room [r0] does to the ledger of every room. *)
Lemma ledgers_take (done taken : list FromConnectorMessage) (waits : string -> list FromConnectorMessage) r0 n r :
  (forall r, exists lost, ledger (of_room r done) (of_room r taken) lost (waits r)) ->
  Forall (fun m => fc_RoomId m = r0) (waits r0) ->
  exists lost, ledger (of_room r done) (of_room r (taken ++ take n (waits r0))) lost
    (if decide (r = r0) then drop n (waits r0) else waits r).
Proof.
  intros Hled Hroom. rewrite of_room_app. case_decide as Hr.
  - subst r0. rewrite (of_room_all r (take _ _)) by (by apply Forall_take). destruct (Hled r) as [lost Hl]. exists lost. by apply ledger_take.
  - rewrite (of_room_none r r0 (take _ _)) by (done || by apply Forall_take).
    by rewrite app_nil_r.
Qed.

Lemma mq_inv_init : mq_inv mq_init.
Proof.
  split; [apply wf_init|done..|]. intros r. exists []. constructor.
Qed.

Lemma mq_inv_step c c' : mq_inv c -> mq_step c c' -> mq_inv c'.
Proof.
  intros [Hwf Hadds Hdrain Hled] Hstep.
  inversion Hstep; subst; cbn [mc_group mc_adds mc_drain mc_done] in *; unfold mc_taken in *; cbn in *;
    try apply Forall_app in Hadds as [H1 [Hp H2]%Forall_cons].
  - by split; [|constructor| |].
  - split; [done| |done..]. apply Forall_app. split; [done|]. by constructor.
  - split; [done| |done..]. apply Forall_app. split; [done|]. by constructor.
  - destruct (mqg_create_spec g (fc_RoomId msg) l g' Hwf) as (Hwf' & Hc & Hl & Hmono); [done|].
    split; [done| |done|]; cbn.
    + apply Forall_app. split; [|constructor; [done|]]; by apply (adds_mono g).
    + intros r. by rewrite Hc.
  - destruct (mqg_push_spec g _ l msg Hwf Hp eq_refl) as (g0 & Hpush & Hwf' & Hg & Hc).
    assert (g0 = g') as -> by congruence.
    split; [done| |by apply (drain_same g)|]; cbn.
    + apply Forall_app. split; by apply (adds_same g).
    + intros r. rewrite Hc. by apply ledgers_add.
  - split; [done|done| |]; cbn.
    + split; [by eapply iterates_NoDup|]. apply Forall_forall. intros r Hr.
      eapply iterates_elem in Hr; [|done]. unfold mqg_find, gm_lookup, gm_content in *.
      destruct (mqg_group g); [done|]. rewrite lookup_empty in Hr. by destruct Hr.
    + intros r. specialize (Hled r). by rewrite app_nil_r in *.
  - destruct Hdrain as [[Hr Hnd]%NoDup_cons [Hfr Hrooms]%Forall_cons].
    destruct (mqg_drain_room g r msgs max tot Hwf Hfr) as (g0 & Hd & Hwf' & Hg & Hc).
    match goal with H : mqg_drain _ _ _ _ _ = (msgs', _, _) |- _ =>
      rewrite Hd in H; injection H as <- <- <- end.
    split; [done|by apply (adds_same g)|by apply (drain_same g)|]; cbn.
    intros r'. rewrite app_assoc, Hc. apply ledgers_take; [done|eauto with go].
  - split; [done..|]. intros r. cbn. by rewrite app_nil_r.
Qed.

Lemma mq_inv_reachable c : rtc mq_step mq_init c -> mq_inv c.
Proof.
  intros H. remember mq_init as c0 eqn:E. assert (mq_inv c0) as H0 by (subst; apply mq_inv_init).
  clear E. induction H; eauto using mq_inv_step.
Qed.

(** ** A call alone *)

(** A step of a call under way: nobody calls [Add] or [DrainTo] anew. *)
Definition quiet (c c' : mq_conf) : Prop :=
  mq_step c c' /\ (length (mc_adds c') <= length (mc_adds c))%nat /\ (mc_drain c = None -> mc_drain c' = None).

(** What one goroutine does next. *)
Definition add_next (g : MessageQueueGroup) (p : add_pc) (d o : list FromConnectorMessage) (c' : mq_conf) : Prop :=
  match p with
  | AddStart msg => c' = Build_mq_conf [match mqg_find g (fc_RoomId msg) with
                                        | Some l => AddPush l msg | None => AddCreate msg end] None g d o
  | AddCreate msg => let '(l, g') := mqg_create g (fc_RoomId msg) in c' = Build_mq_conf [AddPush l msg] None g' d o
  | AddPush l msg => exists g', mqg_push g l msg = Ret g' /\ c' = Build_mq_conf [] None g' (d ++ [msg]) o
  end.

Lemma unit_inv {A} (t1 t2 : list A) p q : t1 ++ p :: t2 = [q] -> t1 = [] /\ t2 = [] /\ p = q.
Proof. destruct t1 as [|? t1]; [by intros [= -> ->]|]. by destruct t1. Qed.

Lemma quiet_done g d o c' : ~ quiet (Build_mq_conf [] None g d o) c'.
Proof.
  intros (Hs & Hl & Hd). inversion Hs; subst; cbn in Hl, Hd; try lia; try (by specialize (Hd eq_refl));
    match goal with E : ?t1 ++ _ :: _ = [] |- _ => by destruct t1 end.
Qed.

Lemma quiet_add g p d o c' : quiet (Build_mq_conf [p] None g d o) c' <-> add_next g p d o c'.
Proof.
  split.
  - intros (Hs & Hl & Hd). inversion Hs; subst; cbn in Hl, Hd; try lia; try (by specialize (Hd eq_refl));
      match goal with E : _ ++ _ :: _ = [_] |- _ => apply unit_inv in E as (-> & -> & <-) end; cbn;
      match goal with E : _ = _ |- _ => rewrite ?E; eauto end.
  - unfold quiet. destruct p as [msg|msg|l msg]; cbn.
    + intros ->. cbn. split; [|by split; [lia|]].
      destruct (mqg_find g (fc_RoomId msg)) as [l|] eqn:E; [by apply (step_found [] [])|by apply (step_missing [] [])].
    + destruct (mqg_create g (fc_RoomId msg)) as [l g'] eqn:E. intros ->. cbn.
      split; [by apply (step_create [] [])|by split; [lia|]].
    + intros (g' & E & ->). cbn. split; [by apply (step_push [] [] None g d o l msg)|by split; [lia|]].
Qed.

Lemma quiet_add_run g p d o g' :
  rtc quiet (Build_mq_conf [p] None g d o) (Build_mq_conf [] None g' (d ++ [add_msg p]) o) <->
  exists c, add_next g p d o c /\ rtc quiet c (Build_mq_conf [] None g' (d ++ [add_msg p]) o).
Proof.
  split.
  - intros [[=]|(c & Hc%quiet_add & Hr)]%rtc_inv. by exists c.
  - intros (c & Hc%quiet_add & Hr). by eapply rtc_l.
Qed.

Lemma quiet_push g l msg d o g' :
  rtc quiet (Build_mq_conf [AddPush l msg] None g d o) (Build_mq_conf [] None g' (d ++ [msg]) o) <->
  mqg_push g l msg = Ret g'.
Proof.
  rewrite (quiet_add_run g (AddPush l msg)). cbn. split.
  - intros (c & (g1 & E & ->) & [[= ->]|(c' & []%quiet_done & _)]%rtc_inv). done.
  - intros E. eexists. split; [by exists g'|]. apply rtc_refl.
Qed.

Lemma quiet_drain rooms g msgs max tot d o c' :
  quiet (Build_mq_conf [] (Some (Build_drain_pc rooms msgs max tot)) g d o) c' <->
  match rooms with
  | [] => c' = Build_mq_conf [] None g d (o ++ msgs)
  | r :: rooms' => let '(msgs', tot', g') := mqg_drain [r] g msgs max tot in
      c' = Build_mq_conf [] (Some (Build_drain_pc rooms' msgs' max tot')) g' d o
  end.
Proof.
  split.
  - intros (Hs & Hl & Hd). inversion Hs; subst; cbn in Hl, Hd; try lia;
      try match goal with E : ?t1 ++ _ :: _ = [] |- _ => by destruct t1 end; [|done].
    match goal with E : mqg_drain _ _ _ _ _ = _ |- _ => by rewrite E end.
  - unfold quiet. destruct rooms as [|r rooms].
    + intros ->. split; [apply step_drain_end|by split; [cbn; lia|]].
    + destruct (mqg_drain [r] g msgs max tot) as [[msgs' tot'] g'] eqn:E. intros ->.
      split; [by eapply step_drain_room|by split; [cbn; lia|]].
Qed.

Lemma quiet_drain_run rooms g msgs max tot d o msgs' tot' g' :
  rtc quiet (Build_mq_conf [] (Some (Build_drain_pc rooms msgs max tot)) g d o)
    (Build_mq_conf [] (Some (Build_drain_pc [] msgs' max tot')) g' d o) <->
  mqg_drain rooms g msgs max tot = (msgs', tot', g').
Proof.
  revert g msgs tot. induction rooms as [|r rooms IH]; intros g msgs tot.
  - cbn. split; [|intros [= -> -> ->]; apply rtc_refl].
    intros [[= -> -> ->]|(c & ->%quiet_drain & [[=]|(c' & []%quiet_done & _)]%rtc_inv)]%rtc_inv. done.
  - rewrite mqg_drain_cons.
    pose proof (quiet_drain (r :: rooms) g msgs max tot d o) as Hn. cbn [dp_rooms] in Hn.
    destruct (mqg_drain [r] g msgs max tot) as [[msgs1 tot1] g1]. rewrite <-IH. split.
    + intros [[=]|(c & ->%Hn & Hr)]%rtc_inv. done.
    + intros Hr. eapply rtc_l; [by apply Hn|done].
Qed.

(** * Properties *)

Lemma mqg_Add_spec g msg :
  mqg_wf g ->
  exists g', mqg_Add g msg = Ret g' /\ mqg_wf g' /\
    forall r, content g' r =
      if decide (r = fc_RoomId msg)
      then lastn 100 (content g (fc_RoomId msg) ++ [msg]) else content g r.
Proof.
  intros Hwf. unfold mqg_Add. destruct (mqg_find g (fc_RoomId msg)) as [l|] eqn:Hl.
  - destruct (mqg_push_spec g _ l msg Hwf Hl eq_refl) as (g' & ? & ? & _ & ?). eauto.
  - destruct (mqg_create g (fc_RoomId msg)) as [l g1] eqn:Hg1.
    destruct (mqg_create_spec g _ l g1 Hwf Hg1) as (Hwf1 & Hc1 & Hl1 & _).
    destruct (mqg_push_spec g1 _ l msg Hwf1 Hl1 eq_refl) as (g' & ? & ? & _ & Hc).
    exists g'. split_and!; [done..|]. intros r. by rewrite Hc, !Hc1.
Qed.

(** Adding a sequence of messages. *)
Fixpoint mqg_add_all (g : MessageQueueGroup) (msgs : list FromConnectorMessage)
    : outcome MessageQueueGroup :=
  match msgs with
  | [] => Ret g
  | m :: msgs' => match mqg_Add g m with Ret g' => mqg_add_all g' msgs' | r => r end
  end.

Lemma mqg_add_all_spec msgs g :
  mqg_wf g ->
  exists g', mqg_add_all g msgs = Ret g' /\ mqg_wf g' /\
    forall r, len (content g r) + len (of_room r msgs) <= 100 ->
      content g' r = content g r ++ of_room r msgs.
Proof.
  revert g. induction msgs as [|m msgs IH]; intros g Hwf.
  { exists g. split_and!; [done..|]. intros r _. by rewrite app_nil_r. }
  destruct (mqg_Add_spec g m Hwf) as (g1 & H1 & Hwf1 & Hc1).
  destruct (IH g1 Hwf1) as (g' & H' & Hwf' & Hc'). cbn [mqg_add_all]. rewrite H1.
  exists g'. split_and!; [done..|]. intros r Hlen. specialize (Hc1 r).
  change (m :: msgs) with ([m] ++ msgs) in *. rewrite of_room_app in *.
  destruct (decide (r = fc_RoomId m)) as [->|Hr].
  - rewrite (of_room_all _ [m]) in * by (by constructor). rewrite len_app in Hlen.
    change (len [m]) with 1 in Hlen. pose proof (len_nonneg (of_room (fc_RoomId m) msgs)).
    rewrite lastn_all in Hc1 by (unfold len in *; rewrite length_app; cbn; lia).
    rewrite Hc', Hc1, <-app_assoc; [done|]. rewrite Hc1, len_app. change (len [m]) with 1. lia.
  - rewrite (of_room_none r (fc_RoomId m) [m]) in * by (by repeat constructor || done).
    rewrite Hc', Hc1; [done|]. by rewrite Hc1.
Qed.

(** [MessageQueueGroup.Add] always returns; it appends the message to the
queue of its room, of which it keeps the 100 latest messages, and leaves every
other room as it was. *)
Theorem Add_keeps_latest g msg :
  mqg_wf g ->
  exists g', mqg_Add g msg = Ret g' /\ mqg_wf g' /\
    forall r, content g' r =
      if decide (r = fc_RoomId msg)
      then lastn 100 (content g (fc_RoomId msg) ++ [msg]) else content g r.
Proof.
  apply mqg_Add_spec.
Qed.

(** C33: [MessageQueueGroup.DrainTo], whatever the order in which the map is
visited, appends to [msgs] a list in which every room's messages are the
oldest ones of its queue, in order, and leaves the others in their queues:
nothing is lost, duplicated or reordered within a room. The result fits in
[maxLength], is full if anything is left, and the count returned is the number
of messages left. *)
Theorem DrainTo_conserves g rooms msgs maxLength msgs' rest g' :
  mqg_wf g -> iterates (gm_content (mqg_group g)) rooms -> len msgs <= maxLength ->
  mqg_DrainTo rooms g msgs maxLength = (msgs', rest, g') ->
  mqg_wf g' /\
  (exists out, msgs' = msgs ++ out /\ forall r, content g r = of_room r out ++ content g' r) /\
  len msgs' <= maxLength /\ (0 < rest -> len msgs' = maxLength) /\ rest = waiting g' rooms.
Proof.
  intros Hwf Hit Hmax Hrun.
  pose proof (fun r => iterates_find g rooms r Hit) as Hin.
  apply mqg_drain_spec in Hrun as (Hwf' & Hg & Htot & Hout & Hlen & out & Hmsgs & Hc & Hnone);
    [|done|by eapply iterates_NoDup|by apply Hin].
  destruct (Hlen Hmax) as [? ?]. split_and!; [done| |done|rewrite Htot; lia|lia].
  exists out. split; [done|]. intros r. destruct (decide (r ∈ rooms)) as [?|Hr]; [auto|].
  by rewrite (Hnone r Hr), (Hout r Hr).
Qed.

(** C11: under any interleaving of the critical sections of concurrent [Add]s and of the
consumer's [DrainTo], from the initial state, the queue of every room is the bounded queue
of its ledger, fed with the messages of the room whose [Add] returned, in the order of
their last step: a message is dropped only by an [Add] that finds 100 waiting, one for
one, the oldest of them. So the messages added are, in order, a shuffle of those handed out
and those dropped followed by those waiting, a dropped message has 100 others behind it,
and at most 100 wait. *)
Theorem queues_linearizable c r :
  rtc mq_step mq_init c ->
  exists lost,
    ledger (of_room r (mc_done c)) (of_room r (mc_taken c)) lost (content (mc_group c) r) /\
    (exists consumed, of_room r (mc_done c) = consumed ++ content (mc_group c) r /\
       shuffle (of_room r (mc_taken c)) lost consumed) /\
    (forall msg, msg ∈ lost -> exists before behind,
       of_room r (mc_done c) = before ++ msg :: behind /\ (100 <= length behind)%nat) /\
    len (content (mc_group c) r) <= 100.
Proof.
  intros [_ _ _ Hled]%mq_inv_reachable. destruct (Hled r) as [lost Hl]. exists lost. split_and!; [done| | |].
  - by apply ledger_shuffle.
  - intros msg. by eapply ledger_lost.
  - apply ledger_bound in Hl. unfold len. lia.
Qed.

(** No call gets stuck. In every reachable configuration each goroutine
inside [Add] can take its next step, except one that waits to create a queue
while the consumer holds the read lock; and then the consumer can take a step. *)
Theorem queues_progress c t1 p t2 :
  rtc mq_step mq_init c -> mc_adds c = t1 ++ p :: t2 ->
  exists c', mq_step c c' /\
    (match mc_drain c, p with
     | Some _, AddCreate _ => mc_drain c' <> mc_drain c
     | _, AddPush _ m => mc_adds c' = t1 ++ t2
     | _, _ => exists p', mc_adds c' = t1 ++ p' :: t2 /\ add_msg p' = add_msg p
     end).
Proof.
  intros [Hwf Hadds Hdrain _]%mq_inv_reachable Ht.
  destruct c as [t dr g d o]. cbn in *. subst t.
  apply Forall_app in Hadds as [_ [Hp _]%Forall_cons].
  destruct p as [msg|msg|l msg]; cbn in *.
  - destruct (mqg_find g (fc_RoomId msg)) as [l|] eqn:E; (eexists; split;
      [first [by eapply step_found|by eapply step_missing]|]); destruct dr; cbn; eauto.
  - destruct dr as [[[|r rooms] msgs max tot]|].
    + eexists. split; [apply step_drain_end|]. done.
    + destruct (mqg_drain [r] g msgs max tot) as [[msgs' tot'] g'] eqn:E.
      eexists. split; [by eapply step_drain_room|]. cbn. intros [= Hrooms _ _].
      by apply (f_equal length) in Hrooms; cbn in Hrooms; lia.
    + destruct (mqg_create g (fc_RoomId msg)) as [l g'] eqn:E.
      eexists. split; [by eapply step_create|]. cbn. eauto.
  - destruct (mqg_push_spec g _ l msg Hwf Hp eq_refl) as (g' & E & _).
    eexists. split; [by eapply step_push|]. by destruct dr.
Qed.

(** A call that nobody interrupts. The steps of a single [Add] end with a group exactly if
the sequential [Add] returns it, and the steps of a single [DrainTo] visit the rooms
exactly to the messages, the count and the group that the sequential one
returns: the interleaved model and the operations are the same program. *)
Theorem calls_alone g d o :
  (forall msg g', rtc quiet (Build_mq_conf [AddStart msg] None g d o) (Build_mq_conf [] None g' (d ++ [msg]) o) <->
    mqg_Add g msg = Ret g') /\
  (forall rooms max msgs tot g',
    rtc quiet (Build_mq_conf [] (Some (Build_drain_pc rooms [] max 0)) g d o)
      (Build_mq_conf [] (Some (Build_drain_pc [] msgs max tot)) g' d o) <->
    mqg_DrainTo rooms g [] max = (msgs, tot, g')).
Proof.
  split; [|intros; apply quiet_drain_run]. intros msg g'. rewrite (quiet_add_run g (AddStart msg)).
  unfold mqg_Add. cbn. destruct (mqg_find g (fc_RoomId msg)) as [l|].
  - rewrite <-(quiet_push _ _ _ d o). split; [by intros (c & -> & ?)|]. intros ?. by eexists.
  - destruct (mqg_create g (fc_RoomId msg)) as [l g1] eqn:E. rewrite <-(quiet_push _ _ _ d o). split.
    + intros (c & -> & (c' & Hc & Hr)%(quiet_add_run g (AddCreate msg))). cbn in Hc. rewrite E in Hc. by subst c'.
    + intros Hr. eexists. split; [done|]. apply (quiet_add_run g (AddCreate msg)). cbn. rewrite E. by eexists.
Qed.

(** * Witnesses *)

Definition sample_msg (room id : string) : FromConnectorMessage :=
  {| fc_MessageId := id; fc_RoomId := room; fc_UserId := "u"; fc_Nickname := "n";
     fc_Time := 0; fc_Level := 1; fc_Type := 1; fc_Params := None |}.

Definition sample_msgs : list FromConnectorMessage :=
  [sample_msg "a" "1"; sample_msg "b" "2"; sample_msg "a" "3"].

Definition sample_group : MessageQueueGroup :=
  match mqg_add_all messageQueueGroup sample_msgs with Ret g => g | _ => messageQueueGroup end.

Lemma sample_group_wf : mqg_wf sample_group.
Proof.
  unfold sample_group.
  destruct (mqg_add_all_spec sample_msgs _ wf_init) as (g' & -> & Hwf & _). done.
Qed.

Lemma sample_rooms : iterates (gm_content (mqg_group sample_group)) ["b"; "a"].
Proof. unfold iterates. vm_compute. apply Permutation_swap. Qed.

Lemma Add_keeps_latest_witness :
  exists g', mqg_Add sample_group (sample_msg "a" "4") = Ret g' /\ mqg_wf g' /\
    forall r, content g' r =
      if decide (r = "a")
      then lastn 100 (content sample_group "a" ++ [sample_msg "a" "4"])
      else content sample_group r.
Proof. exact (Add_keeps_latest sample_group (sample_msg "a" "4") sample_group_wf). Defined.

Lemma DrainTo_conserves_witness :
  let '(msgs', rest, g') := mqg_DrainTo ["b"; "a"] sample_group [] 2 in
  msgs' = [sample_msg "b" "2"; sample_msg "a" "1"] /\ rest = 1 /\ waiting g' ["b"; "a"] = 1.
Proof.
  destruct (mqg_DrainTo ["b"; "a"] sample_group [] 2) as [[msgs' rest] g'] eqn:E.
  destruct (DrainTo_conserves sample_group ["b"; "a"] [] 2 msgs' rest g'
    sample_group_wf sample_rooms ltac:(vm_compute; discriminate) E) as (_ & _ & _ & _ & Hrest).
  assert (msgs' = [sample_msg "b" "2"; sample_msg "a" "1"] /\ rest = 1) as [-> ->].
  { vm_compute in E. by injection E as <- <- _. }
  split_and!; [done..|]. by rewrite Hrest.
Defined.

Lemma sample_conf_reachable :
  rtc mq_step mq_init
    (Build_mq_conf [AddCreate (sample_msg "a" "1")] None messageQueueGroup [] []).
Proof.
  eapply rtc_l; [apply (step_call _ _ _ _ _ (sample_msg "a" "1"))|].
  eapply rtc_l; [by apply (step_missing [] [])|]. apply rtc_refl.
Qed.

Lemma queues_linearizable_witness :
  exists c, rtc mq_step mq_init c /\ mc_done c = [sample_msg "a" "1"] /\
    exists lost, ledger (of_room "a" (mc_done c)) (of_room "a" (mc_taken c)) lost (content (mc_group c) "a").
Proof.
  assert (exists c, rtc mq_step mq_init c /\ mc_done c = [sample_msg "a" "1"]) as (c & Hc & Hd).
  { eexists. split.
    - eapply rtc_r; [eapply rtc_r; [apply sample_conf_reachable|]|].
      + by apply (step_create [] []).
      + by apply (step_push [] []).
    - reflexivity. }
  exists c. split; [exact Hc|]. split; [exact Hd|].
  destruct (queues_linearizable c "a" Hc) as (lost & H & _). exists lost. exact H.
Defined.

Lemma queues_progress_witness :
  exists c', mq_step (Build_mq_conf [AddCreate (sample_msg "a" "1")] None messageQueueGroup [] []) c' /\
    exists p', mc_adds c' = [p'] /\ add_msg p' = sample_msg "a" "1".
Proof.
  destruct (queues_progress _ [] (AddCreate (sample_msg "a" "1")) [] sample_conf_reachable eq_refl)
    as (c' & ? & p' & ? & ?). exists c'. split; [done|]. by exists p'.
Defined.
