(* ===== verification/Room.v ===== *)
(** The rooms (connectsvc/room.go): for every room a map from user ids to
clients, created when the first client enters and removed with the last one.
A client is its address and its id, the field [ID] that never changes. *)

From S2P Require Import Prelude.

(** * Data *)

(** The map of rooms holds references to the inner maps: [deliverToRoom] keeps
such a reference while the lock is released. *)
Record RoomManager := {
  rm_clients : gmap string loc;
  rm_maps : gmap loc (gmap string loc);
}.

Definition NewRoomManager : RoomManager := {| rm_clients := ∅; rm_maps := ∅ |}.

(** * Operations *)

(** [m.clients[roomId]], the empty map when there is none. *)
Definition rm_inner (m : RoomManager) (roomId : string) : gmap string loc :=
  match rm_clients m !! roomId with
  | Some l => default ∅ (rm_maps m !! l)
  | None => ∅
  end.

(** [m.clients[roomId][id]] *)
Definition rm_lookup (m : RoomManager) (roomId id : string) : option loc := rm_inner m roomId !! id.

(** [RoomManager.ending] *)
Definition rm_ending (m : RoomManager) (roomId : string) (client : loc) (id : string) : RoomManager :=
  if decide (rm_lookup m roomId id = Some client) then
    match rm_clients m !! roomId with
    | None => m
    | Some l =>
        let inner := delete id (rm_inner m roomId) in
        {| rm_clients := if decide (size inner = 0)
                         then delete roomId (rm_clients m) else rm_clients m;
           rm_maps := <[l := inner]> (rm_maps m) |}
    end
  else m.

(** [search] *)
Definition rm_search (m : RoomManager) (roomId : string) (client : loc) (id : string) : bool :=
  bool_decide (rm_lookup m roomId id = Some client).

(** The part of [RoomManager.clientIn] under its own lock: create the inner
map if there is none, put the client into it. *)
Definition rm_make (m : RoomManager) (roomId : string) : loc * RoomManager :=
  match rm_clients m !! roomId with
  | Some l => (l, m)
  | None =>
      let l := fresh (dom (rm_maps m)) in
      (l, {| rm_clients := <[roomId := l]> (rm_clients m);
             rm_maps := <[l := ∅]> (rm_maps m) |})
  end.

Definition rm_enter (m : RoomManager) (roomId : string) (client : loc) (id : string) : RoomManager :=
  let '(l, m') := rm_make m roomId in
  if rm_search m' roomId client id then m' else
  {| rm_clients := rm_clients m';
     rm_maps := <[l := <[id := client]> (rm_inner m' roomId)]> (rm_maps m') |}.

(** [RoomManager.clientIn]: the rooms after the call, and the value stored into
[c.roomId] if any. *)
Definition rm_clientIn (m : RoomManager) (client : loc) (id roomId : string)
    : RoomManager * option string :=
  if bool_decide (roomId = "") then (m, None)
  else (rm_enter (rm_ending m roomId client id) roomId client id, Some roomId).

(** * Critical sections in any order

Every call takes the lock once ([ending]) or twice ([clientIn]: [ending], then
[rm_enter]), so concurrent calls are sequences of these two sections, each with the
arguments of its call. *)
Inductive act :=
  | AEnding (roomId : string) (client : loc) (id : string)
  | AEnter (roomId : string) (client : loc) (id : string).

Definition run_act (m : RoomManager) (a : act) : RoomManager :=
  match a with
  | AEnding roomId client id => rm_ending m roomId client id
  | AEnter roomId client id => rm_enter m roomId client id
  end.

(** * Invariant and specification *)

(** No dangling or shared inner map, no empty room; an inner map that is no longer
the map of a room, which a delivery may still hold, is empty. *)
Record rm_wf (m : RoomManager) : Prop := {
  rwf_alloc : forall r l, rm_clients m !! r = Some l -> is_Some (rm_maps m !! l);
  rwf_inj : forall r r' l, rm_clients m !! r = Some l -> rm_clients m !! r' = Some l -> r = r';
  rwf_nonempty : forall r, is_Some (rm_clients m !! r) -> rm_inner m r <> ∅;
  rwf_detached : forall l inner, rm_maps m !! l = Some inner -> (forall r, rm_clients m !! r <> Some l) -> inner = ∅;
}.

(** The abstract rooms: who is where, as one finite map from (room, user id). *)
Definition abs_ending (who : string -> string -> option loc) (roomId : string) (client : loc)
    (id : string) : string -> string -> option loc := fun r i =>
  if decide (r = roomId /\ i = id /\ who roomId id = Some client) then None else who r i.

Definition abs_enter (who : string -> string -> option loc) (roomId : string) (client : loc)
    (id : string) : string -> string -> option loc := fun r i =>
  if decide (r = roomId /\ i = id) then Some client else who r i.

(** What a section is to do, for the arguments of its call. *)
Definition abs_act (who : string -> string -> option loc) (a : act) : string -> string -> option loc :=
  match a with
  | AEnding roomId client id => abs_ending who roomId client id
  | AEnter roomId client id => abs_enter who roomId client id
  end.

(** Nobody is anywhere. *)
Definition nobody : string -> string -> option loc := fun _ _ => None.

(** * Lemmas *)

Lemma rm_inner_Some m r l : rm_clients m !! r = Some l -> rm_inner m r = default ∅ (rm_maps m !! l).
Proof. unfold rm_inner. by intros ->. Qed.

Lemma rm_lookup_room m r i c : rm_lookup m r i = Some c -> exists l, rm_clients m !! r = Some l.
Proof. unfold rm_lookup, rm_inner. destruct (rm_clients m !! r); [eauto|]. by rewrite lookup_empty. Qed.

(** Replacing one inner map, keeping or dropping its room. *)
Lemma rm_inner_update m r l inner rooms r' :
  rm_wf m -> rm_clients m !! r = Some l -> rooms = rm_clients m ->
  rm_inner {| rm_clients := rooms; rm_maps := <[l := inner]> (rm_maps m) |} r' =
  if decide (r' = r) then inner else rm_inner m r'.
Proof.
  intros Hwf Hl ->. unfold rm_inner. cbn. case_decide as Hr.
  - subst r'. by rewrite Hl, lookup_insert_eq.
  - destruct (rm_clients m !! r') as [l'|] eqn:Hl'; [|done].
    rewrite lookup_insert_ne; [done|]. intros ->. by apply Hr, (rwf_inj m Hwf _ _ l').
Qed.

Lemma rm_inner_drop m r l inner r' :
  rm_wf m -> rm_clients m !! r = Some l ->
  rm_inner {| rm_clients := delete r (rm_clients m); rm_maps := <[l := inner]> (rm_maps m) |} r' =
  if decide (r' = r) then ∅ else rm_inner m r'.
Proof.
  intros Hwf Hl. unfold rm_inner. cbn. case_decide as Hr.
  - subst r'. by rewrite lookup_delete_eq.
  - rewrite lookup_delete_ne by done. destruct (rm_clients m !! r') as [l'|] eqn:Hl'; [|done].
    rewrite lookup_insert_ne; [done|]. intros ->. by apply Hr, (rwf_inj m Hwf _ _ l').
Qed.

(** [ending] removes exactly the binding of this client. *)
Lemma rm_ending_inner m roomId client id r :
  rm_wf m ->
  rm_inner (rm_ending m roomId client id) r =
  if decide (r = roomId /\ rm_lookup m roomId id = Some client)
  then delete id (rm_inner m r) else rm_inner m r.
Proof.
  intros Hwf. unfold rm_ending. destruct (decide (rm_lookup m roomId id = Some client)) as [Hc|Hc].
  - destruct (rm_lookup_room m roomId id client Hc) as [l Hl]. rewrite Hl.
    case_decide as Hs.
    + rewrite (rm_inner_drop m roomId l) by done. apply map_size_empty_inv in Hs.
      destruct (decide (r = roomId)) as [->|]; [by rewrite decide_True, Hs|].
      by rewrite decide_False by tauto.
    + rewrite (rm_inner_update m roomId l) by done.
      destruct (decide (r = roomId)) as [->|]; [by rewrite decide_True|].
      by rewrite decide_False by tauto.
  - by rewrite decide_False by tauto.
Qed.

Lemma rm_ending_wf m roomId client id : rm_wf m -> rm_wf (rm_ending m roomId client id).
Proof.
  intros Hwf. pose proof (fun r => rm_ending_inner m roomId client id r Hwf) as Hin. revert Hin.
  unfold rm_ending. destruct (decide (rm_lookup m roomId id = Some client)) as [Hc|Hc]; [|done].
  destruct (rm_lookup_room m roomId id client Hc) as [l Hl]. rewrite Hl. intros Hin.
  split; cbn.
  - intros r l' Hr. rewrite lookup_insert_is_Some'. right. apply (rwf_alloc m Hwf r).
    case_decide; [by apply lookup_delete_Some in Hr as [_ ?]|done].
  - intros r r' l'. case_decide; [|apply (rwf_inj m Hwf)].
    intros [_ ?]%lookup_delete_Some [_ ?]%lookup_delete_Some. by apply (rwf_inj m Hwf _ _ l').
  - intros r Hr. rewrite Hin. case_decide as Hs.
    + rewrite lookup_delete_is_Some in Hr. destruct Hr as [Hne Hr].
      rewrite decide_False by (by intros [? _]). by apply (rwf_nonempty m Hwf).
    + destruct (decide (r = roomId)) as [->|Hne].
      * rewrite decide_True by done. intros He. apply Hs. by rewrite He, map_size_empty.
      * rewrite decide_False by (by intros [? _]). by apply (rwf_nonempty m Hwf).
  - intros l' inner Hm Hd. destruct (decide (l' = l)) as [->|Hne].
    + rewrite lookup_insert_eq in Hm. injection Hm as <-. case_decide as Hs; [by apply map_size_empty_inv|].
      by destruct (Hd roomId).
    + rewrite lookup_insert_ne in Hm by done. apply (rwf_detached m Hwf l' inner Hm).
      intros r Hr. apply (Hd r). case_decide; [|done]. rewrite lookup_delete_ne; [done|congruence].
Qed.

Lemma rm_make_spec m roomId l m' :
  rm_wf m -> rm_make m roomId = (l, m') ->
  rm_clients m' !! roomId = Some l /\ is_Some (rm_maps m' !! l) /\
  (forall r, rm_inner m' r = rm_inner m r) /\
  (forall r, r <> roomId -> rm_clients m' !! r = rm_clients m !! r) /\
  (forall r l', r <> roomId -> rm_clients m !! r = Some l' -> rm_maps m' !! l' = rm_maps m !! l') /\
  (forall r, r <> roomId -> rm_clients m !! r <> Some l) /\
  (forall l' inner, rm_maps m' !! l' = Some inner -> l' <> l -> rm_maps m !! l' = Some inner).
Proof.
  intros Hwf. unfold rm_make. destruct (rm_clients m !! roomId) as [l0|] eqn:E; intros [= <- <-].
  { split_and!; eauto using rwf_alloc. intros r Hr Hl. by apply Hr, (rwf_inj m Hwf _ _ l0). }
  set (l := fresh _). assert (rm_maps m !! l = None) as Hl by apply not_elem_of_dom, is_fresh.
  assert (forall r, rm_clients m !! r <> Some l) as Hold.
  { intros r Hr. apply (rwf_alloc m Hwf) in Hr as [? ?]. congruence. }
  split_and!; cbn; [by rewrite lookup_insert_eq|by rewrite lookup_insert_eq| | | |auto|].
  - intros r. unfold rm_inner. cbn. destruct (decide (r = roomId)) as [->|Hr].
    + by rewrite !lookup_insert_eq, E.
    + rewrite lookup_insert_ne by done. destruct (rm_clients m !! r) as [l'|] eqn:Hl'; [|done].
      rewrite lookup_insert_ne; [done|]. intros <-. by apply (Hold r).
  - intros r Hr. by rewrite lookup_insert_ne.
  - intros r l' Hr Hl'. rewrite lookup_insert_ne; [done|]. intros <-. by apply (Hold r).
  - intros l' inner Hm Hne. by rewrite lookup_insert_ne in Hm.
Qed.

Lemma rm_enter_inner m roomId client id r :
  rm_wf m ->
  rm_inner (rm_enter m roomId client id) r =
  if decide (r = roomId) then <[id := client]> (rm_inner m r) else rm_inner m r.
Proof.
  intros Hwf. unfold rm_enter. destruct (rm_make m roomId) as [l m'] eqn:E.
  destruct (rm_make_spec m roomId l m' Hwf E) as (Hl & Hm & Hin & Hcl & Hmaps & Hfresh & Hback).
  unfold rm_search. case_bool_decide as Hs; unfold rm_lookup in Hs; rewrite Hin in *.
  - case_decide; [|done]. subst r. by rewrite insert_id.
  - destruct (decide (r = roomId)) as [->|Hr].
    + unfold rm_inner at 1. cbn. by rewrite Hl, lookup_insert_eq.
    + rewrite <-(Hin r). unfold rm_inner. cbn. rewrite Hcl by done.
      destruct (rm_clients m !! r) as [l'|] eqn:Hl'; [|done].
      rewrite lookup_insert_ne; [done|]. intros <-. by apply (Hfresh r).
Qed.

Lemma rm_enter_wf m roomId client id : rm_wf m -> rm_wf (rm_enter m roomId client id).
Proof.
  intros Hwf. pose proof (fun r => rm_enter_inner m roomId client id r Hwf) as Hin. revert Hin.
  unfold rm_enter. destruct (rm_make m roomId) as [l m'] eqn:E.
  destruct (rm_make_spec m roomId l m' Hwf E) as (Hl & Hm & Hin' & Hcl & Hmaps & Hfresh & Hback).
  assert (forall r l', rm_clients m' !! r = Some l' -> is_Some (rm_maps m' !! l')) as Halloc.
  { intros r l' Hr. destruct (decide (r = roomId)) as [->|Hne]; [congruence|].
    rewrite Hcl in Hr by done. rewrite (Hmaps r) by done. by apply (rwf_alloc m Hwf r). }
  assert (forall r r' l', rm_clients m' !! r = Some l' -> rm_clients m' !! r' = Some l' -> r = r') as Hinj.
  { intros r r' l' Hr Hr'. destruct (decide (r = roomId)) as [->|], (decide (r' = roomId)) as [->|];
      [done|..]; rewrite ?Hcl in * by done; simplify_eq.
    - by destruct (Hfresh r').
    - by destruct (Hfresh r).
    - by apply (rwf_inj m Hwf _ _ l'). }
  assert (forall r, is_Some (rm_clients m' !! r) -> r <> roomId -> is_Some (rm_clients m !! r)) as Hold
    by (intros r Hr Hn; by rewrite Hcl in Hr).
  assert (forall mm : RoomManager, (forall r, rm_inner mm r = if decide (r = roomId)
      then <[id := client]> (rm_inner m r) else rm_inner m r) ->
    (forall r, is_Some (rm_clients m' !! r) -> rm_inner mm r <> ∅)) as Hnonempty.
  { intros mm Hmm r Hr. rewrite Hmm. case_decide; [apply insert_non_empty|].
    apply (rwf_nonempty m Hwf). auto. }
  assert (forall l' inner, rm_maps m' !! l' = Some inner -> (forall r, rm_clients m' !! r <> Some l') -> inner = ∅) as Hdet.
  { intros l' inner Hl' Hd. assert (l' <> l) as Hne by (intros ->; by apply (Hd roomId)).
    apply (rwf_detached m Hwf l' inner); [by apply Hback|]. intros r Hr. destruct (decide (r = roomId)) as [->|Hn].
    - assert (l = l'); [|congruence]. unfold rm_make in E. rewrite Hr in E. congruence.
    - apply (Hd r). by rewrite Hcl. }
  case_match; intros Hin; split; cbn; eauto.
  - intros r l' Hr. rewrite lookup_insert_is_Some'. right. eauto.
  - intros l' inner Hl' Hd. destruct (decide (l' = l)) as [->|Hne]; [by destruct (Hd roomId)|].
    rewrite lookup_insert_ne in Hl' by done. eauto.
Qed.

(** The two sections implement the abstract operations. *)
Lemma rm_ending_lookup m roomId client id r i :
  rm_wf m ->
  rm_lookup (rm_ending m roomId client id) r i = abs_ending (rm_lookup m) roomId client id r i.
Proof.
  intros Hwf. unfold rm_lookup at 1. rewrite rm_ending_inner by done. unfold abs_ending.
  case_decide as H1.
  - destruct H1 as [-> H1]. destruct (decide (i = id)) as [->|Hi].
    + rewrite decide_True by done. apply lookup_delete_eq.
    + rewrite decide_False by tauto. by apply lookup_delete_ne.
  - by rewrite decide_False by tauto.
Qed.

Lemma rm_enter_lookup m roomId client id r i :
  rm_wf m ->
  rm_lookup (rm_enter m roomId client id) r i = abs_enter (rm_lookup m) roomId client id r i.
Proof.
  intros Hwf. unfold rm_lookup at 1. rewrite rm_enter_inner by done. unfold abs_enter.
  destruct (decide (r = roomId)) as [->|Hr]; [|by rewrite decide_False by tauto].
  destruct (decide (i = id)) as [->|Hi].
  - rewrite decide_True by done. apply lookup_insert_eq.
  - rewrite decide_False by tauto. by apply lookup_insert_ne.
Qed.

Lemma rm_wf_init : rm_wf NewRoomManager.
Proof. split; cbn; intros *; rewrite lookup_empty; [done|done| |done]. by intros [? ?]. Qed.

Lemma run_act_wf m a : rm_wf m -> rm_wf (run_act m a).
Proof. destruct a; cbn; auto using rm_ending_wf, rm_enter_wf. Qed.

Lemma run_act_lookup m a r i : rm_wf m -> rm_lookup (run_act m a) r i = abs_act (rm_lookup m) a r i.
Proof. destruct a; cbn; [apply rm_ending_lookup|apply rm_enter_lookup]. Qed.

Lemma abs_act_ext who who' a :
  (forall r i, who r i = who' r i) -> forall r i, abs_act who a r i = abs_act who' a r i.
Proof. intros H r i. destruct a; cbn; unfold abs_ending, abs_enter; by rewrite !H. Qed.

Lemma rm_clientIn_wf m c id roomId : rm_wf m -> rm_wf (rm_clientIn m c id roomId).1.
Proof. intros. unfold rm_clientIn. case_bool_decide; [done|]. by apply rm_enter_wf, rm_ending_wf. Qed.

(** Whoever was there, after [clientIn] the client is in the room and nothing
else has changed. *)
Lemma rm_clientIn_lookup m c id roomId r i :
  rm_wf m -> roomId <> "" ->
  rm_lookup (rm_clientIn m c id roomId).1 r i =
  if decide (r = roomId /\ i = id) then Some c else rm_lookup m r i.
Proof.
  intros Hwf Hr. unfold rm_clientIn. rewrite bool_decide_false by done. cbn.
  rewrite rm_enter_lookup by auto using rm_ending_wf. unfold abs_enter. case_decide; [done|].
  rewrite rm_ending_lookup by done. unfold abs_ending. by rewrite decide_False by tauto.
Qed.

#[export] Hint Resolve rm_wf_init rm_ending_wf rm_enter_wf rm_clientIn_wf : go.

(** * Properties *)

(** The abstraction relation: the same members, and a room exists exactly when
somebody is in it. *)
Definition rm_abs (m : RoomManager) (who : string -> string -> option loc) : Prop :=
  (forall r i, rm_lookup m r i = who r i) /\
  (forall r, is_Some (rm_clients m !! r) <-> exists i, is_Some (who r i)).

Lemma rm_abs_self m : rm_wf m -> rm_abs m (rm_lookup m).
Proof.
  intros Hwf. split; [done|]. intros r. split.
  - intros Hr. pose proof (rwf_nonempty m Hwf r Hr) as Hne.
    apply map_choose in Hne as (i & c & Hi). exists i. by exists c.
  - intros (i & c & Hi). apply rm_lookup_room in Hi as [l Hl]. eauto.
Qed.

Lemma rm_abs_ext m who who' :
  (forall r i, who r i = who' r i) -> rm_abs m who -> rm_abs m who'.
Proof.
  intros H [H1 H2]. split; [by intros; rewrite <-H|]. intros r. rewrite H2.
  split; intros [i Hi]; exists i; [by rewrite <-H|by rewrite H].
Qed.

(** C12: the rooms refine a finite relation. Whatever calls of [clientIn] and [ending]
run concurrently and in whatever order their critical sections come, the rooms stand for
the assignment of clients to (room, user id) that the same sections, with the same
arguments, give when each of them is the abstract operation: [ending] of a client removes
the pair if it still is this client's and nothing else, entering sets the pair. A room
exists exactly while somebody is in it, and the references to the inner maps are sound. *)
Theorem rooms_refine acts :
  let m := foldl run_act NewRoomManager acts in
  rm_abs m (foldl abs_act nobody acts) /\ rm_wf m.
Proof.
  cbn zeta. induction acts as [|a acts [[IH _] Hwf]] using rev_ind.
  - split; [|apply rm_wf_init]. apply (rm_abs_ext _ (rm_lookup NewRoomManager)); [done|].
    apply rm_abs_self, rm_wf_init.
  - rewrite !foldl_app. cbn [foldl]. set (m := foldl run_act NewRoomManager acts) in *.
    assert (rm_wf (run_act m a)) as Hwf' by (by apply run_act_wf). split; [|done].
    apply (rm_abs_ext _ (rm_lookup (run_act m a))); [|by apply rm_abs_self].
    intros r i. rewrite run_act_lookup by done. by apply abs_act_ext.
Qed.

(** [clientIn] puts the client into the room, in place of an older client
with its id, and changes no other membership; with an empty room id it does
nothing. *)
Theorem clientIn_enters m c id roomId :
  rm_wf m ->
  let '(m', stored) := rm_clientIn m c id roomId in
  rm_wf m' /\
  if decide (roomId = "") then m' = m /\ stored = None
  else stored = Some roomId /\
       forall r i, rm_lookup m' r i =
         if decide (r = roomId /\ i = id) then Some c else rm_lookup m r i.
Proof.
  intros Hwf. pose proof (rm_clientIn_wf m c id roomId Hwf) as Hwf'.
  pose proof (fun r i => rm_clientIn_lookup m c id roomId r i Hwf) as Hl. revert Hwf' Hl.
  unfold rm_clientIn. case_bool_decide as Hr; case_decide; try done. cbn. auto.
Qed.

(** A client that changes rooms stays a member of the room it left: [clientIn]
ends its membership of the room it enters, not of the room it is in. When
it ends, only its last room is cleared and the old membership remains. *)
Theorem room_change_keeps_old m c id r1 r2 :
  rm_wf m -> r1 <> r2 -> r1 <> "" -> r2 <> "" ->
  let m1 := (rm_clientIn m c id r1).1 in
  let '(m2, stored) := rm_clientIn m1 c id r2 in
  rm_lookup m2 r1 id = Some c /\ rm_lookup m2 r2 id = Some c /\
  let m3 := rm_ending m2 (default "" stored) c id in
  rm_lookup m3 r1 id = Some c /\ rm_lookup m3 r2 id = None.
Proof.
  intros Hwf Hne H1 H2 m1. pose proof (rm_clientIn_wf m c id r1 Hwf) as Hwf1. fold m1 in Hwf1.
  pose proof (rm_clientIn_wf m1 c id r2 Hwf1) as Hwf2.
  pose proof (fun r i => rm_clientIn_lookup m1 c id r2 r i Hwf1 H2) as Hl2.
  destruct (rm_clientIn m1 c id r2) as [m2 stored] eqn:E. cbn in Hwf2, Hl2.
  assert (stored = Some r2) as ->.
  { unfold rm_clientIn in E. rewrite bool_decide_false in E by done. congruence. }
  assert (rm_lookup m2 r1 id = Some c) as Hr1.
  { rewrite Hl2, decide_False by naive_solver. unfold m1.
    rewrite rm_clientIn_lookup by done. by rewrite decide_True. }
  assert (rm_lookup m2 r2 id = Some c) as Hr2 by (rewrite Hl2; by rewrite decide_True).
  cbn. rewrite !rm_ending_lookup by done. unfold abs_ending.
  rewrite decide_False by (by intros [? _]). by rewrite decide_True.
Qed.

(** * Witnesses *)

Lemma clientIn_enters_witness :
  rm_lookup (rm_clientIn NewRoomManager 1%positive "u" "a").1 "a" "u" = Some 1%positive.
Proof.
  pose proof (clientIn_enters NewRoomManager 1%positive "u" "a" rm_wf_init) as H.
  destruct (rm_clientIn NewRoomManager 1%positive "u" "a") as [m' stored].
  rewrite decide_False in H by done. destruct H as (_ & _ & H). cbn.
  rewrite H. by rewrite decide_True.
Defined.

Lemma room_change_keeps_old_witness :
  let m1 := (rm_clientIn NewRoomManager 1%positive "u" "a").1 in
  let '(m2, stored) := rm_clientIn m1 1%positive "u" "b" in
  rm_lookup m2 "a" "u" = Some 1%positive /\ rm_lookup m2 "b" "u" = Some 1%positive /\
  let m3 := rm_ending m2 (default "" stored) 1%positive "u" in
  rm_lookup m3 "a" "u" = Some 1%positive /\ rm_lookup m3 "b" "u" = None.
Proof. by apply (room_change_keeps_old NewRoomManager 1%positive "u" "a" "b" rm_wf_init). Defined.
