(* ===== verification/Config.v ===== *)
(** The configuration (common/config, server/connector/internal/config): its
data, the JSON forms of durations and addresses, the decoding of the file, and the
[Check] methods that decide whether it is accepted. *)

From S2P Require Import Prelude GoText Json GoTime Decode.
Local Open Scope Z_scope.

(** * common/config *)

Definition ErrConfigContent : error := EText "config content invalid".
Definition ErrDurationFormat : error := EText "duration format invalid".
Definition ErrTCPAddrFormat : error := EText "tcpaddr format invalid".

(** What stands between the quotes of a JSON string, as it is written. *)
Definition unquote (b : bytes) : option bytes :=
  match b with
  | [] => None
  | x :: l => if (2 <=? len b) && Byte.eqb x x22 && Byte.eqb (List.last b x00) x22
              then Some (removelast l) else None
  end.

(** [type Duration time.Duration]: nanoseconds. *)
Definition Duration : Type := Z.
Definition Duration_Check (d : Duration) : bool := 0 <? d.

Definition Duration_MarshalJSON (d : Duration) : bytes * option error :=
  (bytes_of_string (String.append quote (String.append (Duration_String d) quote)), None).

Definition Duration_UnmarshalJSON (b : bytes) (d : Duration) : Duration * option error :=
  match unquote b with
  | None => (d, Some ErrDurationFormat)
  | Some s =>
      match ParseDuration (string_of_bytes s) with
      | Some (inl d) => (d, None)
      | Some (inr err) => (d, Some err)
      | None => (d, None) (* does not happen, see ParseDuration_total *)
      end
  end.

(** [type TCPAddr net.TCPAddr] *)
Record TCPAddr := { ta_IP : bytes; ta_Port : Z; ta_Zone : string }.

(** Of package net: the text of an address and the address of a text, which may
be a name to look up. *)
Class Resolver := {
  TCPAddr_String : TCPAddr -> string;
  ResolveTCPAddr : string -> TCPAddr + error;
}.

Definition TCPAddr_MarshalJSON `{Resolver} (d : TCPAddr) : bytes * option error :=
  (bytes_of_string (String.append quote (String.append (TCPAddr_String d) quote)), None).

Definition TCPAddr_UnmarshalJSON `{Resolver} (b : bytes) (d : TCPAddr) : TCPAddr * option error :=
  match unquote b with
  | None => (d, Some ErrTCPAddrFormat)
  | Some s =>
      match ResolveTCPAddr (string_of_bytes s) with
      | inl d => (d, None)
      | inr err => (d, Some err)
      end
  end.

Definition TCPAddr_Check (d : TCPAddr) : bool := (0 <? len (ta_IP d)) && negb (ta_Port d =? 0).

Record ServiceConfT := { sv_ListenAddr : TCPAddr; sv_MaxConcurrent : Z; sv_HesitateTime : Duration }.
Definition ServiceConfT_Check (c : ServiceConfT) : bool :=
  TCPAddr_Check (sv_ListenAddr c) && (0 <=? sv_MaxConcurrent c) && (0 <=? sv_HesitateTime c).

Record UpstreamConfT := { up_Addr : string; up_MaxConcurrent : Z; up_Timeout : Duration }.
Definition UpstreamConfT_Check (c : UpstreamConfT) : bool :=
  negb (bool_decide (up_Addr c = "")) && (0 <=? up_MaxConcurrent c) && (0 <=? up_Timeout c).

Record MysqlConfT := {
  my_Addr : string; my_MaxConcurrent : Z; my_User : string; my_Pass : string; my_DBName : string;
}.
Definition MysqlConfT_Check (c : MysqlConfT) : bool :=
  negb (bool_decide (my_Addr c = "")) && (0 <=? my_MaxConcurrent c) &&
  negb (bool_decide (my_User c = "")) && negb (bool_decide (my_Pass c = "")) &&
  negb (bool_decide (my_DBName c = "")).

Record RedisConfT := { rd_Addr : string; rd_MaxConcurrent : Z; rd_Pass : string }.
Definition RedisConfT_Check (c : RedisConfT) : bool :=
  negb (bool_decide (rd_Addr c = "")) && (0 <=? rd_MaxConcurrent c).

Record BDMsgSvcConfT := {
  bs_ListenAddr : TCPAddr; bs_InqueueN : Z; bs_OutqueueN : Z; bs_HandshakeTO : Duration;
}.
Definition BDMsgSvcConfT_Check (c : BDMsgSvcConfT) : bool :=
  TCPAddr_Check (bs_ListenAddr c) && (0 <? bs_InqueueN c) && (0 <? bs_OutqueueN c) &&
  (0 <? bs_HandshakeTO c).

Record BDMsgCliConfT := { bc_Addr : TCPAddr; bc_InqueueN : Z; bc_OutqueueN : Z }.
Definition BDMsgCliConfT_Check (c : BDMsgCliConfT) : bool :=
  TCPAddr_Check (bc_Addr c) && (0 <? bc_InqueueN c) && (0 <? bc_OutqueueN c).

(** * server/connector/internal/config *)

(** [ConnectSvcConfT] embeds [BDMsgSvcConfT]. *)
Record ConnectSvcConfT := { cs_BDMsgSvcConfT : BDMsgSvcConfT }.
Definition ConnectSvcConfT_Check (c : ConnectSvcConfT) : bool := BDMsgSvcConfT_Check (cs_BDMsgSvcConfT c).

Record ServiceSConfT := { ss_Debug : ServiceConfT; ss_Connect : ConnectSvcConfT }.
(** The debug service may be unset: it is not checked. *)
Definition ServiceSConfT_Check (c : ServiceSConfT) : bool := ConnectSvcConfT_Check (ss_Connect c).

Record Mq := { mq_KafkaBrokers : list string; mq_Topic : string; mq_ComputeBrokers : list string }.
Record Redis := {
  re_MasterName : string; re_Addresses : list string; re_Password : string; re_Db : Z;
}.
Record RedisPubSub := { rp_Address : string; rp_Password : string }.

Inductive ManagerConfT := Build_ManagerConfT.
Definition ManagerConfT_Check (c : ManagerConfT) : bool := true.

Record ConfigT := {
  cf_PidFile : string;
  cf_ServiceS : ServiceSConfT;
  cf_Manager : ManagerConfT;
  cf_Mq : Mq;
  cf_Redis : Redis;
  cf_RedisPubSub : RedisPubSub;
  cf_IpResolver : list string;
  cf_PemFile : string;
  cf_DisableHeartBeat : bool;
}.
Definition ConfigT_Check (c : ConfigT) : bool :=
  negb (bool_decide (cf_PidFile c = "")) && ServiceSConfT_Check (cf_ServiceS c) &&
  ManagerConfT_Check (cf_Manager c).

(** * The configuration file *)

Section ParseConfig.
Context `{Resolver}.

(** ** Decoding, field by field *)

Definition duration : decoder Duration := unmarshaler Duration_UnmarshalJSON.
Definition tcpaddr : decoder TCPAddr := unmarshaler TCPAddr_UnmarshalJSON.
Definition strings : decoder (list string) := slice (plain set_string) "".

Definition zero_TCPAddr : TCPAddr := Build_TCPAddr [] 0 "".

Definition ServiceConfT_fields : list (rfield ServiceConfT) :=
  [ rlens "listenaddr" sv_ListenAddr (fun c x => Build_ServiceConfT x (sv_MaxConcurrent c) (sv_HesitateTime c)) tcpaddr;
    rlens "maxconcurrent" sv_MaxConcurrent
      (fun c x => Build_ServiceConfT (sv_ListenAddr c) x (sv_HesitateTime c)) (plain set_int64);
    rlens "hesitatetime" sv_HesitateTime
      (fun c x => Build_ServiceConfT (sv_ListenAddr c) (sv_MaxConcurrent c) x) duration ].

Definition BDMsgSvcConfT_fields : list (rfield BDMsgSvcConfT) :=
  [ rlens "listenaddr" bs_ListenAddr
      (fun c x => Build_BDMsgSvcConfT x (bs_InqueueN c) (bs_OutqueueN c) (bs_HandshakeTO c)) tcpaddr;
    rlens "inqueuesize" bs_InqueueN
      (fun c x => Build_BDMsgSvcConfT (bs_ListenAddr c) x (bs_OutqueueN c) (bs_HandshakeTO c)) (plain set_int64);
    rlens "outqueuesize" bs_OutqueueN
      (fun c x => Build_BDMsgSvcConfT (bs_ListenAddr c) (bs_InqueueN c) x (bs_HandshakeTO c)) (plain set_int64);
    rlens "handshaketimeout" bs_HandshakeTO
      (fun c x => Build_BDMsgSvcConfT (bs_ListenAddr c) (bs_InqueueN c) (bs_OutqueueN c) x) duration ].

(** The fields of an embedded struct are fields of the outer one. *)
Definition embed {S A} (proj : S -> A) (upd : S -> A -> S) (f : rfield A) : rfield S :=
  rlens (rf_name f) proj upd (rf_dec f).
Definition ConnectSvcConfT_fields : list (rfield ConnectSvcConfT) :=
  map (embed cs_BDMsgSvcConfT (fun _ => Build_ConnectSvcConfT)) BDMsgSvcConfT_fields.

Definition ServiceSConfT_fields : list (rfield ServiceSConfT) :=
  [ rlens "debug" ss_Debug (fun c x => Build_ServiceSConfT x (ss_Connect c)) (struct ServiceConfT_fields);
    rlens "connect" ss_Connect (fun c x => Build_ServiceSConfT (ss_Debug c) x) (struct ConnectSvcConfT_fields) ].

(** The tag of the third field has no quotes and is not read as a tag: the field
has its Go name. *)
Definition Mq_fields : list (rfield Mq) :=
  [ rlens "kafkabrokers" mq_KafkaBrokers (fun c x => Build_Mq x (mq_Topic c) (mq_ComputeBrokers c)) strings;
    rlens "topic" mq_Topic (fun c x => Build_Mq (mq_KafkaBrokers c) x (mq_ComputeBrokers c)) (plain set_string);
    rlens "ComputeBrokers" mq_ComputeBrokers (fun c x => Build_Mq (mq_KafkaBrokers c) (mq_Topic c) x) strings ].

Definition Redis_fields : list (rfield Redis) :=
  [ rlens "masterName" re_MasterName
      (fun c x => Build_Redis x (re_Addresses c) (re_Password c) (re_Db c)) (plain set_string);
    rlens "addresses" re_Addresses
      (fun c x => Build_Redis (re_MasterName c) x (re_Password c) (re_Db c)) strings;
    rlens "password" re_Password
      (fun c x => Build_Redis (re_MasterName c) (re_Addresses c) x (re_Db c)) (plain set_string);
    rlens "db" re_Db
      (fun c x => Build_Redis (re_MasterName c) (re_Addresses c) (re_Password c) x) (plain set_int64) ].

Definition RedisPubSub_fields : list (rfield RedisPubSub) :=
  [ rlens "address" rp_Address (fun c x => Build_RedisPubSub x (rp_Password c)) (plain set_string);
    rlens "password" rp_Password (fun c x => Build_RedisPubSub (rp_Address c) x) (plain set_string) ].

Definition ManagerConfT_fields : list (rfield ManagerConfT) := [].

Definition ConfigT_fields : list (rfield ConfigT) :=
  let mk c pid svc man mq re rp ip pem hb :=
    Build_ConfigT (default (cf_PidFile c) pid) (default (cf_ServiceS c) svc) (default (cf_Manager c) man)
      (default (cf_Mq c) mq) (default (cf_Redis c) re) (default (cf_RedisPubSub c) rp)
      (default (cf_IpResolver c) ip) (default (cf_PemFile c) pem) (default (cf_DisableHeartBeat c) hb) in
  [ rlens "pidFile" cf_PidFile (fun c x => mk c (Some x) None None None None None None None None) (plain set_string);
    rlens "service" cf_ServiceS (fun c x => mk c None (Some x) None None None None None None None)
      (struct ServiceSConfT_fields);
    rlens "manager" cf_Manager (fun c x => mk c None None (Some x) None None None None None None)
      (struct ManagerConfT_fields);
    rlens "mq" cf_Mq (fun c x => mk c None None None (Some x) None None None None None) (struct Mq_fields);
    rlens "redis" cf_Redis (fun c x => mk c None None None None (Some x) None None None None) (struct Redis_fields);
    rlens "redisPubSub" cf_RedisPubSub (fun c x => mk c None None None None None (Some x) None None None)
      (struct RedisPubSub_fields);
    rlens "ipResolver" cf_IpResolver (fun c x => mk c None None None None None None (Some x) None None) strings;
    rlens "pemFile" cf_PemFile (fun c x => mk c None None None None None None None (Some x) None) (plain set_string);
    rlens "disableHeartBeat" cf_DisableHeartBeat
      (fun c x => mk c None None None None None None None None (Some x)) quoted_bool ].

(** ** Flags and the file *)

(** [flag.StringVar] for several names of one variable, and [flag.Parse] on the arguments
of the process: the value, [None] where it ends the process. *)
Fixpoint cut_flag (s : string) : string * option string :=
  match s with
  | EmptyString => ("", None)
  | String c s' => if char_is 61 c then ("", Some s')
                   else let '(n, v) := cut_flag s' in (String c n, v)
  end.

Definition bad_flag (name : string) : bool :=
  match name with
  | EmptyString => true
  | String c _ => char_is 45 c || char_is 61 c
  end.

Fixpoint flag_String (names args : list string) (value : string) : option string :=
  match args with
  | [] => Some value
  | s :: args' =>
      match expect 45 s with
      | None | Some "" => Some value
      | Some name =>
          if bool_decide (name = "-") then Some value else
          let name := match expect 45 name with Some n => n | None => name end in
          if bad_flag name then None else
          let '(name, v) := cut_flag name in
          if bool_decide (name ∈ names) then
            match v with
            | Some v => flag_String names args' v
            | None => match args' with v :: args'' => flag_String names args'' v | [] => None end
            end
          else None
      end
  end.

(** The flags -conf and -c set the same variable. *)
Definition flag_Parse (args : list string) (conf : string) : option string := flag_String ["conf"; "c"] args conf.

Definition defaultConf : string := "connector.conf".

(** Of packages os and ioutil: opening a file and reading all of it. *)
Class Files := {
  os_Open : string -> option error;
  ioutil_ReadAll : string -> bytes * option error;
}.
Context `{Files}.

(** [ParseConfig], which fills the variable [Config], once the flags are parsed. *)
Definition ParseConfig (conf : string) (Config : ConfigT) : ConfigT * option error :=
  match os_Open conf with
  | Some err => (Config, Some err)
  | None =>
      match ioutil_ReadAll conf with
      | (_, Some err) => (Config, Some err)
      | (blob, None) =>
          match Unmarshal (struct ConfigT_fields) blob Config with
          | (Config, Some err) => (Config, Some err)
          | (Config, None) => (Config, if ConfigT_Check Config then None else Some ErrConfigContent)
          end
      end
  end.

End ParseConfig.

(** [var Config = &ConfigT{}] *)
Definition zero_ConfigT : ConfigT := {|
  cf_PidFile := "";
  cf_ServiceS := {|
    ss_Debug := Build_ServiceConfT zero_TCPAddr 0 0;
    ss_Connect := Build_ConnectSvcConfT (Build_BDMsgSvcConfT zero_TCPAddr 0 0 0) |};
  cf_Manager := Build_ManagerConfT;
  cf_Mq := Build_Mq [] "" [];
  cf_Redis := Build_Redis "" [] "" 0;
  cf_RedisPubSub := Build_RedisPubSub "" "";
  cf_IpResolver := [];
  cf_PemFile := "";
  cf_DisableHeartBeat := false;
|}.

(** * Lemmas *)

Lemma bytes_of_string_append s t :
  bytes_of_string (String.append s t) = bytes_of_string s ++ bytes_of_string t.
Proof. unfold bytes_of_string, String.list_byte_of_string. induction s as [|c s IH]; cbn; [done|]. by f_equal. Qed.

Lemma unquote_quoted s : unquote (bytes_of_string (String.append quote (String.append s quote))) = Some (bytes_of_string s).
Proof.
  rewrite !bytes_of_string_append. change (bytes_of_string quote) with [x22]. set (b := bytes_of_string s).
  cbn [app]. unfold unquote. replace (2 <=? len (x22 :: b ++ [x22])) with true.
  - change (x22 :: b ++ [x22]) with ((x22 :: b) ++ [x22]). by rewrite List.last_last, List.removelast_last.
  - autorewrite with go. pose proof (len_nonneg b). lia.
Qed.

(** Machine integers in all the fields that have one. *)
Definition in64 (z : Z) : Prop := - 2 ^ 63 <= z < 2 ^ 63.
Definition ServiceConfT_typed (c : ServiceConfT) : Prop := in64 (sv_MaxConcurrent c) /\ in64 (sv_HesitateTime c).
Definition BDMsgSvcConfT_typed (c : BDMsgSvcConfT) : Prop :=
  in64 (bs_InqueueN c) /\ in64 (bs_OutqueueN c) /\ in64 (bs_HandshakeTO c).
Definition ConnectSvcConfT_typed (c : ConnectSvcConfT) : Prop := BDMsgSvcConfT_typed (cs_BDMsgSvcConfT c).
Definition ServiceSConfT_typed (c : ServiceSConfT) : Prop :=
  ServiceConfT_typed (ss_Debug c) /\ ConnectSvcConfT_typed (ss_Connect c).
Definition Redis_typed (c : Redis) : Prop := in64 (re_Db c).
Definition ConfigT_typed (c : ConfigT) : Prop := ServiceSConfT_typed (cf_ServiceS c) /\ Redis_typed (cf_Redis c).

(** One field: what it keeps is found among the hints. *)
Ltac keep Q := apply (keeps_rlens _ Q);
  [unfold ConfigT_typed, ServiceSConfT_typed, ConnectSvcConfT_typed, ServiceConfT_typed, BDMsgSvcConfT_typed,
     Redis_typed in *; cbn; tauto..|auto with go].
Ltac keep_any := first [keep in64 | keep (fun _ : TCPAddr => True) | keep (fun _ : string => True)
  | keep (fun _ : list string => True) | keep (fun _ : bool => True) | keep (fun _ : Mq => True)
  | keep (fun _ : RedisPubSub => True) | keep (fun _ : ManagerConfT => True)
  | keep ServiceConfT_typed | keep BDMsgSvcConfT_typed | keep ConnectSvcConfT_typed
  | keep ServiceSConfT_typed | keep Redis_typed].
Ltac keep_fields := repeat (apply List.Forall_cons; [keep_any|]); apply List.Forall_nil.

Section Typed.
Context `{Resolver}.

Lemma keeps_duration : keeps in64 duration.
Proof.
  apply keeps_unmarshaler. intros b a Ha. unfold Duration_UnmarshalJSON. destruct (unquote b) as [s|]; [|done].
  destruct (ParseDuration (string_of_bytes s)) as [[d|e]|] eqn:E; try done. by apply ParseDuration_range in E.
Qed.
Lemma keeps_in64 : keeps in64 (plain set_int64).
Proof. exact keeps_int64. Qed.
#[local] Hint Resolve keeps_duration keeps_in64 : go.

Lemma keeps_ServiceConfT : keeps ServiceConfT_typed (struct ServiceConfT_fields).
Proof. apply keeps_struct. keep_fields. Qed.
Lemma keeps_ConnectSvcConfT : keeps ConnectSvcConfT_typed (struct ConnectSvcConfT_fields).
Proof.
  assert (Forall (fun f => keeps BDMsgSvcConfT_typed (rf_dec f)) BDMsgSvcConfT_fields) as HF
    by keep_fields.
  apply keeps_struct, Forall_map. eapply Forall_impl; [exact HF|]. intros f Hf. unfold embed.
  by apply (keeps_rlens _ BDMsgSvcConfT_typed).
Qed.
#[local] Hint Resolve keeps_ServiceConfT keeps_ConnectSvcConfT : go.
Lemma keeps_ServiceSConfT : keeps ServiceSConfT_typed (struct ServiceSConfT_fields).
Proof. apply keeps_struct. keep_fields. Qed.
Lemma keeps_Redis : keeps Redis_typed (struct Redis_fields).
Proof. apply keeps_struct. keep_fields. Qed.
#[local] Hint Resolve keeps_ServiceSConfT keeps_Redis : go.
Lemma keeps_ConfigT : keeps ConfigT_typed (struct ConfigT_fields).
Proof. apply keeps_struct. keep_fields. Qed.

End Typed.

(** * Properties *)

(** A configuration the server can be started with. *)
Definition startable (c : ConfigT) : Prop :=
  let s := cs_BDMsgSvcConfT (ss_Connect (cf_ServiceS c)) in
  cf_PidFile c <> "" /\ ta_IP (bs_ListenAddr s) <> [] /\ ta_Port (bs_ListenAddr s) <> 0 /\
  0 < bs_InqueueN s /\ 0 < bs_OutqueueN s /\ 0 < bs_HandshakeTO s.

Lemma startable_Check c : ConfigT_Check c = true <-> startable c.
Proof.
  unfold ConfigT_Check, ServiceSConfT_Check, ConnectSvcConfT_Check, BDMsgSvcConfT_Check,
    TCPAddr_Check, ManagerConfT_Check, startable. set (s := cs_BDMsgSvcConfT _).
  rewrite andb_true_r, !andb_true_iff, !negb_true_iff, bool_decide_eq_false.
  assert ((0 <? len (ta_IP (bs_ListenAddr s))) = true <-> ta_IP (bs_ListenAddr s) <> []) as ->.
  { destruct (ta_IP (bs_ListenAddr s)) as [|b l]; [done|]. rewrite len_cons.
    pose proof (len_nonneg l). split; [done|]. lia. }
  rewrite !Z.ltb_lt, Z.eqb_neq. tauto.
Qed.

(** What [ParseConfig] keeps and what it accepts. *)
Lemma ParseConfig_keeps `{Resolver, Files} conf c :
  ConfigT_typed c -> ConfigT_typed (ParseConfig conf c).1.
Proof.
  intros Hc. unfold ParseConfig. destruct (os_Open conf); [done|].
  destruct (ioutil_ReadAll conf) as [blob [e|]]; [done|].
  pose proof (keeps_Unmarshal _ _ blob c keeps_ConfigT Hc) as HU.
  by destruct (Unmarshal _ blob c) as [c' [e|]].
Qed.

Lemma ParseConfig_startable `{Resolver, Files} conf c c' : ParseConfig conf c = (c', None) -> startable c'.
Proof.
  unfold ParseConfig. destruct (os_Open conf); [done|]. destruct (ioutil_ReadAll conf) as [b [e|]]; [done|].
  destruct (Unmarshal _ b c) as [c1 [e|]]; [done|]. destruct (ConfigT_Check c1) eqn:E; [|done].
  intros [= <-]. by apply startable_Check.
Qed.

Lemma zero_typed : ConfigT_typed zero_ConfigT.
Proof.
  unfold ConfigT_typed, ServiceSConfT_typed, ConnectSvcConfT_typed, ServiceConfT_typed, BDMsgSvcConfT_typed,
    Redis_typed, in64. cbn. lia.
Qed.

(** C18: a duration written to a configuration is read back, whatever was stored
before: hours, minutes, seconds and their fractions down to the nanosecond, which
the code computes in floating point. *)
Theorem Duration_roundtrip d d0 :
  - 2 ^ 63 < d < 2 ^ 63 ->
  let '(b, err) := Duration_MarshalJSON d in err = None /\ Duration_UnmarshalJSON b d0 = (d, None).
Proof.
  intros Hd. unfold Duration_MarshalJSON. split; [done|]. unfold Duration_UnmarshalJSON.
  by rewrite unquote_quoted, string_of_bytes_of_string, ParseDuration_String.
Qed.

(** Reading a duration ends on every text: with a duration that fits in 64
bits, or with an error that leaves the old one; a text without quotes has the format
error. *)
Theorem Duration_UnmarshalJSON_total b d0 :
  in64 d0 ->
  let '(d, err) := Duration_UnmarshalJSON b d0 in
  in64 d /\ (err <> None -> d = d0) /\ (unquote b = None -> err = Some ErrDurationFormat) /\
  (err = None -> exists s, unquote b = Some s /\ ParseDuration (string_of_bytes s) = Some (inl d)).
Proof.
  intros Hd. unfold Duration_UnmarshalJSON. destruct (unquote b) as [s|]; [|done].
  destruct (ParseDuration_total (string_of_bytes s)) as [[d|e] E]; rewrite E; [|done].
  split_and!; try done; [by apply ParseDuration_range in E|]. intros _. by exists s.
Qed.

(** C17: [ParseConfig] accepts exactly the files that can be opened and read, are JSON of
the right types, and describe a server that can be started. A failure to
open, to read or to parse is returned as it is and leaves the configuration
unset; what fails only the last check is an error of content. *)
Theorem ParseConfig_outcome `{Resolver, Files} conf :
  let '(c, err) := ParseConfig conf zero_ConfigT in
  match err with
  | None => startable c /\ os_Open conf = None /\
      exists b, ioutil_ReadAll conf = (b, None) /\ Unmarshal (struct ConfigT_fields) b zero_ConfigT = (c, None)
  | Some e =>
      (os_Open conf = Some e /\ c = zero_ConfigT) \/
      exists b e', os_Open conf = None /\ ioutil_ReadAll conf = (b, e') /\
        match e' with
        | Some _ => e' = Some e /\ c = zero_ConfigT
        | None =>
            if decide (json_parse (string_of_bytes b) = None) then e = EJsonSyntax /\ c = zero_ConfigT
            else Unmarshal (struct ConfigT_fields) b zero_ConfigT = (c, Some e) \/
                 Unmarshal (struct ConfigT_fields) b zero_ConfigT = (c, None) /\ e = ErrConfigContent /\ ~ startable c
        end
  end.
Proof.
  unfold ParseConfig. destruct (os_Open conf) as [e|] eqn:Eo; [by left|].
  destruct (ioutil_ReadAll conf) as [b [e|]] eqn:Er; [right; by exists b, (Some e)|].
  assert (json_parse (string_of_bytes b) = None ->
    Unmarshal (struct ConfigT_fields) b zero_ConfigT = (zero_ConfigT, Some EJsonSyntax)) as Hsyn.
  { unfold Unmarshal. rewrite json_annotate_parse. by destruct (json_annotate _). }
  destruct (Unmarshal (struct ConfigT_fields) b zero_ConfigT) as [c [e|]] eqn:E.
  - right. exists b, None. split_and!; try done. case_decide as Hd; [|by left].
    specialize (Hsyn Hd). by injection Hsyn as -> ->.
  - destruct (ConfigT_Check c) eqn:Ec.
    + apply startable_Check in Ec. split_and!; try done. by exists b.
    + right. exists b, None. split_and!; try done. case_decide as Hd; [by specialize (Hsyn Hd)|].
      right. split_and!; try done. rewrite <-startable_Check. congruence.
Qed.

(** ** The configuration of test/connector.conf *)

Definition sample_addr : TCPAddr := {| ta_IP := [x00; x00; x00; x00]; ta_Port := 6000; ta_Zone := "" |}.
Definition debug_addr : TCPAddr := {| ta_IP := [x00; x00; x00; x00]; ta_Port := 6600; ta_Zone := "" |}.

(** A resolver that knows two addresses. *)
Definition test_resolver : Resolver := {|
  TCPAddr_String a := String.append "0.0.0.0:" (format_int (ta_Port a));
  ResolveTCPAddr t :=
    if bool_decide (t = "0.0.0.0:6000") then inl sample_addr
    else if bool_decide (t = "0.0.0.0:6600") then inl debug_addr
    else inr (EText "no such host");
|}.

(** Its text, white space shortened. *)
Definition connector_conf : bytes := jsb "{
 'pidFile': 'run/connector.pid',
 'log': {
 'infoFile': 'logs/connector.info.txt',
 'errorFile': 'logs/connector.err.txt',
 'timerFile': 'logs/connector.timer.txt'
 },
 'mq': {
 'kafkabrokers': ['47.92.68.14:9092', '47.92.49.101:9092'],
 'topic': 'router',
 'computebrokers': ['localhost:22222']
 },
 'redis': {
 'masterName': 'mymaster',
 'addresses': ['192.168.10.108:29931']
 },
 'redisPubSub': {
 'address': '192.168.10.108:9931'
 },
 'ipResolver': [
 'http://2017.ip138.com/ic.asp',
 'http://members.3322.org/dyndns/getip',
 'https://ip.51240.com',
 'https://www.opengps.cn/Data/IP/IPSearch.aspx',
 'http://bot.whatismyipaddress.com'
 ],
 'pemFile': 'live_public.pem',
 'disableHeartBeat': 'false',
 'service': {
 'debug': {
 'listenaddr': '0.0.0.0:6600'
 },
 'connect': {
 'listenaddr': '0.0.0.0:6000',
 'inqueuesize': 1000,
 'outqueuesize': 100,
 'handshaketimeout': '2m'
 }
 },
 'manager': {
 'maint': {
 'period': '1h'
 }
 }
}".

Definition test_files : Files := {|
  os_Open name := if bool_decide (name = "connector.conf") || bool_decide (name = "broken.conf") then None
                  else Some (EText "no such file");
  ioutil_ReadAll name := (if bool_decide (name = "connector.conf") then connector_conf else jsb "{'pidFile':", None);
|}.

Definition sample_config : ConfigT := {|
  cf_PidFile := "run/connector.pid";
  cf_ServiceS := {|
    ss_Debug := Build_ServiceConfT debug_addr 0 0;
    ss_Connect := {| cs_BDMsgSvcConfT := {|
      bs_ListenAddr := sample_addr; bs_InqueueN := 1000; bs_OutqueueN := 100;
      bs_HandshakeTO := 120000000000 |} |} |};
  cf_Manager := Build_ManagerConfT;
  cf_Mq := Build_Mq ["47.92.68.14:9092"; "47.92.49.101:9092"] "router" ["localhost:22222"];
  cf_Redis := Build_Redis "mymaster" ["192.168.10.108:29931"] "" 0;
  cf_RedisPubSub := Build_RedisPubSub "192.168.10.108:9931" "";
  cf_IpResolver := ["http://2017.ip138.com/ic.asp"; "http://members.3322.org/dyndns/getip";
    "https://ip.51240.com"; "https://www.opengps.cn/Data/IP/IPSearch.aspx"; "http://bot.whatismyipaddress.com"];
  cf_PemFile := "live_public.pem";
  cf_DisableHeartBeat := false;
|}.

Example sample_config_accepted : ConfigT_Check sample_config = true.
Proof. reflexivity. Qed.
Example connector_conf_parsed :
  @ParseConfig test_resolver test_files "connector.conf" zero_ConfigT = (sample_config, None).
Proof. vm_compute. reflexivity. Qed.
Example broken_conf_refused :
  @ParseConfig test_resolver test_files "broken.conf" zero_ConfigT = (zero_ConfigT, Some EJsonSyntax).
Proof. vm_compute. reflexivity. Qed.
Example flags_last_wins :
  flag_Parse ["-c"; "a.conf"; "--conf=b.conf"; "rest"; "-c=x"] defaultConf = Some "b.conf" /\
  flag_Parse [] defaultConf = Some "connector.conf" /\ flag_Parse ["-c"] defaultConf = None.
Proof. done. Qed.

Lemma Duration_roundtrip_witness :
  Duration_UnmarshalJSON (jsb "'1h30m0.5s'") 0 = (5400500000000, None).
Proof.
  assert (jsb "'1h30m0.5s'" = (Duration_MarshalJSON 5400500000000).1) as -> by (vm_compute; reflexivity).
  apply (Duration_roundtrip 5400500000000 0). lia.
Defined.

Lemma Duration_UnmarshalJSON_total_witness :
  (Duration_UnmarshalJSON (jsb "null") 7).2 = Some ErrDurationFormat.
Proof.
  pose proof (Duration_UnmarshalJSON_total (jsb "null") 7 ltac:(unfold in64; lia)) as H.
  destruct (Duration_UnmarshalJSON (jsb "null") 7) as [d err]. by apply H.
Defined.
