(* ===== verification/Token.v ===== *)
(** Login tokens (connectsvc/token.go): hexadecimal text, cut into blocks of
the size of the public key, decrypted block by block into the JSON of the token. *)

From S2P Require Import Prelude GoText Json Config.
Local Open Scope Z_scope.

(** * The RSA package *)

(** What the code uses of gorsa: the size in bits of the public key ([None] if
none is set) and the decryption of a block with the public key. *)
Class Gorsa := {
  rsa_bitlen : option Z;
  rsa_PubKeyDECRYPT : bytes -> bytes * option error;
}.

(** * Data *)

Record Token := {
  tk_UserId : string;
  tk_DeviceId : string;
  tk_Role : string;
  tk_CreateTime : Z;
  tk_ExpireTime : Z;
}.
Definition zero_Token : Token := Build_Token "" "" "" 0 0.

Definition Token_fields : list (field Token) :=
  [ lens_field "userId" tk_UserId (fun t x =>
      Build_Token x (tk_DeviceId t) (tk_Role t) (tk_CreateTime t) (tk_ExpireTime t)) set_string;
    lens_field "deviceId" tk_DeviceId (fun t x =>
      Build_Token (tk_UserId t) x (tk_Role t) (tk_CreateTime t) (tk_ExpireTime t)) set_string;
    lens_field "role" tk_Role (fun t x =>
      Build_Token (tk_UserId t) (tk_DeviceId t) x (tk_CreateTime t) (tk_ExpireTime t)) set_string;
    lens_field "createTime" tk_CreateTime (fun t x =>
      Build_Token (tk_UserId t) (tk_DeviceId t) (tk_Role t) x (tk_ExpireTime t)) set_int64;
    lens_field "expireTime" tk_ExpireTime (fun t x =>
      Build_Token (tk_UserId t) (tk_DeviceId t) (tk_Role t) (tk_CreateTime t) x) set_int64 ].

(** * Operations *)

Definition hex_digits : string := "0123456789ABCDEF".

(** [toByte]: [string(ch[0])] is the text of the code point with that number. *)
Definition toByte (c0 c1 : byte) : byte :=
  byte_of_Z (strings_Index hex_digits (encode_rune (Z_of_byte c0)) * 16 +
             strings_Index hex_digits (encode_rune (Z_of_byte c1))).

(** The loop of [hexToBytes] with [n] bytes of the text left. Slicing may reach
into the spare capacity of the array behind [hexBytes]; beyond it, it panics. *)
Fixpoint hexToBytes_from (n : nat) (array : bytes) : outcome bytes :=
  match n with
  | O => Ret []
  | _ =>
      match array with
      | c0 :: c1 :: array' =>
          match hexToBytes_from (n - 2) array' with
          | Ret r => Ret (toByte c0 c1 :: r)
          | r => r
          end
      | _ => Panic (PRt SliceBounds)
      end
  end.

(** [hexToBytes]; [spare] is what the conversion to bytes allocates beyond the text. *)
Definition hexToBytes (spare : bytes) (hex : string) : outcome bytes :=
  hexToBytes_from (String.length hex) (bytes_of_string hex ++ spare).

(** [b[lo:]] and [b[lo:hi]] of a slice without spare capacity, where every index beyond
the length panics. *)
Definition subslice_from (b : bytes) (lo : nat) : outcome bytes :=
  if decide (lo <= length b)%nat then Ret (drop lo b) else Panic (PRt SliceBounds).
Definition subslice (b : bytes) (lo hi : nat) : outcome bytes :=
  if decide (lo <= hi /\ hi <= length b)%nat then Ret (take (hi - lo) (drop lo b)) else Panic (PRt SliceBounds).

(** The loop of [splitBytes] over the indices [idx]: the last array goes up to the end if
the length is no multiple of [splitLength]. *)
Fixpoint split_loop (b : bytes) (splitLength x : nat) (idx : list nat) : outcome (list bytes) :=
  match idx with
  | [] => Ret []
  | i :: idx' =>
      let array := if bool_decide (i = x - 1)%nat && negb (bool_decide (length b mod splitLength = 0)%nat)
                   then subslice_from b (i * splitLength)
                   else subslice b (i * splitLength) (i * splitLength + splitLength) in
      match array with
      | Ret a => match split_loop b splitLength x idx' with Ret l => Ret (a :: l) | r => r end
      | Panic p => Panic p
      | Stuck => Stuck
      end
  end.

(** [splitBytes]: the remainder by a zero length panics; [x] arrays otherwise. *)
Definition splitBytes (b : bytes) (splitLength : nat) : outcome (list bytes) :=
  if decide (splitLength = 0%nat) then Panic (PRt DivByZero) else
  let y := (length b mod splitLength)%nat in
  let x := if decide (y <> 0%nat) then (length b / splitLength + 1)%nat
           else (length b / splitLength)%nat in
  split_loop b splitLength x (seq 0 x).

Section Decrypt.
Context `{Gorsa}.

(** The loop of [decrypt] over the blocks: stop at the first error. *)
Fixpoint decrypt_blocks (arrays : list bytes) (jsonText : bytes) : bytes + error :=
  match arrays with
  | [] => inl jsonText
  | a :: arrays' =>
      match rsa_PubKeyDECRYPT a with
      | (_, Some err) => inr err
      | (d, None) => decrypt_blocks arrays' (jsonText ++ d)
      end
  end.

(** [decrypt] *)
Definition decrypt (spare : bytes) (tokenText : string) : outcome (Token * option error) :=
  match rsa_bitlen with
  | None => Panic (PRt NilDeref)
  | Some bits =>
      match hexToBytes spare tokenText with
      | Ret contentBytes =>
          match splitBytes contentBytes (Z.to_nat (bits / 8)) with
          | Ret arrays =>
              match decrypt_blocks arrays [] with
              | inl jsonText => Ret (json_Unmarshal Token_fields jsonText zero_Token)
              | inr err => Ret (zero_Token, Some err)
              end
          | Panic p => Panic p
          | Stuck => Stuck
          end
      | Panic p => Panic p
      | Stuck => Stuck
      end
  end.

(** [refreshToken0] (connectsvc/client.go): without a key file every token is accepted. *)
Definition refreshToken0 (config : ConfigT) (spare : bytes) (tokenText : string)
    : outcome (Token * option error) :=
  if negb (bool_decide (cf_PemFile config = "")) then decrypt spare tokenText
  else Ret (Build_Token "" "" "" 0 (-1), None).

End Decrypt.

(** * Specification *)

(** Two upper-case hexadecimal digits per byte. *)
Definition hex_upper (z : Z) : ascii := if z <? 10 then chr (48 + z) else chr (55 + z).
Fixpoint hex_encode (b : bytes) : string :=
  match b with
  | [] => ""
  | x :: b' => String (hex_upper (Z_of_byte x / 16)) (String (hex_upper (Z_of_byte x mod 16)) (hex_encode b'))
  end.

(** The concatenation of blocks of the given size, the last one possibly shorter. *)
Inductive blocks (n : nat) : list bytes -> bytes -> Prop :=
  | blocks_nil : blocks n [] []
  | blocks_last a : a <> [] -> (length a <= n)%nat -> blocks n [a] a
  | blocks_cons a l b : length a = n -> a <> [] -> blocks n l b -> blocks n (a :: l) (a ++ b).

(** The arrays, if no slice is out of range. *)
Definition cuts (b : bytes) (n : nat) : list bytes :=
  let y := (length b mod n)%nat in
  let x := if decide (y <> 0%nat) then (length b / n + 1)%nat else (length b / n)%nat in
  map (fun i =>
    if bool_decide (i = x - 1)%nat && negb (bool_decide (y = 0%nat))
    then drop (i * n) b else take n (drop (i * n) b)) (seq 0 x).

(** * Lemmas *)

Lemma toByte_upper b :
  toByte (byte_of_Z (code (hex_upper (Z_of_byte b / 16))))
         (byte_of_Z (code (hex_upper (Z_of_byte b mod 16)))) = b.
Proof. destruct b; vm_compute; reflexivity. Qed.

Lemma bytes_of_string_cons c s : bytes_of_string (String c s) = byte_of_Z (code c) :: bytes_of_string s.
Proof.
  unfold bytes_of_string. cbn. f_equal.
  destruct c as [[] [] [] [] [] [] [] []]; vm_compute; reflexivity.
Qed.

Lemma hexToBytes_encode b spare : hexToBytes spare (hex_encode b) = Ret b.
Proof.
  unfold hexToBytes. induction b as [|x b IH]; [by destruct spare|].
  cbn [hex_encode String.length]. rewrite !bytes_of_string_cons. cbn [app hexToBytes_from].
  rewrite Nat.sub_succ, Nat.sub_succ, Nat.sub_0_r, IH. by rewrite toByte_upper.
Qed.

(** Cutting off the first block. *)
Lemma cuts_step b n :
  n <> 0%nat -> (n <= length b)%nat ->
  cuts b n = take n b :: cuts (drop n b) n.
Proof.
  intros Hn Hge. unfold cuts.
  assert (length b = length (drop n b) + 1 * n)%nat as Hlen by (rewrite length_drop; lia).
  assert (length b mod n = length (drop n b) mod n)%nat as Hm
    by (rewrite Hlen at 1; apply Nat.Div0.mod_add).
  assert (length b / n = S (length (drop n b) / n))%nat as Hq
    by (rewrite Hlen at 1; rewrite Nat.div_add by done; lia).
  rewrite <-Hm, Hq. set (y := (length b mod n)%nat). set (q := (length (drop n b) / n)%nat).
  cbn zeta. set (x := if decide (y <> 0%nat) then (q + 1)%nat else q).
  replace (if decide (y <> 0%nat) then (S q + 1)%nat else S q) with (S x)
    by (unfold x; destruct (decide (y <> 0%nat)); lia).
  cbn [seq map]. f_equal.
  - destruct (bool_decide_reflect (0 = S x - 1)%nat) as [H0|]; [|done].
    destruct (bool_decide_reflect (y = 0%nat)) as [|Hy]; [done|].
    unfold x in H0. rewrite decide_True in H0 by done. lia.
  - rewrite <-seq_shift, map_map. apply map_ext_in. intros i [_ Hi]%in_seq.
    rewrite drop_drop. replace (S i * n)%nat with (n + i * n)%nat by lia.
    by rewrite (bool_decide_ext (S i = S x - 1)%nat (i = x - 1)%nat) by lia.
Qed.

Lemma cuts_short b n : (length b < n)%nat -> cuts b n = if decide (b = []) then [] else [b].
Proof.
  intros Hlt. unfold cuts. rewrite Nat.mod_small, Nat.div_small by lia.
  destruct b as [|c b]; [done|]. rewrite decide_True by done. rewrite decide_False by done.
  cbn [seq map Nat.add Nat.sub]. by rewrite drop_0.
Qed.

(** A list cut at multiples of [n] >= 1. *)
Lemma cuts_blocks b n : n <> 0%nat -> blocks n (cuts b n) b.
Proof.
  intros Hn. remember (length b) as k eqn:Hk. revert b Hk.
  induction (lt_wf k) as [k _ IH]. intros b ->.
  destruct (decide (length b < n)%nat) as [Hlt|Hge].
  - rewrite cuts_short by done. case_decide as Hb; [subst; constructor|].
    apply blocks_last; [done|lia].
  - rewrite cuts_step by lia.
    assert (blocks n (take n b :: cuts (drop n b) n) (take n b ++ drop n b)) as H;
      [|by rewrite take_drop in H].
    assert (length (take n b) = n) as Hlen by (rewrite length_take; lia). apply blocks_cons.
    + done.
    + intros He. rewrite He in Hlen. by apply Hn.
    + apply (IH (length (drop n b))); [rewrite length_drop; lia|done].
Qed.

(** No slice is out of range: all indices but the last are below the quotient, and the
last one is the quotient only if there is a remainder. *)
Lemma split_loop_cuts b n x idx :
  n <> 0%nat ->
  x = (if decide (length b mod n <> 0)%nat then length b / n + 1 else length b / n)%nat ->
  Forall (fun i => i < x)%nat idx ->
  split_loop b n x idx = Ret (map (fun i =>
    if bool_decide (i = x - 1)%nat && negb (bool_decide (length b mod n = 0)%nat)
    then drop (i * n) b else take n (drop (i * n) b)) idx).
Proof.
  intros Hn Hx Hi. pose proof (Nat.div_mod (length b) n Hn) as Hdm.
  induction Hi as [|i idx Hi _ IH]; [done|]. cbn [split_loop map]. rewrite IH. clear IH.
  destruct (bool_decide_reflect (length b mod n = 0)%nat) as [Hy|Hy]; cbn [negb].
  - rewrite andb_false_r. rewrite decide_False in Hx by lia. unfold subslice.
    rewrite decide_True by nia. by replace (i * n + n - i * n)%nat with n by lia.
  - rewrite andb_true_r. rewrite decide_True in Hx by done. case_bool_decide.
    + unfold subslice_from. by rewrite decide_True by nia.
    + unfold subslice. rewrite decide_True by nia. by replace (i * n + n - i * n)%nat with n by lia.
Qed.

Lemma splitBytes_cuts b n : n <> 0%nat -> splitBytes b n = Ret (cuts b n).
Proof.
  intros Hn. unfold splitBytes. rewrite decide_False by done. apply split_loop_cuts; [done..|].
  apply Forall_forall. by intros i [_ Hi]%elem_of_seq.
Qed.

Lemma splitBytes_spec b n :
  n <> 0%nat -> exists l, splitBytes b n = Ret l /\ blocks n l b.
Proof. intros Hn. rewrite splitBytes_cuts by done. eauto using cuts_blocks. Qed.

Lemma cuts_concat l n :
  n <> 0%nat -> Forall (fun a => length a = n) l -> cuts (concat l) n = l.
Proof.
  intros Hn. induction 1 as [|a l Ha Hl IH].
  - rewrite cuts_short by (cbn; lia). done.
  - cbn [concat]. rewrite cuts_step by (rewrite ?length_app; lia).
    by rewrite take_app_length', drop_app_length', IH.
Qed.

Lemma hexToBytes_from_total n array :
  (~ (n + n mod 2 <= length array)%nat -> hexToBytes_from n array = Panic (PRt SliceBounds)) /\
  ((n + n mod 2 <= length array)%nat -> exists b, hexToBytes_from n array = Ret b).
Proof.
  revert array. induction (lt_wf n) as [n _ IH]. intros array.
  destruct n as [|[|n]].
  - split; [cbn; lia|]. by destruct array; exists [].
  - destruct array as [|c0 [|c1 array]]; (split; [cbn; try lia; done|]); cbn; [lia|lia|].
    intros _. destruct array; eauto.
  - assert (S (S n) mod 2 = n mod 2)%nat as ->.
    { replace (S (S n)) with (n + 1 * 2)%nat by lia. by rewrite Nat.Div0.mod_add. }
    destruct array as [|c0 [|c1 array]]; [split; [done|cbn; lia]..|].
    destruct (IH n ltac:(lia) array) as [IH1 IH2]. cbn [length hexToBytes_from].
    rewrite Nat.sub_succ, Nat.sub_succ, Nat.sub_0_r. split.
    + intros H. by rewrite IH1 by lia.
    + intros H. destruct IH2 as [b ->]; [lia|]. eauto.
Qed.

Section Properties.
Context `{Gorsa}.

Lemma decrypt_blocks_ok encs plains acc :
  Forall2 (fun e p => rsa_PubKeyDECRYPT e = (p, None)) encs plains ->
  decrypt_blocks encs acc = inl (acc ++ concat plains).
Proof.
  intros Hf. revert acc. induction Hf as [|e p encs plains He Hf IH]; intros acc; cbn [decrypt_blocks concat].
  - by rewrite app_nil_r.
  - by rewrite He, IH, <-app_assoc.
Qed.

End Properties.

(** The JSON of a token. *)
Definition Token_json (t : Token) : list (string * json) :=
  [ ("userId", JString (tk_UserId t)); ("deviceId", JString (tk_DeviceId t));
    ("role", JString (tk_Role t)); ("createTime", JInt (tk_CreateTime t));
    ("expireTime", JInt (tk_ExpireTime t)) ].
Definition Token_ok (t : Token) : Prop :=
  utf8_valid (tk_UserId t) = true /\ utf8_valid (tk_DeviceId t) = true /\ utf8_valid (tk_Role t) = true /\
  - 2 ^ 63 <= tk_CreateTime t < 2 ^ 63 /\ - 2 ^ 63 <= tk_ExpireTime t < 2 ^ 63.

Lemma Token_Unmarshal_Marshal t :
  Token_ok t -> json_Unmarshal Token_fields (json_Marshal (JObject (Token_json t))) zero_Token = (t, None).
Proof.
  destruct t as [uid dev role ct et]. intros (H1 & H2 & H3 & H4 & H5). cbn in H1, H2, H3, H4, H5.
  rewrite json_Unmarshal_Marshal.
  - decode. reflexivity.
  - unfold Token_json. cbn [json_ok foldr fst snd]. split_and!; try done; by eexists.
Qed.

(** * Properties *)

(** C28: a genuine token is accepted. If every block of [k] bytes decrypts to a
piece of the JSON of [t], then the upper-case hexadecimal text of the blocks
decrypts to [t] with no error, whatever the spare capacity of the array. *)
Theorem decrypt_accepts `{Gorsa} spare k encs plains t :
  rsa_bitlen = Some (8 * Z.of_nat k) -> k <> 0%nat ->
  Forall (fun e => length e = k) encs ->
  Forall2 (fun e p => rsa_PubKeyDECRYPT e = (p, None)) encs plains ->
  Token_ok t -> concat plains = json_Marshal (JObject (Token_json t)) ->
  decrypt spare (hex_encode (concat encs)) = Ret (t, None).
Proof.
  intros Hbits Hk Hlen Hdec Ht Hplain. unfold decrypt.
  rewrite Hbits, hexToBytes_encode, (Z.mul_comm 8), Z.div_mul, Nat2Z.id by done.
  rewrite splitBytes_cuts by done. rewrite (cuts_concat encs k Hk Hlen), (decrypt_blocks_ok encs plains) by done.
  cbn [app]. by rewrite Hplain, Token_Unmarshal_Marshal.
Qed.

(** C29: with a key of at least 8 bits [decrypt] returns, with a token or an
error, unless the text has an odd length and the array behind it no spare
byte: then slicing panics. *)
Theorem decrypt_returns `{Gorsa} spare tokenText bits :
  rsa_bitlen = Some bits -> 8 <= bits ->
  if decide (Nat.even (String.length tokenText) = true \/ spare <> [])
  then exists t err, decrypt spare tokenText = Ret (t, err)
  else decrypt spare tokenText = Panic (PRt SliceBounds).
Proof.
  intros Hbits H8. unfold decrypt. rewrite Hbits. unfold hexToBytes.
  set (n := String.length tokenText). set (a := bytes_of_string tokenText ++ spare).
  assert (length a = n + length spare)%nat as Ha.
  { unfold a. rewrite length_app. f_equal. unfold n. clear. induction tokenText as [|c s IH]; [done|].
    rewrite bytes_of_string_cons. cbn. by rewrite IH. }
  assert (n + n mod 2 <= length a <-> Nat.even n = true \/ spare <> [])%nat as Hiff.
  { rewrite <-Nat.bit0_mod, Nat.bit0_odd, <-Nat.negb_odd, Ha.
    destruct (Nat.odd n), spare; cbn [Nat.b2n negb length]; intuition (congruence || lia). }
  destruct (hexToBytes_from_total n a) as [H1 H2]. case_decide as Hd.
  - apply Hiff in Hd. destruct (H2 Hd) as [b ->].
    destruct (splitBytes_spec b (Z.to_nat (bits / 8))) as (l & -> & _).
    { pose proof (Z.div_le_mono 8 bits 8 ltac:(lia) H8) as H'. rewrite Z.div_same in H' by lia. lia. }
    destruct (decrypt_blocks l []) as [j|e]; [|by eauto].
    destruct (json_Unmarshal Token_fields j zero_Token). eauto.
  - rewrite H1; [done|]. by rewrite Hiff.
Qed.

(** [splitBytes] cuts without loss: the arrays concatenated are the input,
all of them but the last have the asked length, and the last one is not empty
and not longer; a zero length panics. *)
Theorem splitBytes_lossless b n :
  if decide (n = 0%nat) then splitBytes b n = Panic (PRt DivByZero)
  else exists l, splitBytes b n = Ret l /\ blocks n l b /\ concat l = b.
Proof.
  case_decide as Hn; [unfold splitBytes; by rewrite decide_True|].
  destruct (splitBytes_spec b n Hn) as (l & H1 & H2). exists l. split_and!; [done..|].
  induction H2 as [|a Ha Hl|a l b Ha Hne Hb IH]; cbn; [done|by rewrite app_nil_r|].
  destruct (splitBytes_spec b n Hn) as (l' & H1' & _).
  f_equal. clear -Hb. induction Hb; cbn; [done|by rewrite app_nil_r|congruence].
Qed.

(** * Witnesses *)

(** A toy key of 64 bits: a block is the text padded with zero bytes in front. *)
Fixpoint strip_zeros (b : bytes) : bytes :=
  match b with x00 :: b' => strip_zeros b' | _ => b end.
Definition toy_rsa : Gorsa :=
  {| rsa_bitlen := Some 64; rsa_PubKeyDECRYPT := fun b => (strip_zeros b, None) |}.
Definition sample_token : Token := Build_Token "user" "dev" "" 1 1500000000000.
Definition sample_plains : list bytes :=
  cuts (json_Marshal (JObject (Token_json sample_token))) 8.
Definition sample_blocks : list bytes :=
  map (fun p => replicate (8 - length p) x00 ++ p) sample_plains.

Lemma decrypt_accepts_witness :
  @decrypt toy_rsa [x00; x00] (hex_encode (concat sample_blocks)) = Ret (sample_token, None).
Proof.
  apply (@decrypt_accepts toy_rsa [x00; x00] 8 sample_blocks sample_plains sample_token).
  - reflexivity.
  - discriminate.
  - vm_compute. repeat constructor.
  - vm_compute. repeat constructor.
  - vm_compute. repeat split; discriminate.
  - vm_compute. reflexivity.
Defined.

Lemma decrypt_returns_witness :
  @decrypt toy_rsa [] "ABC" = Panic (PRt SliceBounds) /\
  exists t err, @decrypt toy_rsa [] "ABCD" = Ret (t, err).
Proof.
  split.
  - exact (@decrypt_returns toy_rsa [] "ABC" 64 eq_refl ltac:(lia)).
  - exact (@decrypt_returns toy_rsa [] "ABCD" 64 eq_refl ltac:(lia)).
Defined.
