(* ===== verification/Rpc.v ===== *)
(** The connection to the compute servers (connectsvc/plainrpc.go): discovery
of the servers, framing, sending with retries. The methods have value
receivers: each call works on a copy of the struct [rpcClient], its lock and
its counter included, and shares only the map of connections. *)

From S2P Require Import Prelude GoText Json ToCompute Protocol.
Local Open Scope Z_scope.

(** * The environment *)

(** The network as the code uses it: dialling, writing and closing, with their
effect on a state of the network. *)
Class Net := {
  net : Type;
  Conn : Type;
  net_Dial : string -> net -> (Conn + error) * net;
  conn_Write : Conn -> bytes -> net -> option error * net;
  conn_Close : Conn -> net -> net;
}.

(** proto.Marshal of the packed messages. *)
Class Proto := { proto_Marshal : list FromConnectorMessage -> bytes * option error }.

(** * Data *)

(** [type rpc struct]; [rp_locked]: the write lock is held. The map
[connectionMap] is a reference, see [rpc_env]; the buffer is reset before use. *)
Record rpc := {
  rp_locked : bool;
  rp_availableAddresses : list string;
  rp_callCounter : Z;
}.

Definition rpcClient : rpc :=
  {| rp_locked := false; rp_availableAddresses := []; rp_callCounter := 0 |}.

Record rpc_env `{Net} := {
  re_net : net;
  re_connectionMap : gmap string Conn;
}.

Record computeServerInfo := { ci_RegisterTime : Z }.
Definition computeServerInfo_fields : list (field computeServerInfo) :=
  [ lens_field "registerTime" ci_RegisterTime (fun _ x => Build_computeServerInfo x) set_int64 ].

(** * Operations *)

Section Rpc.
Context `{Net, Zlib, Proto}.

Definition on_net {A} (f : net -> A * net) : M rpc_env A := fun s =>
  let '(a, n) := f (re_net s) in
  (Ret a, {| re_net := n; re_connectionMap := re_connectionMap s |}).
Definition map_set (address : string) (c : Conn) : M rpc_env unit :=
  modify (fun s => {| re_net := re_net s; re_connectionMap := <[address := c]> (re_connectionMap s) |}).
Definition map_delete (address : string) : M rpc_env unit :=
  modify (fun s => {| re_net := re_net s; re_connectionMap := delete address (re_connectionMap s) |}).

(** [byte(length >> 24 & 0xFF)] and so on. *)
Definition length_bytes (length : Z) : bytes :=
  [ byte_of_Z (Z.land (Z.shiftr length 24) 255); byte_of_Z (Z.land (Z.shiftr length 16) 255);
    byte_of_Z (Z.land (Z.shiftr length 8) 255); byte_of_Z (Z.land length 255) ].

(** [conn.Write] with the cleanup on error that [send] repeats. *)
Definition send_write (address : string) (conn : Conn) (b : bytes) : M rpc_env (option error) :=
  err ← on_net (conn_Write conn b);
  match err with
  | Some e =>
      on_net (fun n => (tt, conn_Close conn n)) ≫= fun _ =>
      map_delete address ≫= fun _ => mret (Some e)
  | None => mret None
  end.

(** The address [send] picks: the counter of its copy, incremented, modulo the
number of addresses. *)
Definition pick_address (r : rpc) : outcome string :=
  let callCounter := wrap_u 64 (rp_callCounter r + 1) in
  let n := len (rp_availableAddresses r) in
  if n =? 0 then Panic (PRt DivByZero)
  else match rp_availableAddresses r !! Z.to_nat (callCounter mod n) with
       | Some address => Ret address
       | None => Panic (PRt IndexRange)
       end.

(** [rpc.send] on a copy [r] of the struct. *)
Definition send (r : rpc) (b : bytes) : M rpc_env (option error) :=
  if rp_locked r then stuck else
  match pick_address r with
  | Panic p => throw p
  | Stuck => stuck
  | Ret address =>
      s ← get;
      let conn := re_connectionMap s !! address in
      dialled ← match conn with
                | Some c => mret (inl c)
                | None =>
                    map_delete address ≫= fun _ =>
                    d ← on_net (net_Dial address);
                    match d with
                    | inr e => map_delete address ≫= fun _ => mret (inr e)
                    | inl c => map_set address c ≫= fun _ => mret (inl c)
                    end
                end;
      match dialled with
      | inr e => mret (Some e)
      | inl c =>
          err ← send_write address c (length_bytes (len b));
          match err with
          | Some e => mret (Some e)
          | None => send_write address c b
          end
      end
  end.

(** [rpc.trySend]: at most [n] attempts. *)
Fixpoint trySend (r : rpc) (compressedBytes : bytes) (n : nat) : M rpc_env bool :=
  match n with
  | O => mret false
  | S n' =>
      err ← send r compressedBytes;
      match err with
      | None => mret true
      | Some _ => trySend r compressedBytes n'
      end
  end.

Definition DoZlibCompress (src : bytes) : bytes := zlib_compress src.

(** [rpc.deliver]: nothing is sent for an empty list; the value tells whether
the messages were sent, which the code only logs. *)
Definition deliver (r : rpc) (list : list FromConnectorMessage) : M rpc_env bool :=
  match list with
  | [] => mret true
  | _ => let b := (proto_Marshal list).1 in trySend r (DoZlibCompress b) 3
  end.

(** The addresses whose info is JSON with a time not older than [from], in the
order of the visit. *)
Definition alive (from : Z) (info : string) : bool :=
  match json_Unmarshal computeServerInfo_fields (bytes_of_string info) (Build_computeServerInfo 0) with
  | (_, Some _) => false
  | (i, None) => from <=? ci_RegisterTime i
  end.
Fixpoint available (order : list string) (result : gmap string string) (from : Z) : list string :=
  match order with
  | [] => []
  | a :: order' =>
      match result !! a with
      | Some info => if alive from info then a :: available order' result from
                     else available order' result from
      | None => available order' result from
      end
  end.

(** The loop that closes the connections to servers that are not registered;
[conns] is the order of the visit. The entries stay in the map. *)
Fixpoint close_unlisted (conns : list string) (result : gmap string string) : M rpc_env unit :=
  match conns with
  | [] => mret tt
  | a :: conns' =>
      s ← get;
      match result !! a, re_connectionMap s !! a with
      | None, Some c => on_net (fun n => (tt, conn_Close c n)) ≫= fun _ => close_unlisted conns' result
      | _, _ => close_unlisted conns' result
      end
  end.

(** The body of [initRpcServerDiscovery]: [result] is the answer of HGetAll
("compute-servers"), [now] the time in nanoseconds, [order] and [conns] the
orders in which the maps are visited. *)
Definition discover (r : rpc) (result : gmap string string + error) (now : Z)
    (order conns : list string) : M rpc_env rpc :=
  match result with
  | inr _ => mret r
  | inl result =>
      let from := Z.quot now 1000000 - 1 * 2000 in
      let availableAddresses :=
        match available order result from with
        | [] => []
        | l => merge_sort String.le l
        end in
      close_unlisted conns result ≫= fun _ =>
      mret {| rp_locked := rp_locked r; rp_availableAddresses := availableAddresses;
              rp_callCounter := rp_callCounter r |}
  end.

End Rpc.

(** * Specification *)

(** The peer's reading of the stream: four bytes of length, most significant
first, then that many bytes. *)
Definition be32 (b : bytes) : Z := fold_left (fun n x => n * 256 + Z_of_byte x) b 0.
Definition deframe (stream : bytes) : option (bytes * bytes) :=
  if decide (length stream < 4)%nat then None else
  let n := Z.to_nat (be32 (take 4 stream)) in
  let body := drop 4 stream in
  if decide (length body < n)%nat then None else Some (take n body, drop n body).

(** The two writes of a message on one connection both succeed. *)
Definition wrote `{Net} (c : Conn) (b : bytes) (n n' : net) : Prop :=
  exists n1, conn_Write c (length_bytes (len b)) n = (None, n1) /\ conn_Write c b n1 = (None, n').

(** The connection [send] uses: the one in the map, or a new one. *)
Definition obtains `{Net} (address : string) (s : rpc_env) (c : Conn) (n : net) : Prop :=
  (re_connectionMap s !! address = Some c /\ n = re_net s) \/
  (re_connectionMap s !! address = None /\ net_Dial address (re_net s) = (inl c, n)).

(** * Lemmas *)

Lemma length_bytes_be32 n : 0 <= n -> be32 (length_bytes n) = n mod 2 ^ 32.
Proof.
  intros Hn. unfold be32, length_bytes. cbn [fold_left].
  rewrite !Z_of_byte_of_Z. change 255 with (Z.ones 8).
  rewrite !Z.land_ones, !Z.shiftr_div_pow2 by lia.
  change (2 ^ 8) with 256. rewrite !Z.mod_mod by lia.
  change (2 ^ 24) with 16777216. change (2 ^ 16) with 65536. change (2 ^ 32) with 4294967296.
  Z.div_mod_to_equations. lia.
Qed.

Section Lemmas.
Context `{Net, Zlib, Proto}.

Lemma send_write_spec address c b s :
  send_write address c b s =
  match conn_Write c b (re_net s) with
  | (None, n) => (Ret None, {| re_net := n; re_connectionMap := re_connectionMap s |})
  | (Some e, n) =>
      (Ret (Some e), {| re_net := conn_Close c n; re_connectionMap := delete address (re_connectionMap s) |})
  end.
Proof.
  unfold send_write, on_net, map_delete. run. by destruct (conn_Write c b (re_net s)) as [[e|] n].
Qed.

Lemma send_spec r b s address :
  rp_locked r = false -> pick_address r = Ret address ->
  exists res s', send r b s = (Ret res, s') /\
    match res with
    | None => exists c n, obtains address s c n /\ wrote c b n (re_net s') /\
                re_connectionMap s' = <[address := c]> (re_connectionMap s)
    | Some _ => re_connectionMap s' = delete address (re_connectionMap s)
    end.
Proof.
  intros Hlock Hpick. unfold send. rewrite Hlock, Hpick. unfold wrote, obtains.
  unfold mbind, M_bind, get. destruct (re_connectionMap s !! address) as [c|] eqn:Hc; cbn.
  - rewrite send_write_spec. destruct (conn_Write c (length_bytes (len b)) (re_net s)) as [[e|] n1] eqn:E1; cbn.
    { eexists _, _. by split. }
    rewrite send_write_spec. cbn. destruct (conn_Write c b n1) as [[e|] n2] eqn:E2;
      (eexists _, _; split; [done|]); cbn; [done|].
    exists c, (re_net s). split_and!; [by left|by eauto|by rewrite insert_id].
  - unfold map_delete, map_set, on_net, modify. cbn.
    destruct (net_Dial address (re_net s)) as [[c|e] n0] eqn:Hd; cbn;
      [|eexists _, _; split; [done|]; cbn; by rewrite delete_delete_eq].
    rewrite send_write_spec. cbn. destruct (conn_Write c (length_bytes (len b)) n0) as [[e|] n1] eqn:E1; cbn.
    { eexists _, _. split; [done|]. cbn. by rewrite delete_insert_eq, delete_delete_eq. }
    rewrite send_write_spec. cbn. destruct (conn_Write c b n1) as [[e|] n2] eqn:E2;
      (eexists _, _; split; [done|]); cbn; [by rewrite delete_insert_eq, delete_delete_eq|].
    exists c, n0. split_and!; [by right|by eauto|by rewrite insert_delete_eq].
Qed.

(** [send] over a connection that takes both writes. *)
Lemma send_obtains r b s address c n0 n2 :
  rp_locked r = false -> pick_address r = Ret address ->
  obtains address s c n0 -> wrote c b n0 n2 ->
  send r b s = (Ret None, {| re_net := n2; re_connectionMap := <[address := c]> (re_connectionMap s) |}).
Proof.
  intros Hlock Hpick Hob (n1 & E1 & E2). unfold send. rewrite Hlock, Hpick.
  unfold mbind, M_bind, get. destruct Hob as [[Hc ->]|[Hc Hd]]; rewrite Hc; cbn.
  - rewrite send_write_spec, E1. cbn. rewrite send_write_spec. cbn. rewrite E2. cbn. by rewrite insert_id.
  - unfold map_delete, map_set, on_net, modify. cbn. rewrite Hd. cbn.
    rewrite send_write_spec. cbn. rewrite E1. cbn. rewrite send_write_spec. cbn. rewrite E2. cbn.
    by rewrite insert_delete_eq.
Qed.

(** Without addresses every attempt panics. *)
Lemma deliver_no_address r l s :
  rp_locked r = false -> rp_availableAddresses r = [] -> l <> [] ->
  deliver r l s = (Panic (PRt DivByZero), s).
Proof.
  intros Hlock Ha Hl. unfold deliver. destruct l as [|m l]; [done|]. cbn [trySend].
  unfold mbind, M_bind, send, pick_address. by rewrite Hlock, Ha.
Qed.

Lemma available_filter order result from :
  available order result from =
  filter (fun a => (match result !! a with Some info => alive from info | None => false end) = true) order.
Proof.
  induction order as [|a order IH]; [done|]. cbn [available]. rewrite filter_cons, IH.
  destruct (result !! a) as [info|]; [|by rewrite decide_False].
  by destruct (alive from info); [rewrite decide_True|rewrite decide_False].
Qed.

Lemma available_In order result from a :
  a ∈ available order result from <->
  a ∈ order /\ exists info, result !! a = Some info /\ alive from info = true.
Proof.
  rewrite available_filter, list_elem_of_filter. destruct (result !! a) as [info|]; split.
  - intros [? ?]. eauto.
  - intros (? & info' & [= ->] & ?). done.
  - by intros [? ?].
  - by intros (? & info' & ? & ?).
Qed.

Lemma available_perm order order' result from :
  order ≡ₚ order' -> available order result from ≡ₚ available order' result from.
Proof. intros Hp. rewrite !available_filter. by rewrite Hp. Qed.

Lemma merge_sort_perm (l l' : list string) : l ≡ₚ l' -> merge_sort String.le l = merge_sort String.le l'.
Proof.
  intros Hp. apply (Sorted_unique String.le); [apply (Sorted_merge_sort _)..|].
  by rewrite !merge_sort_Permutation.
Qed.

Lemma close_unlisted_map conns result s :
  exists s', close_unlisted conns result s = (Ret tt, s') /\ re_connectionMap s' = re_connectionMap s.
Proof.
  revert s. induction conns as [|a conns IH]; intros s; [by exists s|]. cbn. unfold mbind, M_bind, get.
  destruct (result !! a); [apply IH|]. destruct (re_connectionMap s !! a) as [c|]; [|apply IH].
  unfold on_net. cbn. destruct (IH {| re_net := conn_Close c (re_net s);
    re_connectionMap := re_connectionMap s |}) as (s' & -> & ?). by exists s'.
Qed.

Lemma discover_counter r result now order conns s r' s' :
  discover r result now order conns s = (Ret r', s') ->
  rp_callCounter r' = rp_callCounter r /\ rp_locked r' = rp_locked r.
Proof.
  destruct result as [result|e]; cbn; unfold mbind, M_bind, mret, M_ret; [|by intros [= <- <-]].
  destruct (close_unlisted conns result s) as [[[]|p|] s1]; [|done..]. by intros [= <- <-].
Qed.

End Lemmas.

(** * Properties *)

(** C26: what [send] writes is a frame the peer can read back: for a message
shorter than 2^32 bytes the header followed by the message parses to that
message and leaves the rest of the stream. *)
Theorem frame_roundtrip b rest :
  len b < 2 ^ 32 -> deframe (length_bytes (len b) ++ b ++ rest) = Some (b, rest).
Proof.
  intros Hb. unfold deframe. pose proof (len_nonneg b) as H0.
  change (length_bytes (len b) ++ b ++ rest) with
    (take 4 (length_bytes (len b)) ++ b ++ rest).
  rewrite decide_False by (cbn; lia).
  change (take 4 (take 4 (length_bytes (len b)) ++ b ++ rest)) with (length_bytes (len b)).
  change (drop 4 (take 4 (length_bytes (len b)) ++ b ++ rest)) with (b ++ rest).
  rewrite length_bytes_be32, Z.mod_small by lia. unfold len. rewrite Nat2Z.id.
  rewrite decide_False by (rewrite length_app; lia).
  by rewrite take_app_length, drop_app_length.
Qed.


(** [trySend] gets over a connection the peer has closed. If the first
attempt fails on the connection in the map and dialling then gives a
connection on which the writes succeed, the message is sent. *)
Theorem trySend_redials `{Net} r b s address s1 e c n1 n2 k :
  rp_locked r = false -> pick_address r = Ret address ->
  send r b s = (Ret (Some e), s1) ->
  net_Dial address (re_net s1) = (inl c, n1) -> wrote c b n1 n2 ->
  trySend r b (S (S k)) s =
    (Ret true, {| re_net := n2; re_connectionMap := <[address := c]> (re_connectionMap s) |}).
Proof.
  intros Hlock Hpick Hfirst Hdial Hwrote.
  destruct (send_spec r b s address Hlock Hpick) as (res & s' & Hs & Hmap).
  rewrite Hfirst in Hs. injection Hs as <- <-. cbn [trySend]. unfold mbind, M_bind. rewrite Hfirst.
  cut (send r b s1 = (Ret None,
    {| re_net := n2; re_connectionMap := <[address := c]> (re_connectionMap s) |})); [by intros ->|].
  destruct Hwrote as (n1' & E1 & E2). unfold send. rewrite Hlock, Hpick.
  unfold mbind, M_bind, get, map_delete, map_set, modify, on_net. cbn.
  rewrite Hmap, lookup_delete_eq. cbn. rewrite Hdial. cbn. rewrite send_write_spec. cbn.
  rewrite E1. cbn. rewrite send_write_spec. cbn. rewrite E2. cbn.
  by rewrite Hmap, delete_delete_eq, insert_delete_eq.
Qed.

(** The struct [rpcClient] after some rounds of discovery; calls of [deliver]
work on copies and leave it as it is. *)
Inductive discovered `{Net} : rpc -> Prop :=
  | discovered_init : discovered rpcClient
  | discovered_step r result now order conns s r' s' :
      discovered r -> discover r result now order conns s = (Ret r', s') -> discovered r'.

(** The calls are not spread over the servers. The counter is incremented
in a copy only, so every call picks the second address of the sorted list, or
the only one, or panics when there is none. *)
Theorem always_the_same_server `{Net} r :
  discovered r ->
  rp_callCounter r = 0 /\
  pick_address r =
    match rp_availableAddresses r with
    | [] => Panic (PRt DivByZero)
    | [a] => Ret a
    | _ :: a :: _ => Ret a
    end.
Proof.
  intros Hr. assert (rp_callCounter r = 0) as Hzero.
  { induction Hr as [|r result now order conns s r' s' Hr IH Hd]; [done|].
    apply discover_counter in Hd as [-> _]. done. }
  split; [done|]. unfold pick_address. rewrite Hzero. change (wrap_u 64 (0 + 1)) with 1.
  destruct (rp_availableAddresses r) as [|a [|a' l]]; [done|done|].
  rewrite !len_cons. pose proof (len_nonneg l).
  replace (1 + (1 + len l) =? 0) with false by lia. rewrite Z.mod_small by lia. done.
Qed.

(** Discovery does not depend on the order in which the maps are visited:
afterwards the addresses are, sorted and without repetition, those whose info
parses and is at most two seconds old. *)
Theorem discover_addresses `{Net} r result now order conns s :
  iterates result order ->
  exists r' s', discover r (inl result) now order conns s = (Ret r', s') /\
    Sorted String.le (rp_availableAddresses r') /\ NoDup (rp_availableAddresses r') /\
    (forall a, a ∈ rp_availableAddresses r' <->
      exists info, result !! a = Some info /\ alive (Z.quot now 1000000 - 2000) info = true) /\
    (forall order', iterates result order' ->
      exists s'', discover r (inl result) now order' conns s = (Ret r', s'')).
Proof.
  intros Hit. unfold discover. set (from := Z.quot now 1000000 - 1 * 2000).
  destruct (close_unlisted_map conns result s) as (s1 & Hc & _). unfold mbind, M_bind. rewrite Hc.
  assert (forall l, match l with [] => [] | x :: l' => merge_sort String.le (x :: l') end =
    merge_sort String.le l) as Hsort by (by intros []).
  eexists _, s1. split; [done|]. cbn. rewrite Hsort. split_and!.
  - apply (Sorted_merge_sort _).
  - rewrite merge_sort_Permutation, available_filter. by eapply NoDup_filter, iterates_NoDup.
  - intros a. rewrite merge_sort_Permutation, available_In, (iterates_elem _ _ a Hit).
    split; [by intros [_ ?]|]. intros (info & ? & ?). eauto.
  - intros order' Hit'. exists s1. rewrite !Hsort.
    rewrite (merge_sort_perm (available order' result from) (available order result from)); [done|].
    apply available_perm. rewrite Hit'. by rewrite Hit.
Qed.

(** * Witnesses *)

(** A network for examples: its state is the bytes each connection has
received; connections are numbered; number 0 is broken. *)
Definition test_net : Net := {|
  net := gmap nat bytes;
  Conn := nat;
  net_Dial := fun _ n => (inl (S (size n)), <[S (size n) := []]> n);
  conn_Write := fun c b n =>
    match n !! c with
    | Some old => (None, <[c := old ++ b]> n)
    | None => (Some (EText "broken pipe"), n)
    end;
  conn_Close := fun _ n => n;
|}.
Definition test_proto : Proto := {| proto_Marshal := fun l => (map (fun _ => x41) l, None) |}.
Definition test_rpc : rpc :=
  {| rp_locked := false; rp_availableAddresses := ["a:1"; "b:1"; "c:1"]; rp_callCounter := 0 |}.
Definition test_env (m : gmap string nat) : @rpc_env test_net :=
  @Build_rpc_env test_net (∅ : gmap nat bytes) m.

Lemma frame_roundtrip_witness :
  deframe (length_bytes 3 ++ [x61; x62; x63] ++ [x00]) = Some ([x61; x62; x63], [x00]).
Proof. exact (frame_roundtrip [x61; x62; x63] [x00] ltac:(vm_compute; done)). Defined.


Lemma trySend_redials_witness :
  exists s', @trySend test_net test_rpc [x61] 2 (test_env {[ "b:1" := 0%nat ]}) = (Ret true, s').
Proof.
  eexists.
  apply (@trySend_redials test_net test_rpc [x61] _ "b:1"
    (test_env ∅) (EText "broken pipe") 1%nat {[ 1%nat := [] ]} {[ 1%nat := [x00; x00; x00; x01; x61] ]} 0).
  - reflexivity.
  - reflexivity.
  - vm_compute. reflexivity.
  - vm_compute. reflexivity.
  - exists {[ 1%nat := [x00; x00; x00; x01] ]}. split; vm_compute; reflexivity.
Defined.

Definition test_answer : gmap string string :=
  {[ "c:1" := js "{'registerTime': 9000}"; "a:1" := js "{'registerTime': 9500}";
     "b:1" := js "{'registerTime': 100}"; "d:1" := "not json" ]}.

Lemma discover_addresses_witness :
  exists r' s', @discover test_net rpcClient (inl test_answer) 10000000000
      (map_to_list test_answer).*1 [] (test_env ∅) = (Ret r', s') /\
    rp_availableAddresses r' = ["a:1"; "c:1"].
Proof.
  destruct (@discover_addresses test_net rpcClient test_answer 10000000000
    (map_to_list test_answer).*1 [] (test_env ∅) (iterates_self test_answer))
    as (r' & s' & H & _). exists r', s'. split; [exact H|].
  vm_compute in H. injection H as <- _. reflexivity.
Defined.

Lemma always_the_same_server_witness :
  exists r, @discovered test_net r /\ pick_address r = Ret "c:1" /\
    rp_availableAddresses r = ["a:1"; "c:1"].
Proof.
  pose (run := @discover test_net rpcClient (inl test_answer) 10000000000
      (map_to_list test_answer).*1 [] (test_env ∅)).
  assert (exists r s', run = (Ret r, s') /\ rp_availableAddresses r = ["a:1"; "c:1"]) as (r & s' & H & Ha).
  { eexists _, _. split; vm_compute; reflexivity. }
  assert (@discovered test_net r) as Hd
    by (eapply discovered_step; [apply discovered_init|exact H]).
  exists r. split; [exact Hd|]. split; [|exact Ha].
  destruct (@always_the_same_server test_net r Hd) as [_ E].
  rewrite E, Ha. reflexivity.
Defined.
