(* ===== verification/State.v ===== *)
(** The state the goroutines of the server share: connections, clients, pushed
messages, the two managers, the message queues, the counters, the struct
[rpcClient] and the goroutines that were started. *)

From S2P Require Import Prelude Protocol Room ToCompute Rpc.
Local Open Scope Z_scope.

(** * The bdmsg package *)

(** What is stored with [SetUserData]: nothing, the connection itself, or a
client. *)
Inductive UserData :=
  | UD_nil
  | UD_SClient (msc : loc)
  | UD_Client (c : loc).

Record Statis := {
  st_InTotal : Z; st_InProcess : Z; st_OutTotal : Z; st_OutProcess : Z;
  st_BytesReaded : Z; st_BytesWritten : Z;
}.

(** The operations of [*bdmsg.SClient] the code calls; [sc_Stopped] tells
whether the channel [StopD()] is closed. *)
Class BDMsg := {
  SClient : Type;
  sc_Stop : SClient -> SClient;
  sc_Stopped : SClient -> bool;
  sc_Handshake : SClient -> SClient;
  sc_Handshaked : SClient -> bool;
  sc_Output : Z -> bytes -> SClient -> SClient;
  sc_Statis : SClient -> Statis;
  sc_SetUserData : UserData -> SClient -> SClient;
  sc_UserData : SClient -> UserData;
}.

Class BDMsgLaws `{BDMsg} : Prop := {
  stop_Stopped c : sc_Stopped (sc_Stop c) = true;
  stop_UserData c : sc_UserData (sc_Stop c) = sc_UserData c;
  set_UserData d c : sc_UserData (sc_SetUserData d c) = d;
  set_Stopped d c : sc_Stopped (sc_SetUserData d c) = sc_Stopped c;
  handshake_Handshaked c : sc_Handshaked (sc_Handshake c) = true;
  handshake_UserData c : sc_UserData (sc_Handshake c) = sc_UserData c;
  handshake_Stopped c : sc_Stopped (sc_Handshake c) = sc_Stopped c;
  output_Stopped t b c : sc_Stopped (sc_Output t b c) = sc_Stopped c;
  output_UserData t b c : sc_UserData (sc_Output t b c) = sc_UserData c;
}.

(** * Data *)

(** A timer of [time.AfterFunc]: when it fires, if it is running. *)
Record Timer := { tm_deadline : option Z }.

(** [type Client struct]. The queue holds pointers to messages; the managers
are the only ones there are; the mutex and the condition are not state of the
handlers, whose critical sections are single steps (see Pump.v for the
goroutine that waits on the condition). *)
Record Client := {
  c_ID : string;
  c_roomId : string;
  c_level : Z;
  c_msc : loc;
  c_queue : list loc;
  c_expireTimer : option Timer;
  c_heartBeatTime : Z;
  c_q : bool;
  c_version : Z;
}.

(** [type NamingInfo struct], without the two figures of the machine. *)
Record NamingInfo := {
  ni_RegisterTime : Z;
  ni_LoginUsers : Z;
  ni_ConnectedClients : Z;
  ni_InData : Z;
  ni_OutData : Z;
  ni_InQueue : Z;
  ni_OutQueue : Z;
}.
Definition zero_NamingInfo : NamingInfo := Build_NamingInfo 0 0 0 0 0 0 0.

(** The goroutines started with [go] by the modelled code and not yet run:
[c.monitor()], [c.expire(t)] and the output loop [t.a()]. *)
Inductive task :=
  | TMonitor (c : loc)
  | TExpire (c : loc) (expireTime : Z)
  | TOutput (c : loc).

Record World `{BDMsg, Net} := mkWorld {
  w_conns : gmap loc SClient;
  w_clients : gmap loc Client;
  w_msgs : gmap loc ToClientMessage;
  w_clientM : gmap string loc;
  w_rooms : RoomManager;
  w_mqg : MessageQueueGroup;
  w_info : NamingInfo;
  w_chatMessageCounter : Z;
  w_packedMessageCounter : Z;
  w_rpc : rpc;
  w_rpc_env : rpc_env;
  w_tasks : list task;
}.

#[export] Instance task_eq_dec : EqDecision task.
Proof. solve_decision. Defined.
#[export] Instance UserData_eq_dec : EqDecision UserData.
Proof. solve_decision. Defined.

(** * Field updates *)

Definition set_c_roomId (x : string) (c : Client) : Client :=
  Build_Client (c_ID c) x (c_level c) (c_msc c) (c_queue c) (c_expireTimer c) (c_heartBeatTime c)
    (c_q c) (c_version c).
Definition set_c_level (x : Z) (c : Client) : Client :=
  Build_Client (c_ID c) (c_roomId c) x (c_msc c) (c_queue c) (c_expireTimer c) (c_heartBeatTime c)
    (c_q c) (c_version c).
Definition set_c_queue (f : list loc -> list loc) (c : Client) : Client :=
  Build_Client (c_ID c) (c_roomId c) (c_level c) (c_msc c) (f (c_queue c)) (c_expireTimer c)
    (c_heartBeatTime c) (c_q c) (c_version c).
Definition set_c_expireTimer (x : option Timer) (c : Client) : Client :=
  Build_Client (c_ID c) (c_roomId c) (c_level c) (c_msc c) (c_queue c) x (c_heartBeatTime c)
    (c_q c) (c_version c).
Definition set_c_heartBeatTime (x : Z) (c : Client) : Client :=
  Build_Client (c_ID c) (c_roomId c) (c_level c) (c_msc c) (c_queue c) (c_expireTimer c) x
    (c_q c) (c_version c).
Definition set_c_q (x : bool) (c : Client) : Client :=
  Build_Client (c_ID c) (c_roomId c) (c_level c) (c_msc c) (c_queue c) (c_expireTimer c)
    (c_heartBeatTime c) x (c_version c).
Definition set_c_version (x : Z) (c : Client) : Client :=
  Build_Client (c_ID c) (c_roomId c) (c_level c) (c_msc c) (c_queue c) (c_expireTimer c)
    (c_heartBeatTime c) (c_q c) x.

Definition set_ni_LoginUsers (f : Z -> Z) (i : NamingInfo) : NamingInfo :=
  Build_NamingInfo (ni_RegisterTime i) (f (ni_LoginUsers i)) (ni_ConnectedClients i) (ni_InData i)
    (ni_OutData i) (ni_InQueue i) (ni_OutQueue i).
Definition set_ni_ConnectedClients (f : Z -> Z) (i : NamingInfo) : NamingInfo :=
  Build_NamingInfo (ni_RegisterTime i) (ni_LoginUsers i) (f (ni_ConnectedClients i)) (ni_InData i)
    (ni_OutData i) (ni_InQueue i) (ni_OutQueue i).
Definition set_ni_Data (inData outData : Z) (i : NamingInfo) : NamingInfo :=
  Build_NamingInfo (ni_RegisterTime i) (ni_LoginUsers i) (ni_ConnectedClients i) inData
    outData (ni_InQueue i) (ni_OutQueue i).

Section Updates.
Context `{BDMsg, Net}.

Definition upd_conns (f : gmap loc SClient -> gmap loc SClient) (w : World) : World :=
  mkWorld _ _ (f (w_conns w)) (w_clients w) (w_msgs w) (w_clientM w) (w_rooms w) (w_mqg w) (w_info w)
    (w_chatMessageCounter w) (w_packedMessageCounter w) (w_rpc w) (w_rpc_env w) (w_tasks w).
Definition upd_clients (f : gmap loc Client -> gmap loc Client) (w : World) : World :=
  mkWorld _ _ (w_conns w) (f (w_clients w)) (w_msgs w) (w_clientM w) (w_rooms w) (w_mqg w) (w_info w)
    (w_chatMessageCounter w) (w_packedMessageCounter w) (w_rpc w) (w_rpc_env w) (w_tasks w).
Definition upd_msgs (f : gmap loc ToClientMessage -> gmap loc ToClientMessage) (w : World) : World :=
  mkWorld _ _ (w_conns w) (w_clients w) (f (w_msgs w)) (w_clientM w) (w_rooms w) (w_mqg w) (w_info w)
    (w_chatMessageCounter w) (w_packedMessageCounter w) (w_rpc w) (w_rpc_env w) (w_tasks w).
Definition upd_clientM (f : gmap string loc -> gmap string loc) (w : World) : World :=
  mkWorld _ _ (w_conns w) (w_clients w) (w_msgs w) (f (w_clientM w)) (w_rooms w) (w_mqg w) (w_info w)
    (w_chatMessageCounter w) (w_packedMessageCounter w) (w_rpc w) (w_rpc_env w) (w_tasks w).
Definition upd_rooms (f : RoomManager -> RoomManager) (w : World) : World :=
  mkWorld _ _ (w_conns w) (w_clients w) (w_msgs w) (w_clientM w) (f (w_rooms w)) (w_mqg w) (w_info w)
    (w_chatMessageCounter w) (w_packedMessageCounter w) (w_rpc w) (w_rpc_env w) (w_tasks w).
Definition set_mqg (g : MessageQueueGroup) (w : World) : World :=
  mkWorld _ _ (w_conns w) (w_clients w) (w_msgs w) (w_clientM w) (w_rooms w) g (w_info w)
    (w_chatMessageCounter w) (w_packedMessageCounter w) (w_rpc w) (w_rpc_env w) (w_tasks w).
Definition upd_info (f : NamingInfo -> NamingInfo) (w : World) : World :=
  mkWorld _ _ (w_conns w) (w_clients w) (w_msgs w) (w_clientM w) (w_rooms w) (w_mqg w) (f (w_info w))
    (w_chatMessageCounter w) (w_packedMessageCounter w) (w_rpc w) (w_rpc_env w) (w_tasks w).
Definition set_counters (chat packed : Z) (w : World) : World :=
  mkWorld _ _ (w_conns w) (w_clients w) (w_msgs w) (w_clientM w) (w_rooms w) (w_mqg w) (w_info w)
    chat packed (w_rpc w) (w_rpc_env w) (w_tasks w).
Definition set_rpc (r : rpc) (e : rpc_env) (w : World) : World :=
  mkWorld _ _ (w_conns w) (w_clients w) (w_msgs w) (w_clientM w) (w_rooms w) (w_mqg w) (w_info w)
    (w_chatMessageCounter w) (w_packedMessageCounter w) r e (w_tasks w).
Definition upd_tasks (f : list task -> list task) (w : World) : World :=
  mkWorld _ _ (w_conns w) (w_clients w) (w_msgs w) (w_clientM w) (w_rooms w) (w_mqg w) (w_info w)
    (w_chatMessageCounter w) (w_packedMessageCounter w) (w_rpc w) (w_rpc_env w) (f (w_tasks w)).

(** The effect of a method on the object behind a pointer. *)
Definition on_conn (l : loc) (f : SClient -> SClient) : World -> World := upd_conns (alter f l).
Definition on_client (l : loc) (f : Client -> Client) : World -> World := upd_clients (alter f l).

(** [go f()] *)
Definition spawn (t : task) : World -> World := upd_tasks (fun ts => ts ++ [t]).

(** The initial values of the two counters. *)
Definition chatMessageCounter : Z := 0.
Definition packedMessageCounter : Z := 0.

(** The state of a server before the first connection. *)
Definition w_init (e : rpc_env) : World :=
  mkWorld _ _ ∅ ∅ ∅ ∅ NewRoomManager messageQueueGroup zero_NamingInfo chatMessageCounter packedMessageCounter
    rpcClient e [].

End Updates.

(** * A concrete instance for examples *)

(** A connection that remembers whether it was stopped, whether the handshake
is done, its user data and what was written to it. *)
Record test_conn := {
  tst_stopped : bool; tst_handshaked : bool; tst_data : UserData; tst_out : list (Z * bytes);
}.
Definition test_bdmsg : BDMsg := {|
  SClient := test_conn;
  sc_Stop c := Build_test_conn true (tst_handshaked c) (tst_data c) (tst_out c);
  sc_Stopped := tst_stopped;
  sc_Handshake c := Build_test_conn (tst_stopped c) true (tst_data c) (tst_out c);
  sc_Handshaked := tst_handshaked;
  sc_Output t b c := Build_test_conn (tst_stopped c) (tst_handshaked c) (tst_data c) (tst_out c ++ [(t, b)]);
  sc_Statis c := Build_Statis 0 0 (len (tst_out c)) (len (tst_out c)) 0 0;
  sc_SetUserData d c := Build_test_conn (tst_stopped c) (tst_handshaked c) d (tst_out c);
  sc_UserData := tst_data;
|}.
Lemma test_bdmsg_laws : @BDMsgLaws test_bdmsg.
Proof. by constructor. Qed.
