(* ===== verification/Client.v ===== *)
(** The clients and their manager (connectsvc/client.go): registration of a
connection under a user id, expiry of the session, the end of a client. The
goroutine [a], which writes the queue of a client to its connection, is split
into its critical sections here and run against its condition in Pump.v. *)

From S2P Require Import Prelude Json Protocol Room ToCompute Config Token Rpc State.
Local Open Scope Z_scope.

(** [time.Now().UnixNano() / 1e6] and [time.Now().Unix()], of a time in
nanoseconds. *)
Definition millis (now : Z) : Z := Z.quot now 1000000.
Definition unix (now : Z) : Z := now / 1000000000.

(** When a timer armed for [d] fires: durations below zero count as zero, the
sum saturates. *)
Definition timer_when (now d : Z) : Z := Z.min (now + Z.max d 0) (2 ^ 63 - 1).

Section Client.
Context `{BDMsg, Net, Gorsa}.

(** * Clients *)

(** [createClient] *)
Definition createClient (now : Z) (id : string) (msc : loc) (w : World) : loc * World :=
  let t := fresh (dom (w_clients w)) in
  let c := {| c_ID := id; c_roomId := ""; c_level := 0; c_msc := msc; c_queue := [];
              c_expireTimer := None; c_heartBeatTime := millis now; c_q := false;
              c_version := 0 |} in
  let w := upd_clients <[t := c]> w in
  let w := upd_info (set_ni_LoginUsers (fun n => to_int32 (n + 1))) w in
  let w := spawn (TOutput t) w in
  (t, on_conn msc (sc_SetUserData (UD_Client t)) w).

(** [Client.Close] *)
Definition Close (l : loc) (w : World) : World :=
  match w_clients w !! l with
  | Some c => on_conn (c_msc c) sc_Stop w
  | None => w
  end.

(** [ClientManager.removeClient] *)
Definition removeClient (l : loc) (w : World) : World :=
  match w_clients w !! l with
  | Some c => if decide (w_clientM w !! c_ID c = Some l)
              then upd_clientM (delete (c_ID c)) w else w
  | None => w
  end.

(** [c.expireTimer.Stop()] *)
Definition timer_Stop (t : Timer) : Timer := {| tm_deadline := None |}.

(** [Client.ending] *)
Definition ending (l : loc) (w : World) : World :=
  match w_clients w !! l with
  | None => w
  | Some c =>
      let w := on_conn (c_msc c) (sc_SetUserData UD_nil) w in
      let w := upd_rooms (fun m => rm_ending m (c_roomId c) l (c_ID c)) w in
      let w := removeClient l w in
      let w := on_client l (set_c_q true) w in
      let w := on_client l (fun c => set_c_expireTimer (timer_Stop <$> c_expireTimer c) c) w in
      upd_info (set_ni_LoginUsers (fun n => to_int32 (n - 1))) w
  end.

(** [Client.monitor] goes past its receive when the connection has stopped. *)
Definition monitor_ready (l : loc) (w : World) : bool :=
  match w_clients w !! l with
  | Some c => match w_conns w !! c_msc c with Some s => sc_Stopped s | None => false end
  | None => false
  end.

(** [Client.heartBeat], and [Client.heartBeat2], which logs the delay too. *)
Definition heartBeat (now : Z) (l : loc) : World -> World :=
  on_client l (set_c_heartBeatTime (millis now)).
Definition heartBeat2 (now timeTag : Z) (l : loc) (w : World) : World * bool :=
  (on_client l (set_c_heartBeatTime (millis now)) w, 3000 <? millis now - timeTag).

(** [Client.sessionAliveDurationInSeconds] *)
Definition sessionAliveDurationInSeconds (now : Z) (claims : Token) : Z :=
  if 0 <? tk_ExpireTime claims
  then to_int64 (tk_ExpireTime claims - Z.quot (unix now) 1000000) else -1.

(** [Client.expire] *)
Definition expire (now : Z) (l : loc) (expireTime : Z) (w : World) : World :=
  if 0 <? expireTime then
    let durationInMills := to_int64 (expireTime - Z.quot (unix now) 1000000) in
    if 0 <? durationInMills then
      let duration := to_int64 (durationInMills * 1000000) in
      let armed := {| tm_deadline := Some (timer_when now duration) |} in
      let w := on_client l (fun c =>
        match c_expireTimer c with
        | None => set_c_expireTimer (Some armed) c
        | Some _ => c
        end) w in
      on_client l (fun c =>
        match c_expireTimer c with
        | Some _ => set_c_expireTimer (Some armed) c
        | None => c
        end) w
    else w
  else w.

(** The function given to [time.AfterFunc], run once the timer is due. *)
Definition timer_due (now : Z) (c : Client) : bool :=
  match c_expireTimer c with
  | Some {| tm_deadline := Some d |} => d <=? now
  | _ => false
  end.
Definition timer_fire (now : Z) (l : loc) (w : World) : World :=
  match w_clients w !! l with
  | Some c =>
      if timer_due now c then
        on_conn (c_msc c) sc_Stop
          (on_client l (set_c_expireTimer (Some {| tm_deadline := None |})) w)
      else w
  | None => w
  end.

(** * The output goroutine and its queue *)

(** [Client.ServerHello], under the client's lock; [None] is the nil client. *)
Definition ServerHello (l : option loc) (hello : loc) (w : World) : World :=
  match l with
  | None => w
  | Some l => on_client l (set_c_queue (fun q => q ++ [hello])) w
  end.

(** The sections of an iteration of [Client.a]: take the front of the queue,
then marshal the message and give it to the connection. *)
Definition a_pop (l : loc) (w : World) : option loc * World :=
  match w_clients w !! l with
  | Some c => (head (c_queue c), on_client l (set_c_queue tail) w)
  | None => (None, w)
  end.
Definition a_output `{Zlib} (l m : loc) (w : World) : World :=
  match w_clients w !! l, w_msgs w !! m with
  | Some c, Some msg =>
      match tc_Marshal msg with
      | (bytes, None, msg') =>
          on_conn (c_msc c) (sc_Output MsgTypePush bytes) (upd_msgs <[m := msg']> w)
      | (_, Some _, msg') => upd_msgs <[m := msg']> w
      end
  | _, _ => w
  end.
(** One iteration: nothing when the client has ended, and nothing but waiting
when the queue is empty. *)
Definition a_iter `{Zlib} (l : loc) (w : World) : World :=
  match w_clients w !! l with
  | Some c =>
      if c_q c then w else
      match a_pop l w with
      | (Some m, w) => a_output l m w
      | (None, w) => w
      end
  | None => w
  end.

(** * The manager *)

(** [NewClientManager]'s map is empty; [ClientManager.Client] *)
Definition cm_Client (id : string) (w : World) : option loc := w_clientM w !! id.

(** [ClientManager.clientIn]. The first component says how the call returns. *)
Definition cm_clientIn (config : ConfigT) (spare : bytes) (now : Z) (register : Register)
    (msc : loc) (w : World) : outcome (option loc * option error) * World :=
  let id := rg_UserId register in
  match refreshToken0 config spare (rg_Token register) with
  | Panic p => (Panic p, w)
  | Stuck => (Stuck, w)
  | Ret (_, Some err0) => (Ret (None, Some err0), w)
  | Ret (claims, None) =>
      let w := match w_clientM w !! id with Some c => Close c w | None => w end in
      let '(c, w) := createClient now id msc w in
      let w := on_client c (set_c_version (rg_ClientToConnectorVersion register)) w in
      let w := upd_clientM <[id := c]> w in
      let w := spawn (TMonitor c) w in
      let w := spawn (TExpire c (tk_ExpireTime claims)) w in
      (Ret (Some c, None), w)
  end.

(** [Client.refreshToken] *)
Definition refreshToken (config : ConfigT) (spare : bytes) (l : loc) (token : string) (w : World)
    : outcome (option error) * World :=
  match refreshToken0 config spare token with
  | Panic p => (Panic p, w)
  | Stuck => (Stuck, w)
  | Ret (_, Some err) => (Ret (Some err), w)
  | Ret (claims, None) => (Ret None, spawn (TExpire l (tk_ExpireTime claims)) w)
  end.

(** [ClientManager.CloseAll], in the order the map is walked. *)
Definition CloseAll (order : list string) (w : World) : World :=
  foldl (fun w id => match cm_Client id w with Some c => Close c w | None => w end) w order.

End Client.

(** * Invariant *)

Definition task_client (t : task) : loc :=
  match t with TMonitor l => l | TExpire l _ => l | TOutput l => l end.

(** The clients whose monitor has not returned, i.e. those that have not ended. *)
Definition task_monitor (t : task) : option loc :=
  match t with TMonitor l => Some l | _ => None end.
Definition monitors (ts : list task) : list loc := omap task_monitor ts.
Arguments monitors : simpl never.

Section Invariant.
Context `{BDMsg, Net, Zlib}.

(** Who is a client, in terms of the two tables only. *)
Definition is_client (w : World) (id : string) (l : loc) : Prop :=
  exists c, w_clients w !! l = Some c /\ c_ID c = id.

Record world_ok (w : World) : Prop := {
  wok_conn l c : w_clients w !! l = Some c -> is_Some (w_conns w !! c_msc c);
  wok_inj l l' c c' :
    w_clients w !! l = Some c -> w_clients w !! l' = Some c' -> c_msc c = c_msc c' -> l = l';
  wok_SClient s sc l : w_conns w !! s = Some sc -> sc_UserData sc = UD_SClient l ->
    l = s /\ forall l' c, w_clients w !! l' = Some c -> c_msc c <> s;
  wok_Client s sc l : w_conns w !! s = Some sc -> sc_UserData sc = UD_Client l ->
    exists c, w_clients w !! l = Some c /\ c_msc c = s;
  wok_clientM id l : w_clientM w !! id = Some l ->
    is_client w id l /\ l ∈ monitors (w_tasks w);
  wok_rooms : rm_wf (w_rooms w);
  wok_member r id l : rm_lookup (w_rooms w) r id = Some l -> is_client w id l;
  wok_tasks t : t ∈ w_tasks w -> is_Some (w_clients w !! task_client t);
  wok_NoDup : NoDup (monitors (w_tasks w));
  wok_q l c : w_clients w !! l = Some c -> c_q c = false <-> l ∈ monitors (w_tasks w);
  wok_LoginUsers : ni_LoginUsers (w_info w) = to_int32 (len (monitors (w_tasks w)));
  wok_queue l c m : w_clients w !! l = Some c -> m ∈ c_queue c -> is_Some (w_msgs w !! m);
  wok_cache m msg : w_msgs w !! m = Some msg -> cache_ok msg;
  wok_mqg : mqg_wf (w_mqg w);
}.

End Invariant.

(** * Lemmas *)

Section Frames.
Context `{HB : BDMsg, HN : Net, HZ : Zlib}.

Lemma is_client_fields (w w' : World) id l :
  (forall l c, w_clients w !! l = Some c ->
     exists c', w_clients w' !! l = Some c' /\ c_ID c' = c_ID c) ->
  is_client w id l -> is_client w' id l.
Proof. intros Hf (c & Hc & <-). destruct (Hf l c Hc) as (c' & ? & ?). by exists c'. Qed.

(** A connection may change in any way that leaves its user data. *)
Lemma world_ok_on_conn l f w :
  (forall c, sc_UserData (f c) = sc_UserData c) -> world_ok w -> world_ok (on_conn l f w).
Proof.
  intros Hf Hw. constructor; cbn; try apply Hw.
  - intros l' c Hc. rewrite lookup_alter. case_decide; [|by eapply wok_conn].
    subst. destruct (wok_conn w Hw _ _ Hc) as [x ->]. by eexists.
  - intros s sc l' Hs. rewrite lookup_alter in Hs. case_decide; [|by eapply wok_SClient].
    apply fmap_Some in Hs as (sc' & Hs & ->). subst. rewrite Hf. by eapply wok_SClient.
  - intros s sc l' Hs. rewrite lookup_alter in Hs. case_decide; [|by eapply wok_Client].
    apply fmap_Some in Hs as (sc' & Hs & ->). subst. rewrite Hf. by eapply wok_Client.
Qed.

(** A client may change in any way that leaves its identity and adds no
unknown message to its queue. *)
Lemma world_ok_on_client l f w :
  (forall c, c_ID (f c) = c_ID c /\ c_msc (f c) = c_msc c /\ c_q (f c) = c_q c /\
     forall m, m ∈ c_queue (f c) -> m ∈ c_queue c \/ is_Some (w_msgs w !! m)) ->
  world_ok w -> world_ok (on_client l f w).
Proof.
  intros Hf Hw.
  assert (forall l' c', alter f l (w_clients w) !! l' = Some c' ->
    exists c, w_clients w !! l' = Some c /\ (c' = c \/ c' = f c)) as Hold.
  { intros l' c'. rewrite lookup_alter. case_decide; [|eauto].
    intros (c & Hc & ->)%fmap_Some. subst. eauto. }
  assert (forall l' c, w_clients w !! l' = Some c ->
    exists c', alter f l (w_clients w) !! l' = Some c' /\ c_ID c' = c_ID c /\ c_msc c' = c_msc c) as Hnew.
  { intros l' c Hc. rewrite lookup_alter. case_decide; [|eauto].
    subst. rewrite Hc. exists (f c). split; [done|]. naive_solver. }
  assert (forall id l', is_client w id l' -> is_client (on_client l f w) id l') as Hcl.
  { intros id l'. apply is_client_fields. intros l'' c (c' & ? & ? & ?)%Hnew. eauto. }
  constructor; cbn; try apply Hw.
  - intros l' c' (c & Hc & Hcc)%Hold. assert (c_msc c' = c_msc c) as -> by naive_solver.
    by eapply wok_conn.
  - intros l1 l2 c1' c2' (c1 & Hc1 & H1)%Hold (c2 & Hc2 & H2)%Hold Heq.
    apply (wok_inj w Hw l1 l2 c1 c2); try done. naive_solver congruence.
  - intros s sc l' Hs Hd. destruct (wok_SClient w Hw s sc l' Hs Hd) as [-> Hn].
    split; [done|]. intros l2 c' (c & Hc & Hcc)%Hold. specialize (Hn _ _ Hc). naive_solver congruence.
  - intros s sc l' Hs Hd. destruct (wok_Client w Hw s sc l' Hs Hd) as (c & Hc & <-).
    destruct (Hnew _ _ Hc) as (c' & ? & ? & ?). eauto.
  - intros id l' Hid. destruct (wok_clientM w Hw id l' Hid). split; auto.
  - intros r id l' Hr. apply Hcl. by eapply wok_member.
  - intros t Ht. destruct (wok_tasks w Hw t Ht) as [c Hc]. destruct (Hnew _ _ Hc) as (c' & ? & _). eauto.
  - intros l' c' (c & Hc & Hcc)%Hold. rewrite <-(wok_q w Hw l' c Hc). naive_solver.
  - intros l' c' m (c & Hc & Hcc)%Hold Hm.
    assert (m ∈ c_queue c \/ is_Some (w_msgs w !! m)) as [|] by naive_solver; [|done].
    by eapply wok_queue.
Qed.

Lemma world_ok_spawn t w :
  task_monitor t = None -> is_Some (w_clients w !! task_client t) ->
  world_ok w -> world_ok (spawn t w).
Proof.
  intros Ht Hc Hw.
  assert (monitors (w_tasks w ++ [t]) = monitors (w_tasks w)) as E.
  { unfold monitors. rewrite omap_app. cbn. rewrite Ht. by rewrite app_nil_r. }
  constructor; cbn; rewrite ?E; try apply Hw.
  intros t' [Ht'| ->%list_elem_of_singleton]%elem_of_app; [by eapply wok_tasks|done].
Qed.

(** A goroutine other than a monitor returns. *)
Lemma world_ok_unspawn ts1 t ts2 w :
  w_tasks w = ts1 ++ t :: ts2 -> task_monitor t = None ->
  world_ok w -> world_ok (upd_tasks (fun _ => ts1 ++ ts2) w).
Proof.
  intros Hts Ht Hw.
  assert (monitors (ts1 ++ ts2) = monitors (w_tasks w)) as E.
  { unfold monitors. rewrite Hts, !omap_app. cbn. by rewrite Ht. }
  constructor; cbn; rewrite ?E; try apply Hw.
  intros t' Ht'. apply (wok_tasks w Hw). rewrite Hts. set_solver.
Qed.

Lemma world_ok_msgs m msg w :
  cache_ok msg -> world_ok w -> world_ok (upd_msgs <[m := msg]> w).
Proof.
  intros Hmsg Hw. constructor; cbn; try apply Hw.
  - intros l c m' Hc Hm. rewrite lookup_insert. case_decide; [by eexists|]. by eapply wok_queue.
  - intros m' msg' Hm. rewrite lookup_insert in Hm. case_decide; [congruence|]. by eapply wok_cache.
Qed.

Lemma world_ok_rooms f w :
  rm_wf (f (w_rooms w)) ->
  (forall r id l, rm_lookup (f (w_rooms w)) r id = Some l -> is_client w id l) ->
  world_ok w -> world_ok (upd_rooms f w).
Proof. intros Hwf Hm Hw. constructor; cbn; try apply Hw; done. Qed.

Lemma world_ok_mqg g w : mqg_wf g -> world_ok w -> world_ok (set_mqg g w).
Proof. intros Hg Hw. constructor; cbn; try apply Hw; done. Qed.

Lemma world_ok_info f w :
  (forall i, ni_LoginUsers (f i) = ni_LoginUsers i) -> world_ok w -> world_ok (upd_info f w).
Proof. intros Hf Hw. constructor; cbn; rewrite ?Hf; apply Hw. Qed.

Lemma world_ok_counters a b w : world_ok w -> world_ok (set_counters a b w).
Proof. intros Hw. constructor; cbn; apply Hw. Qed.

Lemma world_ok_rpc r e w : world_ok w -> world_ok (set_rpc r e w).
Proof. intros Hw. constructor; cbn; apply Hw. Qed.

End Frames.

Section Ending.
Context `{HB : BDMsg, HL : !BDMsgLaws, HN : Net, HZ : Zlib}.

(** The two updates of the client as one. *)
Definition ended (c : Client) : Client :=
  set_c_expireTimer (timer_Stop <$> c_expireTimer c) (set_c_q true c).

Lemma ending_eq l c w :
  w_clients w !! l = Some c ->
  ending l w =
    upd_info (set_ni_LoginUsers (fun n => to_int32 (n - 1)))
      (on_client l ended
        (upd_clientM (fun M => if decide (M !! c_ID c = Some l) then delete (c_ID c) M else M)
          (upd_rooms (fun m => rm_ending m (c_roomId c) l (c_ID c))
            (on_conn (c_msc c) (sc_SetUserData UD_nil) w)))).
Proof.
  intros Hc. unfold ending, removeClient. rewrite Hc. cbn. rewrite Hc.
  unfold on_client, upd_info, upd_clients, upd_clientM.
  case_decide; cbn; rewrite alter_alter_eq, ?decide_True, ?decide_False by done; reflexivity.
Qed.

Lemma monitors_split ts1 l ts2 :
  monitors (ts1 ++ TMonitor l :: ts2) ≡ₚ l :: monitors (ts1 ++ ts2).
Proof. unfold monitors. rewrite !omap_app. cbn. by rewrite Permutation_middle. Qed.

Lemma len_Permutation {A} (l k : list A) : l ≡ₚ k -> len l = len k.
Proof. unfold len. by intros ->. Qed.

Lemma to_int32_pred n : to_int32 (to_int32 (1 + n) - 1) = to_int32 n.
Proof. unfold to_int32, Z.sub. rewrite wrap_s_add_l by lia. f_equal. lia. Qed.

(** The monitor of a client returns through [ending]. *)
Lemma world_ok_ending ts1 l ts2 w :
  w_tasks w = ts1 ++ TMonitor l :: ts2 ->
  world_ok w -> world_ok (ending l (upd_tasks (fun _ => ts1 ++ ts2) w)).
Proof.
  intros Hts Hw. pose proof (wok_tasks w Hw (TMonitor l)) as [c Hc]; [rewrite Hts; set_solver|].
  cbn in Hc. pose proof (monitors_split ts1 l ts2) as Hmon. rewrite <-Hts in Hmon.
  pose proof (wok_NoDup w Hw) as Hnd. rewrite Hmon in Hnd. apply NoDup_cons in Hnd as [Hnotin Hnd].
  rewrite (ending_eq l c) by done.
  assert (forall l' c', alter ended l (w_clients w) !! l' = Some c' ->
    exists c0, w_clients w !! l' = Some c0 /\ c' = if decide (l' = l) then ended c0 else c0) as Hold.
  { intros l' c'. rewrite lookup_alter. destruct (decide (l = l')) as [->|].
    - intros (c0 & Hc0 & ->)%fmap_Some. exists c0. by rewrite decide_True.
    - exists c'. by rewrite decide_False by done. }
  assert (forall l' c', w_clients w !! l' = Some c' ->
    exists c0, alter ended l (w_clients w) !! l' = Some c0 /\ c_ID c0 = c_ID c' /\ c_msc c0 = c_msc c') as Hnew.
  { intros l' c' Hc'. rewrite lookup_alter. case_decide; [|eauto].
    subst. rewrite Hc'. by exists (ended c'). }
  constructor; cbn.
  - intros l' c' (c0 & Hc0 & ->)%Hold. assert (is_Some (w_conns w !! c_msc c0)) by by eapply wok_conn.
    rewrite lookup_alter_is_Some. by case_decide.
  - intros l1 l2 c1 c2 (d1 & Hd1 & ->)%Hold (d2 & Hd2 & ->)%Hold Heq.
    apply (wok_inj w Hw l1 l2 d1 d2); try done. by repeat case_decide.
  - intros s sc l' Hs Hd. rewrite lookup_alter in Hs. case_decide.
    { apply fmap_Some in Hs as (sc' & _ & ->). by rewrite set_UserData in Hd. }
    destruct (wok_SClient w Hw s sc l' Hs Hd) as [-> Hn]. split; [done|].
    intros l2 c' (c0 & Hc0 & ->)%Hold. specialize (Hn _ _ Hc0). by case_decide.
  - intros s sc l' Hs Hd. rewrite lookup_alter in Hs. case_decide.
    { apply fmap_Some in Hs as (sc' & _ & ->). by rewrite set_UserData in Hd. }
    destruct (wok_Client w Hw s sc l' Hs Hd) as (c0 & Hc0 & <-).
    destruct (Hnew _ _ Hc0) as (c' & ? & ? & ?). eauto.
  - intros id l' Hid.
    assert (w_clientM w !! id = Some l' /\ l' <> l) as [Hid' Hne].
    { case_decide as Hme; [apply lookup_delete_Some in Hid as [Hne Hid]|].
      - split; [done|]. intros ->. destruct (wok_clientM w Hw id l Hid) as [(c0 & ? & ?) _]. congruence.
      - split; [done|]. intros ->. destruct (wok_clientM w Hw id l Hid) as [(c0 & ? & ?) _]. congruence. }
    destruct (wok_clientM w Hw id l' Hid') as [(c0 & Hc0 & <-) Hin]. split.
    + destruct (Hnew _ _ Hc0) as (c' & ? & ? & ?). by exists c'.
    + rewrite Hmon in Hin. by apply elem_of_cons in Hin as [?|?].
  - apply rm_ending_wf, Hw.
  - intros r id l'. rewrite rm_ending_lookup by apply Hw. unfold abs_ending. case_decide; [done|].
    intros Hr. destruct (wok_member w Hw r id l' Hr) as (c0 & Hc0 & <-).
    destruct (Hnew _ _ Hc0) as (c' & ? & ? & ?). by exists c'.
  - intros t Ht. destruct (wok_tasks w Hw t) as [c0 Hc0]; [rewrite Hts; set_solver|].
    destruct (Hnew _ _ Hc0) as (c' & ? & _). eauto.
  - done.
  - intros l' c' (c0 & Hc0 & ->)%Hold. case_decide; [subst; cbn; naive_solver|].
    rewrite (wok_q w Hw l' c0 Hc0), Hmon. set_solver.
  - rewrite (wok_LoginUsers w Hw), (len_Permutation _ _ Hmon), len_cons. apply to_int32_pred.
  - intros l' c' m (c0 & Hc0 & ->)%Hold Hm. apply (wok_queue w Hw l' c0 m Hc0). by case_decide.
  - apply Hw.
  - apply Hw.
Qed.

(** What the return of a monitor means for the manager and for the other monitors. *)
Lemma ending_manager ts1 l ts2 w :
  world_ok w -> w_tasks w = ts1 ++ TMonitor l :: ts2 ->
  let w' := ending l (upd_tasks (fun _ => ts1 ++ ts2) w) in
  (forall id, w_clientM w' !! id <> Some l) /\
  (forall id l', l' <> l -> w_clientM w' !! id = Some l' <-> w_clientM w !! id = Some l') /\
  (forall l', monitor_ready l' w' = monitor_ready l' w).
Proof.
  intros Hw Hts. cbn zeta. pose proof (world_ok_ending ts1 l ts2 w Hts Hw) as Hw'.
  destruct (wok_tasks w Hw (TMonitor l)) as [c Hc]; [rewrite Hts; set_solver|]. cbn in Hc.
  pose proof (wok_NoDup w Hw) as Hnd. rewrite Hts, monitors_split in Hnd. apply NoDup_cons in Hnd as [Hnot _].
  rewrite (ending_eq l c) in * by done. split_and!.
  - intros id Hl. apply (wok_clientM _ Hw') in Hl as [_ Hin]. by apply Hnot.
  - intros id l' Hl'. cbn. case_decide as Hme; [|done]. rewrite lookup_delete_Some.
    split; [tauto|]. intros Hid. split; [congruence|done].
  - intros l'. unfold monitor_ready. cbn. rewrite lookup_alter.
    destruct (decide (l = l')) as [->|]; [rewrite Hc; cbn|destruct (w_clients w !! l') as [c'|]; [|done]];
      rewrite lookup_alter; case_decide as E; try done; [|rewrite <-E]; destruct (w_conns w !! c_msc c); try done;
      cbn; apply set_Stopped.
Qed.

Lemma world_ok_Close l w : world_ok w -> world_ok (Close l w).
Proof.
  intros Hw. unfold Close. case_match; [|done].
  apply world_ok_on_conn; [|done]. intros. apply stop_UserData.
Qed.

Lemma world_ok_heartBeat now l w : world_ok w -> world_ok (heartBeat now l w).
Proof. apply world_ok_on_client. cbn. auto. Qed.

Lemma world_ok_expire now l e w : world_ok w -> world_ok (expire now l e w).
Proof.
  intros Hw. unfold expire. case_match; [|done]. case_match; [|done].
  repeat apply world_ok_on_client; [..|done]; intros c; cbn; case_match; cbn; auto.
Qed.

Lemma world_ok_timer_fire now l w : world_ok w -> world_ok (timer_fire now l w).
Proof.
  intros Hw. unfold timer_fire. case_match; [|done]. case_match; [|done].
  apply world_ok_on_conn; [intros; apply stop_UserData|].
  apply world_ok_on_client; [|done]. cbn. auto.
Qed.

Lemma world_ok_ServerHello l m w :
  is_Some (w_msgs w !! m) -> world_ok w -> world_ok (ServerHello l m w).
Proof.
  intros Hm Hw. destruct l as [l|]; [|done]. apply world_ok_on_client; [|done].
  intros c. cbn. split_and!; try done. intros m' [?|H']%elem_of_app; [auto|].
  apply list_elem_of_singleton in H' as ->. auto.
Qed.

Lemma world_ok_a_pop l w : world_ok w -> world_ok (a_pop l w).2.
Proof.
  intros Hw. unfold a_pop. case_match; [|done]. apply world_ok_on_client; [|done].
  intros c'. cbn. split_and!; try done. intros m. destruct (c_queue c'); cbn; set_solver.
Qed.

Lemma world_ok_a_output l m w : world_ok w -> world_ok (a_output l m w).
Proof.
  intros Hw. unfold a_output. case_match; [|done]. destruct (w_msgs w !! m) as [msg|] eqn:Hm; [|done].
  destruct (tc_Marshal_spec msg) as (msg' & -> & Hok & _); [by eapply wok_cache|].
  apply world_ok_on_conn; [intros; apply output_UserData|]. by apply world_ok_msgs.
Qed.

Lemma world_ok_a_iter l w : world_ok w -> world_ok (a_iter l w).
Proof.
  intros Hw. unfold a_iter. case_match; [|done]. case_match; [done|].
  pose proof (world_ok_a_pop l w Hw) as Hp. destruct (a_pop l w) as [[m|] w']; [|done].
  by apply world_ok_a_output.
Qed.

End Ending.

Section Registration.
Context `{HB : BDMsg, HL : !BDMsgLaws, HN : Net, HG : Gorsa, HZ : Zlib}.

Lemma Close_conn l w s sc :
  w_conns w !! s = Some sc ->
  exists sc', w_conns (Close l w) !! s = Some sc' /\ sc_UserData sc' = sc_UserData sc /\
    (sc_Stopped sc = true -> sc_Stopped sc' = true).
Proof.
  intros Hs. unfold Close. destruct (w_clients w !! l) as [c|]; [|by exists sc].
  cbn. rewrite lookup_alter. case_decide; [subst; rewrite Hs|by exists sc].
  exists (sc_Stop sc). by rewrite stop_UserData, stop_Stopped.
Qed.

Lemma Close_stops l c w sc :
  w_clients w !! l = Some c -> w_conns w !! c_msc c = Some sc ->
  exists sc', w_conns (Close l w) !! c_msc c = Some sc' /\ sc_Stopped sc' = true.
Proof.
  intros Hc Hs. unfold Close. rewrite Hc. cbn. rewrite lookup_alter_eq, Hs.
  exists (sc_Stop sc). by rewrite stop_Stopped.
Qed.

(** [Close] changes connections only. *)
Lemma Close_frame l w : exists f, Close l w = upd_conns f w.
Proof.
  unfold Close. destruct (w_clients w !! l) as [c|]; [by eexists|].
  exists id. by destruct w.
Qed.

(** The part of [clientIn] under the manager's lock, after the older client of
this id was stopped. *)
Definition enrol (now : Z) (register : Register) (msc : loc) (expireTime : Z) (w : World)
    : loc * World :=
  let '(c, w) := createClient now (rg_UserId register) msc w in
  (c, spawn (TExpire c expireTime) (spawn (TMonitor c)
        (upd_clientM <[rg_UserId register := c]>
          (on_client c (set_c_version (rg_ClientToConnectorVersion register)) w)))).

Lemma cm_clientIn_eq config spare now register msc w :
  cm_clientIn config spare now register msc w =
  match refreshToken0 config spare (rg_Token register) with
  | Panic p => (Panic p, w)
  | Stuck => (Stuck, w)
  | Ret (_, Some err0) => (Ret (None, Some err0), w)
  | Ret (claims, None) =>
      let w1 := match w_clientM w !! rg_UserId register with Some c => Close c w | None => w end in
      let '(c, w2) := enrol now register msc (tk_ExpireTime claims) w1 in
      (Ret (Some c, None), w2)
  end.
Proof. reflexivity. Qed.

(** The client [clientIn] makes. *)
Definition new_client (now : Z) (register : Register) (msc : loc) : Client :=
  {| c_ID := rg_UserId register; c_roomId := ""; c_level := 0; c_msc := msc; c_queue := [];
     c_expireTimer := None; c_heartBeatTime := millis now; c_q := false;
     c_version := rg_ClientToConnectorVersion register |}.

Lemma enrol_spec now register msc e w :
  let '(l, w') := enrol now register msc e w in
  l = fresh (dom (w_clients w)) /\
  w_clients w' = <[l := new_client now register msc]> (w_clients w) /\
  w_conns w' = alter (sc_SetUserData (UD_Client l)) msc (w_conns w) /\
  w_clientM w' = <[rg_UserId register := l]> (w_clientM w) /\
  w_tasks w' = w_tasks w ++ [TOutput l; TMonitor l; TExpire l e] /\
  w_info w' = set_ni_LoginUsers (fun n => to_int32 (n + 1)) (w_info w) /\
  w_msgs w' = w_msgs w /\ w_rooms w' = w_rooms w /\ w_mqg w' = w_mqg w.
Proof.
  cbn. split_and!; try done.
  - by rewrite alter_insert_eq.
  - by rewrite <-!app_assoc.
Qed.

Lemma world_ok_enrol now register msc e w sc :
  w_conns w !! msc = Some sc -> sc_UserData sc = UD_SClient msc ->
  world_ok w -> world_ok (enrol now register msc e w).2.
Proof.
  intros Hsc Hud Hw. pose proof (enrol_spec now register msc e w) as Hspec.
  destruct (enrol now register msc e w) as [l w']. cbn.
  destruct Hspec as (Hl & Ecl & Eco & EM & Ets & Einfo & Emsgs & Erooms & Emqg).
  assert (w_clients w !! l = None) as Hfresh by (rewrite Hl; apply not_elem_of_dom, is_fresh).
  destruct (wok_SClient w Hw msc sc msc Hsc Hud) as [_ Hmsc].
  assert (monitors (w_tasks w') = monitors (w_tasks w) ++ [l]) as Emon.
  { rewrite Ets. unfold monitors. by rewrite omap_app. }
  assert (l ∉ monitors (w_tasks w)) as Hlnot.
  { intros (t & Ht & Htl)%list_elem_of_omap. destruct t; simplify_eq/=.
    destruct (wok_tasks w Hw _ Ht) as [? ?]. cbn in *. congruence. }
  assert (forall l' c', w_clients w' !! l' = Some c' ->
    l' = l /\ c' = new_client now register msc \/ l' <> l /\ w_clients w !! l' = Some c') as Hold.
  { intros l' c'. rewrite Ecl, lookup_insert. case_decide; naive_solver. }
  assert (forall l' c', w_clients w !! l' = Some c' -> l' <> l /\ w_clients w' !! l' = Some c') as Hnew.
  { intros l' c' Hc'. assert (l' <> l) by congruence. by rewrite Ecl, lookup_insert_ne. }
  assert (forall id l', is_client w id l' -> is_client w' id l') as Hcl.
  { intros id l'. apply is_client_fields. intros l'' c Hc. exists c. by destruct (Hnew _ _ Hc). }
  assert (w_clients w' !! l = Some (new_client now register msc)) as Hl' by
    (rewrite Ecl; apply lookup_insert_eq).
  constructor.
  - intros l' c' [[-> ->]|[_ Hc']]%Hold; rewrite Eco, lookup_alter_is_Some; [by exists sc|by eapply wok_conn].
  - intros l1 l2 c1 c2 [[-> ->]|[_ Hc1]]%Hold [[-> ->]|[_ Hc2]]%Hold; [done|..|by eapply wok_inj];
      intros Heq; exfalso; [by eapply (Hmsc l2 c2)|by eapply (Hmsc l1 c1)].
  - intros s s' l2 Hs Hd. rewrite Eco, lookup_alter in Hs. case_decide.
    { apply fmap_Some in Hs as (? & _ & ->). by rewrite set_UserData in Hd. }
    destruct (wok_SClient w Hw s s' l2 Hs Hd) as [-> Hn]. split; [done|].
    intros l3 c3 [[-> ->]|[_ Hc3]]%Hold; [done|]. by eapply Hn.
  - intros s s' l2 Hs Hd. rewrite Eco, lookup_alter in Hs. case_decide.
    { apply fmap_Some in Hs as (? & _ & ->). rewrite set_UserData in Hd. simplify_eq. eauto. }
    destruct (wok_Client w Hw s s' l2 Hs Hd) as (c & Hc & <-). exists c. by destruct (Hnew _ _ Hc).
  - intros id l2. rewrite EM, lookup_insert, Emon. case_decide.
    { intros [= <-]. subst id. split; [by exists (new_client now register msc)|set_solver]. }
    intros Hid. destruct (wok_clientM w Hw id l2 Hid). split; [auto|set_solver].
  - rewrite Erooms. apply Hw.
  - intros r id l2. rewrite Erooms. intros Hr. eapply Hcl, wok_member; eauto.
  - intros t. rewrite Ets. intros [Ht|Ht]%elem_of_app.
    + destruct (wok_tasks w Hw t Ht) as [c Hc]. destruct (Hnew _ _ Hc). eauto.
    + assert (task_client t = l) as ->; [|eauto]. set_solver.
  - rewrite Emon. apply NoDup_app. split_and!; [apply Hw| |apply NoDup_singleton]. set_solver.
  - intros l2 c2 [[-> ->]|[Hne Hc2]]%Hold; rewrite Emon.
    + set_solver.
    + rewrite (wok_q w Hw l2 c2 Hc2). set_solver.
  - rewrite Einfo, Emon, len_app. cbn. rewrite (wok_LoginUsers w Hw).
    unfold to_int32. rewrite wrap_s_add_l by lia. done.
  - intros l2 c2 m [[-> ->]|[_ Hc2]]%Hold; rewrite Emsgs; [set_solver|]. by eapply wok_queue.
  - rewrite Emsgs. apply Hw.
  - rewrite Emqg. apply Hw.
Qed.

Lemma world_ok_clientIn config spare now register msc w sc :
  w_conns w !! msc = Some sc -> sc_UserData sc = UD_SClient msc ->
  world_ok w -> world_ok (cm_clientIn config spare now register msc w).2.
Proof.
  intros Hsc Hud Hw. rewrite cm_clientIn_eq.
  destruct (refreshToken0 _ _ _) as [[claims [err|]]|p|]; try done. cbn zeta.
  set (w1 := match w_clientM w !! rg_UserId register with Some c => Close c w | None => w end).
  assert (world_ok w1) as Hw1 by (unfold w1; case_match; auto using world_ok_Close).
  assert (exists sc', w_conns w1 !! msc = Some sc' /\ sc_UserData sc' = UD_SClient msc) as (sc' & Hsc' & Hud').
  { unfold w1. case_match; [|eauto]. destruct (Close_conn l w msc sc Hsc) as (sc' & ? & ? & _).
    exists sc'. split; [done|congruence]. }
  pose proof (world_ok_enrol now register msc (tk_ExpireTime claims) w1 sc' Hsc' Hud' Hw1) as He.
  by destruct (enrol _ _ _ _ _).
Qed.

Lemma world_ok_refreshToken config spare l token w :
  is_Some (w_clients w !! l) -> world_ok w -> world_ok (refreshToken config spare l token w).2.
Proof.
  intros Hl Hw. unfold refreshToken. destruct (refreshToken0 _ _ _) as [[claims [err|]]|p|]; try done.
  by apply world_ok_spawn.
Qed.

Lemma world_ok_init e : world_ok (w_init e).
Proof.
  constructor; cbn; try (intros *; rewrite lookup_empty); try done.
  - apply rm_wf_init.
  - set_solver.
  - constructor.
Qed.

(** A connection the server accepts starts as its own user data. *)
Lemma world_ok_connect s sc w :
  w_conns w !! s = None -> sc_UserData sc = UD_SClient s -> world_ok w ->
  world_ok (upd_conns <[s := sc]> w).
Proof.
  intros Hs Hud Hw.
  assert (forall l c, w_clients w !! l = Some c -> c_msc c <> s) as Hn.
  { intros l c Hc <-. destruct (wok_conn w Hw l c Hc). congruence. }
  constructor; cbn; try apply Hw.
  - intros l c Hc. rewrite lookup_insert_ne by (symmetry; eauto). by eapply wok_conn.
  - intros s' sc' l. rewrite lookup_insert. case_decide; [|by eapply wok_SClient].
    subst s'. intros [= <-]. rewrite Hud. intros [= <-]. eauto.
  - intros s' sc' l. rewrite lookup_insert. case_decide; [|by eapply wok_Client].
    intros [= <-]. rewrite Hud. done.
Qed.

(** A client armed by [expire] has a timer for the computed deadline. *)
Lemma expire_spec now l e w c :
  w_clients w !! l = Some c -> 0 < e - Z.quot (unix now) 1000000 < 2 ^ 63 -> 0 < e ->
  w_clients (expire now l e w) !! l =
    Some (set_c_expireTimer (Some {| tm_deadline := Some (timer_when now
      (to_int64 ((e - Z.quot (unix now) 1000000) * 1000000))) |}) c).
Proof.
  intros Hc Hd He. unfold expire.
  assert (to_int64 (e - Z.quot (unix now) 1000000) = e - Z.quot (unix now) 1000000) as ->
    by (apply wrap_s_id; lia).
  rewrite (proj2 (Z.ltb_lt _ _) He), (proj2 (Z.ltb_lt _ _) (proj1 Hd)).
  cbn. rewrite !lookup_alter_eq, Hc. destruct c as [? ? ? ? ? [?|] ? ? ?]; reflexivity.
Qed.

End Registration.
#[export] Hint Resolve world_ok_init world_ok_Close world_ok_heartBeat world_ok_expire
  world_ok_timer_fire world_ok_a_iter world_ok_mqg world_ok_counters world_ok_rpc : go.

Section Closing.
Context `{HB : BDMsg, HL : !BDMsgLaws, HN : Net, HZ : Zlib}.

(** Closing those clients of a list of ids that satisfy a condition. *)
Definition close_if (P : Client -> bool) (order : list string) (w : World) : World :=
  foldl (fun w id => match cm_Client id w with
                     | Some l => match w_clients w !! l with
                                 | Some c => if P c then Close l w else w
                                 | None => w
                                 end
                     | None => w
                     end) w order.

Lemma close_if_cons P id order w :
  close_if P (id :: order) w =
  close_if P order (match w_clientM w !! id with
                    | Some l => match w_clients w !! l with
                                | Some c => if P c then Close l w else w
                                | None => w
                                end
                    | None => w
                    end).
Proof. reflexivity. Qed.

Lemma CloseAll_close_if order w : CloseAll order w = close_if (fun _ => true) order w.
Proof.
  revert w. induction order as [|id order IH]; intros w; [done|]. cbn.
  unfold CloseAll in IH. rewrite IH. unfold close_if. f_equal.
  destruct (cm_Client id w); [|done]. unfold Close. by case_match.
Qed.

Lemma close_if_ok P order w : world_ok w -> world_ok (close_if P order w).
Proof.
  revert w. induction order as [|id order IH]; intros w Hw; [done|]. cbn. apply IH.
  repeat case_match; auto with go.
Qed.

(** The effect: only connections change, those of the chosen clients. *)
Definition stop_if (b : bool) (sc : SClient) : SClient := if b then sc_Stop sc else sc.

Lemma close_one_spec (P : Client -> bool) l c w :
  w_clients w !! l = Some c ->
  (if P c then Close l w else w) = upd_conns (alter (stop_if (P c)) (c_msc c)) w.
Proof.
  intros Hc. unfold Close. rewrite Hc. destruct (P c); [done|].
  unfold upd_conns. rewrite alter_id by done. by destruct w.
Qed.

Lemma close_if_spec P order w :
  NoDup order -> world_ok w ->
  exists conns, close_if P order w = upd_conns (fun _ => conns) w /\
    (forall id l c, id ∈ order -> w_clientM w !! id = Some l -> w_clients w !! l = Some c ->
       conns !! c_msc c = stop_if (P c) <$> w_conns w !! c_msc c) /\
    (forall s, (forall id l c, id ∈ order -> w_clientM w !! id = Some l -> w_clients w !! l = Some c ->
       c_msc c <> s) -> conns !! s = w_conns w !! s).
Proof.
  intros Hnd. revert w. induction Hnd as [|id order Hid Hnd IH]; intros w Hw.
  { exists (w_conns w). split; [by destruct w|]. split; [set_solver|done]. }
  rewrite close_if_cons. destruct (w_clientM w !! id) as [l|] eqn:Hl.
  2:{ destruct (IH w Hw) as (conns & -> & H1 & H2). exists conns. split; [done|]. split.
      - intros id' l' c' [->|Hin]%elem_of_cons; [congruence|]. by apply H1.
      - intros s Hs. apply H2. intros id' l' c' Hin. apply Hs. set_solver. }
  destruct (wok_clientM w Hw id l Hl) as [(c & Hc & Eid) _]. rewrite Hc.
  rewrite (close_one_spec P l c) by done.
  destruct (IH (upd_conns (alter (stop_if (P c)) (c_msc c)) w)) as (conns & Hclose & H1 & H2).
  { apply world_ok_on_conn; [|done]. intros sc. unfold stop_if. destruct (P c); [apply stop_UserData|done]. }
  exists conns. split; [exact Hclose|]. cbn in H1, H2. split.
  - intros id' l' c' [->|Hin]%elem_of_cons Hl' Hc'.
    + assert (l' = l) as -> by congruence. assert (c' = c) as -> by congruence.
      rewrite H2; [by rewrite lookup_alter_eq|].
      intros id2 l2 c2 Hin2 Hl2 Hc2 Heq. apply Hid.
      pose proof (wok_inj w Hw l2 l c2 c Hc2 Hc Heq) as ->.
      destruct (wok_clientM w Hw id2 l Hl2) as [(c3 & Hc3 & <-) _]. congruence.
    + rewrite (H1 id' l' c' Hin Hl' Hc'). rewrite lookup_alter_ne; [done|].
      intros Heq. apply Hid. pose proof (wok_inj w Hw l l' c c' Hc Hc' Heq) as ->.
      destruct (wok_clientM w Hw id' l' Hl') as [(c3 & Hc3 & <-) _]. congruence.
  - intros s Hs. rewrite H2 by (intros *; intros; apply (Hs id0 l0 c0); set_solver).
    rewrite lookup_alter_ne; [done|]. intros Heq. apply (Hs id l c); set_solver.
Qed.

End Closing.

Lemma CloseAll_tasks `{BDMsg, Net} order w : w_tasks (CloseAll order w) = w_tasks w.
Proof.
  unfold CloseAll. revert w. induction order as [|id order IH]; intros w; [done|]. cbn. rewrite IH.
  destruct (cm_Client id w) as [l|]; [|done]. by destruct (Close_frame l w) as [f ->].
Qed.

Lemma CloseAll_spec `{HB : BDMsg, HL : !BDMsgLaws, HN : Net, HZ : Zlib} order w :
  world_ok w -> iterates (w_clientM w) order ->
  let w' := CloseAll order w in
  world_ok w' /\ w_clientM w' = w_clientM w /\
  forall id l c, cm_Client id w' = Some l -> w_clients w' !! l = Some c ->
    exists sc, w_conns w' !! c_msc c = Some sc /\ sc_Stopped sc = true.
Proof.
  intros Hw Ho. cbn zeta. rewrite CloseAll_close_if. split; [by apply close_if_ok|].
  destruct (close_if_spec (fun _ => true) order w) as (conns & E & H1 & _);
    [by eapply iterates_NoDup|done|].
  rewrite E. cbn. split; [done|]. intros id l c Hl Hc.
  rewrite (H1 id l c); [|by apply (iterates_elem _ _ _ Ho); eauto|done..].
  destruct (wok_conn w Hw l c Hc) as [sc ->]. cbn. eexists. split; [done|]. apply stop_Stopped.
Qed.

(** * Properties *)

(** C13: registering. When the token is accepted, [clientIn] makes one new
client for the connection: the user id leads to it, every other id leads
where it did; a client that held the id before has had its connection
stopped; the new client is the user data of its connection and is counted. *)
Theorem clientIn_replaces `{BDMsgLaws, Net, Gorsa, Zlib} config spare now register msc w sc claims :
  world_ok w ->
  w_conns w !! msc = Some sc -> sc_UserData sc = UD_SClient msc ->
  refreshToken0 config spare (rg_Token register) = Ret (claims, None) ->
  exists l w', cm_clientIn config spare now register msc w = (Ret (Some l, None), w') /\
    world_ok w' /\ w_clients w !! l = None /\
    w_clients w' = <[l := new_client now register msc]> (w_clients w) /\
    (forall id, cm_Client id w' =
       if decide (id = rg_UserId register) then Some l else cm_Client id w) /\
    (exists sc', w_conns w' !! msc = Some sc' /\ sc_UserData sc' = UD_Client l) /\
    (forall old c, cm_Client (rg_UserId register) w = Some old -> w_clients w !! old = Some c ->
       exists sc', w_conns w' !! c_msc c = Some sc' /\ sc_Stopped sc' = true) /\
    ni_LoginUsers (w_info w') = to_int32 (ni_LoginUsers (w_info w) + 1).
Proof.
  intros Hw Hsc Hud Htok.
  pose proof (world_ok_clientIn config spare now register msc w sc Hsc Hud Hw) as Hw'.
  rewrite cm_clientIn_eq, Htok in *. cbn zeta in *.
  set (w1 := match w_clientM w !! rg_UserId register with Some c => Close c w | None => w end) in *.
  assert (exists f, w1 = upd_conns f w) as [f Ef].
  { unfold w1. destruct (w_clientM w !! rg_UserId register) as [l0|]; [apply Close_frame|].
    exists (fun m => m). by destruct w. }
  pose proof (enrol_spec now register msc (tk_ExpireTime claims) w1) as Hspec.
  destruct (enrol _ _ _ _ _) as [l w2]. rewrite Ef in Hspec. cbn in *.
  destruct Hspec as (Hl & Ecl & Eco & EM & _ & Einfo & _).
  exists l, w2. split_and!; try done.
  - rewrite Hl. apply not_elem_of_dom, is_fresh.
  - intros id. unfold cm_Client. rewrite EM, lookup_insert. by repeat case_decide.
  - assert (is_Some (w_conns w1 !! msc)) as [sc1 Hsc1].
    { unfold w1. destruct (w_clientM w !! rg_UserId register) as [l0|]; [|by eexists].
      by destruct (Close_conn l0 w msc sc Hsc) as (? & ? & _). }
    rewrite Eco. rewrite Ef in Hsc1. cbn in Hsc1. rewrite lookup_alter_eq, Hsc1.
    eexists. split; [done|]. apply set_UserData.
  - unfold cm_Client. intros old c Hold Hc. destruct (wok_conn w Hw old c Hc) as [so Hso].
    destruct (Close_stops old c w so Hc Hso) as (so' & Hso' & Hst).
    assert (w_conns w1 !! c_msc c = Some so') as Hw1 by (unfold w1; by rewrite Hold).
    rewrite Ef in Hw1. cbn in Hw1. rewrite Eco, lookup_alter. case_decide as E; [rewrite E, Hw1|eauto].
    eexists. split; [done|]. by rewrite set_Stopped.
  - by rewrite Einfo.
Qed.

(** C14: ending spares the others. When the monitor of a client returns, the
client is in the manager no more and not in its last room; every entry of
another client stays, also that of a newer client that took the same user id
over; its connection forgets it, its timer is off, and one user less is counted. *)
Theorem ending_spares_others `{BDMsgLaws, Net, Zlib} ts1 l ts2 w c :
  world_ok w -> w_tasks w = ts1 ++ TMonitor l :: ts2 -> w_clients w !! l = Some c ->
  let w' := ending l (upd_tasks (fun _ => ts1 ++ ts2) w) in
  world_ok w' /\
  (forall id, cm_Client id w' <> Some l) /\
  (forall id l', l' <> l -> cm_Client id w' = Some l' <-> cm_Client id w = Some l') /\
  rm_lookup (w_rooms w') (c_roomId c) (c_ID c) <> Some l /\
  (forall r id l', l' <> l ->
     rm_lookup (w_rooms w') r id = Some l' <-> rm_lookup (w_rooms w) r id = Some l') /\
  (exists sc, w_conns w' !! c_msc c = Some sc /\ sc_UserData sc = UD_nil) /\
  (exists c', w_clients w' !! l = Some c' /\ c_q c' = true /\ forall t, timer_due t c' = false) /\
  ni_LoginUsers (w_info w') = to_int32 (ni_LoginUsers (w_info w) - 1).
Proof.
  intros Hw Hts Hc w'. assert (world_ok w') as Hw' by by apply world_ok_ending.
  pose proof (wok_NoDup w Hw) as Hnd. rewrite Hts, monitors_split in Hnd.
  apply NoDup_cons in Hnd as [Hnot _]. unfold w' in *. clear w'. rewrite (ending_eq l c) in * by done.
  split; [done|]. unfold cm_Client.
  assert (forall id, w_clientM w !! id = Some l -> id = c_ID c) as Hid.
  { intros id Hid. destruct (wok_clientM w Hw id l Hid) as [(c' & Hc' & <-) _]. congruence. }
  split_and!.
  - intros id Hl. apply (wok_clientM _ Hw') in Hl as [_ Hin]. by apply Hnot.
  - intros id l' Hl'. cbn. case_decide; [|done]. rewrite lookup_delete_Some. naive_solver congruence.
  - cbn. rewrite rm_ending_lookup by apply Hw. unfold abs_ending. case_decide; naive_solver.
  - intros r id l' Hl'. cbn. rewrite rm_ending_lookup by apply Hw. unfold abs_ending.
    case_decide; naive_solver congruence.
  - cbn. destruct (wok_conn w Hw l c Hc) as [sc Hsc]. rewrite lookup_alter_eq, Hsc.
    eexists. split; [done|]. apply set_UserData.
  - cbn. rewrite lookup_alter_eq, Hc. eexists. split; [done|]. split; [done|].
    intros t. unfold timer_due. cbn. by destruct (c_expireTimer c).
  - done.
Qed.

Definition thirty_years : Z := 30 * 365 * 24 * 3600 * 1000000000.

(** C40: tokens carry milliseconds, [expire] subtracts seconds divided by 10^6.
For a token of this age (expiry after 2001 and before 2160) used before 2220,
the timer is armed for more than thirty years from now, also when the token
has long expired: until then it does nothing. *)
Theorem session_outlives_token `{BDMsg, Net} now l e w c now' :
  w_clients w !! l = Some c ->
  0 <= now <= 8 * 10 ^ 18 -> 10 ^ 12 <= e <= 6 * 10 ^ 12 ->
  now <= now' <= now + thirty_years ->
  timer_fire now' l (expire now l e w) = expire now l e w /\
  exists c' d, w_clients (expire now l e w) !! l = Some c' /\
    c_expireTimer c' = Some {| tm_deadline := Some d |} /\ now + thirty_years < d.
Proof.
  intros Hc Hnow He Hnow'. unfold thirty_years in *.
  assert (0 <= Z.quot (unix now) 1000000 <= 10000) as Hq.
  { unfold unix. rewrite Z.quot_div_nonneg by (try apply Z.div_pos; lia).
    Z.div_mod_to_equations. lia. }
  assert (w_clients (expire now l e w) !! l = Some _) as Hexp by (apply expire_spec; [done|lia..]).
  unfold to_int64 in Hexp. rewrite wrap_s_id in Hexp by lia. unfold timer_when in Hexp.
  split; [|eexists _, _; split; [exact Hexp|split; [reflexivity|lia]]].
  unfold timer_fire. rewrite Hexp. unfold timer_due. cbn [c_expireTimer set_c_expireTimer].
  rewrite (proj2 (Z.leb_gt _ _)) by lia. done.
Qed.

(** A session can also end at once: for an expiry far enough away (in
microseconds or nanoseconds, say) the duration wraps below zero and the
timer is due immediately. *)
Theorem expire_wraps_to_now `{BDMsg, Net} now l e w c :
  w_clients w !! l = Some c ->
  0 <= now < 2 ^ 63 -> 9223372036855 + 10000 <= e <= 18446744073709 ->
  exists c', w_clients (expire now l e w) !! l = Some c' /\ timer_due now c' = true.
Proof.
  intros Hc Hnow He.
  assert (0 <= Z.quot (unix now) 1000000 <= 10000) as Hq.
  { unfold unix. rewrite Z.quot_div_nonneg by (try apply Z.div_pos; lia).
    Z.div_mod_to_equations. lia. }
  eexists. split; [apply expire_spec; [done|lia..]|].
  unfold timer_due. cbn [c_expireTimer set_c_expireTimer].
  assert (to_int64 ((e - Z.quot (unix now) 1000000) * 1000000) <= 0) as Hneg.
  { unfold to_int64, wrap_s. Z.div_mod_to_equations. lia. }
  unfold timer_when. lia.
Qed.

(** [CloseAll] leaves no registered client with a running connection. *)
Theorem CloseAll_stops_all `{HB : BDMsg, HL : !BDMsgLaws, HN : Net, HZ : Zlib} order w :
  world_ok w -> iterates (w_clientM w) order ->
  let w' := CloseAll order w in
  world_ok w' /\ w_clientM w' = w_clientM w /\
  forall id l c, cm_Client id w' = Some l -> w_clients w' !! l = Some c ->
    exists sc, w_conns w' !! c_msc c = Some sc /\ sc_Stopped sc = true.
Proof. apply CloseAll_spec. Qed.

(** * Witnesses *)

Section Witnesses.
#[local] Existing Instances test_bdmsg test_bdmsg_laws test_net test_zlib toy_rsa.

Definition w_empty : World := w_init (test_env ∅).
Definition w_accept (s : loc) (w : @World test_bdmsg test_net) : World :=
  upd_conns <[s := Build_test_conn false false (UD_SClient s) []]> w.
Definition ann : Register := Build_Register "ann" "" 100.
Definition open_config : ConfigT :=
  Build_ConfigT "p" (cf_ServiceS sample_config) (cf_Manager sample_config) (cf_Mq sample_config)
    (cf_Redis sample_config) (cf_RedisPubSub sample_config) [] "" false.
Definition w_ann1 : World := (cm_clientIn open_config [] 0 ann 1%positive (w_accept 1%positive w_empty)).2.
Definition w_ann2 : World := (cm_clientIn open_config [] 0 ann 2%positive (w_accept 2%positive w_ann1)).2.

Lemma w_ann1_ok : world_ok (w_accept 2%positive w_ann1).
Proof.
  apply world_ok_connect; [done..|].
  by eapply world_ok_clientIn; [..|apply world_ok_connect; [done..|apply world_ok_init]].
Qed.

Lemma w_ann2_ok : world_ok w_ann2.
Proof. eapply world_ok_clientIn; [reflexivity|reflexivity|apply w_ann1_ok]. Qed.

End Witnesses.

(** The second connection of the same user: the first one is stopped. *)
Lemma clientIn_replaces_witness :
  exists l w', @cm_clientIn test_bdmsg test_net toy_rsa open_config [] 0 ann 2%positive
      (w_accept 2%positive w_ann1) = (Ret (Some l, None), w') /\
    cm_Client "ann" w' = Some l /\ cm_Client "ann" w_ann1 <> Some l.
Proof.
  destruct (@clientIn_replaces test_bdmsg test_bdmsg_laws test_net toy_rsa test_zlib open_config [] 0 ann
    2%positive (w_accept 2%positive w_ann1) (Build_test_conn false false (UD_SClient 2%positive) [])
    (Build_Token "" "" "" 0 (-1)) w_ann1_ok eq_refl eq_refl eq_refl)
    as (l & w' & H1 & _ & H2 & _ & H3 & _).
  exists l, w'. split; [exact H1|]. split; [rewrite H3; reflexivity|].
  intros Hl. change (Some 1%positive = Some l) in Hl. injection Hl as <-. discriminate H2.
Defined.

(** The monitor of the first client returns after the second one registered. *)
Lemma ending_spares_others_witness :
  let ts1 := [TOutput 1%positive] in
  let ts2 := [TExpire 1%positive (-1); TOutput 2%positive; TMonitor 2%positive; TExpire 2%positive (-1)] in
  cm_Client "ann" (ending 1%positive (upd_tasks (fun _ => ts1 ++ ts2) w_ann2)) = Some 2%positive.
Proof.
  intros ts1 ts2.
  destruct (@ending_spares_others test_bdmsg test_bdmsg_laws test_net test_zlib ts1 1%positive ts2 w_ann2
    (new_client 0 ann 1%positive) w_ann2_ok eq_refl eq_refl) as (_ & _ & H & _).
  apply (H "ann" 2%positive); done.
Defined.

(** A token that expired in 2017, used in 2020. *)
Lemma session_outlives_token_witness :
  let now := 1580000000 * 10 ^ 9 in
  @timer_fire test_bdmsg test_net (now + thirty_years) 2%positive
      (expire now 2%positive 1500000000000 w_ann2) = expire now 2%positive 1500000000000 w_ann2.
Proof.
  intros now.
  apply (@session_outlives_token test_bdmsg test_net now 2%positive 1500000000000 w_ann2
    (new_client 0 ann 2%positive) (now + thirty_years)); [reflexivity|unfold now, thirty_years; lia..].
Defined.

(** 2286 in milliseconds, and a little more than the duration can hold. *)
Lemma expire_wraps_to_now_witness :
  exists c', w_clients (@expire test_bdmsg test_net 0 2%positive 9999999999999 w_ann2) !! 2%positive = Some c' /\
    timer_due 0 c' = true.
Proof.
  apply (@expire_wraps_to_now test_bdmsg test_net 0 2%positive 9999999999999 w_ann2
    (new_client 0 ann 2%positive)); [reflexivity|lia..].
Defined.

Lemma CloseAll_stops_all_witness :
  exists sc, w_conns (CloseAll ["ann"] w_ann2) !! 2%positive = Some sc /\ tst_stopped sc = true.
Proof.
  destruct (@CloseAll_stops_all test_bdmsg test_bdmsg_laws test_net test_zlib ["ann"] w_ann2 w_ann2_ok)
    as (_ & _ & H); [exact (Permutation_refl ["ann"])|].
  apply (H "ann" 2%positive (new_client 0 ann 2%positive) eq_refl eq_refl).
Defined.
