(* ===== verification/Utils.v ===== *)
(** Small helpers: common/utility/time.go, connectsvc/utils.go, and the accessor
and the conversion of connectsvc/client.go that nothing calls at present. *)

From Stdlib Require Import Floats.SpecFloat.
From S2P Require Import Prelude GoText Json GoTime Protocol Room ToCompute Config Token Rpc State Client.
Local Open Scope Z_scope.

(** * Times *)

(** [NowInMS] at [now] nanoseconds since 1970. *)
Definition NowInMS (now : Z) : Z :=
  to_int64 (to_int64 (unix now * 1000) + Z.quot (now mod 1000000000) 1000000).

(** [time.Unix(sec, nsec)], as seconds and nanoseconds within the second. *)
Definition time_Unix (sec nsec : Z) : Z * Z :=
  if (nsec <? 0) || (1000000000 <=? nsec) then
    let n := Z.quot nsec 1000000000 in
    let sec := to_int64 (sec + n) in
    let nsec := nsec - n * 1000000000 in
    if nsec <? 0 then (to_int64 (sec - 1), nsec + 1000000000) else (sec, nsec)
  else (sec, nsec).

(** [timeFormat]; [Format] is [Time.Format] in the local zone. *)
Definition timeFormat (Format : Z * Z -> string -> string) (millis : Z) (format : string) : string :=
  let goTime := time_Unix (Z.quot millis 1000) (to_int64 (Z.rem millis 1000 * 1000000)) in
  Format goTime format.

(** * Clients *)

Definition MSC (c : Client) : loc := c_msc c.

(** What the parameter of [intValue] can hold: a float64, a number of
encoding/json, anything else with its text. *)
Inductive interface :=
  | IFloat (x : spec_float)
  | INumber (lit : string)
  | IOther (text : string).

(** [int64(x)] where the result is not in range, as amd64 answers. *)
Definition float_int64 (x : spec_float) : Z :=
  match x with
  | S754_zero _ => 0
  | S754_finite _ _ _ =>
      let z := f_trunc x in if (- 2 ^ 63 <=? z) && (z <? 2 ^ 63) then z else - 2 ^ 63
  | _ => - 2 ^ 63
  end.

(** [json.Number.Int64], i.e. [strconv.ParseInt(lit, 10, 64)]. *)
Definition number_Int64 (lit : string) : Z * option error :=
  let digits := match expect 43 lit with Some s => s | None => lit end in
  match parse_int digits with
  | None => (0, Some (EText (String.append "invalid syntax: " lit)))
  | Some z =>
      if z <? - 2 ^ 63 then (- 2 ^ 63, Some (EText (String.append "value out of range: " lit)))
      else if 2 ^ 63 <=? z then (2 ^ 63 - 1, Some (EText (String.append "value out of range: " lit)))
      else (z, None)
  end.

Definition intValue (o : interface) : Z * option error :=
  match o with
  | IFloat x => (float_int64 x, None)
  | INumber lit => number_Int64 lit
  | IOther text => (0, Some (EText (String.append "cannot convert " (String.append text " to int64"))))
  end.

(** * Properties *)

(** The two ways the program has to tell the milliseconds since 1970, from seconds
and a rest and from nanoseconds, agree at every time from then until the
nanoseconds leave 64 bits. *)
Theorem NowInMS_millis now : 0 <= now < 2 ^ 63 -> NowInMS now = millis now.
Proof.
  intros Hn. unfold NowInMS, millis, unix.
  assert (0 <= now / 1000000000 * 1000 < 2 ^ 62) by (Z.div_mod_to_equations; lia).
  pose proof (Z.mod_pos_bound now 1000000000 ltac:(lia)).
  rewrite (to_int64_id (_ / _ * _)) by lia.
  rewrite !Z.quot_div_nonneg by lia.
  assert (0 <= now mod 1000000000 / 1000000 < 1000) by (split; [apply Z.div_pos; lia|apply Z.div_lt_upper_bound; lia]).
  rewrite to_int64_id by lia. Z.div_mod_to_equations. lia.
Qed.

(** The instant that is formatted is the one asked for, to the millisecond, also
before 1970: nothing overflows and the nanoseconds are within their second. *)
Theorem timeFormat_instant Format millis format :
  - 2 ^ 63 <= millis < 2 ^ 63 ->
  exists sec nsec, timeFormat Format millis format = Format (sec, nsec) format /\
    0 <= nsec < 1000000000 /\ sec * 1000000000 + nsec = millis * 1000000.
Proof.
  intros Hm. unfold timeFormat.
  pose proof (Z.quot_rem' millis 1000) as E. pose proof (Z.rem_bound_abs millis 1000 ltac:(lia)) as Hb.
  set (s := Z.quot millis 1000) in *. set (r := Z.rem millis 1000) in *.
  assert (to_int64 (r * 1000000) = r * 1000000) as -> by (apply wrap_s_id; lia).
  unfold time_Unix. destruct (_ || _) eqn:C.
  - assert (Z.quot (r * 1000000) 1000000000 = 0) as ->.
    { destruct (Z.leb_spec 0 r).
      - apply Z.quot_small. lia.
      - replace (r * 1000000) with (- (- r * 1000000)) by lia. rewrite Z.quot_opp_l, Z.quot_small by lia. lia. }
    rewrite Z.mul_0_l, Z.sub_0_r, Z.add_0_r. assert (to_int64 s = s) as -> by (apply wrap_s_id; lia).
    replace (r * 1000000 <? 0) with true by lia.
    assert (to_int64 (s - 1) = s - 1) as -> by (apply wrap_s_id; lia).
    eexists _, _. split; [done|]. lia.
  - eexists _, _. split; [done|]. lia.
Qed.

(** A number that was printed is converted to itself, and a double that stands for a
positive integer of at most 53 bits to that integer. *)
Theorem intValue_exact z x :
  (- 2 ^ 63 <= z < 2 ^ 63 -> intValue (INumber (format_int z)) = (z, None)) /\
  (0 < z < 2 ^ 53 -> f_is x z -> intValue (IFloat x) = (z, None)).
Proof.
  split.
  - intros Hz. unfold intValue, number_Int64. destruct (format_int_head z) as (c & s & E & Hc).
    assert (expect 43 (format_int z) = None) as ->.
    { rewrite E. cbn. unfold is_digit, in_range, char_is in *. rewrite (proj2 (Z.eqb_neq _ _)); [done|lia]. }
    rewrite parse_format_int. replace (z <? - 2 ^ 63) with false by lia. by replace (2 ^ 63 <=? z) with false by lia.
  - intros Hz Hx. pose proof (f_trunc_is x z Hx) as Ht. destruct Hx as (m & e & -> & _). cbn [intValue float_int64].
    rewrite Ht. by replace ((- 2 ^ 63 <=? z) && (z <? 2 ^ 63)) with true by lia.
Qed.

(** * Witnesses *)

Lemma NowInMS_millis_witness : NowInMS 1500000000123456789 = 1500000000123.
Proof. rewrite (NowInMS_millis 1500000000123456789) by lia. reflexivity. Defined.

Lemma timeFormat_instant_witness :
  exists sec nsec, timeFormat (fun t _ => format_int (fst t)) (-1) "15:04:05" = format_int sec /\
    sec * 1000000000 + nsec = -1000000.
Proof.
  destruct (timeFormat_instant (fun t _ => format_int (fst t)) (-1) "15:04:05" ltac:(lia)) as (sec & nsec & H1 & _ & H2).
  exists sec, nsec. split; [exact H1|exact H2].
Defined.
