(* ===== verification/Pump.v ===== *)
(** The goroutine that writes a client's queue to its connection
(connectsvc/client.go, [Client.a]) against the goroutines that fill the queue
([ServerHello]) and the one that ends the client ([ending]). The goroutine
takes its lock twice in an iteration: to take the front of the queue, and,
when there was none, to wait for the condition. Between the two the lock is
free. *)

From S2P Require Import Prelude.

(** * The program *)

(** Where the goroutine is: at the test of [c.q], before the section that takes
the front of the queue, before [m.Marshal] and [Output] of a message, before
the section that waits, inside [c.condition.Wait()], returned. *)
Inductive pc :=
  | PCheck
  | PPop
  | POutput (m : loc)
  | PWait
  | PWaiting
  | PDone.

(** [pp_sent] is what was given to [ServerHello] so far, in order; no
transition depends on it. *)
Record pump := {
  pp_queue : list loc;
  pp_q : bool;
  pp_pc : pc;
  pp_out : list loc;
  pp_sent : list loc;
}.

Definition pump_init : pump :=
  {| pp_queue := []; pp_q := false; pp_pc := PCheck; pp_out := []; pp_sent := [] |}.

Definition set_pc (x : pc) (p : pump) : pump :=
  {| pp_queue := pp_queue p; pp_q := pp_q p; pp_pc := x; pp_out := pp_out p; pp_sent := pp_sent p |}.

(** [Wait] returns when the condition is signalled; the loop continues. *)
Definition wake (p : pump) : pump :=
  match pp_pc p with PWaiting => set_pc PCheck p | _ => p end.

(** One step of [Client.a]; [None] when it cannot move by itself. *)
Definition a_step (p : pump) : option pump :=
  match pp_pc p with
  | PCheck => Some (set_pc (if pp_q p then PDone else PPop) p)
  | PPop =>
      match pp_queue p with
      | m :: rest => Some {| pp_queue := rest; pp_q := pp_q p; pp_pc := POutput m;
                             pp_out := pp_out p; pp_sent := pp_sent p |}
      | [] => Some (set_pc PWait p)
      end
  | POutput m => Some {| pp_queue := pp_queue p; pp_q := pp_q p; pp_pc := PCheck;
                         pp_out := pp_out p ++ [m]; pp_sent := pp_sent p |}
  | PWait => Some (set_pc PWaiting p)
  | PWaiting | PDone => None
  end.

(** The section of [ServerHello]: push, broadcast. *)
Definition hello (m : loc) (p : pump) : pump :=
  wake {| pp_queue := pp_queue p ++ [m]; pp_q := pp_q p; pp_pc := pp_pc p;
          pp_out := pp_out p; pp_sent := pp_sent p ++ [m] |}.

(** The two statements of [ending] that concern the goroutine, which take no
lock: [c.q = true] and [c.condition.Signal()]. *)
Definition quit (p : pump) : pump :=
  {| pp_queue := pp_queue p; pp_q := true; pp_pc := pp_pc p; pp_out := pp_out p;
     pp_sent := pp_sent p |}.

Inductive pump_act := AGo | AHello (m : loc) | AQuit | ASignal.

Definition pump_do (a : pump_act) (p : pump) : option pump :=
  match a with
  | AGo => a_step p
  | AHello m => Some (hello m p)
  | AQuit => Some (quit p)
  | ASignal => if pp_q p then Some (wake p) else None
  end.

Fixpoint pump_run (acts : list pump_act) (p : pump) : option pump :=
  match acts with
  | [] => Some p
  | a :: acts => match pump_do a p with Some p' => pump_run acts p' | None => None end
  end.

Definition reachable (p : pump) : Prop := exists acts, pump_run acts pump_init = Some p.

(** The goroutine on its own, for at most [n] steps. *)
Fixpoint a_run (n : nat) (p : pump) : pump :=
  match n with
  | O => p
  | S n => match a_step p with Some p' => a_run n p' | None => p end
  end.

(** The message that was taken but not yet written. *)
Definition in_flight (p : pump) : list loc :=
  match pp_pc p with POutput m => [m] | _ => [] end.

(** * Lemmas *)

Lemma pump_run_inv (P : pump -> Prop) acts p p' :
  (forall a p p', P p -> pump_do a p = Some p' -> P p') ->
  P p -> pump_run acts p = Some p' -> P p'.
Proof.
  intros Hstep. revert p. induction acts as [|a acts IH]; intros p Hp; cbn; [congruence|].
  destruct (pump_do a p) as [p1|] eqn:E; [|done]. eauto.
Qed.

Lemma pump_run_app acts acts' p :
  pump_run (acts ++ acts') p = pump_run acts p ≫= pump_run acts'.
Proof.
  revert p. induction acts as [|a acts IH]; intros p; cbn; [done|]. destruct (pump_do a p); [apply IH|done].
Qed.

Lemma a_run_step n p p' : a_step p = Some p' -> a_run (S n) p = a_run n p'.
Proof. cbn. by intros ->. Qed.

(** Alone, from the test of [c.q], the goroutine writes the whole queue. *)
Lemma a_run_drains n p :
  pp_pc p = PCheck -> pp_q p = false -> (3 * length (pp_queue p) + 3 <= n)%nat ->
  a_run n p = {| pp_queue := []; pp_q := false; pp_pc := PWaiting;
                 pp_out := pp_out p ++ pp_queue p; pp_sent := pp_sent p |}.
Proof.
  destruct p as [queue q pc0 out sent]. cbn. intros -> ->. revert n out.
  induction queue as [|m queue IH]; intros n out Hn; cbn in Hn.
  - destruct n as [|[|[|n]]]; try lia. cbn. rewrite app_nil_r. by destruct n.
  - destruct n as [|[|[|n]]]; try lia. cbn [a_run a_step pp_pc pp_q pp_queue set_pc pp_out pp_sent].
    rewrite IH by lia. by rewrite <-app_assoc.
Qed.

Definition delivered (p : pump) : Prop := pp_sent p = pp_out p ++ in_flight p ++ pp_queue p.

Lemma delivered_step a p p' : delivered p -> pump_do a p = Some p' -> delivered p'.
Proof.
  unfold delivered, in_flight. destruct p as [queue q pc0 out sent], a; cbn.
  - intros Hd Hs. unfold a_step in Hs. destruct pc0; [|destruct queue|..]; simplify_eq/=; try done.
    + by destruct q.
    + by rewrite <-app_assoc.
  - intros Hd [= <-]. unfold hello, wake. cbn. rewrite Hd. destruct pc0; cbn; by rewrite <-!app_assoc.
  - intros Hd [= <-]. done.
  - destruct q; [|done]. intros Hd [= <-]. unfold wake. by destruct pc0.
Qed.

Lemma reachable_delivered p : reachable p -> delivered p.
Proof. intros [acts Hrun]. by apply (pump_run_inv delivered acts pump_init p delivered_step). Qed.

(** The goroutine returns only for a client that ended. *)
Lemma reachable_done p : reachable p -> pp_pc p = PDone -> pp_q p = true.
Proof.
  intros [acts Hrun]. apply (pump_run_inv (fun p => pp_pc p = PDone -> pp_q p = true) acts pump_init p);
    [|done|done].
  intros a [queue q pc0 out sent] p' Hp Hdo. cbn in *. destruct a; cbn in *.
  - unfold a_step in Hdo. destruct pc0; [destruct q|destruct queue|..]; by simplify_eq/=.
  - simplify_eq. unfold hello, wake. by destruct pc0.
  - by simplify_eq.
  - destruct q; [|done]. simplify_eq. unfold wake. by destruct pc0.
Qed.

(** * Properties *)

(** C22: what is written to the connection is what was given to [ServerHello],
in that order, each message once: at any moment of any interleaving the
messages written, the one about to be written and the queue together are the
messages given so far. *)
Theorem pump_fifo p :
  reachable p -> pp_sent p = pp_out p ++ in_flight p ++ pp_queue p.
Proof. apply reachable_delivered. Qed.

(** C23: a message wakes the goroutine. Wherever the goroutine of a client that
has not ended is, after the next [ServerHello] it needs only its own steps to
write everything that was queued, also what was queued before: it is then
waiting again, and every message given so far has been written. The only
exception is a push into the gap before [Wait], see [lost_wakeup]. *)
Theorem hello_flushes p m :
  reachable p -> pp_q p = false -> pp_pc p <> PWait ->
  exists n, pp_pc (a_run n (hello m p)) = PWaiting /\
    pp_queue (a_run n (hello m p)) = [] /\
    pp_out (a_run n (hello m p)) = pp_sent p ++ [m].
Proof.
  intros Hr Hq Hpc. pose proof (reachable_delivered p Hr) as Hd. unfold delivered in Hd.
  assert (pp_pc p <> PDone) as Hdone by (intros H; apply (reachable_done p Hr) in H; congruence).
  destruct p as [queue q pc0 out sent]. cbn in *. subst q.
  unfold in_flight in Hd. cbn in Hd. unfold hello, wake. cbn.
  set (N := (3 * length (queue ++ [m]) + 3)%nat).
  destruct pc0 as [| |x| | |]; cbn in *; try done.
  - exists N. rewrite a_run_drains by done. cbn. by rewrite Hd, app_assoc.
  - exists (N - 1)%nat. rewrite <-(a_run_step (N - 1) (Build_pump (queue ++ [m]) false PCheck out (sent ++ [m]))) by done.
    rewrite a_run_drains by (done || (subst N; cbn; lia)). cbn. by rewrite Hd, app_assoc.
  - exists (S N). erewrite a_run_step by done. rewrite a_run_drains by done. cbn.
    rewrite Hd. by rewrite <-!app_assoc.
  - exists N. rewrite a_run_drains by done. cbn. by rewrite Hd, app_assoc.
Qed.

(** C35: a wakeup can be lost. Between the section that finds the queue empty
and the one that waits the lock is free: a [ServerHello] that comes there
signals nobody, then the goroutine waits with a message in its queue, although
the client has not ended, and no step but another [ServerHello] or the end of
the client changes this. *)
Theorem lost_wakeup m :
  exists p, reachable p /\ pp_q p = false /\ pp_pc p = PWaiting /\ pp_queue p = [m] /\
    pp_out p = [] /\ forall n, a_run n p = p.
Proof.
  exists {| pp_queue := [m]; pp_q := false; pp_pc := PWaiting; pp_out := []; pp_sent := [m] |}.
  split; [by exists [AGo; AGo; AHello m; AGo]|]. split_and!; try done. by intros [].
Qed.

(** So can the signal of [ending]: the client has ended, the signal was
sent, and the goroutine waits; as nobody sends to a client that ended, its
goroutine never returns. *)
Theorem ending_may_leak :
  exists acts p, pump_run (acts ++ [AQuit; ASignal; AGo]) pump_init = Some p /\
    pp_q p = true /\ pp_pc p = PWaiting /\ forall n, a_run n p = p.
Proof.
  exists [AGo; AGo], {| pp_queue := []; pp_q := true; pp_pc := PWaiting; pp_out := []; pp_sent := [] |}.
  split_and!; try done. by intros [].
Qed.

(** When the signal comes while the goroutine waits or works, the goroutine
returns after at most three steps of its own, writing the message it holds if
any and leaving what is still queued unwritten. The exception is again the
gap, which it reaches when it finds the queue empty. *)
Theorem ending_stops p :
  pp_q p = true -> pp_pc p <> PWait -> (pp_pc p = PPop -> pp_queue p <> []) ->
  pp_pc (a_run 3 (wake p)) = PDone.
Proof.
  intros Hq Hpc Hpop. destruct p as [queue q pc0 out sent]. cbn in *. subst q.
  unfold wake. cbn. destruct pc0; cbn; try done. destruct queue; cbn; [by destruct Hpop|done].
Qed.

(** * Witnesses *)

Definition sample_pump : pump :=
  default pump_init (pump_run [AHello 1%positive; AGo; AGo; AHello 2%positive; AGo] pump_init).

Lemma sample_pump_reachable : reachable sample_pump.
Proof. by exists [AHello 1%positive; AGo; AGo; AHello 2%positive; AGo]. Qed.

Lemma pump_fifo_witness : pp_sent sample_pump = [1%positive] ++ in_flight sample_pump ++ [2%positive].
Proof. apply (pump_fifo sample_pump sample_pump_reachable). Defined.

Lemma hello_flushes_witness :
  exists n, pp_pc (a_run n (hello 3%positive sample_pump)) = PWaiting /\
    pp_queue (a_run n (hello 3%positive sample_pump)) = [] /\
    pp_out (a_run n (hello 3%positive sample_pump)) = [1%positive; 2%positive; 3%positive].
Proof. by apply (hello_flushes sample_pump 3%positive sample_pump_reachable). Defined.

Lemma ending_stops_witness : pp_pc (a_run 3 (wake (quit sample_pump))) = PDone.
Proof. by apply (ending_stops (quit sample_pump)). Defined.
