(* ===== verification/Subscribe.v ===== *)
(** Messages published by the router (connectsvc/subscribe.go): who gets them,
in which order, as which message. *)

From S2P Require Import Prelude GoText Json ProtoDef Protocol Room ToCompute Rpc State Client.
Local Open Scope Z_scope.

(** * Operations *)

(** [subscriber.convert]: the cache is empty, the importance zero; a missing
key, or no map, gives the empty content. *)
Definition convert (fromRouterMessage : FromRouterMessage) : ToClientMessage := {|
  tc_MessageId := fr_MessageId fromRouterMessage;
  tc_Time := fr_Time fromRouterMessage;
  tc_TimeText := fr_TimeText fromRouterMessage;
  tc_ToRoomId := fr_ToRoomId fromRouterMessage;
  tc_ToUserId := fr_ToUserId fromRouterMessage;
  tc_Params := fr_Params fromRouterMessage;
  tc_RoomId := fr_ToRoomId fromRouterMessage;
  tc_UserId := fr_ToUserId fromRouterMessage;
  tc_Content := default "" (gm_lookup (fr_Params fromRouterMessage) "content");
  tc_Importance := 0;
  tc_serializedBytes := None;
|}.

Definition roomOwnerIdResolver (roomId : string) : string := roomId.

Definition ternaryIf (flag : bool) (v1 v2 : string) : string := if flag then v1 else v2.

(** The list [userIds] that [deliverToRoom] makes of an inner map, walked in
the given order: the owner of the room first. *)
Definition room_userIds (roomId : string) (inner : gmap string loc) (order : list string) : list string :=
  let roomOwnerId := roomOwnerIdResolver roomId in
  (if decide (is_Some (inner !! roomOwnerId)) then [roomOwnerId] else []) ++
  filter (fun userId => userId <> roomOwnerId) order.

(** What it logs of this list: twenty at most. *)
Definition room_log (userIds : list string) : list string * string :=
  let totalSize := len userIds in
  let more := ternaryIf (totalSize <=? 20) "" "..." in
  (if totalSize =? 0 then [] else if totalSize <=? 20 then userIds else take 20 userIds, more).

Section Subscribe.
Context `{BDMsg, Net}.

(** A local whose address is taken: a new message on the heap. *)
Definition new_message (m : ToClientMessage) (w : World) : loc * World :=
  let l := fresh (dom (w_msgs w)) in (l, upd_msgs <[l := m]> w).

Definition deliverToSingleClient (userId : string) (m : loc) (w : World) : World :=
  match cm_Client userId w with
  | Some client => ServerHello (Some client) m w
  | None => w
  end.

(** [for _, value := range userIds] *)
Definition deliver_all (userIds : list string) (m : loc) (w : World) : World :=
  foldl (fun w value => deliverToSingleClient value m w) w userIds.

Definition deliverToUser (fromRouterMessage : FromRouterMessage) (w : World) : World :=
  let '(m, w) := new_message (convert fromRouterMessage) w in
  deliverToSingleClient (fr_ToUserId fromRouterMessage) m w.

(** A map is walked in the order [range] gives for it. *)
Definition deliverToRoom (range : gmap string loc -> list string)
    (fromRouterMessage : FromRouterMessage) (w : World) : World :=
  match rm_clients (w_rooms w) !! fr_ToRoomId fromRouterMessage with
  | Some userIdToClientMap =>
      let inner := default ∅ (rm_maps (w_rooms w) !! userIdToClientMap) in
      let userIds := room_userIds (fr_ToRoomId fromRouterMessage) inner (range inner) in
      let '(m, w) := new_message (convert fromRouterMessage) w in
      deliver_all userIds m w
  | None => w
  end.

Definition deliverToWorld (range : gmap string loc -> list string)
    (fromRouterMessage : FromRouterMessage) (w : World) : World :=
  let '(m, w) := new_message (convert fromRouterMessage) w in
  foldl (fun w id => ServerHello (w_clientM w !! id) m w) w (range (w_clientM w)).

(** [subscriber.handleSubscription]: the result of [Unmarshal] is not looked at. *)
Definition handleSubscription (range : gmap string loc -> list string) (payload : bytes)
    (w : World) : World :=
  let '(fromRouterMessage, _) := FromRouterMessage_Unmarshal payload zero_FromRouterMessage in
  let w := if negb (bool_decide (fr_ToUserId fromRouterMessage = ""))
           then deliverToUser fromRouterMessage w else w in
  if bool_decide (fr_ToRoomId fromRouterMessage = "world")
  then deliverToWorld range fromRouterMessage w
  else if negb (bool_decide (fr_ToRoomId fromRouterMessage = ""))
  then deliverToRoom range fromRouterMessage w
  else w.

End Subscribe.

(** * Specification *)

(** The user ids a message is for, by the state before it: its user, and
everybody or the members of its room. *)
Definition room_members (m : RoomManager) (roomId : string) : gset string := dom (rm_inner m roomId).

Definition queued (m : loc) (c : Client) : Client := set_c_queue (fun q => q ++ [m]) c.

(** * Lemmas *)

Section Lemmas.
Context `{HB : BDMsg, HN : Net}.

Lemma deliverToSingleClient_spec id m (w : World) :
  deliverToSingleClient id m w =
  upd_clients (fun cs => match w_clientM w !! id with
                         | Some l => alter (queued m) l cs | None => cs end) w.
Proof.
  unfold deliverToSingleClient, cm_Client. destruct (w_clientM w !! id); [done|]. by destruct w.
Qed.

(** One message to every id of a list without repetitions: the client that
holds such an id has it at the end of its queue, nothing else changes. *)
Lemma deliver_all_spec ids m (w : World) :
  NoDup ids -> (forall id l, w_clientM w !! id = Some l -> is_client w id l) ->
  exists cs, deliver_all ids m w = upd_clients (fun _ => cs) w /\
    forall l, cs !! l = (fun c => if decide (c_ID c ∈ ids /\ w_clientM w !! c_ID c = Some l)
                                  then queued m c else c) <$> w_clients w !! l.
Proof.
  intros Hnd. revert w. induction Hnd as [|id ids Hid Hnd IH]; intros w Hw.
  { exists (w_clients w). split; [by destruct w|]. intros l.
    by destruct (w_clients w !! l). }
  cbn. fold (deliver_all ids m (deliverToSingleClient id m w)).
  rewrite deliverToSingleClient_spec.
  set (f := fun cs => match w_clientM w !! id with Some l => alter (queued m) l cs | None => cs end).
  destruct (IH (upd_clients f w)) as (cs & -> & Hcs).
  { cbn. intros id' l Hl. apply (is_client_fields w); [|by apply Hw].
    intros l' c Hc. cbn. unfold f. case_match; [|by exists c].
    rewrite lookup_alter. case_decide; [|by exists c]. subst. rewrite Hc. by exists (queued m c). }
  exists cs. split; [done|]. intros l. rewrite Hcs. cbn. clear Hcs IH cs. unfold f. clear f.
  destruct (w_clients w !! l) as [c|] eqn:Hc.
  2:{ case_match; [|by rewrite Hc]. rewrite lookup_alter. by case_decide; simplify_eq/=; rewrite Hc. }
  destruct (w_clientM w !! id) as [l0|] eqn:Hl0.
  - destruct (Hw id l0 Hl0) as (c0 & Hc0 & Eid). rewrite lookup_alter. destruct (decide (l0 = l)) as [->|Hne].
    + rewrite Hc in Hc0. injection Hc0 as ->. rewrite Hc. cbn. f_equal. rewrite Eid.
      rewrite decide_False by tauto. rewrite decide_True; [done|]. split; [set_solver|done].
    + rewrite Hc. cbn. f_equal. assert (c_ID c = id -> w_clientM w !! c_ID c <> Some l) by congruence.
      apply decide_ext. set_solver.
  - rewrite Hc. cbn. f_equal. assert (c_ID c = id -> w_clientM w !! c_ID c <> Some l) by congruence.
    apply decide_ext. set_solver.
Qed.

Lemma deliver_world_all ids m (w : World) :
  foldl (fun w id => ServerHello (w_clientM w !! id) m w) w ids = deliver_all ids m w.
Proof.
  revert w. induction ids as [|id ids IH]; intros w; cbn; [done|].
  assert (ServerHello (w_clientM w !! id) m w = deliverToSingleClient id m w) as ->; [|apply IH].
  unfold deliverToSingleClient, cm_Client. by destruct (w_clientM w !! id).
Qed.

Lemma room_userIds_NoDup roomId inner order :
  iterates inner order -> NoDup (room_userIds roomId inner order).
Proof.
  intros Ho. unfold room_userIds, roomOwnerIdResolver. apply NoDup_app. split_and!.
  - case_decide; [apply NoDup_singleton|constructor].
  - case_decide; [|set_solver]. intros x ->%list_elem_of_singleton. rewrite list_elem_of_filter. tauto.
  - apply NoDup_filter. by eapply iterates_NoDup.
Qed.

Lemma room_userIds_elem roomId inner order id :
  iterates inner order -> id ∈ room_userIds roomId inner order <-> is_Some (inner !! id).
Proof.
  intros Ho. unfold room_userIds, roomOwnerIdResolver. rewrite elem_of_app, list_elem_of_filter.
  rewrite (iterates_elem inner order id Ho). case_decide as Hown.
  - rewrite list_elem_of_singleton. destruct (decide (id = roomId)) as [->|]; tauto.
  - destruct (decide (id = roomId)) as [->|]; set_solver.
Qed.

Lemma set_c_queue_app a b c :
  set_c_queue (fun q => q ++ a ++ b) c = set_c_queue (fun q => q ++ b) (set_c_queue (fun q => q ++ a) c).
Proof. unfold set_c_queue. cbn. by rewrite app_assoc. Qed.

Lemma set_c_queue_nil c : set_c_queue (fun q => q ++ []) c = c.
Proof. unfold set_c_queue. destruct c. cbn. by rewrite app_nil_r. Qed.

(** One delivery: a new message goes to the clients that hold an id of a list. *)
Definition delivers (ids : gset string) (msg : ToClientMessage) (w w' : World) : Prop :=
  exists m cs, w_msgs w !! m = None /\
    w' = upd_clients (fun _ => cs) (upd_msgs <[m := msg]> w) /\
    forall l, cs !! l = (fun c => set_c_queue (fun q => q ++
       if decide (c_ID c ∈ ids /\ w_clientM w !! c_ID c = Some l) then [m] else []) c) <$> w_clients w !! l.

Lemma deliver_delivers (ids : list string) msg (w : World) :
  NoDup ids -> (forall id l, w_clientM w !! id = Some l -> is_client w id l) ->
  delivers (list_to_set ids) msg w (let '(m, w) := new_message msg w in deliver_all ids m w).
Proof.
  intros Hnd Hw. cbn. set (m := fresh _).
  destruct (deliver_all_spec ids m (upd_msgs <[m := msg]> w) Hnd) as (cs & -> & Hcs).
  { intros id l Hl. destruct (Hw id l Hl) as (c & ? & ?). by exists c. }
  exists m, cs. split; [apply not_elem_of_dom, is_fresh|]. split; [done|].
  intros l. rewrite Hcs. cbn. destruct (w_clients w !! l) as [c|]; cbn; [|done]. f_equal.
  destruct (decide (c_ID c ∈ ids /\ w_clientM w !! c_ID c = Some l)) as [Hd|Hd].
  - rewrite decide_True; [done|]. by rewrite elem_of_list_to_set.
  - rewrite decide_False; [by rewrite set_c_queue_nil|]. by rewrite elem_of_list_to_set.
Qed.

End Lemmas.

Section Delivery.
Context `{HB : BDMsg, HN : Net, HZ : Zlib}.

Lemma cache_ok_convert fr : cache_ok (convert fr).
Proof. done. Qed.

Lemma world_ok_delivers ids fr w w' : delivers ids (convert fr) w w' -> world_ok w -> world_ok w'.
Proof.
  intros (m & cs & Hm & -> & Hcs) Hw.
  assert (world_ok (upd_msgs <[m := convert fr]> w)) as Hw1 by (apply world_ok_msgs; done).
  assert (forall l c', cs !! l = Some c' -> exists c, w_clients w !! l = Some c /\ c_ID c' = c_ID c /\
    c_msc c' = c_msc c /\ c_q c' = c_q c /\ forall m', m' ∈ c_queue c' -> m' ∈ c_queue c \/ m' = m) as Hold.
  { intros l c'. rewrite Hcs. intros (c & Hc & ->)%fmap_Some. exists c. split_and!; try done.
    cbn. intros m'. case_decide; set_solver. }
  assert (forall id l, is_client w id l ->
    is_client (upd_clients (fun _ => cs) (upd_msgs <[m := convert fr]> w)) id l) as Hcl.
  { intros id l. apply is_client_fields. intros l' c Hc. cbn. rewrite Hcs, Hc. by eexists. }
  constructor; cbn; try apply Hw1.
  - intros l c' (c & Hc & _ & -> & _)%Hold. by eapply wok_conn.
  - intros l1 l2 c1 c2 (d1 & Hd1 & _ & -> & _)%Hold (d2 & Hd2 & _ & -> & _)%Hold. by eapply wok_inj.
  - intros s sc l Hs Hd. destruct (wok_SClient w Hw s sc l Hs Hd) as [-> Hn]. split; [done|].
    intros l' c' (c & Hc & _ & -> & _)%Hold. eauto.
  - intros s sc l Hs Hd. destruct (wok_Client w Hw s sc l Hs Hd) as (c & Hc & <-).
    rewrite Hcs, Hc. by eexists.
  - intros id l Hid. destruct (wok_clientM w Hw id l Hid). auto.
  - intros r id l Hr. eapply Hcl, wok_member; eauto.
  - intros t Ht. destruct (wok_tasks w Hw t Ht) as [c Hc]. rewrite Hcs, Hc. by eexists.
  - intros l c' (c & Hc & _ & _ & -> & _)%Hold. by apply (wok_q w Hw).
  - intros l c' m' (c & Hc & _ & _ & _ & Hq)%Hold [Hm'| ->]%Hq.
    + apply (wok_queue _ Hw1 l c m' Hc Hm').
    + rewrite lookup_insert_eq. by eexists.
Qed.

(** The three ways to deliver. *)
Lemma deliverToUser_delivers fr w :
  world_ok w -> delivers {[fr_ToUserId fr]} (convert fr) w (deliverToUser fr w).
Proof.
  intros Hw. pose proof (deliver_delivers [fr_ToUserId fr] (convert fr) w) as H.
  cbn [list_to_set] in H. rewrite union_empty_r_L in H. apply H; [apply NoDup_singleton|].
  intros id l Hl. by apply (wok_clientM w Hw).
Qed.

Lemma deliverToWorld_delivers range fr w :
  (forall m, iterates m (range m)) -> world_ok w ->
  delivers (dom (w_clientM w)) (convert fr) w (deliverToWorld range fr w).
Proof.
  intros Hr Hw. unfold deliverToWorld.
  pose proof (deliver_delivers (range (w_clientM w)) (convert fr) w) as H. cbn in *.
  rewrite deliver_world_all. cbn. assert (dom (w_clientM w) = list_to_set (range (w_clientM w))) as ->.
  { apply set_eq. intros id. rewrite elem_of_list_to_set, elem_of_dom. by rewrite (iterates_elem _ _ id (Hr _)). }
  apply H; [by eapply iterates_NoDup|]. intros id l Hl. by apply (wok_clientM w Hw).
Qed.

Lemma deliverToRoom_delivers range fr w :
  (forall m, iterates m (range m)) -> world_ok w ->
  is_Some (rm_clients (w_rooms w) !! fr_ToRoomId fr) ->
  delivers (room_members (w_rooms w) (fr_ToRoomId fr)) (convert fr) w (deliverToRoom range fr w).
Proof.
  intros Hr Hw [l Hl]. unfold deliverToRoom. rewrite Hl.
  unfold room_members, rm_inner. rewrite Hl. set (inner := default ∅ _).
  assert (dom inner = list_to_set (room_userIds (fr_ToRoomId fr) inner (range inner))) as ->.
  { apply set_eq. intros id. rewrite elem_of_list_to_set, elem_of_dom. by rewrite room_userIds_elem. }
  apply deliver_delivers; [by apply room_userIds_NoDup|].
  intros id l' Hl'. by apply (wok_clientM w Hw).
Qed.

End Delivery.

Section Effect.
Context `{HB : BDMsg, HN : Net, HZ : Zlib}.

(** What is left of a delivery, or of none to nobody, in terms of the worlds
before and after it. *)
Record effect (ids : gset string) (msg : ToClientMessage) (w w' : World) (m : loc) : Prop := {
  eff_client l c : w_clients w !! l = Some c ->
    w_clients w' !! l = Some (set_c_queue (fun q => q ++
      if decide (c_ID c ∈ ids /\ w_clientM w !! c_ID c = Some l) then [m] else []) c);
  eff_new id : id ∈ ids -> w_msgs w !! m = None /\ w_msgs w' !! m = Some msg;
  eff_msgs : w_msgs w ⊆ w_msgs w';
  eff_clientM : w_clientM w' = w_clientM w;
  eff_rooms : w_rooms w' = w_rooms w;
  eff_conns : w_conns w' = w_conns w;
}.

Lemma delivers_effect ids msg w w' : delivers ids msg w w' -> exists m, effect ids msg w w' m.
Proof.
  intros (m & cs & Hm & -> & Hcs). exists m. constructor; cbn; try done.
  - intros l c Hc. by rewrite Hcs, Hc.
  - intros _ _. by rewrite lookup_insert_eq.
  - by apply insert_subseteq.
Qed.

Lemma no_effect msg w : effect ∅ msg w w 1%positive.
Proof.
  constructor; try done.
  intros l c Hc. rewrite decide_False by set_solver. by rewrite set_c_queue_nil.
Qed.

(** To whom a message goes besides its user. *)
Definition audience (fr : FromRouterMessage) (w : World) : gset string :=
  if decide (fr_ToRoomId fr = "world") then dom (w_clientM w)
  else room_members (w_rooms w) (fr_ToRoomId fr).

Lemma deliverToRoom_effect range fr w :
  (forall m, iterates m (range m)) -> world_ok w ->
  world_ok (deliverToRoom range fr w) /\
  exists m, effect (room_members (w_rooms w) (fr_ToRoomId fr)) (convert fr) w (deliverToRoom range fr w) m.
Proof.
  intros Hr Hw. destruct (rm_clients (w_rooms w) !! fr_ToRoomId fr) as [l|] eqn:Hl.
  - pose proof (deliverToRoom_delivers range fr w Hr Hw ltac:(by rewrite Hl)) as Hd.
    split; [by eapply world_ok_delivers|by apply delivers_effect].
  - unfold room_members, rm_inner, deliverToRoom. rewrite Hl, dom_empty_L. eauto using no_effect.
Qed.

Lemma handleSubscription_ok range payload w :
  (forall m, iterates m (range m)) -> world_ok w -> world_ok (handleSubscription range payload w).
Proof.
  intros Hr Hw. unfold handleSubscription.
  destruct (FromRouterMessage_Unmarshal payload zero_FromRouterMessage) as [fr err].
  set (w1 := if negb (bool_decide (fr_ToUserId fr = "")) then deliverToUser fr w else w).
  assert (world_ok w1) as Hw1.
  { unfold w1. case_match; [|done]. eapply world_ok_delivers; [by apply deliverToUser_delivers|done]. }
  case_match; [|case_match; [|done]].
  - eapply world_ok_delivers; [by apply deliverToWorld_delivers|done].
  - by apply deliverToRoom_effect.
Qed.

(** Everything a publication does. *)
Lemma handleSubscription_effects range payload w fr err :
  (forall m, iterates m (range m)) -> world_ok w ->
  FromRouterMessage_Unmarshal payload zero_FromRouterMessage = (fr, err) ->
  let w' := handleSubscription range payload w in
  world_ok w' /\ w_clientM w' = w_clientM w /\ w_rooms w' = w_rooms w /\ w_conns w' = w_conns w /\
  w_msgs w ⊆ w_msgs w' /\
  exists m1 m2, forall l c, w_clients w !! l = Some c ->
    let registered := w_clientM w !! c_ID c = Some l in
    let forUser := if decide (registered /\ fr_ToUserId fr = c_ID c /\ c_ID c <> "") then [m1] else [] in
    let forAll := if decide (registered /\ fr_ToRoomId fr <> "" /\ c_ID c ∈ audience fr w)
                  then [m2] else [] in
    w_clients w' !! l = Some (set_c_queue (fun q => q ++ forUser ++ forAll) c) /\
    Forall (fun m => w_msgs w !! m = None /\ w_msgs w' !! m = Some (convert fr)) (forUser ++ forAll).
Proof.
  intros Hr Hw Hfr. unfold handleSubscription. rewrite Hfr.
  set (w1 := if negb (bool_decide (fr_ToUserId fr = "")) then deliverToUser fr w else w).
  assert (world_ok w1 /\ exists m1, effect (if decide (fr_ToUserId fr = "") then ∅ else {[fr_ToUserId fr]})
    (convert fr) w w1 m1) as [Hw1 [m1 H1]].
  { unfold w1. case_bool_decide as E; cbn; [rewrite decide_True by done; eauto using no_effect|].
    rewrite decide_False by done. pose proof (deliverToUser_delivers fr w Hw) as Hd.
    split; [by eapply world_ok_delivers|by apply delivers_effect]. }
  set (w' := if bool_decide (fr_ToRoomId fr = "world") then _ else _).
  assert (world_ok w' /\ exists m2, effect (if decide (fr_ToRoomId fr = "") then ∅ else audience fr w)
    (convert fr) w1 w' m2) as [Hw' [m2 H2]].
  { unfold w', audience. rewrite <-(eff_clientM _ _ _ _ _ H1), <-(eff_rooms _ _ _ _ _ H1).
    case_bool_decide as E; [|case_bool_decide as E2]; cbn.
    - rewrite decide_False, decide_True by congruence.
      pose proof (deliverToWorld_delivers range fr w1 Hr Hw1) as Hd.
      split; [by eapply world_ok_delivers|by apply delivers_effect].
    - rewrite decide_True by done. eauto using no_effect.
    - rewrite !decide_False by done. by apply deliverToRoom_effect. }
  clearbody w1 w'. cbn zeta.
  split; [done|]. split; [by rewrite (eff_clientM _ _ _ _ _ H2), (eff_clientM _ _ _ _ _ H1)|].
  split; [by rewrite (eff_rooms _ _ _ _ _ H2), (eff_rooms _ _ _ _ _ H1)|].
  split; [by rewrite (eff_conns _ _ _ _ _ H2), (eff_conns _ _ _ _ _ H1)|].
  split; [etransitivity; [apply (eff_msgs _ _ _ _ _ H1)|apply (eff_msgs _ _ _ _ _ H2)]|].
  exists m1, m2. intros l c Hc.
  pose proof (eff_client _ _ _ _ _ H1 l c Hc) as Hc1. pose proof (eff_client _ _ _ _ _ H2 _ _ Hc1) as Hc2.
  cbn [c_ID set_c_queue] in Hc2. rewrite (eff_clientM _ _ _ _ _ H1) in Hc2. rewrite set_c_queue_app, Hc2. clear Hc2.
  split.
  { set (a := if decide (_ /\ _ /\ c_ID c <> "") then _ else _).
    set (b := if decide (_ /\ _ /\ c_ID c ∈ audience fr w) then _ else _).
    set (a' := if decide _ then [m1] else _). set (b' := if decide _ then [m2] else _).
    assert (a = a') as ->.
    { unfold a, a'. apply decide_ext.
      destruct (decide (fr_ToUserId fr = "")); rewrite ?elem_of_empty, ?elem_of_singleton; intuition congruence. }
    assert (b = b') as ->.
    { unfold b, b'. apply decide_ext. destruct (decide (fr_ToRoomId fr = "")); [|tauto].
      rewrite elem_of_empty. tauto. }
    done. }
  apply Forall_app.
  split; match goal with |- Forall _ (if ?d then _ else _) => destruct d as [(_ & Hd & Hin)|] end;
    try apply Forall_nil_2; apply Forall_singleton.
  - destruct (eff_new _ _ _ _ _ H1 (c_ID c)) as [Hn Hm]; [rewrite decide_False by congruence; set_solver|].
    split; [done|]. by eapply lookup_weaken, eff_msgs.
  - destruct (eff_new _ _ _ _ _ H2 (c_ID c)) as [Hn Hm]; [by rewrite decide_False|].
    split; [|done]. by eapply lookup_weaken_None, eff_msgs.
Qed.

End Effect.

(** * Properties *)

(** C10: what a publication does. A client registered under its id gets the
message at the end of its queue once if its id is the user the message is for,
and once more if it is for the world or for a room its id is a member of; other
clients get nothing, and no queue loses anything. The messages are new, hold
what the router sent, and all members of the audience share one; managers and
connections are as before. *)
Theorem handleSubscription_delivers `{HB : BDMsg, HN : Net, HZ : Zlib} range payload w fr err :
  (forall m, iterates m (range m)) -> world_ok w ->
  FromRouterMessage_Unmarshal payload zero_FromRouterMessage = (fr, err) ->
  let w' := handleSubscription range payload w in
  world_ok w' /\ w_clientM w' = w_clientM w /\ w_rooms w' = w_rooms w /\ w_conns w' = w_conns w /\
  exists m1 m2, forall l c, w_clients w !! l = Some c ->
    let registered := w_clientM w !! c_ID c = Some l in
    let forUser := if decide (registered /\ fr_ToUserId fr = c_ID c /\ c_ID c <> "") then [m1] else [] in
    let forAll := if decide (registered /\ fr_ToRoomId fr <> "" /\ c_ID c ∈ audience fr w)
                  then [m2] else [] in
    w_clients w' !! l = Some (set_c_queue (fun q => q ++ forUser ++ forAll) c) /\
    Forall (fun m => w_msgs w !! m = None /\ w_msgs w' !! m = Some (convert fr)) (forUser ++ forAll).
Proof.
  intros Hr Hw Hfr. cbn zeta.
  pose proof (handleSubscription_effects range payload w fr err Hr Hw Hfr) as H. cbn zeta in H.
  destruct H as (? & ? & ? & ? & _ & H). auto 6.
Qed.

(** The order in a room. The list of a room's user ids names every member
once and nobody else, and starts with the owner (the user whose id is the
room's) when the owner is there. *)
Theorem owner_first roomId inner order :
  iterates inner order ->
  let userIds := room_userIds roomId inner order in
  NoDup userIds /\ (forall id, id ∈ userIds <-> is_Some (inner !! id)) /\
  (is_Some (inner !! roomId) -> head userIds = Some roomId).
Proof.
  intros Ho. split; [by apply room_userIds_NoDup|]. split; [intros id; by apply room_userIds_elem|].
  intros Hown. unfold room_userIds, roomOwnerIdResolver. by rewrite decide_True.
Qed.

(** A payload that is not JSON does nothing. *)
Theorem garbage_is_ignored `{BDMsg, Net} range payload w :
  json_parse (string_of_bytes payload) = None -> handleSubscription range payload w = w.
Proof.
  intros Hp. unfold handleSubscription, FromRouterMessage_Unmarshal, json_Unmarshal. by rewrite Hp.
Qed.

(** * Witnesses *)

Definition map_range (m : gmap string loc) : list string := (map_to_list m).*1.
Definition sample_payload : bytes :=
  jsb "{'messageId':'m1','toUserId':'ann','params':{'content':'hi'},'time':7}".
Definition sample_fr : FromRouterMessage :=
  Build_FromRouterMessage "m1" 7 "" "ann" "" (Some {["content" := "hi"]}) "" "" "".

Lemma map_range_iterates m : iterates m (map_range m).
Proof. apply iterates_self. Qed.

Lemma sample_payload_fr :
  FromRouterMessage_Unmarshal sample_payload zero_FromRouterMessage = (sample_fr, None).
Proof. vm_compute. reflexivity. Qed.

Lemma handleSubscription_delivers_witness :
  exists m c', w_clients (handleSubscription map_range sample_payload w_ann2) !! 2%positive = Some c' /\
    c_queue c' = [m].
Proof.
  destruct (@handleSubscription_delivers test_bdmsg test_net test_zlib map_range sample_payload w_ann2
    sample_fr None map_range_iterates w_ann2_ok sample_payload_fr)
    as (_ & _ & _ & _ & m1 & m2 & H).
  specialize (H 2%positive (new_client 0 ann 2%positive) eq_refl). cbn zeta in H. destruct H as [H _].
  exists m1, (set_c_queue (fun q => q ++ [m1]) (new_client 0 ann 2%positive)). split; [|reflexivity].
  etransitivity; [exact H|]. reflexivity.
Defined.

Lemma owner_first_witness :
  head (room_userIds "ann" {["bob" := 1%positive; "ann" := 2%positive]}
    (map_range {["bob" := 1%positive; "ann" := 2%positive]})) = Some "ann".
Proof.
  apply (owner_first "ann" {["bob" := 1%positive; "ann" := 2%positive]} _ (map_range_iterates _)).
  vm_compute. by eexists.
Defined.

Lemma garbage_is_ignored_witness :
  @handleSubscription test_bdmsg test_net map_range (bytes_of_string "hello") w_ann2 = w_ann2.
Proof. apply (@garbage_is_ignored test_bdmsg test_net). vm_compute. reflexivity. Defined.
