(* ===== verification/Stream.v ===== *)
(** From the redis subscription to the connections (the loop of [subscribe] in
connectsvc/subscribe.go, the loop of [Client.a] in connectsvc/client.go): what a
client gets of a series of publications, in which order, and how the turns of the
output goroutine over the shared state refine its steps in Pump.v. *)

From S2P Require Import Prelude GoText Json ProtoDef Protocol Room ToCompute Config Token Rpc State.
From S2P Require Import Client Pump Subscribe.
Local Open Scope Z_scope.

(** * The subscription loop *)

Definition channelName1 : string := "router".
(** Deprecated. *)
Definition channelName2 : string := "mychannel".

(** What [pubSub.ReceiveMessage] returns: a channel and a payload, or an error. *)
Definition received : Type := string * bytes + error.

Section Subscription.
Context `{BDMsg, Net}.

(** One turn of the loop; a failure to receive is logged and the loop goes on. *)
Definition on_receive (range : gmap string loc -> list string) (r : received) (w : World) : World :=
  match r with
  | inr err => w
  | inl (channel, payload) =>
      if bool_decide (channel = channelName1) || bool_decide (channel = channelName2)
      then handleSubscription range payload w else w
  end.

(** The loop over what was received so far, each with the order in which it
meets the maps. *)
Definition subscribe (rs : list ((gmap string loc -> list string) * received)) (w : World) : World :=
  fold_left (fun w r => on_receive r.1 r.2 w) rs w.

End Subscription.

(** * Specification *)

(** What a publication is for a user: once when it names the user, and once more
when the user is in its audience. *)
Definition addressed `{BDMsg, Net} (w : World) (id : string) (fr : FromRouterMessage) : list ToClientMessage :=
  (if decide (fr_ToUserId fr = id /\ id <> "") then [convert fr] else []) ++
  (if decide (fr_ToRoomId fr <> "" /\ id ∈ audience fr w) then [convert fr] else []).

Definition published (r : received) : list FromRouterMessage :=
  match r with
  | inl (channel, payload) =>
      if bool_decide (channel = channelName1) || bool_decide (channel = channelName2)
      then [(FromRouterMessage_Unmarshal payload zero_FromRouterMessage).1] else []
  | inr _ => []
  end.

(** All that the loop has for a user. *)
Definition inbox `{BDMsg, Net} (w : World) (id : string)
    (rs : list ((gmap string loc -> list string) * received)) : list ToClientMessage :=
  flat_map (fun r => flat_map (addressed w id) (published r.2)) rs.

(** Several writes to a connection. *)
Definition outputs `{BDMsg} (bs : list bytes) (sc : SClient) : SClient :=
  fold_left (fun sc b => sc_Output MsgTypePush b sc) bs sc.

(** The contents of a queue. *)
Definition contents `{BDMsg, Net} (w : World) (q : list loc) : list (option ToClientMessage) :=
  map (fun m => w_msgs w !! m) q.

(** * Lemmas *)

Section Lemmas.
Context `{HB : BDMsg, HN : Net, HZ : Zlib}.

(** What the loop, or one turn of it, does to the registered client [l]. *)
Record feeds (w w' : World) (l : loc) (c : Client) (msgs : list ToClientMessage) (ms : list loc) : Prop := {
  fd_ok : world_ok w';
  fd_clientM : w_clientM w' = w_clientM w;
  fd_rooms : w_rooms w' = w_rooms w;
  fd_conns : w_conns w' = w_conns w;
  fd_msgs : w_msgs w ⊆ w_msgs w';
  fd_client : w_clients w' !! l = Some (set_c_queue (fun q => q ++ ms) c);
  fd_contents : contents w' ms = map Some msgs;
}.

Lemma contents_weaken (w w' : World) ms msgs :
  w_msgs w ⊆ w_msgs w' -> contents w ms = map Some msgs -> contents w' ms = map Some msgs.
Proof.
  intros Hsub. revert msgs. induction ms as [|m ms IH]; intros [|msg msgs]; cbn; try done.
  intros [= Hm Hms]. rewrite (lookup_weaken _ _ m msg Hm Hsub). f_equal. by apply IH.
Qed.

Lemma on_receive_feeds range r (w : World) l c :
  (forall m, iterates m (range m)) -> world_ok w -> w_clients w !! l = Some c ->
  w_clientM w !! c_ID c = Some l ->
  exists ms, feeds w (on_receive range r w) l c (flat_map (addressed w (c_ID c)) (published r)) ms.
Proof.
  intros Hr Hw Hc Hreg. destruct r as [[channel payload]|e]; cbn.
  2:{ exists []. constructor; try done. by rewrite set_c_queue_nil. }
  destruct (_ || _); [|exists []; constructor; try done; by rewrite set_c_queue_nil].
  destruct (FromRouterMessage_Unmarshal payload zero_FromRouterMessage) as [fr err] eqn:Hfr.
  destruct (handleSubscription_effects range payload w fr err Hr Hw Hfr)
    as (Hok & Hm & Hrm & Hcn & Hsub & m1 & m2 & Hcl).
  specialize (Hcl l c Hc). cbn zeta in Hcl. destruct Hcl as [Hcl Hnew].
  eexists. constructor; [done..|exact Hcl|]. cbn. unfold addressed, contents. rewrite app_nil_r.
  revert Hnew. generalize (w_msgs (handleSubscription range payload w)) as M. intros M Hnew.
  assert (forall (A B : Prop) `{Decision A} `{Decision B} (m : loc),
    (A <-> B) -> Forall (fun m => w_msgs w !! m = None /\ M !! m = Some (convert fr)) (if decide A then [m] else []) ->
    map (fun m => M !! m) (if decide A then [m] else []) =
    map Some (if decide B then [convert fr] else [])) as Hone.
  { intros A B ? ? m HAB HF. destruct (decide A), (decide B); [|tauto..|done].
    apply Forall_singleton in HF as [_ HF]. cbn. by rewrite HF. }
  rewrite Forall_app in Hnew. destruct Hnew as [Hn1 Hn2]. rewrite !map_app. f_equal.
  - apply Hone; [tauto|exact Hn1].
  - apply Hone; [tauto|exact Hn2].
Qed.

Lemma addressed_same (w w' : World) id fr :
  w_clientM w' = w_clientM w -> w_rooms w' = w_rooms w -> addressed w' id fr = addressed w id fr.
Proof. intros H1 H2. unfold addressed, audience. by rewrite H1, H2. Qed.

Lemma inbox_same (w w' : World) id rs :
  w_clientM w' = w_clientM w -> w_rooms w' = w_rooms w -> inbox w' id rs = inbox w id rs.
Proof.
  intros H1 H2. unfold inbox. apply flat_map_ext. intros r. apply flat_map_ext. intros fr.
  by apply addressed_same.
Qed.

Lemma subscribe_feeds rs (w : World) l c :
  Forall (fun r => forall m, iterates m (r.1 m)) rs -> world_ok w -> w_clients w !! l = Some c ->
  w_clientM w !! c_ID c = Some l ->
  exists ms, feeds w (subscribe rs w) l c (inbox w (c_ID c) rs) ms.
Proof.
  revert w c. induction rs as [|[range r] rs IH]; intros w c Hrs Hw Hc Hreg.
  { exists []. constructor; try done. by rewrite set_c_queue_nil. }
  apply Forall_cons in Hrs as [Hr Hrs].
  destruct (on_receive_feeds range r w l c Hr Hw Hc Hreg) as (ms1 & [H1 H2 H3 H4 H5 H6 H7]).
  cbn [subscribe fold_left fst snd]. set (w1 := on_receive range r w) in *.
  destruct (IH w1 _ Hrs H1 H6) as (ms2 & [K1 K2 K3 K4 K5 K6 K7]); [by rewrite H2|].
  exists (ms1 ++ ms2). fold (subscribe rs w1). constructor; try congruence.
  - by etransitivity.
  - rewrite K6. f_equal. symmetry. apply set_c_queue_app.
  - cbn [inbox flat_map fst snd]. fold (inbox w (c_ID c) rs). rewrite map_app.
    unfold contents in *. rewrite map_app. f_equal; [by apply (contents_weaken w1)|].
    rewrite K7. f_equal. cbn [c_ID set_c_queue]. by apply inbox_same.
Qed.

(** ** The turns of the output goroutine *)

(** One turn with a message in the queue: it leaves the queue and its bytes are
written; the other messages keep the bytes they are sent as. *)
Lemma a_iter_turn (w : World) l c m rest msg :
  world_ok w -> w_clients w !! l = Some c -> c_q c = false -> c_queue c = m :: rest ->
  w_msgs w !! m = Some msg ->
  let w' := a_iter l w in
  w_clients w' !! l = Some (set_c_queue (fun _ => rest) c) /\
  w_conns w' = alter (sc_Output MsgTypePush (wire msg)) (c_msc c) (w_conns w) /\
  forall m', wire <$> w_msgs w' !! m' = wire <$> w_msgs w !! m'.
Proof.
  intros Hw Hc Hq Hqueue Hm. cbn zeta. unfold a_iter, a_pop. rewrite Hc, Hq, Hqueue. cbn [head].
  unfold a_output. cbn. rewrite lookup_alter_eq, Hc. cbn. rewrite Hm.
  destruct (tc_Marshal_spec msg (wok_cache w Hw m msg Hm)) as (msg' & -> & _ & Hwire & _). cbn.
  rewrite lookup_alter_eq, Hc. cbn. unfold set_c_queue. rewrite Hqueue. split_and!; [done..|].
  intros m'. rewrite lookup_insert. case_decide as E; [subst m'; rewrite Hm; cbn; by f_equal|done].
Qed.

Lemma a_iter_idle (w : World) l c :
  w_clients w !! l = Some c -> c_q c = true \/ c_queue c = [] ->
  w_clients (a_iter l w) !! l = Some c /\ w_conns (a_iter l w) = w_conns w /\ w_msgs (a_iter l w) = w_msgs w.
Proof.
  intros Hc Hi. unfold a_iter, a_pop. rewrite Hc. destruct (c_q c) eqn:Hq; [done|].
  destruct Hi as [|Hqueue]; [done|]. rewrite Hqueue. cbn. rewrite lookup_alter_eq, Hc. cbn. unfold set_c_queue.
  rewrite Hqueue. cbn. rewrite <-Hqueue. by destruct c.
Qed.

(** As many turns as the queue is long write all of it, in its order. *)
Lemma a_iter_flush `{HL : !BDMsgLaws} n (w : World) l c bs :
  world_ok w -> w_clients w !! l = Some c -> c_q c = false ->
  map (fun m => wire <$> w_msgs w !! m) (c_queue c) = map Some bs -> n = length (c_queue c) ->
  let w' := Nat.iter n (a_iter l) w in
  (exists c', w_clients w' !! l = Some c' /\ c_queue c' = [] /\ c_q c' = false) /\
  w_conns w' = alter (outputs bs) (c_msc c) (w_conns w).
Proof.
  revert w c bs. induction n as [|n IH]; intros w c bs Hw Hc Hq Hbs Hn; cbn zeta.
  - destruct (c_queue c) eqn:E; [|done]. destruct bs; [|done]. split; [by exists c|].
    cbn [Nat.iter]. symmetry. apply alter_id. done.
  - destruct (c_queue c) as [|m rest] eqn:E; [done|]. destruct bs as [|b bs]; [done|].
    cbn in Hbs, Hn. injection Hbs as Hb Hbs. apply fmap_Some in Hb as (msg & Hm & ->).
    destruct (a_iter_turn w l c m rest msg Hw Hc Hq E Hm) as (Hc1 & Hconns & Hwires).
    rewrite Nat.iter_succ_r.
    destruct (IH (a_iter l w) (set_c_queue (fun _ => rest) c) bs) as (Hend & Hout).
    + by apply world_ok_a_iter.
    + done.
    + done.
    + cbn. rewrite <-Hbs. apply map_ext. done.
    + cbn. lia.
    + split; [done|]. rewrite Hout, Hconns. cbn. by rewrite alter_alter_eq.
Qed.

End Lemmas.

(** * Properties *)

(** C6: from the router to a client, in order. Over any series of messages from the two
channels, failures to receive included, and whatever else is published in between, a
registered client's queue grows by exactly what is for its user, each publication
once per way it is addressed, in the order of receipt; the managers and connections
stay as they are. After as many turns of its output goroutine as messages are
queued, the connection has been given all of it in that order, and the other side
decompresses and parses each to the JSON of what the router sent. *)
Theorem stream_end_to_end `{HB : BDMsg, HN : Net, HZ : Zlib, HL : !BDMsgLaws, HZL : !ZlibLaws} rs w l c :
  Forall (fun r => forall m, iterates m (r.1 m)) rs -> world_ok w ->
  w_clients w !! l = Some c -> cm_Client (c_ID c) w = Some l -> c_queue c = [] ->
  Forall tc_utf8 (inbox w (c_ID c) rs) ->
  let w1 := subscribe rs w in
  let w2 := Nat.iter (length (inbox w (c_ID c) rs)) (a_iter l) w1 in
  world_ok w1 /\ w_clientM w1 = w_clientM w /\ w_rooms w1 = w_rooms w /\ w_conns w1 = w_conns w /\
  exists bs, w_conns w2 = alter (outputs bs) (c_msc c) (w_conns w) /\
    map receive bs = map (fun m => Some (ToClientMessage_json m)) (inbox w (c_ID c) rs) /\
    exists c', w_clients w2 !! l = Some c' /\ c_queue c' = [].
Proof.
  intros Hrs Hw Hc Hreg Hq Hutf. cbn zeta.
  destruct (subscribe_feeds rs w l c Hrs Hw Hc Hreg) as (ms & [H1 H2 H3 H4 H5 H6 H7]).
  split_and!; try done. set (msgs := inbox w (c_ID c) rs) in *. set (w1 := subscribe rs w) in *.
  destruct (wok_clientM w Hw (c_ID c) l Hreg) as [_ Hmon].
  assert (c_q c = false) as Hq0 by (by apply (wok_q w Hw l c Hc)).
  assert (length msgs = length ms) as Hlen.
  { unfold contents in H7. apply (f_equal length) in H7. by rewrite !length_map in H7. }
  destruct (a_iter_flush (length msgs) w1 l _ (map wire msgs) H1 H6) as ((c' & Hc' & Hc'q & _) & Hconns).
  - done.
  - cbn. rewrite Hq. cbn. unfold contents in H7.
    transitivity (map (fmap wire) (map (fun m => w_msgs w1 !! m) ms)); [by rewrite map_map|].
    by rewrite H7, !map_map.
  - cbn. by rewrite Hq.
  - exists (map wire msgs). split; [rewrite Hconns; cbn; by rewrite H4|]. split; [|by exists c'].
    rewrite map_map. apply List.map_ext_in. intros m Hm. rewrite List.Forall_forall in Hutf.
    by apply receive_wire, Hutf.
Qed.

(** A client of the shared state as the program of Pump.v, between two turns. *)
Definition pump_of (c : Client) (out sent : list loc) : pump :=
  {| pp_queue := c_queue c; pp_q := c_q c; pp_pc := PCheck; pp_out := out; pp_sent := sent |}.

(** The bytes of the messages at their places. *)
Definition wires `{BDMsg, Net, Zlib} (w : World) (ms : list loc) : list bytes :=
  omap (fun m => wire <$> w_msgs w !! m) ms.

(** C24: the turns of the shared state refine the goroutine's own steps. Three steps of
the goroutine, from the test of [c.q], end where [a_iter] ends: with the queue and
the flag it leaves, and with the messages it wrote to the connection; they end at
the test again after a message, in [Wait] when there was none, and in the return
when the client has ended. *)
Theorem a_iter_refines `{HB : BDMsg, HN : Net, HZ : Zlib} w l c out sent :
  world_ok w -> w_clients w !! l = Some c ->
  let p := a_run 3 (pump_of c out sent) in
  let w' := a_iter l w in
  exists c' ms, w_clients w' !! l = Some c' /\
    pp_queue p = c_queue c' /\ pp_q p = c_q c' /\ pp_sent p = sent /\ pp_out p = out ++ ms /\
    w_conns w' = alter (outputs (wires w ms)) (c_msc c) (w_conns w) /\
    pp_pc p = (if c_q c then PDone else if decide (c_queue c = []) then PWaiting else PCheck).
Proof.
  intros Hw Hc. cbn zeta. unfold pump_of. destruct (c_q c) eqn:Hq; [|destruct (c_queue c) as [|m rest] eqn:E].
  - destruct (a_iter_idle w l c Hc (or_introl Hq)) as (Hc' & Hconns & _). exists c, []. cbn.
    rewrite Hq, app_nil_r, Hconns. split_and!; try done. symmetry. by apply alter_id.
  - destruct (a_iter_idle w l c Hc (or_intror E)) as (Hc' & Hconns & _). exists c, []. cbn.
    rewrite Hq, E, app_nil_r, Hconns. split_and!; try done. symmetry. by apply alter_id.
  - destruct (wok_queue w Hw l c m Hc) as [msg Hm]; [rewrite E; set_solver|].
    destruct (a_iter_turn w l c m rest msg Hw Hc Hq E Hm) as (Hc' & Hconns & _).
    exists (set_c_queue (fun _ => rest) c), [m]. unfold wires. cbn. rewrite Hm, Hq. by split_and!.
Qed.

(** * Witnesses *)

Definition sample_stream : list ((gmap string loc -> list string) * received) :=
  [ (map_range, inl ("router", sample_payload)); (map_range, inr (EText "timeout"));
    (map_range, inl ("elsewhere", sample_payload)); (map_range, inl ("mychannel", sample_payload)) ].

Lemma sample_inbox (w : @World test_bdmsg test_net) :
  inbox w "ann" sample_stream = [convert sample_fr; convert sample_fr].
Proof.
  assert (addressed w "ann" sample_fr = [convert sample_fr]) as H.
  { unfold addressed. rewrite decide_True, decide_False by (done || intros [? _]; done). done. }
  assert (published (inl ("router", sample_payload)) = [sample_fr]) as H1 by (vm_compute; reflexivity).
  assert (published (inl ("elsewhere", sample_payload)) = []) as H2 by done.
  assert (published (inl ("mychannel", sample_payload)) = [sample_fr]) as H3 by (vm_compute; reflexivity).
  unfold inbox, sample_stream. cbn [flat_map snd]. rewrite H1, H2, H3. cbn [flat_map published]. by rewrite H.
Qed.

Lemma sample_utf8 : tc_utf8 (convert sample_fr).
Proof.
  unfold tc_utf8. split_and!; try reflexivity. intros x y Hxy. cbn in Hxy.
  apply lookup_singleton_Some in Hxy as [<- <-]. by split.
Qed.

Lemma stream_end_to_end_witness :
  exists b1 b2, w_conns (Nat.iter 2 (@a_iter test_bdmsg test_net test_zlib 2%positive)
      (subscribe sample_stream w_ann2)) !! 2%positive =
    Some (Build_test_conn false false (UD_Client 2%positive) [(MsgTypePush, b1); (MsgTypePush, b2)]).
Proof.
  pose proof (sample_inbox w_ann2) as E.
  destruct (@stream_end_to_end test_bdmsg test_net test_zlib test_bdmsg_laws test_zlib_laws sample_stream w_ann2
    2%positive (new_client 0 ann 2%positive)) as (_ & _ & _ & _ & bs & Hbs & Hr & _).
  - repeat (apply Forall_cons; split; [apply map_range_iterates|]). constructor.
  - apply w_ann2_ok.
  - reflexivity.
  - reflexivity.
  - reflexivity.
  - change (c_ID _) with "ann". rewrite E. apply List.Forall_cons; [|apply List.Forall_cons; [|constructor]]; exact sample_utf8.
  - change (c_ID _) with "ann" in *. rewrite E in Hbs, Hr. change (c_msc _) with 2%positive in Hbs.
    apply (f_equal length) in Hr. rewrite !length_map in Hr. cbn [length] in Hr.
    destruct bs as [|b1 [|b2 [|b3 bs]]]; cbn [length] in Hr; [lia|lia| |lia]. exists b1, b2. cbn [length] in Hbs. rewrite Hbs, lookup_alter_eq. reflexivity.
Defined.

Lemma a_iter_refines_witness :
  pp_pc (a_run 3 (pump_of (new_client 0 ann 2%positive) [] [])) = PWaiting.
Proof.
  destruct (@a_iter_refines test_bdmsg test_net test_zlib w_ann2 2%positive (new_client 0 ann 2%positive) [] []
    w_ann2_ok eq_refl) as (c' & ms & _ & _ & _ & _ & _ & _ & H).
  rewrite H. reflexivity.
Defined.
