(* ===== verification/Heartbeat.v ===== *)
(** The heartbeat check (connectsvc/heartbeat.go): every second the connections
of the clients that should send heartbeats and have not are stopped. *)

From S2P Require Import Prelude Json Protocol Room ToCompute Config Token Rpc State Client.
Local Open Scope Z_scope.

(** * Operations *)

(** The condition of the loop body: clients from version 100 on, silent for
more than three seconds. *)
Definition overdue (now : Z) (c : Client) : bool :=
  let from := millis now - 3000 in
  (100 <=? c_version c) && (c_heartBeatTime c <? from).

Section Heartbeat.
Context `{BDMsg, Net}.

Definition heartbeat_client (now : Z) (l : loc) (w : World) : World :=
  match w_clients w !! l with
  | Some client => if overdue now client then Close l w else w
  | None => w
  end.

(** What a tick of the timer does, walking the map in the given order. *)
Definition heartbeat_tick (now : Z) (order : list string) (w : World) : World :=
  foldl (fun w id => match cm_Client id w with
                     | Some client => heartbeat_client now client w
                     | None => w
                     end) w order.

(** [initHeartBeat]: ticks only if heartbeats are not disabled. *)
Definition initHeartBeat (config : ConfigT) (now : Z) (order : list string) (w : World) : World :=
  if negb (cf_DisableHeartBeat config) then heartbeat_tick now order w else w.

End Heartbeat.

(** * Lemmas *)

Section Lemmas.
Context `{HB : BDMsg, HL : !BDMsgLaws, HN : Net, HZ : Zlib}.

Lemma heartbeat_close_if now order w : heartbeat_tick now order w = close_if (overdue now) order w.
Proof. reflexivity. Qed.

End Lemmas.

(** * Properties *)

(** C25: a tick stops exactly the silent clients. The connection of a registered
client is stopped when its version is at least 100 and its last heartbeat is
more than three seconds old, and left alone otherwise; so are all connections
that belong to no registered client; nothing but connections changes. *)
Theorem heartbeat_stops_silent `{HB : BDMsg, HL : !BDMsgLaws, HN : Net, HZ : Zlib} now order w :
  world_ok w -> iterates (w_clientM w) order ->
  let w' := heartbeat_tick now order w in
  world_ok w' /\ (exists conns, w' = upd_conns (fun _ => conns) w) /\
  (forall id l c, cm_Client id w = Some l -> w_clients w !! l = Some c ->
     w_conns w' !! c_msc c =
       (if decide (100 <= c_version c /\ c_heartBeatTime c + 3000 < millis now)
        then sc_Stop else fun sc => sc) <$> w_conns w !! c_msc c) /\
  (forall s, (forall id l c, cm_Client id w = Some l -> w_clients w !! l = Some c -> c_msc c <> s) ->
     w_conns w' !! s = w_conns w !! s).
Proof.
  intros Hw Ho. cbn zeta. rewrite heartbeat_close_if.
  destruct (close_if_spec (overdue now) order w) as (conns & E & H1 & H2);
    [by eapply iterates_NoDup|done|].
  split; [by apply close_if_ok|]. rewrite E. cbn. split; [eauto|]. split.
  - intros id l c Hl Hc. rewrite (H1 id l c); [|by apply (iterates_elem _ _ _ Ho); eauto|done..].
    f_equal. unfold stop_if, overdue.
    case_decide; [replace (_ && _) with true by lia|replace (_ && _) with false by lia]; done.
  - intros s Hs. apply H2. intros id l c _. apply Hs.
Qed.

(** * Witnesses *)

(** Four seconds after the registration, without a heartbeat. *)
Lemma heartbeat_stops_silent_witness :
  w_conns (heartbeat_tick 4000000000 ["ann"] w_ann2) !! 2%positive =
    Some (Build_test_conn true false (UD_Client 2%positive) []).
Proof.
  destruct (@heartbeat_stops_silent test_bdmsg test_bdmsg_laws test_net test_zlib 4000000000 ["ann"]
    w_ann2 w_ann2_ok) as (_ & _ & H & _); [exact (Permutation_refl ["ann"])|].
  specialize (H "ann" 2%positive (new_client 0 ann 2%positive) eq_refl eq_refl).
  rewrite decide_True in H by (vm_compute; split; congruence).
  etransitivity; [exact H|]. reflexivity.
Defined.
