(* ===== verification/Stat.v ===== *)
(** The figures the server publishes about itself (connectsvc/stat.go and the
sum of the queues of connectsvc/subscribe.go). *)

From S2P Require Import Prelude Json Protocol Room ToCompute Config Token Rpc State Client.
Local Open Scope Z_scope.

Section Stat.
Context `{BDMsg, Net}.

(** * Operations *)

(** [subscriber.stat]: an int32 sum of the int32 lengths of the queues. *)
Definition stat (order : list string) (w : World) : Z :=
  foldl (fun outQueue id =>
    match cm_Client id w with
    | Some l => match w_clients w !! l with
                | Some client => to_int32 (outQueue + to_int32 (len (c_queue client)))
                | None => outQueue
                end
    | None => outQueue
    end) 0 order.

(** The loop over the clients in [RegisterNamingService]. *)
Definition client_statis (w : World) (id : string) : option Statis :=
  l ← cm_Client id w; c ← w_clients w !! l; sc ← w_conns w !! c_msc c; Some (sc_Statis sc).
Definition total_traffic (order : list string) (w : World) : Z * Z :=
  foldl (fun '(totalIn, totalOut) id =>
    match client_statis w id with
    | Some statis => (to_int64 (totalIn + st_BytesReaded statis),
                      to_int64 (totalOut + st_BytesWritten statis))
    | None => (totalIn, totalOut)
    end) (0, 0) order.

(** The function [f] of [RegisterNamingService]: what is published and the
state after it. [order1] and [order2] are the orders of its two walks over the
clients. The measurements of processor and memory are not in the record. *)
Definition publish (now : Z) (order1 order2 : list string) (w : World) : NamingInfo * World :=
  let '(totalIn, totalOut) := total_traffic order1 w in
  let info := w_info w in
  let tempInfo := {|
    ni_RegisterTime := Z.quot now 1000000;
    ni_LoginUsers := ni_LoginUsers info;
    ni_ConnectedClients := ni_ConnectedClients info;
    ni_InData := to_int64 (totalIn - ni_InData info);
    ni_OutData := to_int64 (totalOut - ni_OutData info);
    ni_InQueue := ni_InQueue info;
    ni_OutQueue := stat order2 w
  |} in
  (tempInfo, upd_info (set_ni_Data totalIn totalOut) w).

(** [NamingInfo.Marshal]: the use of the processors, null when it could not be
measured, and of the memory are given as JSON numbers. *)
Definition NamingInfo_Marshal (cpu : option (list string)) (memoryUsage : string) (p : NamingInfo)
    : bytes * option error :=
  (json_Marshal (JObject
     [ ("registerTime", JInt (ni_RegisterTime p)); ("loginUsers", JInt (ni_LoginUsers p));
       ("connectedClients", JInt (ni_ConnectedClients p)); ("inData", JInt (ni_InData p));
       ("outData", JInt (ni_OutData p)); ("inQueue", JInt (ni_InQueue p)); ("outQueue", JInt (ni_OutQueue p));
       ("cpuUsage", match cpu with Some l => JArray (map JNumber l) | None => JNull end);
       ("memoryUsage", JNumber memoryUsage) ]), None).

(** [listener.Accept] and [myConn.Close]: the counter moves when the call of
the wrapped object succeeds. *)
Definition Accept (err : option error) (w : World) : World :=
  match err with
  | None => upd_info (set_ni_ConnectedClients (fun n => to_int32 (n + 1))) w
  | Some _ => w
  end.
Definition conn_closed (err : option error) (w : World) : World :=
  match err with
  | None => upd_info (set_ni_ConnectedClients (fun n => to_int32 (n - 1))) w
  | Some _ => w
  end.

(** [type listener struct], [type myConn struct]: what is wrapped. *)
Record listener (L : Type) := mklistener { ls_Listener : L }.
Record myConn (C : Type) := mkmyConn { mc_Conn : C }.
#[global] Arguments mklistener {L}.
#[global] Arguments ls_Listener {L}.
#[global] Arguments mkmyConn {C}.
#[global] Arguments mc_Conn {C}.
Definition NewListener {L} (inner : L) : listener L := mklistener inner.
Definition NewConn {C} (inner : C) : myConn C := mkmyConn inner.

(** The two methods with the calls they wrap: what is accepted comes wrapped, also with
an error. *)
Definition listener_Accept {L C} (inner_Accept : L -> C * option error) (l : listener L) (w : World)
    : (myConn C * option error) * World :=
  let '(c, err) := inner_Accept (ls_Listener l) in ((NewConn c, err), Accept err w).
Definition myConn_Close {C} (inner_Close : C -> option error) (c : myConn C) (w : World) : option error * World :=
  let err := inner_Close (mc_Conn c) in (err, conn_closed err w).

End Stat.

(** A history of calls of the two methods and their results. *)
Inductive counter_act := CAccept (err : option error) | CClose (err : option error).
Definition counter_do `{BDMsg, Net} (w : World) (a : counter_act) : World :=
  match a with CAccept err => Accept err w | CClose err => conn_closed err w end.
Definition counter_value (a : counter_act) : Z :=
  match a with CAccept None => 1 | CClose None => -1 | _ => 0 end.

(** * Lemmas *)

Section Lemmas.
Context `{HB : BDMsg, HN : Net}.

Fixpoint sum_of (l : list Z) : Z := match l with [] => 0 | x :: l => x + sum_of l end.

Lemma sum_perm l k : l ≡ₚ k -> sum_of l = sum_of k.
Proof. induction 1; cbn in *; lia. Qed.

Lemma wrap_s_add a b w : 0 < w -> wrap_s w (a + wrap_s w b) = wrap_s w (a + b).
Proof. intros Hw. rewrite Z.add_comm, wrap_s_add_l by done. f_equal. lia. Qed.

(** The length of the queue of the client registered under an id. *)
Definition queue_len (w : World) (id : string) : Z :=
  match cm_Client id w with
  | Some l => match w_clients w !! l with Some c => len (c_queue c) | None => 0 end
  | None => 0
  end.

Lemma stat_fold order w acc :
  - 2 ^ 31 <= acc < 2 ^ 31 ->
  foldl (fun outQueue id =>
    match cm_Client id w with
    | Some l => match w_clients w !! l with
                | Some client => to_int32 (outQueue + to_int32 (len (c_queue client)))
                | None => outQueue
                end
    | None => outQueue
    end) acc order = to_int32 (acc + sum_of (map (queue_len w) order)).
Proof.
  revert acc. induction order as [|id order IH]; intros acc Hacc; cbn.
  - unfold to_int32. rewrite wrap_s_id; lia.
  - unfold queue_len at 1.
    destruct (cm_Client id w) as [l|]; [|rewrite IH by done; f_equal; lia].
    destruct (w_clients w !! l) as [c|]; [|rewrite IH by done; f_equal; lia].
    rewrite IH by (apply (wrap_s_range 32); lia). unfold to_int32.
    rewrite wrap_s_add_l, (Z.add_comm acc), <-Z.add_assoc, wrap_s_add_l by lia. f_equal. lia.
Qed.

End Lemmas.

(** * Properties *)

(** The published length of the output queues is the number of messages
queued for registered clients, reduced to 32 bits; the order in which the map
is walked does not matter. *)
Theorem stat_total `{BDMsg, Net} w order order' :
  iterates (w_clientM w) order -> iterates (w_clientM w) order' ->
  stat order w = to_int32 (sum_of (map (queue_len w) order')) /\
  - 2 ^ 31 <= stat order w < 2 ^ 31.
Proof.
  intros Ho Ho'. unfold stat. rewrite stat_fold by lia.
  split; [|apply (wrap_s_range 32); lia]. f_equal. cbn. apply sum_perm.
  unfold iterates in *. by rewrite Ho, Ho'.
Qed.

(** The published traffic is the difference to the total of the publication
before, in 64 bits: whatever happens in between, the published numbers of a
sequence of publications add up to the last total. *)
Theorem publish_deltas `{BDMsg, Net} now1 now2 o1 o2 o3 o4 w w2 :
  let p1 := (publish now1 o1 o2 w).1 in
  let w1 := (publish now1 o1 o2 w).2 in
  let p2 := (publish now2 o3 o4 w2).1 in
  ni_InData (w_info w) = 0 -> ni_OutData (w_info w) = 0 ->
  ni_InData (w_info w2) = ni_InData (w_info w1) -> ni_OutData (w_info w2) = ni_OutData (w_info w1) ->
  to_int64 (ni_InData p1 + ni_InData p2) = to_int64 (total_traffic o3 w2).1 /\
  to_int64 (ni_OutData p1 + ni_OutData p2) = to_int64 (total_traffic o3 w2).2.
Proof.
  unfold publish. destruct (total_traffic o1 w) as [in1 out1], (total_traffic o3 w2) as [in2 out2].
  cbn. intros -> -> -> ->. unfold to_int64.
  rewrite !wrap_s_add_l, !wrap_s_add by lia. split; f_equal; lia.
Qed.

(** The counter of connections. After any sequence of calls of [Accept] and
[Close] on a server without connections, the counter is the number of
successful accepts less the number of successful closes, in 32 bits. *)
Theorem connected_clients `{HB : BDMsg, HN : Net} acts w :
  ni_ConnectedClients (w_info w) = 0 ->
  ni_ConnectedClients (w_info (foldl counter_do w acts)) = to_int32 (sum_of (map counter_value acts)).
Proof.
  intros H0. assert (forall acts w n, ni_ConnectedClients (w_info w) = to_int32 n ->
    ni_ConnectedClients (w_info (foldl counter_do w acts)) = to_int32 (n + sum_of (map counter_value acts))) as Hgen.
  { clear. induction acts as [|a acts IH]; intros w n Hn; cbn; [rewrite Hn; f_equal; lia|].
    rewrite (IH _ (n + counter_value a)); [f_equal; lia|].
    destruct a as [[e|]|[e|]]; cbn; rewrite Hn; unfold to_int32, Z.sub; rewrite ?wrap_s_add_l by lia; f_equal; lia. }
  rewrite (Hgen acts w 0); [done|]. by rewrite H0.
Qed.

(** * Witnesses *)

Lemma stat_total_witness : stat ["ann"] w_ann2 = to_int32 0.
Proof.
  exact (proj1 (@stat_total test_bdmsg test_net w_ann2 ["ann"] ["ann"]
    (Permutation_refl ["ann"]) (Permutation_refl ["ann"]))).
Defined.

Lemma publish_deltas_witness :
  to_int64 (ni_InData (publish 0 ["ann"] ["ann"] w_ann2).1 + ni_InData (publish 1 ["ann"] ["ann"] w_ann2).1) =
  to_int64 (total_traffic ["ann"] w_ann2).1.
Proof.
  refine (proj1 (@publish_deltas test_bdmsg test_net 0 1 ["ann"] ["ann"] ["ann"] ["ann"] w_ann2 w_ann2 _ _ _ _));
    vm_compute; reflexivity.
Defined.

Lemma connected_clients_witness :
  ni_ConnectedClients (w_info (foldl counter_do w_ann2 [CAccept None; CAccept None; CClose None;
    CClose (Some (EText "closed"))])) = 1.
Proof. apply (@connected_clients test_bdmsg test_net). reflexivity. Defined.
