(* ===== verification/Service.v ===== *)
(** The service (connectsvc/connectsvc.go): the handlers of the five kinds of
messages, the consumer that sends the queued messages to the compute servers,
and the whole server as a transition system over the shared state. *)

From S2P Require Import Prelude GoText Json ProtoDef Protocol ToCompute Room Config Token Rpc State.
From S2P Require Import Client Subscribe Heartbeat Stat.
Local Open Scope Z_scope.

Section Service.
Context `{HB : BDMsg, HN : Net, HG : Gorsa, HZ : Zlib, HP : Proto}.

(** * Handlers

A handler runs on the pumper of a connection [s]. Its result says how it
returns to the package bdmsg: normally, or with a panic it did not recover. *)

(** [p.UserData().( *bdmsg.SClient)] and [p.UserData().( *Client)] *)
Definition user_data (s : loc) (w : World) : UserData :=
  match w_conns w !! s with Some sc => sc_UserData sc | None => UD_nil end.
Definition assert_SClient (s : loc) : M World loc := fun w =>
  match user_data s w with
  | UD_SClient msc => (Ret msc, w)
  | _ => (Panic (PRt TypeAssertion), w)
  end.
Definition assert_Client (s : loc) : M World loc := fun w =>
  match user_data s w with
  | UD_Client c => (Ret c, w)
  | _ => (Panic (PRt TypeAssertion), w)
  end.

Definition Stop (msc : loc) : M World unit := modify (on_conn msc sc_Stop).
Definition client_Stop (c : loc) : M World unit := modify (Close c).
Definition Handshaked (msc : loc) : M World bool :=
  gets (fun w => match w_conns w !! msc with Some sc => sc_Handshaked sc | None => false end).

(** [service.handleRegister] *)
Definition handleRegister (config : ConfigT) (spare : bytes) (now : Z) (s : loc) (m : bytes)
    : M World unit :=
  msc ← assert_SClient s;
  recovering
    (h ← Handshaked msc;
     if (h : bool) then throw (PErr (EDef ErrUnexpected)) else
     let '(register, err) := Register_Unmarshal m zero_Register in
     match err with
     | Some _ => throw (PErr (EDef ErrParameter))
     | None =>
         r ← cm_clientIn config spare now register msc;
         match r with
         | (_, Some _) => throw (PErr (EDef ErrUnexpected))
         | (_, None) => modify (on_conn msc sc_Handshake)
         end
     end)
    (fun _ => Stop msc).

(** [service.handleRefreshToken]: what [refreshToken] returns is ignored. *)
Definition handleRefreshToken (config : ConfigT) (spare : bytes) (now : Z) (s : loc) (m : bytes)
    : M World unit :=
  c ← assert_Client s;
  recovering
    (modify (heartBeat now c) ≫= fun _ =>
     let '(rt, err) := RefreshToken_Unmarshal m zero_RefreshToken in
     match err with
     | Some _ => throw (PErr (EDef ErrParameter))
     | None => refreshToken config spare c (rt_Token rt) ≫= fun _ => mret tt
     end)
    (fun _ => client_Stop c).

(** [service.handleHeartBeat]: the message is not looked at. *)
Definition handleHeartBeat (now : Z) (s : loc) (m : bytes) : M World unit :=
  c ← assert_Client s; modify (heartBeat now c).

(** [s.roomM.clientIn(c, roomId)], with its assignment to [c.roomId]. *)
Definition roomM_clientIn (c : loc) (roomId : string) (w : World) : World :=
  match w_clients w !! c with
  | Some client =>
      let '(rooms, stored) := rm_clientIn (w_rooms w) c (c_ID client) roomId in
      let w := upd_rooms (fun _ => rooms) w in
      match stored with
      | Some r => on_client c (set_c_roomId r) w
      | None => w
      end
  | None => w
  end.

(** [service.handleEnterRoom]: its panic is not recovered. *)
Definition handleEnterRoom (s : loc) (m : bytes) : M World unit :=
  c ← assert_Client s;
  let '(enterRoom, err) := EnterRoom_Unmarshal m zero_EnterRoom in
  match err with
  | Some _ => throw (PErr (EDef ErrParameter))
  | None =>
      modify (roomM_clientIn c (er_RoomId enterRoom)) ≫= fun _ =>
      modify (on_client c (set_c_level (er_Level enterRoom)))
  end.

(** [atomic.AddUint64(&chatMessageCounter, 1)] *)
Definition next_message_id (w : World) : outcome Z * World :=
  let n := wrap_u 64 (w_chatMessageCounter w + 1) in
  (Ret n, set_counters n (w_packedMessageCounter w) w).

(** [messageQueueGroup.Add] *)
Definition group_Add (msg : FromConnectorMessage) (w : World) : outcome unit * World :=
  match mqg_Add (w_mqg w) msg with
  | Ret g => (Ret tt, set_mqg g w)
  | Panic p => (Panic p, w)
  | Stuck => (Stuck, w)
  end.

(** The part of [handleMsg] that depends on the message: the room, the fields
of the message for the compute servers. *)
Definition msg_fields (c : loc) (roomId : string) (t : Z) (m : bytes)
    : M World (string * Z * string * gomap string) :=
  if t =? 1 then
    let '(chat, err) := Chat_Unmarshal m zero_Chat in
    match err with
    | Some _ => throw (PErr (EDef ErrParameter))
    | None =>
        let params : gomap string := Some {["content" := ch_Content chat]} in
        if negb (bool_decide (ch_RoomId chat = "")) && negb (bool_decide (ch_RoomId chat = roomId))
        then modify (roomM_clientIn c (ch_RoomId chat)) ≫= fun _ =>
             mret (ch_RoomId chat, ch_Level chat, ch_Nickname chat, params)
        else mret (roomId, ch_Level chat, ch_Nickname chat, params)
    end
  else mret (roomId, 0, "", None).

(** [service.handleMsg]: [now1] and [now2] are the times of the heartbeat and
of the message; its panics are not recovered. *)
Definition handleMsg (now1 now2 : Z) (s : loc) (t : Z) (m : bytes) : M World unit :=
  c ← assert_Client s;
  modify (heartBeat now1 c) ≫= fun _ =>
  client ← deref (fun w => w_clients w !! c);
  fields ← msg_fields c (c_roomId client) t m;
  let '(roomId, level, nickname, params) := fields in
  id ← next_message_id;
  group_Add {|
    fc_MessageId := format_int id;
    fc_RoomId := roomId;
    fc_UserId := c_ID client;
    fc_Nickname := nickname;
    fc_Time := Z.quot now2 1000000;
    fc_Level := to_int32 level;
    fc_Type := to_int32 t;
    fc_Params := params
  |}.

(** The mux of [newService]. *)
Definition dispatch (config : ConfigT) (spare : bytes) (now1 now2 : Z) (s : loc) (t : Z) (m : bytes)
    : M World unit :=
  if t =? MsgTypeRegister then handleRegister config spare now1 s m
  else if t =? MsgTypeEnterRoom then handleEnterRoom s m
  else if t =? MsgTypeChat then handleMsg now1 now2 s t m
  else if t =? MsgTypeRefreshToken then handleRefreshToken config spare now1 s m
  else if t =? MsgTypeHeartBeat then handleHeartBeat now1 s m
  else mret tt.

(** * The consumer *)

(** A call on the struct [rpcClient], which the callee gets as a copy. *)
Definition on_rpc {A} (f : rpc -> M rpc_env A) : M World A := fun w =>
  let '(r, e) := f (w_rpc w) (w_rpc_env w) in (r, set_rpc (w_rpc w) e w).

(** [consumeEvent]: at most 10000 messages leave the queues, whose rooms are
visited in the order [rooms], and are delivered; panics are recovered. *)
Definition consumeEvent (rooms : list string) : M World unit :=
  recovering
    ((fun w => let '(readyToDeliver, restCount, g) := mqg_DrainTo rooms (w_mqg w) [] 10000 in
               (Ret readyToDeliver, set_mqg g w)) ≫= fun readyToDeliver =>
     on_rpc (fun r => deliver r readyToDeliver) ≫= fun _ => mret tt)
    (fun _ => mret tt).

(** [consume] *)
Definition consume (rooms : list string) : M World unit :=
  modify (fun w => set_counters (w_chatMessageCounter w) (wrap_u 64 (w_packedMessageCounter w + 1)) w)
    ≫= fun _ => consumeEvent rooms.

(** The tick of [initRpcServerDiscovery], which assigns to the struct itself. *)
Definition discovery (result : gmap string string + error) (now : Z) (order conns : list string)
    : M World unit := fun w =>
  match discover (w_rpc w) result now order conns (w_rpc_env w) with
  | (Ret r, e) => (Ret tt, set_rpc r e w)
  | (Panic p, e) => (Panic p, set_rpc (w_rpc w) e w)
  | (Stuck, e) => (Stuck, set_rpc (w_rpc w) e w)
  end.

(** * The server as a transition system

Each step is one event: a connection accepted or lost, a message handled, a
publication, a turn or the return of a goroutine, a timer, a tick. Handlers of
different connections interleave as whole steps; their own critical sections are in
ToCompute.v, Room.v and Pump.v. *)
Inductive step (config : ConfigT) : World -> World -> Prop :=
  | step_accept w s sc :
      w_conns w !! s = None -> sc_UserData sc = UD_SClient s ->
      step config w (upd_conns <[s := sc]> (Accept None w))
  | step_lost w s : step config w (on_conn s sc_Stop w)
  | step_conn_closed w err : step config w (conn_closed err w)
  | step_message w spare now1 now2 s t m :
      step config w (dispatch config spare now1 now2 s t m w).2
  | step_publication w range payload :
      (forall m, iterates m (range m)) -> step config w (handleSubscription range payload w)
  | step_output w l : TOutput l ∈ w_tasks w -> step config w (a_iter l w)
  | step_monitor w ts1 l ts2 :
      w_tasks w = ts1 ++ TMonitor l :: ts2 -> monitor_ready l w = true ->
      step config w (ending l (upd_tasks (fun _ => ts1 ++ ts2) w))
  | step_expire w ts1 l e ts2 now :
      w_tasks w = ts1 ++ TExpire l e :: ts2 ->
      step config w (expire now l e (upd_tasks (fun _ => ts1 ++ ts2) w))
  | step_timer w l now : step config w (timer_fire now l w)
  | step_heartbeat w now order :
      iterates (w_clientM w) order -> step config w (initHeartBeat config now order w)
  | step_consume w rooms :
      iterates (gm_content (mqg_group (w_mqg w))) rooms -> step config w (consume rooms w).2
  | step_discovery w result now order conns :
      step config w (discovery result now order conns w).2
  | step_publish w now order1 order2 : step config w (publish now order1 order2 w).2
  | step_close_all w order :
      iterates (w_clientM w) order -> step config w (CloseAll order w).

(** The monitors alone: one of them sees its connection stopped and ends its client. *)
Inductive monitor_step : World -> World -> Prop :=
  | monitor_ends w ts1 l ts2 :
      w_tasks w = ts1 ++ TMonitor l :: ts2 -> monitor_ready l w = true ->
      monitor_step w (ending l (upd_tasks (fun _ => ts1 ++ ts2) w)).

End Service.

(** * Lemmas *)

Section Invariance.
Context `{HB : BDMsg, HL : !BDMsgLaws, HN : Net, HG : Gorsa, HZ : Zlib, HP : Proto}.

Lemma user_data_Client s c w :
  world_ok w -> user_data s w = UD_Client c ->
  exists client sc, w_clients w !! c = Some client /\ c_msc client = s /\ w_conns w !! s = Some sc /\
    sc_UserData sc = UD_Client c.
Proof.
  unfold user_data. intros Hw. destruct (w_conns w !! s) as [sc|] eqn:Hs; [|done]. intros Hd.
  destruct (wok_Client w Hw s sc c Hs Hd) as (client & ? & ?). eauto 6.
Qed.

Lemma user_data_SClient s msc w :
  world_ok w -> user_data s w = UD_SClient msc ->
  msc = s /\ exists sc, w_conns w !! s = Some sc /\ sc_UserData sc = UD_SClient s.
Proof.
  unfold user_data. intros Hw. destruct (w_conns w !! s) as [sc|] eqn:Hs; [|done]. intros Hd.
  destruct (wok_SClient w Hw s sc msc Hs Hd) as [-> _]. eauto.
Qed.

Lemma assert_Client_inv s w a w' :
  assert_Client s w = (Ret a, w') -> w' = w /\ user_data s w = UD_Client a.
Proof. unfold assert_Client. destruct (user_data s w); naive_solver. Qed.

Lemma assert_Client_ok s w : world_ok w -> world_ok (assert_Client s w).2.
Proof. unfold assert_Client. by destruct (user_data s w). Qed.

Lemma roomM_clientIn_ok c roomId w : world_ok w -> world_ok (roomM_clientIn c roomId w).
Proof.
  intros Hw. unfold roomM_clientIn. destruct (w_clients w !! c) as [client|] eqn:Hc; [|done].
  pose proof (rm_clientIn_wf (w_rooms w) c (c_ID client) roomId (wok_rooms w Hw)) as Hwf.
  pose proof (fun r i => rm_clientIn_lookup (w_rooms w) c (c_ID client) roomId r i (wok_rooms w Hw)) as Hl.
  destruct (decide (roomId = "")) as [->|Hr].
  { unfold rm_clientIn. rewrite bool_decide_true by done. apply world_ok_rooms; [apply Hw| |done].
    intros *. by apply (wok_member w Hw). }
  unfold rm_clientIn in *. rewrite bool_decide_false in * by done. cbn in Hwf, Hl.
  apply world_ok_on_client; [cbn; auto|]. apply world_ok_rooms; [done| |done].
  intros r id l. rewrite Hl by done. case_decide as Hd; [|by apply (wok_member w Hw)].
  intros [= <-]. destruct Hd as [_ ->]. by exists client.
Qed.

Lemma group_Add_ok msg w : world_ok w -> world_ok (group_Add msg w).2.
Proof.
  intros Hw. unfold group_Add. destruct (mqg_Add_spec (w_mqg w) msg (wok_mqg w Hw)) as (g & -> & Hg & _).
  by apply world_ok_mqg.
Qed.

Lemma msg_fields_ok c roomId t m w : world_ok w -> world_ok (msg_fields c roomId t m w).2.
Proof.
  intros Hw. unfold msg_fields. case_match; [|done]. destruct (Chat_Unmarshal m zero_Chat) as [chat [e|]]; [done|].
  case_match; [|done]. by apply roomM_clientIn_ok.
Qed.

Lemma handleRegister_ok config spare now s m w :
  world_ok w -> world_ok (handleRegister config spare now s m w).2.
Proof.
  intros Hw. unfold handleRegister. apply bind_inv; [unfold assert_SClient; by case_match|].
  intros msc w' Hm _. unfold assert_SClient in Hm. destruct (user_data s w) as [|msc'|] eqn:Hd; try done.
  injection Hm as -> <-. destruct (user_data_SClient s msc w Hw Hd) as [-> (sc & Hsc & Hud)].
  apply recovering_inv.
  2:{ intros p w' Hw'. apply world_ok_on_conn; [apply stop_UserData|done]. }
  unfold Handshaked. run. case_match; [done|].
  destruct (Register_Unmarshal m zero_Register) as [register [e|]]; [done|]. run.
  pose proof (world_ok_clientIn config spare now register s w sc Hsc Hud Hw) as Hin.
  destruct (cm_clientIn config spare now register s w) as [[[x [e|]]|p|] w']; cbn in *; try done.
  apply world_ok_on_conn; [apply handshake_UserData|done].
Qed.

Lemma handleRefreshToken_ok config spare now s m w :
  world_ok w -> world_ok (handleRefreshToken config spare now s m w).2.
Proof.
  intros Hw. unfold handleRefreshToken. apply bind_inv; [by apply assert_Client_ok|].
  intros c w' [-> Hd]%assert_Client_inv _. destruct (user_data_Client s c w Hw Hd) as (client & _ & Hc & _).
  apply recovering_inv; [|intros p w' Hw'; by apply world_ok_Close]. run.
  pose proof (world_ok_heartBeat now c w Hw) as Hw1.
  destruct (RefreshToken_Unmarshal m zero_RefreshToken) as [rt [e|]]; [done|].
  pose proof (world_ok_refreshToken config spare c (rt_Token rt) (heartBeat now c w)) as H. run.
  destruct (refreshToken config spare c (rt_Token rt) (heartBeat now c w)) as [[x|p|] w']; cbn in *;
    (apply H; [|done]); rewrite lookup_alter_eq, Hc; by eexists.
Qed.

Lemma dispatch_ok config spare now1 now2 s t m w :
  world_ok w -> world_ok (dispatch config spare now1 now2 s t m w).2.
Proof.
  intros Hw. unfold dispatch. repeat case_match.
  - by apply handleRegister_ok.
  - unfold handleEnterRoom. apply bind_inv; [by apply assert_Client_ok|].
    intros c w' [-> Hd]%assert_Client_inv _.
    destruct (EnterRoom_Unmarshal m zero_EnterRoom) as [er [e|]]; [done|]. run.
    apply world_ok_on_client; [cbn; auto|]. by apply roomM_clientIn_ok.
  - unfold handleMsg. apply bind_inv; [by apply assert_Client_ok|].
    intros c w' [-> Hd]%assert_Client_inv _. run.
    pose proof (world_ok_heartBeat now1 c w Hw) as Hw1.
    destruct (alter _ c (w_clients w) !! c) as [client|]; [|done].
    pose proof (msg_fields_ok c (c_roomId client) t m _ Hw1) as Hw2.
    destruct (msg_fields c (c_roomId client) t m (heartBeat now1 c w)) as [[f|p|] w2]; try done.
    destruct f as [[[roomId level] nickname] params]. by apply group_Add_ok, world_ok_counters.
  - by apply handleRefreshToken_ok.
  - unfold handleHeartBeat. apply bind_inv; [by apply assert_Client_ok|].
    intros c w' [-> _]%assert_Client_inv _. by apply world_ok_heartBeat.
  - done.
Qed.

Lemma consume_ok rooms w :
  iterates (gm_content (mqg_group (w_mqg w))) rooms -> world_ok w -> world_ok (consume rooms w).2.
Proof.
  intros Hr Hw. unfold consume. run. unfold consumeEvent. apply recovering_inv; [|done]. run.
  destruct (mqg_DrainTo rooms (w_mqg w) [] 10000) as [[msgs rest] g] eqn:E.
  assert (mqg_wf g) as Hg.
  { apply (mqg_drain_spec rooms (w_mqg w) [] 10000 0 msgs rest g (wok_mqg w Hw)).
    - by eapply iterates_NoDup.
    - intros r. by apply iterates_find.
    - exact E. }
  unfold on_rpc. cbn. destruct (deliver (w_rpc w) msgs (w_rpc_env w)) as [[x|p|] e]; cbn;
    by apply world_ok_rpc, world_ok_mqg, world_ok_counters.
Qed.

Lemma step_ok config w w' : world_ok w -> step config w w' -> world_ok w'.
Proof.
  intros Hw Hs. destruct Hs.
  - apply world_ok_connect; [done..|]. by apply world_ok_info.
  - apply world_ok_on_conn; [apply stop_UserData|done].
  - unfold conn_closed. case_match; [done|]. by apply world_ok_info.
  - by apply dispatch_ok.
  - by apply handleSubscription_ok.
  - by apply world_ok_a_iter.
  - by apply world_ok_ending.
  - apply world_ok_expire. by eapply world_ok_unspawn.
  - by apply world_ok_timer_fire.
  - unfold initHeartBeat. case_match; [|done]. rewrite heartbeat_close_if. by apply close_if_ok.
  - by apply consume_ok.
  - unfold discovery. destruct (discover _ _ _ _ _ _) as [[r|p|] e]; by apply world_ok_rpc.
  - unfold publish. destruct (total_traffic order1 w). by apply world_ok_info.
  - rewrite CloseAll_close_if. by apply close_if_ok.
Qed.

Lemma reachable_ok config e w : rtc (step config) (w_init e) w -> world_ok w.
Proof.
  intros H. remember (w_init e) as w0 eqn:E. assert (world_ok w0) as H0 by (subst; apply world_ok_init).
  clear E. induction H; eauto using step_ok.
Qed.

Lemma monitor_step_step config w w' : monitor_step w w' -> step config w w'.
Proof. intros []. by apply step_monitor. Qed.

(** One monitor less, and one registration at most: that of a client whose connection has stopped. *)
Lemma monitor_step_spec w w' :
  world_ok w -> monitor_step w w' ->
  world_ok w' /\ length (monitors (w_tasks w)) = S (length (monitors (w_tasks w'))) /\
  (forall l, monitor_ready l w' = monitor_ready l w) /\
  (forall id l, cm_Client id w' = Some l -> cm_Client id w = Some l) /\
  (forall id l, cm_Client id w = Some l -> monitor_ready l w = false -> cm_Client id w' = Some l).
Proof.
  intros Hw Hs. destruct Hs as [w0 ts1 l ts2 Hts Hready]. split; [by apply world_ok_ending|].
  destruct (ending_manager ts1 l ts2 w0 Hw Hts) as (Hgone & Hstay & Hsame).
  set (w1 := ending l (upd_tasks (fun _ => ts1 ++ ts2) w0)) in *.
  assert (monitors (w_tasks w1) = monitors (ts1 ++ ts2)) as Hmon.
  { destruct (wok_tasks w0 Hw (TMonitor l)) as [c Hc]; [rewrite Hts; apply elem_of_app; right; left|].
    unfold w1. by rewrite (ending_eq l c). }
  split_and!; [by rewrite Hmon, Hts, monitors_split|done| |]; unfold cm_Client; intros id l' Hid.
  - destruct (decide (l' = l)) as [->|Hne]; [by destruct (Hgone id)|]. by rewrite <-Hstay.
  - intros Hr. rewrite Hstay; [done|]. congruence.
Qed.

Lemma monitor_steps_spec w w' :
  world_ok w -> rtc monitor_step w w' ->
  world_ok w' /\ (forall l, monitor_ready l w' = monitor_ready l w) /\
  (forall id l, cm_Client id w' = Some l -> cm_Client id w = Some l) /\
  (forall id l, cm_Client id w = Some l -> monitor_ready l w = false -> cm_Client id w' = Some l).
Proof.
  intros Hw Hsteps. induction Hsteps as [w|w w1 w' Hs _ IH]; [done|].
  destruct (monitor_step_spec w w1 Hw Hs) as (Hw1 & _ & Hr1 & Hback1 & Hforth1).
  destruct (IH Hw1) as (Hw' & Hr & Hback & Hforth). split_and!; [done|..].
  - intros l. by rewrite Hr.
  - eauto.
  - intros id l Hid Hl. apply Hforth; [auto|by rewrite Hr1].
Qed.

(** The monitors come to rest. *)
Lemma monitor_steps_bound n w w' :
  world_ok w -> nsteps monitor_step n w w' -> (n <= length (monitors (w_tasks w)))%nat.
Proof.
  revert w. induction n as [|n IH]; intros w Hw Hn; [lia|]. inversion Hn as [|? ? w1 ? Hs Hr]; subst.
  destruct (monitor_step_spec w w1 Hw Hs) as (Hw1 & -> & _). specialize (IH w1 Hw1 Hr). lia.
Qed.

Lemma monitors_next w : world_ok w -> (exists w', monitor_step w w') \/
  forall id l, cm_Client id w = Some l -> monitor_ready l w = false.
Proof.
  intros Hw. destruct (decide (Exists (fun l => monitor_ready l w = true) (monitors (w_tasks w)))) as [Hex|Hno].
  - left. apply Exists_exists in Hex as (l & Hl & Hready).
    apply list_elem_of_omap in Hl as (t & Ht & Htl). destruct t; simplify_eq/=.
    apply list_elem_of_split in Ht as (ts1 & ts2 & Hts). eexists. by apply (monitor_ends _ ts1).
  - right. intros id l Hl. destruct (wok_clientM w Hw id l Hl) as [_ Hin]. destruct (monitor_ready l w) eqn:E; [|done].
    destruct Hno. apply Exists_exists. eauto.
Qed.

(** Whoever is registered then is whoever was, of those whose connection runs. *)
Lemma monitors_rest w w' :
  world_ok w -> rtc monitor_step w w' -> (forall w'', ~ monitor_step w' w'') ->
  forall id l, cm_Client id w' = Some l <-> cm_Client id w = Some l /\ monitor_ready l w = false.
Proof.
  intros Hw Hsteps Hrest id l. destruct (monitor_steps_spec w w' Hw Hsteps) as (Hw' & Hr & Hback & Hforth).
  destruct (monitors_next w' Hw') as [[w'' Hs]|Hn]; [by destruct (Hrest w'')|].
  split; [|intros [H1 H2]; auto]. intros Hl. split; [auto|]. rewrite <-Hr. eauto.
Qed.

Lemma monitors_drain w : world_ok w -> exists w', rtc monitor_step w w' /\ forall w'', ~ monitor_step w' w''.
Proof.
  intros Hw. remember (length (monitors (w_tasks w))) as n eqn:Hn.
  revert w Hw Hn. induction n as [|n IH]; intros w Hw Hn.
  - exists w. split; [done|]. intros w'' Hs. destruct (monitor_step_spec w w'' Hw Hs) as (_ & E & _). lia.
  - destruct (decide (Exists (fun l => monitor_ready l w = true) (monitors (w_tasks w)))) as [Hex|Hno].
    + apply Exists_exists in Hex as (l & Hl & Hready).
      apply list_elem_of_omap in Hl as (t & Ht & Htl). destruct t; simplify_eq/=.
      apply list_elem_of_split in Ht as (ts1 & ts2 & Hts).
      pose proof (monitor_ends w ts1 l ts2 Hts Hready) as Hs.
      destruct (monitor_step_spec w _ Hw Hs) as (Hw1 & E & _).
      destruct (IH _ Hw1) as (w' & H1 & H2); [lia|]. exists w'. split; [by eapply rtc_l|done].
    + exists w. split; [done|]. intros w'' Hs. destruct Hs as [w ts1 l ts2 Hts Hready]. apply Hno, Exists_exists.
      exists l. split; [|done]. rewrite Hts, monitors_split. set_solver.
Qed.

End Invariance.

(** * Properties *)

(** C2: the invariant of the server. Whatever connections, messages,
publications, timers and ticks come in whatever order, in every reachable state:
the manager leads from an id to a client with this id, which has not ended and
has a connection of its own; so do the rooms; no room is empty or shares its
map with another; the number of users is that of the clients that have not ended;
messages in queues exist and cache only their own bytes; the queues to
the compute servers are well-formed. *)
Theorem server_invariant `{HB : BDMsg, HL : !BDMsgLaws, HN : Net, HG : Gorsa, HZ : Zlib, HP : Proto}
    config e w :
  rtc (step config) (w_init e) w ->
  (forall id l, cm_Client id w = Some l ->
     exists c, w_clients w !! l = Some c /\ c_ID c = id /\ c_q c = false /\ is_Some (w_conns w !! c_msc c)) /\
  (forall l l' c c', w_clients w !! l = Some c -> w_clients w !! l' = Some c' ->
     c_msc c = c_msc c' -> l = l') /\
  (forall r id l, rm_lookup (w_rooms w) r id = Some l -> exists c, w_clients w !! l = Some c /\ c_ID c = id) /\
  rm_wf (w_rooms w) /\
  (exists live, NoDup live /\
     (forall l, l ∈ live <-> exists c, w_clients w !! l = Some c /\ c_q c = false) /\
     ni_LoginUsers (w_info w) = to_int32 (len live)) /\
  (forall l c m, w_clients w !! l = Some c -> m ∈ c_queue c -> is_Some (w_msgs w !! m)) /\
  (forall m msg, w_msgs w !! m = Some msg -> cache_ok msg) /\
  mqg_wf (w_mqg w).
Proof.
  intros Hw%reachable_ok. split_and!; try apply Hw.
  - intros id l Hl. destruct (wok_clientM w Hw id l Hl) as [(c & Hc & Eid) Hin].
    exists c. split_and!; [done..|by apply (wok_q w Hw l c Hc)|by eapply wok_conn].
  - exists (monitors (w_tasks w)). split_and!; [apply Hw| |apply Hw]. intros l. split.
    + intros Hin. pose proof Hin as Hin'.
      apply list_elem_of_omap in Hin' as (t & Ht & Htl). destruct (wok_tasks w Hw t Ht) as [c Hc].
      destruct t; simplify_eq/=. exists c. split; [done|]. by apply (wok_q w Hw l c Hc).
    + intros (c & Hc & Hq). by apply (wok_q w Hw l c Hc).
Qed.

(** The clients of stopped connections leave, and only they. From any reachable state, the
monitors alone come to rest after at most as many steps as there are monitors; and
however they ran, the clients registered then are the ones registered before whose connection
runs. *)
Theorem stopped_clients_leave `{HB : BDMsg, HL : !BDMsgLaws, HN : Net, HG : Gorsa, HZ : Zlib, HP : Proto}
    config e w :
  rtc (step config) (w_init e) w ->
  (forall n w', nsteps monitor_step n w w' -> (n <= length (monitors (w_tasks w)))%nat) /\
  (forall w', rtc monitor_step w w' -> (forall w'', ~ monitor_step w' w'') -> forall id l,
     cm_Client id w' = Some l <-> cm_Client id w = Some l /\ monitor_ready l w = false).
Proof.
  intros Hw%reachable_ok. split; [intros n w'; by apply monitor_steps_bound|intros w' H1 H2; by apply monitors_rest].
Qed.

(** C15: a connection is let in exactly for a good registration. For a connection
that has not registered: if the message parses and its token is accepted, the
id leads to the new client of this connection and the handshake is done; if
not, the connection is stopped and nothing else happens. *)
Theorem handleRegister_gate `{HB : BDMsg, HL : !BDMsgLaws, HN : Net, HG : Gorsa, HZ : Zlib}
    config spare now s m w sc :
  world_ok w -> w_conns w !! s = Some sc -> sc_UserData sc = UD_SClient s -> sc_Handshaked sc = false ->
  let '(register, err) := Register_Unmarshal m zero_Register in
  let '(r, w') := handleRegister config spare now s m w in
  match err, refreshToken0 config spare (rg_Token register) with
  | None, Ret (_, None) =>
      r = Ret tt /\ exists l sc',
        cm_Client (rg_UserId register) w' = Some l /\
        w_clients w' !! l = Some (new_client now register s) /\
        w_conns w' !! s = Some sc' /\ sc_Handshaked sc' = true /\ sc_UserData sc' = UD_Client l
  | None, Stuck => r = Stuck
  | _, _ => r = Ret tt /\ w' = on_conn s sc_Stop w
  end.
Proof.
  intros Hw Hs Hd Hh. destruct (Register_Unmarshal m zero_Register) as [register err] eqn:Hm.
  destruct (handleRegister config spare now s m w) as [r w'] eqn:Hrun.
  unfold handleRegister, assert_SClient, user_data, recovering, Handshaked, Stop in Hrun.
  run. rewrite Hs, Hd in Hrun. cbn in Hrun. rewrite Hs, Hh, Hm in Hrun. cbn in Hrun.
  destruct err as [e|]; [cbn in Hrun; by injection Hrun as <- <-|].
  rewrite cm_clientIn_eq in Hrun.
  destruct (refreshToken0 config spare (rg_Token register)) as [[claims [e|]]|p|];
    try (cbn in Hrun; by injection Hrun as <- <-).
  set (w1 := match w_clientM w !! rg_UserId register with Some c => Close c w | None => w end) in Hrun.
  assert (is_Some (w_conns w1 !! s)) as [sc1 Hs1].
  { unfold w1. destruct (w_clientM w !! rg_UserId register) as [l0|]; [|by eexists].
    by destruct (Close_conn l0 w s sc Hs) as (? & ? & _). }
  clearbody w1. cbn zeta in Hrun.
  pose proof (enrol_spec now register s (tk_ExpireTime claims) w1) as Hspec.
  destruct (enrol _ _ _ _ _) as [l w2]. cbn in Hrun. injection Hrun as <- <-.
  destruct Hspec as (_ & Ecl & Eco & EM & _). split; [done|].
  exists l, (sc_Handshake (sc_SetUserData (UD_Client l) sc1)). unfold cm_Client. cbn.
  rewrite EM, Ecl, Eco, !lookup_insert_eq, !lookup_alter_eq, Hs1.
  split_and!; [done..|apply handshake_Handshaked|by rewrite handshake_UserData, set_UserData].
Qed.

(** A chat message goes to the compute servers. The handler puts it at the
end of its room's queue (which keeps the latest hundred) with the next message
id, the sender, the level in 32 bits and the content; the room is the one the
message names, which the client then enters, or else the client's own. *)
Theorem handleMsg_queues `{HB : BDMsg, HL : !BDMsgLaws, HN : Net, HZ : Zlib}
    now1 now2 s m w l c chat :
  world_ok w -> user_data s w = UD_Client l -> w_clients w !! l = Some c ->
  Chat_Unmarshal m zero_Chat = (chat, None) ->
  let roomId := if decide (ch_RoomId chat = "") then c_roomId c else ch_RoomId chat in
  let msg := {|
    fc_MessageId := format_int (wrap_u 64 (w_chatMessageCounter w + 1));
    fc_RoomId := roomId; fc_UserId := c_ID c; fc_Nickname := ch_Nickname chat;
    fc_Time := Z.quot now2 1000000; fc_Level := to_int32 (ch_Level chat); fc_Type := 1;
    fc_Params := Some {["content" := ch_Content chat]} |} in
  exists w', handleMsg now1 now2 s MsgTypeChat m w = (Ret tt, w') /\
    (forall r, content (w_mqg w') r =
       if decide (r = roomId) then lastn 100 (content (w_mqg w) r ++ [msg]) else content (w_mqg w) r) /\
    (exists c', w_clients w' !! l = Some c' /\ c_roomId c' = roomId) /\
    (roomId <> c_roomId c -> rm_lookup (w_rooms w') roomId (c_ID c) = Some l) /\
    (roomId = c_roomId c -> w_rooms w' = w_rooms w).
Proof.
  intros Hw Hd Hc Hchat roomId msg.
  assert (exists w1, msg_fields l (c_roomId c) 1 m (heartBeat now1 l w) =
      (Ret (roomId, ch_Level chat, ch_Nickname chat, fc_Params msg), w1) /\
    w_mqg w1 = w_mqg w /\ w_chatMessageCounter w1 = w_chatMessageCounter w /\
    (exists c', w_clients w1 !! l = Some c' /\ c_roomId c' = roomId) /\
    (roomId <> c_roomId c -> rm_lookup (w_rooms w1) roomId (c_ID c) = Some l) /\
    (roomId = c_roomId c -> w_rooms w1 = w_rooms w)) as (w1 & Hf & Hq & Hk & Hcl & Hroom & Hsame).
  { unfold msg_fields. rewrite Hchat. cbn [Z.eqb Pos.eqb].
    destruct (negb (bool_decide (ch_RoomId chat = "")) && negb (bool_decide (ch_RoomId chat = c_roomId c)))
      eqn:Hmove; unfold mbind, M_bind, modify, mret, M_ret.
    - apply andb_true_iff in Hmove as [H1%negb_true_iff H2%negb_true_iff].
      apply bool_decide_eq_false in H1, H2. unfold roomId. rewrite decide_False by done.
      unfold roomM_clientIn, rm_clientIn. cbn. rewrite lookup_alter_eq, Hc. cbn.
      rewrite bool_decide_false by done.
      eexists. split; [done|]. cbn. rewrite !lookup_alter_eq, Hc.
      split_and!; [done..|by eexists| |done]. intros _.
      rewrite rm_enter_lookup by apply rm_ending_wf, Hw. unfold abs_enter. by rewrite decide_True.
    - assert (roomId = c_roomId c) as E.
      { unfold roomId. case_decide as H1; [done|]. rewrite bool_decide_false in Hmove by done.
        cbn in Hmove. apply negb_false_iff, bool_decide_eq_true in Hmove. done. }
      eexists. rewrite E.
      split; [done|]. cbn. rewrite lookup_alter_eq, Hc. split_and!; try done. by eexists. }
  destruct (mqg_Add_spec (w_mqg w) msg (wok_mqg w Hw)) as (g & Hg & _ & Hcont).
  exists (set_mqg g (set_counters (wrap_u 64 (w_chatMessageCounter w + 1)) (w_packedMessageCounter w1) w1)).
  split.
  { unfold handleMsg, assert_Client. unfold mbind at 1, M_bind at 1. rewrite Hd.
    unfold modify, deref, mbind, M_bind. cbn [w_clients heartBeat on_client upd_clients].
    rewrite lookup_alter_eq, Hc. cbn [fmap option_fmap option_map c_roomId set_c_heartBeatTime c_ID].
    change MsgTypeChat with 1. rewrite Hf. cbn. unfold group_Add. cbn. rewrite Hk, Hq.
    replace (to_int32 1) with 1 by reflexivity. unfold msg in Hg. rewrite Hg. done. }
  cbn. split_and!; try done. intros r. rewrite Hcont. cbn. by case_decide as E; [rewrite E|].
Qed.

(** Without the right user data handlers panic outside of their recover.
A second registration of a connection, and any other message before the
registration or after the end of the client, fail in the type assertion, before
the deferred function is in place: the panic reaches the package bdmsg and the
state is untouched. *)
Theorem wrong_user_data_panics `{HB : BDMsg, HN : Net, HG : Gorsa}
    config spare now1 now2 s t m w :
  (t = MsgTypeRegister -> forall msc, user_data s w <> UD_SClient msc) ->
  (t = MsgTypeChat \/ t = MsgTypeEnterRoom \/ t = MsgTypeRefreshToken \/ t = MsgTypeHeartBeat ->
   forall c, user_data s w <> UD_Client c) ->
  t = MsgTypeRegister \/ t = MsgTypeChat \/ t = MsgTypeEnterRoom \/ t = MsgTypeRefreshToken \/
    t = MsgTypeHeartBeat ->
  dispatch config spare now1 now2 s t m w = (Panic (PRt TypeAssertion), w).
Proof.
  intros Hreg Hcl Ht.
  assert (forall A (k : loc -> M World A), (forall c, user_data s w <> UD_Client c) ->
    (assert_Client s ≫= k) w = (Panic (PRt TypeAssertion), w)) as Hpanic.
  { intros A k Hn. unfold mbind, M_bind, assert_Client. destruct (user_data s w) as [| |c]; try done.
    by destruct (Hn c). }
  unfold dispatch. destruct Ht as [->|[->|[->|[->| ->]]]]; cbn; try (apply Hpanic, Hcl; tauto).
  unfold handleRegister, mbind, M_bind, assert_SClient. specialize (Hreg eq_refl).
  destruct (user_data s w) as [|msc|]; try done. by destruct (Hreg msc).
Qed.

(** Without servers messages are lost. With no compute server known, a tick
takes the messages out of the queues (up to 10000), the division by the number of
servers panics, the panic is swallowed, and nothing was written: the messages
are gone. *)
Theorem consume_without_servers `{HB : BDMsg, HN : Net, HZ : Zlib, HP : Proto} rooms w :
  world_ok w -> iterates (gm_content (mqg_group (w_mqg w))) rooms ->
  rp_locked (w_rpc w) = false -> rp_availableAddresses (w_rpc w) = [] ->
  exists out g, consume rooms w =
      (Ret tt, set_mqg g (set_counters (w_chatMessageCounter w)
                           (wrap_u 64 (w_packedMessageCounter w + 1)) w)) /\
    (forall r, content (w_mqg w) r = of_room r out ++ content g r) /\
    (len out < 10000 -> waiting g rooms = 0).
Proof.
  intros Hw Hr Hlock Haddr. destruct (mqg_DrainTo rooms (w_mqg w) [] 10000) as [[msgs rest] g] eqn:E.
  pose proof (fun r => iterates_find (w_mqg w) rooms r Hr) as Hin.
  destruct (mqg_drain_spec rooms (w_mqg w) [] 10000 0 msgs rest g (wok_mqg w Hw))
    as (Hg & _ & Hrest & Hother & Hlen & out & Hout & Hc1 & Hc2);
    [by eapply iterates_NoDup|by intros r ?%Hin|exact E|]. cbn in Hout. subst msgs.
  exists out, g. split_and!.
  - unfold consume, consumeEvent. unfold mbind at 1, M_bind at 1, modify. unfold recovering. run.
    rewrite E. unfold on_rpc. cbn. destruct out as [|m out]; [done|].
    by rewrite deliver_no_address.
  - intros r. destruct (decide (r ∈ rooms)) as [Hi|Hi]; [by apply Hc1|].
    by rewrite (Hc2 r Hi), Hother.
  - intros Hl. destruct Hlen as [_ Hfull]; [by cbn|].
    assert (forall rs, 0 <= waiting g rs) as Hpos.
    { induction rs; [done|]. cbn. fold (waiting g rs). pose proof (len_nonneg (content g a)). lia. }
    specialize (Hpos rooms). lia.
Qed.

(** With a server they are sent. When the chosen server has a connection, or
can be dialled, and the two writes succeed, a tick writes the messages it took
out of the queues as one frame of the compressed packed messages. *)
Theorem consume_sends `{HB : BDMsg, HN : Net, HZ : Zlib, HP : Proto} rooms w out rest g address c n1 n2 :
  rp_locked (w_rpc w) = false -> pick_address (w_rpc w) = Ret address ->
  mqg_DrainTo rooms (w_mqg w) [] 10000 = (out, rest, g) -> out <> [] ->
  obtains address (w_rpc_env w) c n1 ->
  wrote c (DoZlibCompress (proto_Marshal out).1) n1 n2 ->
  consume rooms w = (Ret tt,
    set_rpc (w_rpc w) {| re_net := n2; re_connectionMap := <[address := c]> (re_connectionMap (w_rpc_env w)) |}
      (set_mqg g (set_counters (w_chatMessageCounter w)
                    (wrap_u 64 (w_packedMessageCounter w + 1)) w))).
Proof.
  intros Hlock Hpick E Hne Hob Hwr.
  unfold consume, consumeEvent. unfold mbind at 1, M_bind at 1, modify. unfold recovering. run.
  rewrite E. unfold on_rpc. cbn. destruct out as [|m out]; [done|].
  unfold deliver. cbn [trySend]. unfold mbind, M_bind.
  by rewrite (send_obtains _ _ _ _ _ _ _ Hlock Hpick Hob Hwr).
Qed.

(** * Witnesses *)

Section Examples.
#[local] Existing Instances test_bdmsg test_bdmsg_laws test_net test_zlib toy_rsa test_proto.

(** A server that accepts a connection and is told to register ann. *)
Definition register_payload : bytes := jsb "{'UserId':'ann','ClientToConnectorVersion':100}".
Definition chat_payload : bytes := jsb "{'RoomId':'r1','Content':'hi','Level':3}".
Definition w_s1 : World :=
  upd_conns <[1%positive := Build_test_conn false false (UD_SClient 1%positive) []]>
    (Accept None (w_init (test_env ∅))).
Definition w_s2 : World := (dispatch open_config [] 0 0 1%positive MsgTypeRegister register_payload w_s1).2.
Definition w_s3 : World := (dispatch open_config [] 0 0 1%positive MsgTypeChat chat_payload w_s2).2.

Lemma w_s1_step : step open_config (w_init (test_env ∅)) w_s1.
Proof. by apply step_accept. Qed.

Lemma w_s2_reachable : rtc (step open_config) (w_init (test_env ∅)) w_s2.
Proof.
  eapply rtc_l; [apply w_s1_step|]. eapply rtc_l; [|apply rtc_refl]. apply step_message.
Qed.

Lemma w_s3_reachable : rtc (step open_config) (w_init (test_env ∅)) w_s3.
Proof. eapply rtc_r; [apply w_s2_reachable|]. apply step_message. Qed.

Definition w_s4 : World := on_conn 1%positive sc_Stop w_s2.
Lemma w_s4_reachable : rtc (step open_config) (w_init (test_env ∅)) w_s4.
Proof. eapply rtc_r; [apply w_s2_reachable|]. apply step_lost. Qed.

Lemma w_s1_ok : world_ok w_s1.
Proof. eapply step_ok; [apply world_ok_init|apply w_s1_step]. Qed.
Lemma w_s2_ok : world_ok w_s2.
Proof. eapply reachable_ok, w_s2_reachable. Qed.
Lemma w_s3_ok : world_ok w_s3.
Proof. eapply reachable_ok, w_s3_reachable. Qed.

End Examples.

Lemma server_invariant_witness :
  exists c, w_clients w_s2 !! 1%positive = Some c /\ c_ID c = "ann" /\ c_q c = false.
Proof.
  destruct (@server_invariant test_bdmsg test_bdmsg_laws test_net toy_rsa test_zlib test_proto
    open_config _ w_s2 w_s2_reachable) as (H & _).
  destruct (H "ann" 1%positive) as (c & H1 & H2 & H3 & _); [vm_compute; reflexivity|].
  exists c. split; [exact H1|]. split; [exact H2|exact H3].
Defined.

Lemma stopped_clients_leave_witness :
  exists w', rtc monitor_step w_s4 w' /\ cm_Client "ann" w' = None /\ cm_Client "ann" w_s4 = Some 1%positive.
Proof.
  destruct (@stopped_clients_leave test_bdmsg test_bdmsg_laws test_net toy_rsa test_zlib test_proto
    open_config _ w_s4 w_s4_reachable) as (_ & H).
  destruct (@monitors_drain test_bdmsg test_bdmsg_laws test_net test_zlib w_s4
    (@reachable_ok test_bdmsg test_bdmsg_laws test_net toy_rsa test_zlib test_proto open_config _ w_s4 w_s4_reachable))
    as (w' & Hsteps & Hrest).
  exists w'. split; [exact Hsteps|].
  assert (cm_Client "ann" w_s4 = Some 1%positive) as Hann by (vm_compute; reflexivity).
  split; [|exact Hann]. destruct (cm_Client "ann" w') as [l|] eqn:E; [|reflexivity].
  apply (H w' Hsteps Hrest) in E as [E1 E2]. rewrite Hann in E1. injection E1 as <-.
  assert (monitor_ready 1%positive w_s4 = true) as Hr by (vm_compute; reflexivity). congruence.
Defined.

Lemma handleRegister_gate_witness :
  exists l, cm_Client "ann" (@handleRegister test_bdmsg test_net toy_rsa open_config [] 0 1%positive
    register_payload w_s1).2 = Some l.
Proof.
  pose proof (@handleRegister_gate test_bdmsg test_bdmsg_laws test_net toy_rsa test_zlib open_config [] 0
    1%positive register_payload w_s1 (Build_test_conn false false (UD_SClient 1%positive) [])) as H.
  assert (Register_Unmarshal register_payload zero_Register = (Build_Register "ann" "" 100, None)) as E
    by (vm_compute; reflexivity).
  rewrite E in H. destruct (handleRegister _ _ _ _ _ _) as [r w'].
  destruct H as (_ & l & _ & Hl & _); [exact w_s1_ok|reflexivity..|exists l; exact Hl].
Defined.

Lemma handleMsg_queues_witness :
  exists w', @handleMsg test_bdmsg test_net 0 0 1%positive MsgTypeChat chat_payload w_s2 = (Ret tt, w') /\
    length (content (w_mqg w') "r1") = 1%nat.
Proof.
  destruct (@handleMsg_queues test_bdmsg test_bdmsg_laws test_net test_zlib 0 0 1%positive chat_payload
    w_s2 1%positive (set_c_heartBeatTime 0 (new_client 0 ann 1%positive)) (Build_Chat "r1" "hi" "" 3 0))
    as (w' & H1 & H2 & _).
  - exact w_s2_ok.
  - vm_compute. reflexivity.
  - vm_compute. reflexivity.
  - vm_compute. reflexivity.
  - exists w'. split; [exact H1|]. rewrite (H2 "r1"). vm_compute. reflexivity.
Defined.

Lemma wrong_user_data_panics_witness :
  @dispatch test_bdmsg test_net toy_rsa open_config [] 0 0 1%positive MsgTypeRegister register_payload w_s2 =
    (Panic (PRt TypeAssertion), w_s2).
Proof.
  apply (@wrong_user_data_panics test_bdmsg test_net toy_rsa).
  - intros _ msc E. vm_compute in E. discriminate.
  - intros [E|[E|[E|E]]]; vm_compute in E; discriminate.
  - left. reflexivity.
Defined.

Lemma rpc_env_kept `{BDMsg, Net} g a b (w : World) :
  w_rpc_env (set_mqg g (set_counters a b w)) = w_rpc_env w.
Proof. done. Qed.

(** The message of ann is taken out of the queue and gone. *)
Lemma consume_without_servers_witness :
  exists out g, (@consume test_bdmsg test_net test_zlib test_proto ["r1"] w_s3).1 = Ret tt /\
    w_rpc_env (@consume test_bdmsg test_net test_zlib test_proto ["r1"] w_s3).2 = w_rpc_env w_s3 /\
    content (w_mqg w_s3) "r1" = of_room "r1" out ++ content g "r1" /\
    length (content (w_mqg w_s3) "r1") = 1%nat.
Proof.
  destruct (@consume_without_servers test_bdmsg test_net test_zlib test_proto ["r1"] w_s3) as (out & g & H1 & H2 & _).
  - exact w_s3_ok.
  - vm_compute. reflexivity.
  - vm_compute. reflexivity.
  - vm_compute. reflexivity.
  - exists out, g. rewrite H1. split; [reflexivity|].
    split; [cbn [snd]; apply rpc_env_kept|]. split; [apply H2|].
    vm_compute. reflexivity.
Defined.

(** A server is known and its connection works. *)
Lemma consume_sends_witness :
  let w := set_rpc test_rpc (@Build_rpc_env test_net {[ 1%nat := [] ]} {[ "b:1" := 1%nat ]}) w_s3 in
  re_net (w_rpc_env (@consume test_bdmsg test_net test_zlib test_proto ["r1"] w).2) !! 1%nat =
    Some [x00; x00; x00; x01; x41].
Proof.
  intros w.
  destruct (mqg_DrainTo ["r1"] (w_mqg w) [] 10000) as [[out rest] g] eqn:E.
  assert (out <> [] /\ @proto_Marshal test_proto out = ([x41], None)) as [Hne Hp].
  { vm_compute in E. injection E as <- _ _. split; [discriminate|reflexivity]. }
  rewrite (@consume_sends test_bdmsg test_net test_zlib test_proto ["r1"] w out rest g "b:1" 1%nat
    {[ 1%nat := [] ]} {[ 1%nat := [x00; x00; x00; x01; x41] ]}).
  - vm_compute. reflexivity.
  - vm_compute. reflexivity.
  - vm_compute. reflexivity.
  - exact E.
  - exact Hne.
  - left. split; reflexivity.
  - rewrite Hp. exists {[ 1%nat := [x00; x00; x00; x01] ]}. split; vm_compute; reflexivity.
Defined.
