(* ===== verification/Outgoing.v ===== *)
(** From the handlers to the compute servers (connectsvc/connectsvc.go, tocompute.go,
plainrpc.go together): what a compute server reads on its connection of the chat messages
that arrive while the consumer ticks and everything else goes on. *)

From S2P Require Import Prelude GoText Json ProtoDef Protocol ToCompute Room Config Token Rpc State.
From S2P Require Import Client Subscribe Heartbeat Stat Service.
Local Open Scope Z_scope.

Section Outgoing.
Context `{HB : BDMsg, HN : Net, HG : Gorsa, HZ : Zlib, HP : Proto}.

(** What [handleMsg] makes of a chat message. *)
Definition chat_room (c : Client) (chat : Chat) : string :=
  if decide (ch_RoomId chat = "") then c_roomId c else ch_RoomId chat.
Definition chat_message (counter now2 : Z) (c : Client) (chat : Chat) : FromConnectorMessage := {|
  fc_MessageId := format_int (wrap_u 64 (counter + 1));
  fc_RoomId := chat_room c chat; fc_UserId := c_ID c; fc_Nickname := ch_Nickname chat;
  fc_Time := Z.quot now2 1000000; fc_Level := to_int32 (ch_Level chat); fc_Type := 1;
  fc_Params := Some {["content" := ch_Content chat]} |}.

(** What one tick sends. *)
Definition body (batch : list FromConnectorMessage) : bytes := DoZlibCompress (proto_Marshal batch).1.
Definition frame (b : bytes) : bytes := length_bytes (len b) ++ b.

(** A run of the server, with the messages it was given and the batches its ticks took: a
chat message of a registered connection, to a room with less than a hundred messages
waiting; a tick, which takes something or nothing; any other step, that leaves the queues
and the connections to the compute servers. *)
Inductive outgoing (config : ConfigT) : World -> list FromConnectorMessage -> list (list FromConnectorMessage) -> World -> Prop :=
  | og_end w : outgoing config w [] [] w
  | og_chat w spare now1 now2 s m l c chat said batches w' :
      user_data s w = UD_Client l -> w_clients w !! l = Some c -> Chat_Unmarshal m zero_Chat = (chat, None) ->
      len (content (w_mqg w) (chat_room c chat)) < 100 ->
      outgoing config (dispatch config spare now1 now2 s MsgTypeChat m w).2 said batches w' ->
      outgoing config w (chat_message (w_chatMessageCounter w) now2 c chat :: said) batches w'
  | og_tick w rooms batch rest g said batches w' :
      iterates (gm_content (mqg_group (w_mqg w))) rooms ->
      mqg_DrainTo rooms (w_mqg w) [] 10000 = (batch, rest, g) ->
      outgoing config (consume rooms w).2 said batches w' ->
      outgoing config w said (if decide (batch = []) then batches else batch :: batches) w'
  | og_other w w1 said batches w' :
      step config w w1 -> w_mqg w1 = w_mqg w -> w_rpc w1 = w_rpc w -> w_rpc_env w1 = w_rpc_env w ->
      outgoing config w1 said batches w' -> outgoing config w said batches w'.

(** The peer reads [n] frames. *)
Fixpoint read_frames (n : nat) (stream : bytes) : option (list bytes * bytes) :=
  match n with
  | O => Some ([], stream)
  | S n' => match deframe stream with
            | Some (b, rest) => match read_frames n' rest with
                                | Some (bs, rest') => Some (b :: bs, rest')
                                | None => None
                                end
            | None => None
            end
  end.

(** * Lemmas *)

Lemma read_frames_frames bs rest :
  Forall (fun b => len b < 2 ^ 32) bs -> read_frames (length bs) (concat (map frame bs) ++ rest) = Some (bs, rest).
Proof.
  induction 1 as [|b bs Hb _ IH]; [done|]. cbn [length read_frames map concat]. unfold frame at 1.
  rewrite <-!app_assoc, frame_roundtrip by done. by rewrite IH.
Qed.

Lemma rpc_roomM_clientIn c roomId (w : World) :
  w_rpc (roomM_clientIn c roomId w) = w_rpc w /\ w_rpc_env (roomM_clientIn c roomId w) = w_rpc_env w.
Proof. unfold roomM_clientIn. case_match; [|done]. by destruct (rm_clientIn _ _ _ _) as [rooms [r|]]. Qed.

Lemma rpc_handleMsg now1 now2 s t m (w : World) :
  w_rpc (handleMsg now1 now2 s t m w).2 = w_rpc w /\ w_rpc_env (handleMsg now1 now2 s t m w).2 = w_rpc_env w.
Proof.
  unfold handleMsg, assert_Client. unfold mbind, M_bind, modify, deref. destruct (user_data s w) as [| |c]; try done.
  destruct (w_clients (heartBeat now1 c w) !! c) as [client|]; [|done].
  assert (w_rpc (msg_fields c (c_roomId client) t m (heartBeat now1 c w)).2 = w_rpc w /\
    w_rpc_env (msg_fields c (c_roomId client) t m (heartBeat now1 c w)).2 = w_rpc_env w) as [E1 E2].
  { unfold msg_fields. destruct (t =? 1); [|done]. destruct (Chat_Unmarshal m zero_Chat) as [chat [e|]]; [done|].
    case_match; [|done]. unfold mbind, M_bind, modify. cbn. apply (rpc_roomM_clientIn c (ch_RoomId chat) (heartBeat now1 c w)). }
  destruct (msg_fields c (c_roomId client) t m (heartBeat now1 c w)) as [[[[[roomId level] nickname] params]|p|] w1]; cbn in *; try done.
  unfold group_Add. cbn. by destruct (mqg_Add _ _).
Qed.

(** A tick takes prefixes of the queues. *)
Lemma drained rooms (w : World) batch rest g :
  world_ok w -> iterates (gm_content (mqg_group (w_mqg w))) rooms ->
  mqg_DrainTo rooms (w_mqg w) [] 10000 = (batch, rest, g) ->
  forall r, content (w_mqg w) r = of_room r batch ++ content g r.
Proof.
  intros Hw Hit E.
  pose proof (fun r => iterates_find (w_mqg w) rooms r Hit) as Hin.
  destruct (mqg_drain_spec rooms (w_mqg w) [] 10000 0 batch rest g (wok_mqg w Hw))
    as (_ & _ & _ & Hother & _ & out & Hout & Hc1 & Hc2); [by eapply iterates_NoDup|by intros r ?%Hin|exact E|].
  cbn in Hout. subst out. intros r. destruct (decide (r ∈ rooms)) as [Hi|Hi]; [by apply Hc1|].
  by rewrite (Hc2 r Hi), Hother.
Qed.

(** A connection to a compute server that takes every write and sends it on. *)
Record takes_writes (c : Conn) (alive : net -> Prop) (sent : net -> bytes) : Prop := {
  takes b n : alive n -> exists n', conn_Write c b n = (None, n') /\ alive n' /\ sent n' = sent n ++ b;
}.

Context (address : string) (c : Conn) (alive : net -> Prop) (sent : net -> bytes).
Hypothesis Hc : takes_writes c alive sent.

(** The server has chosen the connection. *)
Record linked (w : World) : Prop := {
  ln_lock : rp_locked (w_rpc w) = false;
  ln_pick : pick_address (w_rpc w) = Ret address;
  ln_conn : re_connectionMap (w_rpc_env w) !! address = Some c;
  ln_alive : alive (re_net (w_rpc_env w));
}.

Lemma linked_same w w' : w_rpc w' = w_rpc w -> w_rpc_env w' = w_rpc_env w -> linked w -> linked w'.
Proof. intros E1 E2 [H1 H2 H3 H4]. split; by rewrite ?E1, ?E2. Qed.

Lemma tick_effect rooms w batch rest g :
  linked w -> mqg_DrainTo rooms (w_mqg w) [] 10000 = (batch, rest, g) ->
  let w' := (consume rooms w).2 in
  linked w' /\ w_mqg w' = g /\
  sent (re_net (w_rpc_env w')) =
    sent (re_net (w_rpc_env w)) ++ (if decide (batch = []) then [] else frame (body batch)).
Proof.
  intros [H1 H2 H3 H4] E. cbn zeta. destruct (decide (batch = [])) as [->|Hne].
  - assert (consume rooms w = (Ret tt, set_rpc (w_rpc w) (w_rpc_env w)
      (set_mqg g (set_counters (w_chatMessageCounter w) (wrap_u 64 (w_packedMessageCounter w + 1)) w)))) as ->.
    { unfold consume, consumeEvent. unfold mbind at 1, M_bind at 1, modify. unfold recovering. run. by rewrite E. }
    rewrite app_nil_r. done.
  - destruct (takes _ _ _ Hc (length_bytes (len (body batch))) _ H4) as (n1 & W1 & A1 & S1).
    destruct (takes _ _ _ Hc (body batch) _ A1) as (n2 & W2 & A2 & S2).
    rewrite (consume_sends rooms w batch rest g address c (re_net (w_rpc_env w)) n2 H1 H2 E Hne);
      [|by left|by exists n1].
    cbn. split_and!; [|done|by rewrite S2, S1, <-app_assoc]. split; try done. apply lookup_insert_eq.
Qed.

Context `{HL : !BDMsgLaws}.

Lemma outgoing_run config w said batches w' :
  outgoing config w said batches w' -> world_ok w -> linked w ->
  (forall r, content (w_mqg w) r ++ of_room r said = of_room r (concat batches) ++ content (w_mqg w') r) /\
  sent (re_net (w_rpc_env w')) = sent (re_net (w_rpc_env w)) ++ concat (map frame (map body batches)).
Proof.
  induction 1 as [w|w spare now1 now2 s m l cl chat said batches w' Hd Hl Hm Hlen Hrun IH
    |w rooms batch rest g said batches w' Hit Hdrain Hrun IH|w w1 said batches w' Hstep E1 E2 E3 Hrun IH]; intros Hw Hln.
  - split; [intros r|]; by rewrite !app_nil_r.
  - pose proof (dispatch_ok config spare now1 now2 s MsgTypeChat m w Hw) as Hw1.
    change (dispatch config spare now1 now2 s MsgTypeChat m w) with (handleMsg now1 now2 s MsgTypeChat m w) in *.
    destruct (rpc_handleMsg now1 now2 s MsgTypeChat m w) as [R1 R2].
    destruct (IH Hw1 (linked_same _ _ R1 R2 Hln)) as [H1 H2]. rewrite R2 in H2. split; [|done].
    destruct (handleMsg_queues now1 now2 s m w l cl chat Hw Hd Hl Hm) as (w1 & Ew & Hcont & _).
    rewrite Ew in H1. cbn in H1. intros r. specialize (Hcont r).
    change (content (w_mqg w1) r = if decide (r = chat_room cl chat)
      then lastn 100 (content (w_mqg w) r ++ [chat_message (w_chatMessageCounter w) now2 cl chat])
      else content (w_mqg w) r) in Hcont.
    rewrite <-H1, Hcont. change (?x :: said) with ([x] ++ said). rewrite of_room_app, app_assoc. f_equal.
    destruct (decide (r = chat_room cl chat)) as [->|Hr].
    + rewrite lastn_all by (rewrite length_app; cbn; unfold len in Hlen; lia). f_equal. apply of_room_all. by constructor.
    + rewrite (of_room_none r (chat_room cl chat)) by (done || by constructor). by rewrite app_nil_r.
  - destruct (tick_effect rooms w batch rest g Hln Hdrain) as (Hln1 & Eg & Hsent).
    destruct (IH (consume_ok rooms w Hit Hw) Hln1) as [H1 H2]. rewrite Hsent in H2. rewrite Eg in H1.
    pose proof (drained rooms w batch rest g Hw Hit Hdrain) as Hcont.
    split.
    + intros r. rewrite Hcont, <-app_assoc, H1. case_decide as Hb; [by subst|]. cbn. by rewrite of_room_app, <-app_assoc.
    + rewrite H2. case_decide; [by rewrite app_nil_r|]. cbn. by rewrite <-!app_assoc.
  - destruct (IH (step_ok config w w1 Hw Hstep) (linked_same _ _ E2 E3 Hln)) as [H1 H2].
    rewrite E1 in H1. by rewrite E3 in H2.
Qed.

End Outgoing.

(** * Properties *)

(** C7: chat messages reach the compute server complete and in order. Over any run of the
server in which no queue is full when a message comes and the chosen server's connection
takes what is written: the messages that were waiting and those that came are, room by
room and in order, those of the batches sent followed by those still waiting; and the
server reads from its connection one frame per batch, each the compressed packed messages
of the batch. *)
Theorem chat_end_to_end `{HB : BDMsg, HL : !BDMsgLaws, HN : Net, HG : Gorsa, HZ : Zlib, HZL : !ZlibLaws, HP : Proto}
    config address c alive sent w said batches w' :
  takes_writes c alive sent -> world_ok w -> linked address c alive w -> outgoing config w said batches w' ->
  Forall (fun b => len b < 2 ^ 32) (map body batches) ->
  (forall r, content (w_mqg w) r ++ of_room r said = of_room r (concat batches) ++ content (w_mqg w') r) /\
  exists written, sent (re_net (w_rpc_env w')) = sent (re_net (w_rpc_env w)) ++ written /\
    exists bodies, read_frames (length batches) written = Some (bodies, []) /\
      map zlib_decompress bodies = map (fun batch => Some (proto_Marshal batch).1) batches.
Proof.
  intros Hc Hw Hln Hrun Hlen. destruct (outgoing_run address c alive sent Hc config w said batches w' Hrun Hw Hln) as [H1 H2].
  split; [exact H1|]. eexists. split; [exact H2|]. exists (map body batches).
  pose proof (read_frames_frames (map body batches) [] Hlen) as Hread.
  rewrite length_map, app_nil_r in Hread. split; [exact Hread|].
  rewrite map_map. apply map_ext. intros batch. apply zlib_inverse.
Qed.

(** * Witnesses *)

Section Examples.
#[local] Existing Instances test_bdmsg test_bdmsg_laws test_net test_zlib test_zlib_laws toy_rsa test_proto.

(** Ann is registered; the second server of the list is connected. *)
Definition w_linked : World :=
  set_rpc test_rpc (@Build_rpc_env test_net {[ 1%nat := [] ]} {[ "b:1" := 1%nat ]}) w_s2.

Lemma test_takes_writes :
  takes_writes (1%nat : @Conn test_net) (fun n : gmap nat bytes => is_Some (n !! 1%nat))
    (fun n : gmap nat bytes => default [] (n !! 1%nat)).
Proof.
  constructor. intros b n [old Hold]. exists (<[1%nat := old ++ b]> (n : gmap nat bytes)). split_and!.
  - exact (f_equal (fun o : option bytes => match o with
      | Some old => (None, <[1%nat := old ++ b]> (n : gmap nat bytes))
      | None => (Some (EText "broken pipe"), n) end) Hold).
  - rewrite lookup_insert_eq. by eexists.
  - rewrite lookup_insert_eq. exact (f_equal (fun o : option bytes => default [] o ++ b) (eq_sym Hold)).
Qed.

Definition chat1 : bytes := jsb "{'RoomId':'r1','Content':'one'}".
Definition chat2 : bytes := jsb "{'RoomId':'r1','Content':'two'}".

(** Two chat messages, then a tick. *)
Definition w_chat1 : World := (dispatch open_config [] 0 0 1%positive MsgTypeChat chat1 w_linked).2.
Definition w_chat2 : World := (dispatch open_config [] 0 0 1%positive MsgTypeChat chat2 w_chat1).2.

Lemma chats_run : exists said batch rest g,
  outgoing open_config w_linked said [batch] (consume ["r1"] w_chat2).2 /\
  mqg_DrainTo ["r1"] (w_mqg w_chat2) [] 10000 = (batch, rest, g) /\ length said = 2%nat /\ length batch = 2%nat.
Proof.
  destruct (mqg_DrainTo ["r1"] (w_mqg w_chat2) [] 10000) as [[batch rest] g] eqn:E.
  assert (batch <> [] /\ length batch = 2%nat) as [Hne Hl] by (vm_compute in E; injection E as <- _ _; split; [discriminate|reflexivity]).
  eexists _, batch, rest, g. split_and!; [|done|..|exact Hl].
  - eapply (og_chat open_config w_linked [] 0 0 1%positive chat1 1%positive); [vm_compute; reflexivity..|].
    eapply (og_chat open_config w_chat1 [] 0 0 1%positive chat2 1%positive); [vm_compute; reflexivity..|].
    pose proof (og_tick open_config w_chat2 ["r1"] batch rest g [] [] (consume ["r1"] w_chat2).2) as Ht.
    rewrite decide_False in Ht by done. apply Ht; [exact (Permutation_refl ["r1"])|exact E|apply og_end].
  - reflexivity.
Qed.

End Examples.

Lemma chat_end_to_end_witness :
  exists said batch, length said = 2%nat /\
    of_room "r1" said = of_room "r1" batch ++ content (w_mqg (@consume test_bdmsg test_net test_zlib test_proto ["r1"] w_chat2).2) "r1" /\
    @read_frames 1 (default [] ((re_net (w_rpc_env (@consume test_bdmsg test_net test_zlib test_proto ["r1"] w_chat2).2) : gmap nat bytes) !! 1%nat)) <> None.
Proof.
  destruct chats_run as (said & batch & rest & g & Hrun & _ & Hs & Hb).
  destruct (@chat_end_to_end test_bdmsg test_bdmsg_laws test_net toy_rsa test_zlib test_zlib_laws test_proto open_config "b:1" 1%nat
    _ _ w_linked said [batch] (@consume test_bdmsg test_net test_zlib test_proto ["r1"] w_chat2).2 test_takes_writes) as (H1 & written & H2 & bodies & H3 & _).
  - apply world_ok_rpc. exact w_s2_ok.
  - split; [reflexivity|vm_compute; reflexivity|reflexivity|by eexists].
  - exact Hrun.
  - constructor; [|constructor]. unfold body, DoZlibCompress, len. cbn. rewrite length_map, Hb. reflexivity.
  - exists said, batch. split; [exact Hs|]. specialize (H1 "r1"). cbn [concat] in H1. rewrite (app_nil_r batch) in H1.
    split; [exact H1|].
    change (default [] ((re_net (w_rpc_env (@consume test_bdmsg test_net test_zlib test_proto ["r1"] w_chat2).2) : gmap nat bytes) !! 1%nat) = [] ++ written) in H2.
    rewrite H2. cbn [app]. cbn [length] in H3. rewrite H3. discriminate.
Defined.
