(* ===== verification/Interleave.v ===== *)
(** The delivery of a publication at the grain of its critical sections
(connectsvc/subscribe.go): the goroutine of [subscribe] takes and leaves the locks
of the rooms, of the manager and of each client one after the other, and the rest of
the server runs in between, each handler in one piece; Races.v has the handlers lock by
lock too. *)

From S2P Require Import Prelude GoText Json ProtoDef Protocol ToCompute Room Config Token Rpc State.
From S2P Require Import Client Subscribe Heartbeat Stat Service.
Local Open Scope Z_scope.

(** * The goroutine of the subscription

Where it stands: waiting for a message; before the part for the audience; with the
inner map of a room fetched and the lock released; with user ids left to serve, the
next one to be looked up; with a client found, before its lock is taken; walking the
clients under the lock of the manager. [next] is the publication whose audience comes
after the user. *)
Inductive dpc :=
  | DReceive
  | DAudience (fr : FromRouterMessage)
  | DRoom (fr : FromRouterMessage) (userIdToClientMap : loc)
  | DIds (ids : list string) (m : loc) (next : option FromRouterMessage)
  | DHello (client : loc) (ids : list string) (m : loc) (next : option FromRouterMessage)
  | DWorld (ids : list string) (m : loc).

Section Interleave.
Context `{HB : BDMsg, HN : Net, HG : Gorsa, HZ : Zlib, HP : Proto}.

(** With the shared state, and the pushes made so far: which message to which client. *)
Record dconf := mkD { d_pc : dpc; d_world : World; d_log : list (loc * loc) }.

(** The arrival of a payload. *)
Definition d_receive (payload : bytes) (w : World) : dpc * World :=
  let '(fr, _) := FromRouterMessage_Unmarshal payload zero_FromRouterMessage in
  if negb (bool_decide (fr_ToUserId fr = ""))
  then let '(m, w) := new_message (convert fr) w in (DIds [fr_ToUserId fr] m (Some fr), w)
  else (DAudience fr, w).

(** One section after the arrival; nothing while it waits. *)
Definition d_next (range : gmap string loc -> list string) (s : dconf) : dconf :=
  let '(mkD pc w log) := s in
  match pc with
  | DReceive => s
  | DAudience fr =>
      if bool_decide (fr_ToRoomId fr = "world")
      then let '(m, w) := new_message (convert fr) w in mkD (DWorld (range (w_clientM w)) m) w log
      else if negb (bool_decide (fr_ToRoomId fr = ""))
      then match rm_clients (w_rooms w) !! fr_ToRoomId fr with
           | Some userIdToClientMap => mkD (DRoom fr userIdToClientMap) w log
           | None => mkD DReceive w log
           end
      else mkD DReceive w log
  | DRoom fr userIdToClientMap =>
      let inner := default ∅ (rm_maps (w_rooms w) !! userIdToClientMap) in
      let userIds := room_userIds (fr_ToRoomId fr) inner (range inner) in
      let '(m, w) := new_message (convert fr) w in mkD (DIds userIds m None) w log
  | DIds [] m next => mkD (match next with Some fr => DAudience fr | None => DReceive end) w log
  | DIds (value :: ids) m next =>
      match cm_Client value w with
      | Some client => mkD (DHello client ids m next) w log
      | None => mkD (DIds ids m next) w log
      end
  | DHello client ids m next =>
      mkD (DIds ids m next) (ServerHello (Some client) m w) (log ++ [(client, m)])
  | DWorld [] m => mkD DReceive w log
  | DWorld (id :: ids) m =>
      mkD (DWorld ids m) (ServerHello (w_clientM w !! id) m w)
        (match w_clientM w !! id with Some client => log ++ [(client, m)] | None => log end)
  end.

(** * The rest of the server

What every other step leaves: clients stay allocated and keep their identity, their
queues lose at most messages at the front, messages keep the bytes they are
sent as, and no room gets a map that was there before. *)
Record calm (w w' : World) : Prop := {
  calm_client l c : w_clients w !! l = Some c -> exists c' k, w_clients w' !! l = Some c' /\
    c_ID c' = c_ID c /\ c_msc c' = c_msc c /\ c_queue c' = drop k (c_queue c);
  calm_msg m b : wire <$> w_msgs w !! m = Some b -> wire <$> w_msgs w' !! m = Some b;
  calm_rooms p : is_Some (rm_maps (w_rooms w) !! p) -> is_Some (rm_maps (w_rooms w') !! p) /\
    forall r, rm_clients (w_rooms w') !! r = Some p -> rm_clients (w_rooms w) !! r = Some p;
}.

(** The manager's lock keeps writers out while the clients are walked. *)
Definition holds_manager (pc : dpc) : Prop := match pc with DWorld _ _ => True | _ => False end.

(** A step of the goroutine or of the others ([step_calm]: every step but a publication,
which there is no other goroutine for, is one of the others). *)
Inductive d_step (config : ConfigT) : dconf -> dconf -> Prop :=
  | d_step_own range s :
      (forall m, iterates m (range m)) -> d_step config s (d_next range s)
  | d_step_others pc w w' log :
      step config w w' -> calm w w' -> (holds_manager pc -> w_clientM w' = w_clientM w) ->
      d_step config (mkD pc w log) (mkD pc w' log).

End Interleave.

(** * The other steps are calm *)

Section Calm.
Context `{HB : BDMsg, HL : !BDMsgLaws, HN : Net, HG : Gorsa, HZ : Zlib, HP : Proto}.

Lemma calm_refl w : calm w w.
Proof. split; [|done|done]. intros l c Hc. by exists c, 0%nat. Qed.

Lemma calm_trans w1 w2 w3 : calm w1 w2 -> calm w2 w3 -> calm w1 w3.
Proof.
  intros [H1 H2 H3] [K1 K2 K3]. split; [|auto|].
  - intros l c Hc.
    destruct (H1 l c Hc) as (c1 & k1 & Hc1 & E1 & E2 & E3). destruct (K1 l c1 Hc1) as (c2 & k2 & Hc2 & F1 & F2 & F3).
    exists c2, (k1 + k2)%nat. rewrite F3, E3, drop_drop. split_and!; congruence.
  - intros p Hp. destruct (H3 p Hp) as [Hp1 Hr1]. destruct (K3 p Hp1) as [Hp2 Hr2]. auto.
Qed.

Lemma calm_same w w1 w2 :
  w_clients w2 = w_clients w1 -> w_msgs w2 = w_msgs w1 -> w_rooms w2 = w_rooms w1 -> calm w w1 -> calm w w2.
Proof. intros E1 E2 E3 [H1 H2 H3]. split; intros *; rewrite ?E1, ?E2, ?E3; auto. Qed.

Lemma calm_on_client w w1 l f :
  (forall c, exists k, c_ID (f c) = c_ID c /\ c_msc (f c) = c_msc c /\ c_queue (f c) = drop k (c_queue c)) ->
  calm w w1 -> calm w (on_client l f w1).
Proof.
  intros Hf H. apply (calm_trans w w1); [done|]. split; [|done|done]. intros l' c Hc. cbn. rewrite lookup_alter.
  case_decide; [|by exists c, 0%nat]. subst. rewrite Hc. destruct (Hf c) as (k & ? & ? & ?). by exists (f c), k.
Qed.

(** A change of the rooms. *)
Definition calm_move (m m' : RoomManager) : Prop :=
  forall p, is_Some (rm_maps m !! p) -> is_Some (rm_maps m' !! p) /\
    forall r, rm_clients m' !! r = Some p -> rm_clients m !! r = Some p.

Lemma calm_upd_rooms w w1 f : calm_move (w_rooms w1) (f (w_rooms w1)) -> calm w w1 -> calm w (upd_rooms f w1).
Proof. intros Hf H. apply (calm_trans w w1); [done|]. split; [|done|done]. intros l c Hc. by exists c, 0%nat. Qed.

Lemma rm_ending_move m roomId client id : calm_move m (rm_ending m roomId client id).
Proof.
  intros p Hp. unfold rm_ending. case_decide; [|done]. destruct (rm_clients m !! roomId) as [l|] eqn:Hl; [|done].
  cbn. split; [rewrite lookup_insert_is_Some'; auto|]. intros r. case_decide; [|done].
  by intros [_ ?]%lookup_delete_Some.
Qed.

Lemma rm_enter_move m roomId client id : calm_move m (rm_enter m roomId client id).
Proof.
  intros p Hp. unfold rm_enter, rm_make. destruct (rm_clients m !! roomId) as [l|] eqn:Hl.
  - destruct (rm_search _ _ _ _); [done|]. cbn. by rewrite lookup_insert_is_Some'; auto.
  - set (l := fresh _). assert (rm_maps m !! l = None) as Hfresh by apply not_elem_of_dom, is_fresh.
    assert (p <> l) as Hne by (intros ->; destruct Hp; congruence).
    assert (forall r, <[roomId := l]> (rm_clients m) !! r = Some p -> rm_clients m !! r = Some p) as Hr.
    { intros r [[_ ?]|[_ ?]]%lookup_insert_Some; congruence. }
    destruct (rm_search _ _ _ _); cbn; rewrite !lookup_insert_is_Some'; auto.
Qed.

Lemma rm_clientIn_move m client id roomId : calm_move m (rm_clientIn m client id roomId).1.
Proof.
  unfold rm_clientIn. case_bool_decide; [done|]. cbn. intros p Hp.
  destruct (rm_ending_move m roomId client id p Hp) as [Hp1 Hr1].
  destruct (rm_enter_move _ roomId client id p Hp1) as [Hp2 Hr2]. auto.
Qed.

(** For setters of other fields. *)
Lemma calm_set w w1 l f :
  (forall c, c_ID (f c) = c_ID c /\ c_msc (f c) = c_msc c /\ c_queue (f c) = c_queue c) ->
  calm w w1 -> calm w (on_client l f w1).
Proof. intros Hf. apply calm_on_client. intros c. exists 0%nat. apply Hf. Qed.

Lemma calm_create w now id msc w1 : calm w w1 -> calm w (createClient now id msc w1).2.
Proof.
  intros H. apply (calm_trans w w1); [done|]. split; [|done|done]. intros l c Hc. cbn.
  rewrite lookup_insert_ne; [by exists c, 0%nat|]. intros <-.
  by rewrite (proj1 (not_elem_of_dom (w_clients w1) _) (is_fresh _)) in Hc.
Qed.

(** For steps that change other tables only. *)
Ltac calm_by H := eapply calm_same; [| | |exact H]; reflexivity.

Lemma calm_Close w w1 l : calm w w1 -> calm w (Close l w1).
Proof. intros H. unfold Close. case_match; [|done]. calm_by H. Qed.

Lemma calm_close_if P order w w1 : calm w w1 -> calm w (close_if P order w1).
Proof.
  revert w1. induction order as [|id order IH]; intros w1 H; [done|]. cbn. apply IH.
  repeat case_match; auto using calm_Close.
Qed.

Lemma calm_clientIn w config spare now register msc w1 :
  calm w w1 -> calm w (cm_clientIn config spare now register msc w1).2.
Proof.
  intros H. unfold cm_clientIn. destruct (refreshToken0 _ _ _) as [[claims [e|]]|p|]; [done| |done..].
  set (w2 := match _ with Some c => Close c w1 | None => w1 end).
  assert (calm w w2) as H2 by (unfold w2; case_match; [by apply calm_Close|done]).
  apply (calm_create w now (rg_UserId register) msc) in H2.
  destruct (createClient now (rg_UserId register) msc w2) as [c w3]. cbn in *.
  assert (calm w (on_client c (set_c_version (rg_ClientToConnectorVersion register)) w3)) as H3 by (by apply calm_set).
  calm_by H3.
Qed.

Lemma calm_roomM_clientIn w c roomId w1 : calm w w1 -> calm w (roomM_clientIn c roomId w1).
Proof.
  intros H. unfold roomM_clientIn. destruct (w_clients w1 !! c) as [client|]; [|done].
  pose proof (rm_clientIn_move (w_rooms w1) c (c_ID client) roomId) as Hm.
  destruct (rm_clientIn _ _ _ _) as [rooms [r|]]; [apply calm_set; [done|]|]; by apply calm_upd_rooms.
Qed.

Lemma calm_heartBeat w now c w1 : calm w w1 -> calm w (heartBeat now c w1).
Proof. by apply calm_set. Qed.

Lemma assert_same s w : (assert_Client s w).2 = w.
Proof. unfold assert_Client. by destruct (user_data s w). Qed.

Lemma calm_handleRegister config spare now s m w : calm w (handleRegister config spare now s m w).2.
Proof.
  pose proof (calm_refl w) as H. unfold handleRegister. apply bind_inv; [unfold assert_SClient; by case_match|].
  intros msc w1 Hm _. assert (w1 = w) as -> by (unfold assert_SClient in Hm; case_match; congruence).
  apply recovering_inv; [|intros p w' Hw'; calm_by Hw'].
  unfold Handshaked. run. case_match; [done|].
  destruct (Register_Unmarshal m zero_Register) as [register [e|]]; [done|]. run.
  pose proof (calm_clientIn w config spare now register msc w H) as Hin.
  destruct (cm_clientIn config spare now register msc w) as [[[x [e|]]|p|] w']; cbn in *; try done.
  calm_by Hin.
Qed.

Lemma calm_handleRefreshToken config spare now s m w : calm w (handleRefreshToken config spare now s m w).2.
Proof.
  unfold handleRefreshToken. apply bind_inv; [rewrite assert_same; apply calm_refl|].
  intros c w' [-> _]%assert_Client_inv _.
  pose proof (calm_heartBeat w now c w (calm_refl w)) as H.
  apply recovering_inv; [|intros p w' Hw'; by apply calm_Close]. run.
  destruct (RefreshToken_Unmarshal m zero_RefreshToken) as [rt [e|]]; [done|]. run. unfold refreshToken.
  destruct (refreshToken0 config spare (rt_Token rt)) as [[claims [e|]]|p|]; cbn; try done. calm_by H.
Qed.

Lemma calm_dispatch config spare now1 now2 s t m w : calm w (dispatch config spare now1 now2 s t m w).2.
Proof.
  unfold dispatch. repeat case_match.
  - apply calm_handleRegister.
  - unfold handleEnterRoom. apply bind_inv; [rewrite assert_same; apply calm_refl|].
    intros c w' [-> _]%assert_Client_inv _.
    destruct (EnterRoom_Unmarshal m zero_EnterRoom) as [er [e|]]; [apply calm_refl|]. run.
    apply calm_set; [done|]. apply calm_roomM_clientIn, calm_refl.
  - unfold handleMsg. apply bind_inv; [rewrite assert_same; apply calm_refl|].
    intros c w' [-> _]%assert_Client_inv _. run.
    pose proof (calm_heartBeat w now1 c w (calm_refl w)) as Hbeat.
    destruct (alter _ c (w_clients w) !! c) as [client|]; [|done].
    assert (calm w (msg_fields c (c_roomId client) t m (heartBeat now1 c w)).2) as H2.
    { unfold msg_fields. case_match; [|done]. destruct (Chat_Unmarshal m zero_Chat) as [chat [e|]]; [done|].
      case_match; [|done]. by apply calm_roomM_clientIn. }
    destruct (msg_fields c (c_roomId client) t m (heartBeat now1 c w)) as [[f|p|] w2]; try done.
    destruct f as [[[roomId level] nickname] params]. unfold group_Add, next_message_id. cbn.
    destruct (mqg_Add _ _); calm_by H2.
  - apply calm_handleRefreshToken.
  - unfold handleHeartBeat. apply bind_inv; [rewrite assert_same; apply calm_refl|].
    intros c w' [-> _]%assert_Client_inv _. apply calm_heartBeat, calm_refl.
  - apply calm_refl.
Qed.

Lemma calm_expire now l e w w1 : calm w w1 -> calm w (expire now l e w1).
Proof.
  intros H. unfold expire. repeat case_match; try done.
  repeat (apply calm_set; [intros [? ? ? ? ? [?|] ? ? ?]; done|]). done.
Qed.

Lemma calm_ending l w w1 : calm w w1 -> calm w (ending l w1).
Proof.
  intros H. destruct (w_clients w1 !! l) as [c|] eqn:Hc; [|unfold ending; by rewrite Hc].
  rewrite (ending_eq l c) by done.
  apply (calm_upd_rooms w w1 (fun m => rm_ending m (c_roomId c) l (c_ID c))) in H; [|apply rm_ending_move].
  apply (calm_set w _ l ended) in H; [|done]. calm_by H.
Qed.

(** The bytes a message caches are its bytes. *)
Definition caches_ok (w : World) : Prop := forall m msg, w_msgs w !! m = Some msg -> cache_ok msg.

Lemma calm_a_iter l w : caches_ok w -> calm w (a_iter l w).
Proof.
  intros Hw. destruct (w_clients w !! l) as [c|] eqn:Hc; [|unfold a_iter; rewrite Hc; apply calm_refl].
  assert (calm w (on_client l (set_c_queue tail) w)) as Hpop.
  { apply calm_on_client; [|apply calm_refl]. intros c'. exists 1%nat. by destruct c' as [? ? ? ? [] ? ? ? ?]. }
  unfold a_iter, a_pop. rewrite Hc. destruct (c_q c); [apply calm_refl|].
  destruct (head (c_queue c)) as [m|] eqn:Hm; [|done]. unfold a_output. cbn. rewrite lookup_alter_eq, Hc. cbn.
  destruct (w_msgs w !! m) as [msg|] eqn:Hmsg; [|done].
  destruct (tc_Marshal_spec msg (Hw m msg Hmsg)) as (msg' & -> & _ & Hwire & _).
  destruct Hpop as [H1 H2 H3]. split; [done| |done]. intros m' b Hb. cbn. rewrite lookup_insert. case_decide; [|done].
  subst m'. rewrite Hmsg in Hb. cbn in *. congruence.
Qed.

(** Every step is calm, except the publications, which are [d_next]'s. *)
Lemma step_calm config w w' :
  caches_ok w -> step config w w' ->
  calm w w' \/ exists range payload, (forall m, iterates m (range m)) /\ w' = handleSubscription range payload w.
Proof.
  intros Hw Hs. pose proof (calm_refl w) as H. destruct Hs; [left|left|left|left|right|left..].
  - calm_by H.
  - calm_by H.
  - unfold conn_closed. case_match; [done|]. calm_by H.
  - apply calm_dispatch.
  - by exists range, payload.
  - by apply calm_a_iter.
  - apply calm_ending. calm_by H.
  - apply calm_expire. calm_by H.
  - unfold timer_fire. repeat case_match; try done.
    assert (calm w (on_client l (set_c_expireTimer (Some {| tm_deadline := None |})) w)) as Hset by (by apply calm_set).
    calm_by Hset.
  - unfold initHeartBeat. case_match; [|done]. rewrite heartbeat_close_if. by apply calm_close_if.
  - unfold consume. run. unfold consumeEvent. apply recovering_inv; [|done]. run.
    destruct (mqg_DrainTo rooms (w_mqg w) [] 10000) as [[msgs rest] g]. unfold on_rpc. cbn.
    destruct (deliver (w_rpc w) msgs (w_rpc_env w)) as [[x|p|] e]; cbn; calm_by H.
  - unfold discovery. destruct (discover _ _ _ _ _ _) as [[r|p|] e]; calm_by H.
  - unfold publish. destruct (total_traffic order1 w). calm_by H.
  - rewrite CloseAll_close_if. by apply calm_close_if.
Qed.

End Calm.

(** * Specification

A client [l] that has the user id [id], and is registered under it or not ([reg]), and
is in the room of the publication or not: [where_] is the map that holds it. *)
Definition stable `{BDMsg, Net} (fr : FromRouterMessage) (id : string) (l : loc) (reg : bool) (where_ : option loc)
    (w : World) : Prop :=
  (w_clientM w !! id = Some l <-> reg = true) /\
  match where_ with
  | Some p => rm_clients (w_rooms w) !! fr_ToRoomId fr = Some p /\ rm_lookup (w_rooms w) (fr_ToRoomId fr) id <> None
  | None => rm_lookup (w_rooms w) (fr_ToRoomId fr) id = None
  end.

(** How often the publication is for it: as its user, and as one of its audience. *)
Definition user_share (fr : FromRouterMessage) (id : string) : nat :=
  if decide (fr_ToUserId fr <> "" /\ fr_ToUserId fr = id) then 1%nat else 0%nat.
Definition audience_share (fr : FromRouterMessage) (where_ : option loc) : nat :=
  if decide (fr_ToRoomId fr = "world" \/ fr_ToRoomId fr <> "" /\ where_ <> None) then 1%nat else 0%nat.
Definition share (fr : FromRouterMessage) (id : string) (reg : bool) (where_ : option loc) : nat :=
  if reg then (user_share fr id + audience_share fr where_)%nat else 0%nat.

(** The messages pushed to a client. *)
Definition pushes (l : loc) (log : list (loc * loc)) : list loc := (filter (fun p => p.1 = l) log).*2.

(** A run in which a property holds all the time. *)
Definition d_run `{HB : BDMsg, HN : Net, HG : Gorsa, HZ : Zlib, HP : Proto} (config : ConfigT) (P : World -> Prop) :
    dconf -> dconf -> Prop :=
  rtc (fun s s' => d_step config s s' /\ P (d_world s')).

(** * The invariant of a delivery *)

(** An id leads to a client of that id, and the rooms are well formed. *)
Record sound `{BDMsg, Net} (w : World) : Prop := {
  so_clientM id l : w_clientM w !! id = Some l -> is_client w id l;
  so_rooms : rm_wf (w_rooms w);
}.

Section Delivery.
Context `{HB : BDMsg, HL : !BDMsgLaws, HN : Net, HG : Gorsa, HZ : Zlib, HP : Proto}.
Variables (fr : FromRouterMessage) (id : string) (l : loc) (reg : bool) (where_ : option loc).

(** What is known of the world all the time: [world_ok] when the others run their handlers in
one piece, [sound] when they run them section by section (Races.v). *)
Variable W : World -> Prop.
Hypothesis W_sound : forall w, W w -> sound w.
Hypothesis W_new : forall w, W w -> W (new_message (convert fr) w).2.
Hypothesis W_push : forall c m w, W w -> is_Some (w_msgs w !! m) -> W (ServerHello (Some c) m w).

Definition one (b : bool) : nat := if b then 1%nat else 0%nat.

(** What the client has still to get: from a list of ids, from the part for the
audience, in all. *)
Definition listed (ids : list string) : nat := if reg then one (bool_decide (id ∈ ids)) else 0%nat.
Definition later (next : option FromRouterMessage) : nat :=
  match next with Some _ => if reg then audience_share fr where_ else 0%nat | None => 0%nat end.
Definition owed (pc : dpc) : nat :=
  match pc with
  | DReceive => 0%nat
  | DAudience _ | DRoom _ _ => later (Some fr)
  | DIds ids _ next => (listed ids + later next)%nat
  | DHello c ids _ next => (one (bool_decide (c = l)) + (listed ids + later next))%nat
  | DWorld ids _ => listed ids
  end.

Definition sends (w : World) (m : loc) : Prop := wire <$> w_msgs w !! m = Some (wire (convert fr)).

(** What the goroutine holds makes sense. *)
Definition pc_ok (w : World) (pc : dpc) : Prop :=
  match pc with
  | DReceive => True
  | DAudience fr' => fr' = fr
  | DRoom fr' p => fr' = fr /\ fr_ToRoomId fr <> "world" /\ fr_ToRoomId fr <> "" /\
      is_Some (rm_maps (w_rooms w) !! p) /\
      (forall r, rm_clients (w_rooms w) !! r = Some p -> r = fr_ToRoomId fr) /\
      (forall p', where_ = Some p' -> p = p')
  | DIds ids m next => NoDup ids /\ sends w m /\ (forall fr', next = Some fr' -> fr' = fr)
  | DHello c ids m next => NoDup ids /\ sends w m /\ (forall fr', next = Some fr' -> fr' = fr)
  | DWorld ids m => NoDup ids /\ sends w m
  end.

Record d_inv (log0 : list (loc * loc)) (c0 : Client) (s : dconf) : Prop := {
  di_world : W (d_world s);
  di_stable : stable fr id l reg where_ (d_world s);
  di_pc : pc_ok (d_world s) (d_pc s);
  di_log : exists pushed, d_log s = log0 ++ pushed /\
    (length (pushes l pushed) + owed (d_pc s) = share fr id reg where_)%nat /\
    (forall p, p ∈ pushed -> sends (d_world s) p.2) /\
    exists c k, w_clients (d_world s) !! l = Some c /\ c_ID c = c_ID c0 /\ c_msc c = c_msc c0 /\
      c_queue c = drop k (c_queue c0 ++ pushes l pushed);
}.

Lemma sends_calm w w' m : calm w w' -> sends w m -> sends w' m.
Proof. intros H. apply (calm_msg w w' H). Qed.

Lemma pc_ok_calm w w' pc : calm w w' -> pc_ok w pc -> pc_ok w' pc.
Proof.
  intros H. destruct pc; cbn; try done.
  - intros (-> & ? & ? & Hp & Hr & Hw). destruct (calm_rooms w w' H _ Hp) as [Hp' Hr']. split_and!; eauto.
  - intros (? & ? & ?). split_and!; eauto using sends_calm.
  - intros (? & ? & ?). split_and!; eauto using sends_calm.
  - intros (? & ?). split_and!; eauto using sends_calm.
Qed.

(** The others keep the invariant. *)
Lemma d_inv_others log0 c0 pc w w' log :
  W w' -> calm w w' -> stable fr id l reg where_ w' ->
  d_inv log0 c0 (mkD pc w log) -> d_inv log0 c0 (mkD pc w' log).
Proof.
  intros HW Hc Hst [Hw _ Hpc (pushed & Hlog & Hn & Hm & c & k & Hl & E1 & E2 & E3)]. cbn in *. constructor; cbn.
  - done.
  - done.
  - by eapply pc_ok_calm.
  - exists pushed. split_and!; [done..| |]; [by eauto using sends_calm|].
    destruct (calm_client w w' Hc l c Hl) as (c' & k' & Hl' & F1 & F2 & F3). exists c', (k + k')%nat.
    rewrite F3, E3, drop_drop. split_and!; congruence.
Qed.

(** A new message is there, and nothing else is new. *)
Lemma new_message_calm w :
  W w -> let '(m, w') := new_message (convert fr) w in
  w' = upd_msgs <[m := convert fr]> w /\ calm w w' /\ W w' /\ sends w' m.
Proof.
  intros Hw. pose proof (W_new w Hw) as Hw'. cbn in *. set (m := fresh _). assert (w_msgs w !! m = None) as Hm by apply not_elem_of_dom, is_fresh.
  split_and!; [done| |done|by unfold sends; cbn; rewrite lookup_insert_eq].
  split; [|intros m' b; cbn|done]; [intros l' c Hc; by exists c, 0%nat|].
  rewrite lookup_insert. case_decide; [|done]. subst m'. by rewrite Hm.
Qed.

Lemma pushes_snoc log c m : pushes l (log ++ [(c, m)]) = pushes l log ++ (if decide (c = l) then [m] else []).
Proof. unfold pushes. rewrite filter_app, fmap_app. f_equal. cbn. by case_decide. Qed.

(** A push. *)
Lemma d_inv_push log0 c0 pc pc' w log c m :
  d_inv log0 c0 (mkD pc w log) -> sends w m -> pc_ok w pc' ->
  owed pc = (one (bool_decide (c = l)) + owed pc')%nat ->
  d_inv log0 c0 (mkD pc' (ServerHello (Some c) m w) (log ++ [(c, m)])).
Proof.
  intros [Hw Hst Hpc (pushed & Hlog & Hn & Hm & cl & k & Hl & E1 & E2 & E3)] Hsend Hok Howed. cbn in *. constructor; cbn.
  - apply W_push; [done|]. unfold sends in Hsend. apply fmap_Some in Hsend as (? & ? & _). by eexists.
  - done.
  - by destruct pc'.
  - exists (pushed ++ [(c, m)]). rewrite Hlog, app_assoc, pushes_snoc, length_app. split_and!; [done| | |].
    + rewrite <-Hn, Howed. case_bool_decide; case_decide; cbn; (done || lia).
    + intros p [?| ->%list_elem_of_singleton]%elem_of_app; [by apply Hm|done].
    + rewrite lookup_alter. destruct (decide (c = l)) as [->|Hne].
      * rewrite Hl. exists (set_c_queue (fun q => q ++ [m]) cl), (Nat.min k (length (c_queue c0 ++ pushes l pushed))).
        cbn. split_and!; [done..|]. rewrite E3, app_assoc, (drop_app_le (c_queue c0 ++ pushes l pushed)) by lia. f_equal.
        destruct (decide (k <= length (c_queue c0 ++ pushes l pushed))%nat); [by rewrite Nat.min_l|].
        rewrite Nat.min_r, !drop_ge by lia. done.
      * exists cl, k. by rewrite app_nil_r.
Qed.

(** A section that only moves on. *)
Lemma d_inv_move log0 c0 pc pc' w log :
  d_inv log0 c0 (mkD pc w log) -> pc_ok w pc' -> owed pc = owed pc' -> d_inv log0 c0 (mkD pc' w log).
Proof.
  intros [Hw Hst Hpc (pushed & Hlog & Hn & H)] Hok Ho. constructor; cbn in *; [done..|].
  exists pushed. by rewrite <-Ho.
Qed.

(** A section that makes a message. *)
Lemma d_inv_new log0 c0 pc pc' w log :
  d_inv log0 c0 (mkD pc w log) ->
  (forall m, sends (new_message (convert fr) w).2 m -> pc_ok (new_message (convert fr) w).2 (pc' m)) ->
  (forall m, owed pc = owed (pc' m)) ->
  let '(m, w') := new_message (convert fr) w in d_inv log0 c0 (mkD (pc' m) w' log).
Proof.
  intros [Hw Hst Hpc (pushed & Hlog & Hn & Hm & cl & k & H)] Hok Ho. pose proof (new_message_calm w Hw) as Hnew.
  destruct (new_message (convert fr) w) as [m w']. destruct Hnew as (E & Hc & Hw' & Hs). cbn in *.
  constructor; cbn; [done| |by apply Hok|].
  - by rewrite E.
  - exists pushed. rewrite <-Ho. split_and!; [done..|by eauto using sends_calm|]. exists cl, k. by rewrite E.
Qed.

(** Looking up an id. *)
Lemma lookup_found w v c ids cl :
  W w -> stable fr id l reg where_ w -> w_clients w !! l = Some cl -> c_ID cl = id -> NoDup (v :: ids) ->
  w_clientM w !! v = Some c ->
  listed (v :: ids) = (one (bool_decide (c = l)) + listed ids)%nat.
Proof.
  intros Hw [Hreg _] Hl Hid [Hv _]%NoDup_cons Hc. destruct (so_clientM w (W_sound w Hw) v c Hc) as (cc & Hcc & Ev).
  unfold listed.
  assert (c = l <-> v = id /\ reg = true) as Hiff.
  { split; [|intros [-> Hr%Hreg]; congruence]. intros Ecl. assert (v = id) as Evid by congruence.
    split; [done|]. apply Hreg. congruence. }
  destruct reg.
  - destruct (decide (v = id)) as [->|Hne].
    + rewrite (bool_decide_true (id ∈ id :: ids)) by apply list_elem_of_here.
      rewrite (bool_decide_true (c = l)), (bool_decide_false (id ∈ ids)) by tauto. done.
    + rewrite (bool_decide_false (c = l)) by tauto. cbn. f_equal. apply bool_decide_ext. set_solver.
  - rewrite bool_decide_false; [done|]. by intros [_ ?]%Hiff.
Qed.

Lemma lookup_missing w v ids :
  stable fr id l reg where_ w -> w_clientM w !! v = None -> listed (v :: ids) = listed ids.
Proof.
  intros [Hreg _] Hv. unfold listed. destruct reg; [|done]. assert (v <> id) by naive_solver congruence.
  f_equal. apply bool_decide_ext. set_solver.
Qed.

Lemma listed_all ids : (id ∈ ids <-> audience_share fr where_ = 1%nat) -> listed ids = later (Some fr).
Proof.
  intros Hiff. unfold listed, later. destruct reg; [|done]. unfold audience_share in *. case_decide; cbn.
  - by rewrite bool_decide_true by tauto.
  - rewrite bool_decide_false; [done|]. intros ?%Hiff. done.
Qed.

(** The ids a room is walked for. *)
Lemma room_ids_share w p range :
  (forall m, iterates m (range m)) -> stable fr id l reg where_ w -> pc_ok w (DRoom fr p) -> rm_wf (w_rooms w) ->
  let inner := default ∅ (rm_maps (w_rooms w) !! p) in
  NoDup (room_userIds (fr_ToRoomId fr) inner (range inner)) /\
  (id ∈ room_userIds (fr_ToRoomId fr) inner (range inner) <-> audience_share fr where_ = 1%nat).
Proof.
  intros Hr [_ Hwhere] (_ & Hnw & Hne & [inner Hp] & Hatt & Hmap) Hwf. cbn zeta. rewrite Hp. cbn.
  split; [by apply room_userIds_NoDup|]. rewrite room_userIds_elem by done. unfold audience_share, rm_lookup, rm_inner in *.
  destruct where_ as [p'|].
  - rewrite (Hmap p' eq_refl) in Hp. destruct Hwhere as [Hcl Hin]. rewrite Hcl, Hp in Hin. cbn in Hin.
    rewrite decide_True by (right; done). rewrite <-not_eq_None_Some. done.
  - rewrite decide_False by naive_solver. split; [|done]. intros [x Hx]. exfalso.
    destruct (decide (rm_clients (w_rooms w) !! fr_ToRoomId fr = Some p)) as [Ha|Hd].
    + rewrite Ha, Hp in Hwhere. cbn in Hwhere. congruence.
    + rewrite (rwf_detached _ Hwf p inner Hp) in Hx; [done|]. intros r Hrp. by rewrite (Hatt r Hrp) in Hrp.
Qed.

(** The part for the audience begins. *)
Lemma d_inv_audience log0 c0 range w log :
  (forall m, iterates m (range m)) ->
  d_inv log0 c0 (mkD (DAudience fr) w log) -> d_inv log0 c0 (d_next range (mkD (DAudience fr) w log)).
Proof.
  intros Hr Hinv. pose proof Hinv as [Hw [Hreg Hwhere] _ _]. cbn in Hw, Hreg, Hwhere. cbn [d_next].
  case_bool_decide as Hworld; [|case_bool_decide as Hempty]; cbn [negb].
  - apply (d_inv_new log0 c0 (DAudience fr) (fun m => DWorld (range (w_clientM w)) m)); [done| |].
    + intros m Hm. split; [|done]. by eapply iterates_NoDup.
    + intros m. symmetry. cbn. unfold listed, audience_share. destruct reg eqn:E; [|done].
      rewrite decide_True by auto. rewrite bool_decide_true; [done|].
      apply (iterates_elem _ _ id (Hr _)). eexists. by apply Hreg.
  - apply (d_inv_move log0 c0 (DAudience fr)); [done..|]. cbn. unfold audience_share. rewrite decide_False by naive_solver.
    by destruct reg.
  - destruct (rm_clients (w_rooms w) !! fr_ToRoomId fr) as [p|] eqn:Hp.
    + apply (d_inv_move log0 c0 (DAudience fr)); [done| |done]. cbn. pose proof (so_rooms w (W_sound w Hw)) as Hwf. split_and!; try done.
      * by apply (rwf_alloc _ Hwf _ _ Hp).
      * intros r Hrp. by apply (rwf_inj _ Hwf r _ p).
      * intros p' E. rewrite E in Hwhere. destruct Hwhere. congruence.
    + apply (d_inv_move log0 c0 (DAudience fr)); [done..|]. cbn. unfold audience_share.
      destruct where_; [by destruct Hwhere|]. rewrite decide_False by naive_solver. by destruct reg.
Qed.

(** The goroutine keeps the invariant. *)
Lemma d_inv_own log0 c0 range s :
  c_ID c0 = id -> (forall m, iterates m (range m)) -> d_inv log0 c0 s -> d_inv log0 c0 (d_next range s).
Proof.
  intros Hid Hr Hinv. destruct s as [pc w log]. pose proof Hinv as [Hw Hst Hpc (pushed & _ & _ & _ & cl & k & Hl & E1 & _)].
  cbn in Hw, Hst, Hpc, Hl. assert (c_ID cl = id) as Hcl by congruence.
  destruct pc as [|fr'|fr' p|[|v ids] m next|c ids m next|[|v ids] m].
  - done.
  - cbn in Hpc. subst fr'. by apply d_inv_audience.
  - pose proof Hpc as [-> _]. pose proof (room_ids_share w p range Hr Hst Hpc (so_rooms w (W_sound w Hw))) as [Hnd Hiff].
    cbn zeta in *. cbn [d_next].
    apply (d_inv_new log0 c0 (DRoom fr p) (fun m => DIds (room_userIds (fr_ToRoomId fr) _ _) m None)); [done| |].
    + intros m Hm. by split_and!.
    + intros m. cbn. rewrite (listed_all _ Hiff). cbn. lia.
  - destruct Hpc as (_ & _ & Hnext). cbn. destruct next as [fr'|].
    + rewrite (Hnext fr' eq_refl) in *. apply (d_inv_move log0 c0 _ _ _ _ Hinv); [done|]. cbn. unfold listed. by destruct reg.
    + apply (d_inv_move log0 c0 _ _ _ _ Hinv); [done|]. cbn. unfold listed. by destruct reg.
  - destruct Hpc as (Hnd & Hsend & Hnext). cbn. unfold cm_Client. destruct (w_clientM w !! v) as [c|] eqn:Hv.
    + pose proof (lookup_found w v c ids cl Hw Hst Hl Hcl Hnd Hv) as Hlisted.
      apply (d_inv_move log0 c0 _ _ _ _ Hinv).
      * cbn. apply NoDup_cons in Hnd as [_ ?]. by split_and!.
      * cbn. rewrite Hlisted. lia.
    + apply (d_inv_move log0 c0 _ _ _ _ Hinv).
      * apply NoDup_cons in Hnd as [_ ?]. by split_and!.
      * cbn. by rewrite (lookup_missing w).
  - destruct Hpc as (Hnd & Hsend & Hnext). cbn. by eapply d_inv_push.
  - cbn. apply (d_inv_move log0 c0 _ _ _ _ Hinv); [done|]. cbn. unfold listed. by destruct reg.
  - destruct Hpc as (Hnd & Hsend). cbn. destruct (w_clientM w !! v) as [c|] eqn:Hv.
    + pose proof (lookup_found w v c ids cl Hw Hst Hl Hcl Hnd Hv) as Hlisted. apply NoDup_cons in Hnd as [_ Hnd].
      by eapply d_inv_push.
    + apply (d_inv_move log0 c0 _ _ _ _ Hinv).
      * apply NoDup_cons in Hnd as [_ ?]. by split.
      * cbn. by rewrite (lookup_missing w).
Qed.

(** What the arrival of a payload leaves. *)
Lemma d_inv_receive payload w log c :
  (FromRouterMessage_Unmarshal payload zero_FromRouterMessage).1 = fr ->
  W w -> w_clients w !! l = Some c -> stable fr id l reg where_ w ->
  d_inv log c (mkD (d_receive payload w).1 (d_receive payload w).2 log).
Proof.
  unfold d_receive. destruct (FromRouterMessage_Unmarshal payload zero_FromRouterMessage) as [fr' e]. cbn [fst]. intros ->.
  destruct (negb _) eqn:Hu.
  - pose proof (new_message_calm w) as Hnew. destruct (new_message (convert fr) w) as [m w'].
    intros Hw Hl Hst. destruct (Hnew Hw) as (-> & Hc & Hw' & Hs). constructor; cbn; [done..| |].
    + split_and!; [apply NoDup_singleton|done|by intros ? [= ->]].
    + exists []. rewrite app_nil_r. split_and!; [done| |set_solver|by exists c, 0%nat; rewrite app_nil_r].
      cbn. unfold listed, later, share, user_share. destruct reg; [|done]. f_equal.
      apply negb_true_iff, bool_decide_eq_false in Hu. case_bool_decide as Hin; case_decide as Hd; try done; set_solver.
  - intros Hw Hl Hst. constructor; cbn; [done..|]. exists []. rewrite app_nil_r.
    split_and!; [done| |set_solver|by exists c, 0%nat; rewrite app_nil_r].
    apply negb_false_iff, bool_decide_eq_true in Hu. cbn. unfold later, share, user_share. destruct reg; [|done].
    by rewrite decide_False by naive_solver.
Qed.

End Delivery.

(** * Runs *)

Section Runs.
Context `{HB : BDMsg, HL : !BDMsgLaws, HN : Net, HG : Gorsa, HZ : Zlib, HP : Proto}.

Lemma world_ok_sound w : world_ok w -> sound w.
Proof. intros Hw. split; [intros id l Hl; by apply (wok_clientM w Hw)|apply (wok_rooms w Hw)]. Qed.

Lemma world_ok_push c m w : world_ok w -> is_Some (w_msgs w !! m) -> world_ok (ServerHello (Some c) m w).
Proof. intros Hw Hm. by apply (world_ok_ServerHello (Some c)). Qed.

Lemma d_inv_run config fr id l reg where_ log0 c0 s s' :
  c_ID c0 = id -> d_inv fr id l reg where_ world_ok log0 c0 s ->
  d_run config (stable fr id l reg where_) s s' -> d_inv fr id l reg where_ world_ok log0 c0 s'.
Proof.
  intros Hid Hinv Hrun. induction Hrun as [s|s s1 s2 [Hstep Hst] _ IH]; [done|]. apply IH.
  destruct Hstep as [range s Hr|pc w w' log Hs Hc _].
  - apply d_inv_own; try done; [apply world_ok_sound|intros w; by apply world_ok_msgs|apply world_ok_push].
  - eapply d_inv_others; try done. eapply step_ok; [exact (di_world _ _ _ _ _ _ _ _ _ Hinv)|done].
Qed.

(** The goroutine when nobody else runs. *)
Definition own_steps (range : gmap string loc -> list string) : dconf -> dconf -> Prop :=
  rtc (fun s s' => s' = d_next range s).

Lemma own_ids range ids m next w log :
  exists log', own_steps range (mkD (DIds ids m next) w log) (mkD (DIds [] m next) (deliver_all ids m w) log').
Proof.
  revert w log. induction ids as [|v ids IH]; intros w log; [exists log; apply rtc_refl|].
  change (deliver_all (v :: ids) m w) with (deliver_all ids m (deliverToSingleClient v m w)).
  unfold deliverToSingleClient. destruct (cm_Client v w) as [c|] eqn:Hv.
  - destruct (IH (ServerHello (Some c) m w) (log ++ [(c, m)])) as [log' Hrun]. exists log'.
    eapply rtc_l; [cbn [d_next]; rewrite Hv; reflexivity|]. eapply rtc_l; [reflexivity|exact Hrun].
  - destruct (IH w log) as [log' Hrun]. exists log'. eapply rtc_l; [cbn [d_next]; rewrite Hv; reflexivity|exact Hrun].
Qed.

Lemma own_world range ids m w log :
  exists log', own_steps range (mkD (DWorld ids m) w log)
    (mkD DReceive (foldl (fun w id => ServerHello (w_clientM w !! id) m w) w ids) log').
Proof.
  revert w log. induction ids as [|v ids IH]; intros w log; [exists log; by apply rtc_once|].
  edestruct IH as [log' Hrun]. exists log'. eapply rtc_l; [reflexivity|]. cbn [d_next foldl]. exact Hrun.
Qed.

Lemma own_audience range fr w log :
  let w' := if bool_decide (fr_ToRoomId fr = "world") then deliverToWorld range fr w
            else if negb (bool_decide (fr_ToRoomId fr = "")) then deliverToRoom range fr w else w in
  exists log', own_steps range (mkD (DAudience fr) w log) (mkD DReceive w' log').
Proof.
  cbn zeta. case_bool_decide as Hworld; [|case_bool_decide as Hempty]; cbn [negb].
  - unfold deliverToWorld. destruct (own_world range (range (w_clientM w)) (new_message (convert fr) w).1
      (new_message (convert fr) w).2 log) as [log' Hrun]. exists log'.
    eapply rtc_l; [cbn [d_next]; rewrite bool_decide_true by done; reflexivity|exact Hrun].
  - exists log. apply rtc_once. cbn [d_next]. rewrite bool_decide_false, bool_decide_true by done. done.
  - unfold deliverToRoom. destruct (rm_clients (w_rooms w) !! fr_ToRoomId fr) as [p|] eqn:Hp.
    + set (ids := room_userIds _ _ _).
      destruct (own_ids range ids (new_message (convert fr) w).1 None (new_message (convert fr) w).2 log) as [log' Hrun].
      exists log'. eapply rtc_l; [cbn [d_next]; rewrite !bool_decide_false, Hp by done; reflexivity|].
      eapply rtc_l; [reflexivity|]. eapply rtc_r; [exact Hrun|]. done.
    + exists log. apply rtc_once. cbn [d_next]. by rewrite !bool_decide_false, Hp by done.
Qed.

(** The goroutine changes neither the manager nor the rooms. *)
Lemma d_next_tables range s :
  w_clientM (d_world (d_next range s)) = w_clientM (d_world s) /\ w_rooms (d_world (d_next range s)) = w_rooms (d_world s).
Proof.
  destruct s as [[|fr|fr p|[|v ids] m next|c ids m next|[|v ids] m] w log]; unfold new_message; cbn; repeat case_match; try done.
  all: by destruct (w_clientM w !! v).
Qed.

Lemma own_run config (P : World -> Prop) range s s' :
  (forall m, iterates m (range m)) -> (forall w w', w_clientM w' = w_clientM w -> w_rooms w' = w_rooms w -> P w -> P w') ->
  P (d_world s) -> own_steps range s s' -> d_run config P s s'.
Proof.
  intros Hr Htab H0 H. revert H0. induction H as [s|s s1 s2 -> _ IH]; intros H0; [apply rtc_refl|].
  destruct (d_next_tables range s) as [E1 E2]. assert (P (d_world (d_next range s))) as H1 by (by eapply Htab).
  eapply rtc_l; [|by apply IH]. by split; [constructor|].
Qed.

Lemma own_receive range payload w log :
  exists log', own_steps range (mkD (d_receive payload w).1 (d_receive payload w).2 log)
    (mkD DReceive (handleSubscription range payload w) log').
Proof.
  unfold d_receive, handleSubscription.
  destruct (FromRouterMessage_Unmarshal payload zero_FromRouterMessage) as [fr e].
  case_bool_decide as Hu; cbn [negb].
  - apply own_audience.
  - pose proof (own_ids range [fr_ToUserId fr] (new_message (convert fr) w).1 (Some fr) (new_message (convert fr) w).2 log)
      as [log1 H1]. destruct (own_audience range fr (deliverToUser fr w) log1) as [log2 H2].
    exists log2. etrans; [exact H1|]. eapply rtc_l; [reflexivity|]. exact H2.
Qed.

(** From wherever it stands it comes back to wait. *)
Lemma own_return range s : exists s', own_steps range s s' /\ d_pc s' = DReceive.
Proof.
  assert (forall fr w log, exists s', own_steps range (mkD (DAudience fr) w log) s' /\ d_pc s' = DReceive) as Ha.
  { intros fr w log. destruct (own_audience range fr w log) as [log' H]. by eexists. }
  assert (forall ids m next w log, exists s', own_steps range (mkD (DIds ids m next) w log) s' /\ d_pc s' = DReceive) as Hi.
  { intros ids m next w log. destruct (own_ids range ids m next w log) as [log1 H1]. destruct next as [fr|].
    - destruct (Ha fr (deliver_all ids m w) log1) as (s' & H2 & E). exists s'. split; [|done].
      etrans; [exact H1|]. by eapply rtc_l; [reflexivity|].
    - eexists. split; [eapply rtc_r; [exact H1|reflexivity]|done]. }
  destruct s as [[|fr|fr p|ids m next|c ids m next|ids m] w log].
  - by eexists; split; [apply rtc_refl|].
  - apply Ha.
  - edestruct Hi as (s' & H & E). exists s'. split; [|done]. eapply rtc_l; [reflexivity|exact H].
  - apply Hi.
  - edestruct Hi as (s' & H & E). exists s'. split; [|done]. eapply rtc_l; [reflexivity|exact H].
  - destruct (own_world range ids m w log) as [log' H]. by eexists.
Qed.

End Runs.

(** * Properties *)


(** C34: the sections one after the other are [handleSubscription], and from wherever the
goroutine stands its own sections take it back to wait for the next message. *)
Theorem subscriber_alone `{HB : BDMsg, HN : Net} range :
  (forall payload w log, exists log',
    own_steps range (mkD (d_receive payload w).1 (d_receive payload w).2 log)
      (mkD DReceive (handleSubscription range payload w) log')) /\
  forall s, exists s', own_steps range s s' /\ d_pc s' = DReceive.
Proof. split; [intros; apply own_receive|apply own_return]. Qed.

(** * Witnesses *)

Section Examples.
#[local] Existing Instances test_bdmsg test_bdmsg_laws test_net test_zlib toy_rsa test_proto.

(** Ann is the only member of room r1. *)
Definition r1_payload : bytes := jsb "{'toRoomId':'r1','params':{'content':'hi'}}".
Definition enter_payload : bytes := jsb "{'RoomId':'r1'}".
Definition ann_client : Client :=
  set_c_roomId "r1" (set_c_heartBeatTime 0 (new_client 0 ann 1%positive)).

Lemma ann_in_r1 : w_clients w_s3 !! 1%positive = Some ann_client /\ w_clientM w_s3 !! "ann" = Some 1%positive /\
  rm_clients (w_rooms w_s3) !! "r1" = Some 1%positive /\ rm_maps (w_rooms w_s3) !! 1%positive = Some {["ann" := 1%positive]} /\
  rm_lookup (w_rooms w_s3) "r1" "ann" = Some 1%positive.
Proof. vm_compute. split_and!; reflexivity. Qed.

Definition r1_fr : FromRouterMessage :=
  Build_FromRouterMessage "" 0 "" "" "r1" (Some {["content" := "hi"]}) "" "" "".
Lemma r1_payload_fr : (FromRouterMessage_Unmarshal r1_payload zero_FromRouterMessage).1 = r1_fr.
Proof. vm_compute. reflexivity. Qed.


End Examples.
