(* ===== verification/Lifecycle.v ===== *)
(** The life of a client at the grain of the locks (connectsvc/client.go, room.go,
connectsvc.go): registration, the entering of rooms and the end of a client as goroutines
that take the locks of the manager and of the rooms one after the other, against each
other and against the rest of the server. *)

From S2P Require Import Prelude GoText Json ProtoDef Protocol ToCompute Room Config Token Rpc State.
From S2P Require Import Client Subscribe Heartbeat Stat Service Interleave.
Local Open Scope Z_scope.

(** * Where a goroutine stands *)

(** What a handler does once the client is in the room. *)
Inductive after :=
  | ThenLevel (level : Z)
  | ThenQueue (now t : Z) (roomId : string) (level : Z) (nickname : string) (params : gomap string).

(** A handler of a connection: called; with its token accepted, before the lock of the
manager; before [Handshake]; recovered from a panic; before the two sections of
[RoomManager.clientIn]; behind them. *)
Inductive hpc :=
  | HRegister (spare : bytes) (now : Z) (m : bytes)
  | HAdmit (spare : bytes) (now : Z) (msc : loc) (register : Register)
  | HHandshake (msc : loc)
  | HStop (msc : loc)
  | HEnter (m : bytes)
  | HMsg (now1 now2 t : Z) (m : bytes)
  | HLeave (c : loc) (roomId : string) (k : after)
  | HJoin (c : loc) (roomId : string) (k : after)
  | HThen (c : loc) (k : after).

(** [Client.ending] before each of its effects. *)
Inductive epc := EUserData | ERoom | EManager | EQuit | ETimer | EUsers.

(** Whether the manager may still hold the client, whether [c.q] is still to be set. *)
Definition registered_at (pc : epc) : bool :=
  match pc with EUserData | ERoom | EManager => true | _ => false end.
Definition running_at (pc : epc) : bool :=
  match pc with ETimer | EUsers => false | _ => true end.

Section Lifecycle.
Context `{HB : BDMsg, HN : Net, HG : Gorsa, HZ : Zlib, HP : Proto}.

(** * Sections *)

(** The first section of [RoomManager.clientIn] is left out without a room. *)
Definition h_room (c : loc) (roomId : string) (k : after) : hpc :=
  if bool_decide (roomId = "") then HThen c k else HLeave c roomId k.

(** The end of [handleMsg]. *)
Definition h_queue (client : Client) (now2 t : Z) (roomId : string) (level : Z) (nickname : string)
    (params : gomap string) : M World unit :=
  id ← next_message_id;
  group_Add {|
    fc_MessageId := format_int id;
    fc_RoomId := roomId;
    fc_UserId := c_ID client;
    fc_Nickname := nickname;
    fc_Time := Z.quot now2 1000000;
    fc_Level := to_int32 level;
    fc_Type := to_int32 t;
    fc_Params := params
  |}.

(** [handleRegister] up to the lock of the manager. *)
Definition h_register (config : ConfigT) (s : loc) (spare : bytes) (now : Z) (m : bytes) (w : World)
    : option hpc * World :=
  match user_data s w with
  | UD_SClient msc =>
      if match w_conns w !! msc with Some sc => sc_Handshaked sc | None => false end
      then (Some (HStop msc), w) else
      match Register_Unmarshal m zero_Register with
      | (register, None) =>
          match refreshToken0 config spare (rg_Token register) with
          | Ret (_, None) => (Some (HAdmit spare now msc register), w)
          | Stuck => (Some (HRegister spare now m), w)
          | _ => (Some (HStop msc), w)
          end
      | (_, Some _) => (Some (HStop msc), w)
      end
  | _ => (None, w)
  end.

(** [handleEnterRoom] up to the lock of the rooms. *)
Definition h_enter (s : loc) (m : bytes) (w : World) : option hpc * World :=
  match user_data s w with
  | UD_Client c =>
      match EnterRoom_Unmarshal m zero_EnterRoom with
      | (enterRoom, None) => (Some (h_room c (er_RoomId enterRoom) (ThenLevel (er_Level enterRoom))), w)
      | (_, Some _) => (None, w)
      end
  | _ => (None, w)
  end.

(** [handleMsg] up to the lock of the rooms, or of the queues. *)
Definition h_msg (s : loc) (now1 now2 t : Z) (m : bytes) (w : World) : option hpc * World :=
  match user_data s w with
  | UD_Client c =>
      let w := heartBeat now1 c w in
      match w_clients w !! c with
      | Some client =>
          if t =? 1 then
            match Chat_Unmarshal m zero_Chat with
            | (chat, None) =>
                let params : gomap string := Some {["content" := ch_Content chat]} in
                if negb (bool_decide (ch_RoomId chat = "")) && negb (bool_decide (ch_RoomId chat = c_roomId client))
                then (Some (HLeave c (ch_RoomId chat)
                        (ThenQueue now2 t (ch_RoomId chat) (ch_Level chat) (ch_Nickname chat) params)), w)
                else (Some (HThen c (ThenQueue now2 t (c_roomId client) (ch_Level chat) (ch_Nickname chat) params)), w)
            | (_, Some _) => (None, w)
            end
          else (Some (HThen c (ThenQueue now2 t (c_roomId client) 0 "" None)), w)
      | None => (None, w)
      end
  | _ => (None, w)
  end.

(** One section of a handler of the connection [s]; [None] when it has returned. *)
Definition h_next (config : ConfigT) (s : loc) (pc : hpc) (w : World) : option hpc * World :=
  match pc with
  | HRegister spare now m => h_register config s spare now m w
  | HAdmit spare now msc register =>
      (Some (HHandshake msc), (cm_clientIn config spare now register msc w).2)
  | HHandshake msc => (None, on_conn msc sc_Handshake w)
  | HStop msc => (None, on_conn msc sc_Stop w)
  | HEnter m => h_enter s m w
  | HMsg now1 now2 t m => h_msg s now1 now2 t m w
  | HLeave c roomId k =>
      (Some (HJoin c roomId k),
       match w_clients w !! c with
       | Some client => upd_rooms (fun m => rm_ending m roomId c (c_ID client)) w
       | None => w
       end)
  | HJoin c roomId k =>
      (Some (HThen c k),
       match w_clients w !! c with
       | Some client =>
           on_client c (set_c_roomId roomId) (upd_rooms (fun m => rm_enter m roomId c (c_ID client)) w)
       | None => w
       end)
  | HThen c (ThenLevel level) => (None, on_client c (set_c_level level) w)
  | HThen c (ThenQueue now2 t roomId level nickname params) =>
      (None,
       match w_clients w !! c with
       | Some client => (h_queue client now2 t roomId level nickname params w).2
       | None => w
       end)
  end.

(** The handler the mux of [newService] calls, of those modelled here. *)
Definition h_start (spare : bytes) (now1 now2 t : Z) (m : bytes) : option hpc :=
  if t =? MsgTypeRegister then Some (HRegister spare now1 m)
  else if t =? MsgTypeEnterRoom then Some (HEnter m)
  else if t =? MsgTypeChat then Some (HMsg now1 now2 t m)
  else None.

(** One effect of [Client.ending]. *)
Definition e_next (l : loc) (pc : epc) (w : World) : option epc * World :=
  match w_clients w !! l with
  | None => (None, w)
  | Some c =>
      match pc with
      | EUserData => (Some ERoom, on_conn (c_msc c) (sc_SetUserData UD_nil) w)
      | ERoom => (Some EManager, upd_rooms (fun m => rm_ending m (c_roomId c) l (c_ID c)) w)
      | EManager => (Some EQuit, removeClient l w)
      | EQuit => (Some ETimer, on_client l (set_c_q true) w)
      | ETimer => (Some EUsers, on_client l (fun c => set_c_expireTimer (timer_Stop <$> c_expireTimer c) c) w)
      | EUsers => (None, upd_info (set_ni_LoginUsers (fun n => to_int32 (n - 1))) w)
      end
  end.

(** * The server *)

(** The handlers under way, at most one of a connection, whose messages bdmsg hands out
one after the other, and the clients whose monitor is in [ending]. *)
Record life := mkLife {
  lf_world : World;
  lf_handlers : gmap loc hpc;
  lf_endings : gmap loc epc;
}.

Definition put {A} (k : loc) (x : option A) (m : gmap loc A) : gmap loc A :=
  match x with Some a => <[k := a]> m | None => delete k m end.

(** What registrations, rooms and endings depend on: a client's id, connection and whether
it has ended; what the connections carry; the manager, the rooms; the monitors not yet
in [ending]; the number of users. *)
Record tables := mkTables {
  tb_cl : gmap loc (string * loc * bool);
  tb_ud : gmap loc UserData;
  tb_clientM : gmap string loc;
  tb_rooms : RoomManager;
  tb_mon : list loc;
  tb_users : Z;
}.
Definition card (c : Client) : string * loc * bool := (c_ID c, c_msc c, c_q c).
Definition tables_of (w : World) : tables :=
  mkTables (card <$> w_clients w) (sc_UserData <$> w_conns w) (w_clientM w) (w_rooms w)
    (monitors (w_tasks w)) (ni_LoginUsers (w_info w)).

(** The other goroutines leave the tables; a new connection carries itself. *)
Definition quiet_for (w w' : World) : Prop :=
  tables_of w' = tables_of w \/
  exists s, tb_ud (tables_of w) !! s = None /\
    tables_of w' = mkTables (tb_cl (tables_of w)) (<[s := UD_SClient s]> (tb_ud (tables_of w)))
      (tb_clientM (tables_of w)) (tb_rooms (tables_of w)) (tb_mon (tables_of w)) (tb_users (tables_of w)).

(** A message arrives for an idle connection; a section of a handler; a monitor sees its
connection stopped; an effect of an ending; a step of another goroutine. *)
Inductive life_step (config : ConfigT) : life -> life -> Prop :=
  | life_call w H E s spare now1 now2 t m pc :
      H !! s = None -> is_Some (w_conns w !! s) -> h_start spare now1 now2 t m = Some pc ->
      life_step config (mkLife w H E) (mkLife w (<[s := pc]> H) E)
  | life_handler w H E s pc :
      H !! s = Some pc ->
      life_step config (mkLife w H E)
        (mkLife (h_next config s pc w).2 (put s (h_next config s pc w).1 H) E)
  | life_monitor w H E ts1 l ts2 :
      w_tasks w = ts1 ++ TMonitor l :: ts2 -> monitor_ready l w = true ->
      life_step config (mkLife w H E) (mkLife (upd_tasks (fun _ => ts1 ++ ts2) w) H (<[l := EUserData]> E))
  | life_ending w H E l pc :
      E !! l = Some pc ->
      life_step config (mkLife w H E) (mkLife (e_next l pc w).2 H (put l (e_next l pc w).1 E))
  | life_others w H E w' :
      quiet_for w w' -> life_step config (mkLife w H E) (mkLife w' H E).

(** What is under way goes on, and the monitors of stopped connections: no message arrives,
nobody connects, no other goroutine runs. *)
Inductive life_own (config : ConfigT) : life -> life -> Prop :=
  | own_handler w H E s pc :
      H !! s = Some pc ->
      life_own config (mkLife w H E)
        (mkLife (h_next config s pc w).2 (put s (h_next config s pc w).1 H) E)
  | own_monitor w H E ts1 l ts2 :
      w_tasks w = ts1 ++ TMonitor l :: ts2 -> monitor_ready l w = true ->
      life_own config (mkLife w H E) (mkLife (upd_tasks (fun _ => ts1 ++ ts2) w) H (<[l := EUserData]> E))
  | own_ending w H E l pc :
      E !! l = Some pc ->
      life_own config (mkLife w H E) (mkLife (e_next l pc w).2 H (put l (e_next l pc w).1 E)).

Definition life_init (e : rpc_env) : life := mkLife (w_init e) ∅ ∅.

End Lifecycle.

(** See what a section does. *)
Ltac open_section := cbn [h_next]; unfold h_register, h_enter, h_msg.

(** * The invariant *)

(** What a handler of [s] holds. *)
Definition h_ok (t : tables) (s : loc) (pc : hpc) : Prop :=
  let owns c := exists id q, tb_cl t !! c = Some (id, s, q) in
  match pc with
  | HAdmit _ _ msc _ => msc = s /\ tb_ud t !! s = Some (UD_SClient s)
  | HHandshake msc => msc = s
  | HStop msc => msc = s
  | HLeave c roomId _ => roomId <> "" /\ owns c
  | HJoin c roomId _ => roomId <> "" /\ owns c
  | HThen c _ => owns c
  | _ => True
  end.

Record life_ok (t : tables) (H : gmap loc hpc) (E : gmap loc epc) : Prop := {
  lk_conn l id s q : tb_cl t !! l = Some (id, s, q) -> is_Some (tb_ud t !! s);
  lk_inj l l' id id' s q q' :
    tb_cl t !! l = Some (id, s, q) -> tb_cl t !! l' = Some (id', s, q') -> l = l';
  lk_SClient s l : tb_ud t !! s = Some (UD_SClient l) ->
    l = s /\ forall l' id q, tb_cl t !! l' <> Some (id, s, q);
  lk_Client s l : tb_ud t !! s = Some (UD_Client l) -> exists id q, tb_cl t !! l = Some (id, s, q);
  lk_clientM id l : tb_clientM t !! id = Some l ->
    (exists s q, tb_cl t !! l = Some (id, s, q)) /\
    (l ∈ tb_mon t \/ exists pc, E !! l = Some pc /\ registered_at pc = true);
  lk_rooms : rm_wf (tb_rooms t);
  lk_member r id l : rm_lookup (tb_rooms t) r id = Some l -> exists s q, tb_cl t !! l = Some (id, s, q);
  lk_NoDup : NoDup (tb_mon t);
  lk_mon l : l ∈ tb_mon t -> is_Some (tb_cl t !! l) /\ E !! l = None;
  lk_E l pc : E !! l = Some pc -> is_Some (tb_cl t !! l);
  lk_q l id s q : tb_cl t !! l = Some (id, s, q) ->
    q = false <-> l ∈ tb_mon t \/ exists pc, E !! l = Some pc /\ running_at pc = true;
  lk_users : tb_users t = to_int32 (len (tb_mon t) + Z.of_nat (size E));
  lk_H s pc : H !! s = Some pc -> h_ok t s pc;
}.

(** ** Tables *)

Section Tables.
Context `{HB : BDMsg, HL : !BDMsgLaws, HN : Net}.

Lemma tb_user_data s w d : user_data s w = d -> d <> UD_nil -> tb_ud (tables_of w) !! s = Some d.
Proof. unfold user_data, tables_of. cbn. rewrite lookup_fmap. by destruct (w_conns w !! s) as [sc|]; intros <-. Qed.

Lemma tb_client l w c : w_clients w !! l = Some c -> tb_cl (tables_of w) !! l = Some (card c).
Proof. unfold tables_of. cbn. rewrite lookup_fmap. by intros ->. Qed.

Lemma tb_client_inv l w id s q : tb_cl (tables_of w) !! l = Some (id, s, q) ->
  exists c, w_clients w !! l = Some c /\ c_ID c = id /\ c_msc c = s /\ c_q c = q.
Proof. unfold tables_of. cbn. rewrite lookup_fmap. intros (c & Hc & [= -> -> ->])%fmap_Some. by exists c. Qed.

Lemma tb_conn s w : is_Some (tb_ud (tables_of w) !! s) -> is_Some (w_conns w !! s).
Proof. unfold tables_of. cbn. rewrite lookup_fmap. apply fmap_is_Some. Qed.

(** A method of a connection that leaves its user data. *)
Lemma tables_on_conn s f w :
  (forall c, sc_UserData (f c) = sc_UserData c) -> tables_of (on_conn s f w) = tables_of w.
Proof.
  intros Hf. unfold tables_of. cbn. f_equal. apply map_eq. intros s'.
  rewrite !lookup_fmap, lookup_alter. case_decide; [|done]. subst. by destruct (w_conns w !! s'); cbn; rewrite ?Hf.
Qed.

(** A change of a client that leaves its card. *)
Lemma tables_on_client l f w : (forall c, card (f c) = card c) -> tables_of (on_client l f w) = tables_of w.
Proof.
  intros Hf. unfold tables_of. cbn. f_equal. apply map_eq. intros l'.
  rewrite !lookup_fmap, lookup_alter. case_decide; [|done]. subst. by destruct (w_clients w !! l'); cbn; rewrite ?Hf.
Qed.

Lemma tables_SetUserData s d w :
  tables_of (on_conn s (sc_SetUserData d) w) =
  mkTables (tb_cl (tables_of w)) (alter (fun _ => d) s (tb_ud (tables_of w))) (w_clientM w) (w_rooms w)
    (tb_mon (tables_of w)) (tb_users (tables_of w)).
Proof.
  unfold tables_of. cbn. f_equal. apply map_eq. intros s'.
  rewrite lookup_fmap, !lookup_alter. case_decide; [|by rewrite lookup_fmap].
  subst. rewrite lookup_fmap. destruct (w_conns w !! s'); [|done]. cbn. by rewrite set_UserData.
Qed.

Lemma tables_set_q l w :
  tables_of (on_client l (set_c_q true) w) =
  mkTables (alter (fun c => (c.1, true)) l (tb_cl (tables_of w))) (tb_ud (tables_of w)) (w_clientM w) (w_rooms w)
    (tb_mon (tables_of w)) (tb_users (tables_of w)).
Proof.
  unfold tables_of. cbn. f_equal. apply map_eq. intros l'.
  rewrite lookup_fmap, !lookup_alter. case_decide; [|by rewrite lookup_fmap].
  subst. rewrite lookup_fmap. by destruct (w_clients w !! l').
Qed.

Lemma tables_Close l w : tables_of (Close l w) = tables_of w.
Proof. unfold Close. case_match; [|done]. apply tables_on_conn, stop_UserData. Qed.

End Tables.

(** ** Preservation, effect by effect *)

Section Effects.
Variables (t : tables) (H : gmap loc hpc) (E : gmap loc epc).
Hypothesis Hok : life_ok t H E.

Lemma ok_handler s pc : (forall pc', pc = Some pc' -> h_ok t s pc') -> life_ok t (put s pc H) E.
Proof.
  intros Hpc. constructor; try apply Hok. intros s' pc'.
  destruct pc as [pc|]; cbn.
  - rewrite lookup_insert. case_decide; [intros [= <-]; subst; auto|apply (lk_H _ _ _ Hok)].
  - intros [_ Hs]%lookup_delete_Some. by apply (lk_H _ _ _ Hok).
Qed.

(** An ending goes on. *)
Lemma ok_ending l pc pc' :
  E !! l = Some pc -> running_at pc' = running_at pc ->
  (registered_at pc' = registered_at pc \/ forall id, tb_clientM t !! id <> Some l) ->
  life_ok t H (<[l := pc']> E).
Proof.
  intros Hl Hrun Hreg.
  assert (forall P : epc -> bool, (P pc' = P pc) -> forall l', (exists pc, <[l := pc']> E !! l' = Some pc /\ P pc = true) <->
    (exists pc, E !! l' = Some pc /\ P pc = true)) as Hiff.
  { intros P HP l'. rewrite lookup_insert. case_decide; [|done]. subst l'. rewrite Hl.
    split; intros (pc1 & [= <-] & ?); eexists; (split; [done|congruence]). }
  constructor; try apply Hok.
  - intros id l' Hid. destruct (lk_clientM _ _ _ Hok id l' Hid) as [? Hat]. split; [done|].
    destruct Hat as [|Hat]; [by left|]. right. destruct Hreg as [Hreg|Hreg]; [by apply Hiff|].
    rewrite lookup_insert_ne; [done|]. intros ->. by apply (Hreg id).
  - intros l' Hm. destruct (lk_mon _ _ _ Hok l' Hm). split; [done|]. rewrite lookup_insert_ne; [done|congruence].
  - intros l' pc1. rewrite lookup_insert. case_decide; [|apply (lk_E _ _ _ Hok)]. subst l'. intros _. by eapply (lk_E _ _ _ Hok).
  - intros l' id s q Hc. rewrite (lk_q _ _ _ Hok l' id s q Hc). f_equiv. by rewrite Hiff.
  - rewrite (lk_users _ _ _ Hok), map_size_insert_Some; [done|by eexists].
Qed.

(** A client's connection loses its user data. *)
Lemma ok_nil l id s q :
  tb_cl t !! l = Some (id, s, q) ->
  life_ok (mkTables (tb_cl t) (alter (fun _ => UD_nil) s (tb_ud t)) (tb_clientM t) (tb_rooms t) (tb_mon t) (tb_users t)) H E.
Proof.
  intros Hc. constructor; cbn; try apply Hok.
  - intros l' id' s' q' Hc'. rewrite lookup_alter_is_Some. by eapply (lk_conn _ _ _ Hok).
  - intros s' l'. rewrite lookup_alter. case_decide; [|apply (lk_SClient _ _ _ Hok)]. by destruct (tb_ud t !! s).
  - intros s' l'. rewrite lookup_alter. case_decide; [|apply (lk_Client _ _ _ Hok)]. by destruct (tb_ud t !! s).
  - intros s' pc Hs. pose proof (lk_H _ _ _ Hok s' pc Hs) as Hpc. destruct pc; try done.
    destruct Hpc as [-> Hud]. split; [done|]. cbn. rewrite lookup_alter_ne; [done|]. intros <-.
    destruct (lk_SClient _ _ _ Hok s s Hud) as [_ Hn]. by eapply Hn.
Qed.

(** The rooms change. *)
Lemma ok_rooms rooms :
  rm_wf rooms ->
  (forall r id l, rm_lookup rooms r id = Some l -> exists s q, tb_cl t !! l = Some (id, s, q)) ->
  life_ok (mkTables (tb_cl t) (tb_ud t) (tb_clientM t) rooms (tb_mon t) (tb_users t)) H E.
Proof. intros Hwf Hm. constructor; cbn; try apply Hok; done. Qed.

Lemma ok_room_ending r l id :
  life_ok (mkTables (tb_cl t) (tb_ud t) (tb_clientM t) (rm_ending (tb_rooms t) r l id) (tb_mon t) (tb_users t)) H E.
Proof.
  pose proof (lk_rooms _ _ _ Hok) as Hwf. apply ok_rooms; [by apply rm_ending_wf|]. intros r' id' l'.
  rewrite rm_ending_lookup by done. unfold abs_ending. case_decide; [done|]. apply (lk_member _ _ _ Hok).
Qed.

Lemma ok_room_enter r l id s q :
  tb_cl t !! l = Some (id, s, q) ->
  life_ok (mkTables (tb_cl t) (tb_ud t) (tb_clientM t) (rm_enter (tb_rooms t) r l id) (tb_mon t) (tb_users t)) H E.
Proof.
  intros Hc. pose proof (lk_rooms _ _ _ Hok) as Hwf. apply ok_rooms; [by apply rm_enter_wf|]. intros r' id' l'.
  rewrite rm_enter_lookup by done. unfold abs_enter. case_decide as Hd; [|apply (lk_member _ _ _ Hok)].
  intros [= <-]. destruct Hd as [_ ->]. eauto.
Qed.

(** The manager forgets a client. *)
Lemma ok_remove l id :
  life_ok (mkTables (tb_cl t) (tb_ud t) (if decide (tb_clientM t !! id = Some l) then delete id (tb_clientM t) else tb_clientM t)
    (tb_rooms t) (tb_mon t) (tb_users t)) H E.
Proof.
  constructor; cbn; try apply Hok. intros id' l'. case_decide; [intros [_ ?]%lookup_delete_Some|intros ?];
    by apply (lk_clientM _ _ _ Hok).
Qed.

(** [c.q] is set. *)
Lemma ok_quit l :
  E !! l = Some EQuit ->
  life_ok (mkTables (alter (fun c => (c.1, true)) l (tb_cl t)) (tb_ud t) (tb_clientM t) (tb_rooms t) (tb_mon t) (tb_users t))
    H (<[l := ETimer]> E).
Proof.
  intros Hl. set (cl := alter _ _ _).
  assert (forall l' id s q, cl !! l' = Some (id, s, q) -> exists q0, tb_cl t !! l' = Some (id, s, q0) /\
    q = if decide (l' = l) then true else q0) as Hold.
  { intros l' id s q. unfold cl. rewrite lookup_alter. destruct (decide (l = l')) as [->|].
    - intros ([[id0 s0] q0] & Hc & [= -> -> ->])%fmap_Some. exists q0. by rewrite decide_True.
    - exists q. by rewrite decide_False by done. }
  assert (forall l' id s q, tb_cl t !! l' = Some (id, s, q) -> exists q', cl !! l' = Some (id, s, q')) as Hnew.
  { intros l' id s q Hc. unfold cl. rewrite lookup_alter. case_decide; [|eauto]. subst. rewrite Hc. by eexists. }
  constructor; cbn; try apply Hok.
  - intros l' id s q (q0 & Hc & _)%Hold. by eapply (lk_conn _ _ _ Hok).
  - intros l1 l2 id1 id2 s q1 q2 (p1 & Hc1 & _)%Hold (p2 & Hc2 & _)%Hold. by eapply (lk_inj _ _ _ Hok).
  - intros s l' Hs. destruct (lk_SClient _ _ _ Hok s l' Hs) as [-> Hn]. split; [done|].
    intros l1 id q (q0 & Hc & _)%Hold. by eapply Hn.
  - intros s l' Hs. destruct (lk_Client _ _ _ Hok s l' Hs) as (id & q & Hc). destruct (Hnew _ _ _ _ Hc). eauto.
  - intros id l' Hid. destruct (lk_clientM _ _ _ Hok id l' Hid) as [(s & q & Hc) Hat].
    split; [destruct (Hnew _ _ _ _ Hc); eauto|]. destruct Hat as [|(pc & Hpc & Hr)]; [by left|]. right.
    rewrite lookup_insert_ne; [eauto|]. intros <-. rewrite Hl in Hpc. by injection Hpc as <-.
  - intros r id l' Hr. destruct (lk_member _ _ _ Hok r id l' Hr) as (s & q & Hc). destruct (Hnew _ _ _ _ Hc). eauto.
  - intros l' Hm. destruct (lk_mon _ _ _ Hok l' Hm) as [[[[id s] q] Hc] He]. split; [destruct (Hnew _ _ _ _ Hc); by eexists|].
    rewrite lookup_insert_ne; [done|congruence].
  - intros l' pc Hpc. assert (is_Some (E !! l')) as [pc' Hpc'].
    { revert Hpc. rewrite lookup_insert. case_decide; [subst; by eexists|by eexists]. }
    destruct (lk_E _ _ _ Hok l' pc' Hpc') as [[[id s] q] Hc]. destruct (Hnew _ _ _ _ Hc). by eexists.
  - intros l' id s q (q0 & Hc & ->)%Hold. rewrite lookup_insert. pose proof (lk_q _ _ _ Hok l' id s q0 Hc) as Hq.
    destruct (decide (l' = l)) as [->|Hne]; [|by rewrite decide_False by congruence].
    rewrite decide_True by done. split; [done|]. intros [Hm|(pc & [= <-] & ?)]; [|done].
    destruct (lk_mon _ _ _ Hok l Hm) as [_ ?]. congruence.
  - rewrite (lk_users _ _ _ Hok), map_size_insert_Some; [done|by eexists].
  - intros s pc Hs. pose proof (lk_H _ _ _ Hok s pc Hs) as Hpc. destruct pc; try done; cbn in *.
    + destruct Hpc as (? & id & q & Hc). destruct (Hnew _ _ _ _ Hc). eauto.
    + destruct Hpc as (? & id & q & Hc). destruct (Hnew _ _ _ _ Hc). eauto.
    + destruct Hpc as (id & q & Hc). destruct (Hnew _ _ _ _ Hc). eauto.
Qed.

(** A user less. *)
Lemma ok_done l :
  E !! l = Some EUsers ->
  life_ok (mkTables (tb_cl t) (tb_ud t) (tb_clientM t) (tb_rooms t) (tb_mon t) (to_int32 (tb_users t - 1))) H (delete l E).
Proof.
  intros Hl.
  assert (forall (P : epc -> bool) l', P EUsers = false ->
    (exists pc, delete l E !! l' = Some pc /\ P pc = true) <-> (exists pc, E !! l' = Some pc /\ P pc = true)) as Hiff.
  { intros P l' HP. rewrite lookup_delete. case_decide; [|done]. subst l'. rewrite Hl.
    split; [by intros (? & ? & _)|]. intros (pc1 & [= <-] & ?). congruence. }
  constructor; cbn; try apply Hok.
  - intros id l' Hid. rewrite Hiff by done. by apply (lk_clientM _ _ _ Hok).
  - intros l' Hm. destruct (lk_mon _ _ _ Hok l' Hm) as [? He]. split; [done|]. rewrite lookup_delete. by case_decide.
  - intros l' pc [_ Hpc]%lookup_delete_Some. by eapply (lk_E _ _ _ Hok).
  - intros l' id s q Hc. rewrite Hiff by done. by apply (lk_q _ _ _ Hok l' id s q).
  - rewrite (lk_users _ _ _ Hok). rewrite <-(insert_delete_id E l EUsers Hl) at 1.
    rewrite map_size_insert_None by apply lookup_delete_eq.
    rewrite Nat2Z.inj_succ. unfold Z.succ. rewrite Z.add_assoc, Z.add_comm. apply to_int32_pred.
Qed.

(** A monitor begins to end its client. *)
Lemma ok_monitor l mon :
  tb_mon t ≡ₚ l :: mon ->
  life_ok (mkTables (tb_cl t) (tb_ud t) (tb_clientM t) (tb_rooms t) mon (tb_users t)) H (<[l := EUserData]> E).
Proof.
  intros Hm. pose proof (lk_NoDup _ _ _ Hok) as Hnd. rewrite Hm in Hnd. apply NoDup_cons in Hnd as [Hnl Hnd].
  assert (forall l', l' ∈ tb_mon t <-> l' = l \/ l' ∈ mon) as Hin by (intros l'; rewrite Hm; apply elem_of_cons).
  destruct (lk_mon _ _ _ Hok l) as [Hc He]; [apply Hin; by left|].
  assert (forall (P : epc -> bool) l', P EUserData = true ->
    (l' ∈ mon \/ exists pc, <[l := EUserData]> E !! l' = Some pc /\ P pc = true) <->
    (l' ∈ tb_mon t \/ exists pc, E !! l' = Some pc /\ P pc = true)) as Hiff.
  { intros P l' HP. rewrite Hin, lookup_insert. case_decide; [|naive_solver]. subst l'. naive_solver. }
  constructor; cbn; try apply Hok; try done.
  - intros id l' Hid. rewrite Hiff by done. by apply (lk_clientM _ _ _ Hok).
  - intros l' Hl'. destruct (lk_mon _ _ _ Hok l') as [? ?]; [apply Hin; by right|]. split; [done|].
    rewrite lookup_insert_ne; [done|congruence].
  - intros l' pc. rewrite lookup_insert. case_decide; [by subst|]. by apply (lk_E _ _ _ Hok).
  - intros l' id s q Hl'. rewrite Hiff by done. by apply (lk_q _ _ _ Hok l' id s q).
  - rewrite (lk_users _ _ _ Hok), (len_Permutation _ _ Hm), len_cons, map_size_insert_None by done. f_equal. lia.
Qed.

(** A client is admitted for a connection that carries itself. *)
Lemma ok_admit l id s :
  tb_cl t !! l = None -> tb_ud t !! s = Some (UD_SClient s) ->
  life_ok (mkTables (<[l := (id, s, false)]> (tb_cl t)) (alter (fun _ => UD_Client l) s (tb_ud t))
    (<[id := l]> (tb_clientM t)) (tb_rooms t) (tb_mon t ++ [l]) (to_int32 (tb_users t + 1))) (<[s := HHandshake s]> H) E.
Proof.
  intros Hl Hs. destruct (lk_SClient _ _ _ Hok s s Hs) as [_ Hfree].
  assert (forall l' c, tb_cl t !! l' = Some c -> <[l := (id, s, false)]> (tb_cl t) !! l' = Some c) as Hnew
    by (intros l' c Hc; rewrite lookup_insert_ne; [done|congruence]).
  assert (l ∉ tb_mon t) as Hlm by (intros [[? ?] _]%(lk_mon _ _ _ Hok); congruence).
  assert (E !! l = None) as HlE.
  { destruct (E !! l) as [pc|] eqn:He; [|done]. destruct (lk_E _ _ _ Hok l pc He). congruence. }
  constructor; cbn.
  - intros l' id' s' q. rewrite lookup_insert, lookup_alter_is_Some.
    case_decide; [intros [= <- <- <-]; by eexists|apply (lk_conn _ _ _ Hok)].
  - intros l1 l2 id1 id2 s' q1 q2. rewrite !lookup_insert. repeat case_decide; try congruence; intros Hc1 Hc2; simplify_eq.
    + by destruct (Hfree l2 id2 q2).
    + by destruct (Hfree l1 id1 q1).
    + by eapply (lk_inj _ _ _ Hok).
  - intros s' l'. rewrite lookup_alter. case_decide; [by subst; rewrite Hs|]. intros Hs'.
    destruct (lk_SClient _ _ _ Hok s' l' Hs') as [-> Hn]. split; [done|]. intros l1 id1 q1. rewrite lookup_insert.
    case_decide; [congruence|apply Hn].
  - intros s' l'. rewrite lookup_alter. case_decide.
    + subst s'. rewrite Hs. intros [= <-]. exists id, false. apply lookup_insert_eq.
    + intros Hs'. destruct (lk_Client _ _ _ Hok s' l' Hs') as (id' & q & Hc). eauto.
  - intros id' l'. rewrite lookup_insert. case_decide.
    + intros [= <-]. subst id'. split; [exists s, false; apply lookup_insert_eq|left; set_solver].
    + intros Hid. destruct (lk_clientM _ _ _ Hok id' l' Hid) as [(s' & q & Hc) Hat]. split; [eauto|].
      destruct Hat; [left; set_solver|by right].
  - apply Hok.
  - intros r id' l' Hr. destruct (lk_member _ _ _ Hok r id' l' Hr) as (s' & q & Hc). eauto.
  - apply NoDup_app. split_and!; [apply Hok|set_solver|apply NoDup_singleton].
  - intros l' [Hm| ->%list_elem_of_singleton]%elem_of_app; [|by rewrite lookup_insert_eq; split; [eexists|]].
    destruct (lk_mon _ _ _ Hok l' Hm) as [[c Hc] He]. eauto.
  - intros l' pc Hpc. destruct (lk_E _ _ _ Hok l' pc Hpc) as [c Hc]. eauto.
  - intros l' id' s' q. rewrite lookup_insert. case_decide.
    + subst l'. intros [= <- <- <-]. split; [left; set_solver|done].
    + intros Hc. rewrite (lk_q _ _ _ Hok l' id' s' q Hc). set_solver.
  - rewrite (lk_users _ _ _ Hok), len_app, len_cons, len_nil. unfold to_int32. rewrite wrap_s_add_l by lia. f_equal. lia.
  - intros s' pc. rewrite lookup_insert. case_decide; [by intros [= <-]|]. intros Hs'.
    pose proof (lk_H _ _ _ Hok s' pc Hs') as Hpc. destruct pc; try done; cbn in *.
    + destruct Hpc as [-> Hud]. split; [done|]. by rewrite lookup_alter_ne.
    + destruct Hpc as (? & id' & q & Hc). eauto.
    + destruct Hpc as (? & id' & q & Hc). eauto.
    + destruct Hpc as (id' & q & Hc). eauto.
Qed.

End Effects.

(** ** Steps *)

Section Steps.
Context `{HB : BDMsg, HL : !BDMsgLaws, HN : Net, HG : Gorsa, HZ : Zlib, HP : Proto}.

Definition life_inv (c : life) : Prop := life_ok (tables_of (lf_world c)) (lf_handlers c) (lf_endings c).

Lemma life_inv_init e : life_inv (life_init e).
Proof.
  constructor; cbn; rewrite ?fmap_empty; try (intros *; rewrite lookup_empty); try done.
  - apply rm_wf_init.
  - constructor.
  - by intros ?%elem_of_nil.
Qed.

Lemma tables_enrol now register msc e w :
  let '(l, w') := enrol now register msc e w in
  w_clients w !! l = None /\
  tables_of w' = mkTables (<[l := (rg_UserId register, msc, false)]> (tb_cl (tables_of w)))
    (alter (fun _ => UD_Client l) msc (tb_ud (tables_of w))) (<[rg_UserId register := l]> (w_clientM w)) (w_rooms w)
    (tb_mon (tables_of w) ++ [l]) (to_int32 (tb_users (tables_of w) + 1)).
Proof.
  pose proof (enrol_spec now register msc e w) as Hspec. destruct (enrol now register msc e w) as [l w'].
  destruct Hspec as (-> & Ecl & Eco & EM & Ets & Einfo & _ & Erooms & _).
  split; [apply not_elem_of_dom, is_fresh|]. unfold tables_of at 1. rewrite Ecl, EM, Ets, Einfo, Erooms.
  f_equal.
  - by rewrite fmap_insert.
  - pose proof (tables_SetUserData msc (UD_Client (fresh (dom (w_clients w)))) w) as Hud.
    apply (f_equal tb_ud) in Hud. cbn in Hud. by rewrite Eco.
  - unfold monitors. by rewrite omap_app.
Qed.

Lemma tables_clientIn config spare now register msc w :
  tables_of (cm_clientIn config spare now register msc w).2 = tables_of w \/
  exists l, tb_cl (tables_of w) !! l = None /\
    tables_of (cm_clientIn config spare now register msc w).2 =
    mkTables (<[l := (rg_UserId register, msc, false)]> (tb_cl (tables_of w)))
      (alter (fun _ => UD_Client l) msc (tb_ud (tables_of w))) (<[rg_UserId register := l]> (w_clientM w)) (w_rooms w)
      (tb_mon (tables_of w) ++ [l]) (to_int32 (tb_users (tables_of w) + 1)).
Proof.
  rewrite cm_clientIn_eq. destruct (refreshToken0 _ _ _) as [[claims [err|]]|p|]; try (by left). right. cbn zeta.
  set (w1 := match w_clientM w !! rg_UserId register with Some c => Close c w | None => w end).
  assert (tables_of w1 = tables_of w /\ w_clients w1 = w_clients w /\ w_clientM w1 = w_clientM w /\ w_rooms w1 = w_rooms w)
    as (E1 & E2 & E3 & E4).
  { unfold w1. destruct (w_clientM w !! _) as [l0|]; [|done]. split; [apply tables_Close|].
    destruct (Close_frame l0 w) as [f ->]. done. }
  pose proof (tables_enrol now register msc (tk_ExpireTime claims) w1) as He.
  destruct (enrol now register msc (tk_ExpireTime claims) w1) as [l w2]. destruct He as [Hl Ht].
  exists l. cbn [snd]. rewrite Ht, E1, E3, E4. split; [|done]. unfold tables_of. cbn.
  by rewrite lookup_fmap, <-E2, Hl.
Qed.

(** A section of a handler. *)
Lemma life_inv_handler config w H E s pc :
  H !! s = Some pc -> life_inv (mkLife w H E) ->
  life_inv (mkLife (h_next config s pc w).2 (put s (h_next config s pc w).1 H) E).
Proof.
  intros Hs Hok. unfold life_inv in *. cbn in *. pose proof (lk_H _ _ _ Hok s pc Hs) as Hpc.
  assert (forall l, user_data s w = UD_SClient l -> l = s /\ tb_ud (tables_of w) !! s = Some (UD_SClient s)) as Hsc.
  { intros l Hd. pose proof (tb_user_data s w _ Hd ltac:(done)) as Hu.
    destruct (lk_SClient _ _ _ Hok s l Hu) as [-> _]. done. }
  assert (forall l, user_data s w = UD_Client l -> exists id q, tb_cl (tables_of w) !! l = Some (id, s, q)) as Hcl.
  { intros l Hd. apply (lk_Client _ _ _ Hok). by apply tb_user_data. }
  destruct pc as [spare now m|spare now msc register|msc|msc|m|now1 now2 t m|c roomId k|c roomId k|c k]; open_section.
  - destruct (user_data s w) as [|msc|] eqn:Hd; try (by apply ok_handler).
    destruct (Hsc msc eq_refl) as [-> Hu].
    destruct (match w_conns w !! s with Some sc => sc_Handshaked sc | None => false end).
    { apply ok_handler; [done|]. by intros pc' [= <-]. }
    destruct (Register_Unmarshal m zero_Register) as [register [e|]]; [apply ok_handler; [done|]; by intros pc' [= <-]|].
    destruct (refreshToken0 config spare (rg_Token register)) as [[claims [e|]]|p|];
      apply ok_handler; try done; by intros pc' [= <-].
  - destruct Hpc as [-> Hu]. cbn. destruct (tables_clientIn config spare now register s w) as [->|(l & Hl & ->)].
    + apply (ok_handler _ _ _ Hok s (Some (HHandshake s))). by intros pc' [= <-].
    + by apply (ok_admit _ _ _ Hok).
  - cbn. rewrite tables_on_conn by apply handshake_UserData. by apply (ok_handler _ _ _ Hok s None).
  - cbn. rewrite tables_on_conn by apply stop_UserData. by apply (ok_handler _ _ _ Hok s None).
  - destruct (user_data s w) as [| |c] eqn:Hd; try (by apply ok_handler).
    destruct (Hcl c eq_refl) as (id & q & Hc).
    destruct (EnterRoom_Unmarshal m zero_EnterRoom) as [er [e|]]; [by apply ok_handler|].
    apply ok_handler; [done|]. intros pc' [= <-]. unfold h_room. case_bool_decide; cbn; eauto.
  - destruct (user_data s w) as [| |c] eqn:Hd; try (by apply ok_handler).
    destruct (Hcl c eq_refl) as (id & q & Hc).
    assert (tables_of (heartBeat now1 c w) = tables_of w) as Et by (by apply tables_on_client).
    destruct (w_clients (heartBeat now1 c w) !! c) as [client|]; [|cbn; rewrite Et; by apply (ok_handler _ _ _ Hok s None)].
    destruct (t =? 1); [|cbn [snd fst]; rewrite Et; apply ok_handler; [done|]; intros pc' [= <-]; cbn; eauto].
    destruct (Chat_Unmarshal m zero_Chat) as [chat [e|]]; [cbn; rewrite Et; by apply (ok_handler _ _ _ Hok s None)|].
    cbn zeta. destruct (_ && _) eqn:Hr; cbn [fst snd]; rewrite Et; apply ok_handler; try done; intros pc' [= <-]; cbn; eauto.
    apply andb_true_iff in Hr as [Hr%negb_true_iff%bool_decide_eq_false _]. eauto.
  - destruct Hpc as [Hne (id & q & Hc)]. cbn [fst snd]. destruct (tb_client_inv _ _ _ _ _ Hc) as (client & Hcc & Hid & _ & _).
    rewrite Hcc. apply (ok_handler _ _ _ (ok_room_ending _ _ _ Hok roomId c (c_ID client)) s (Some (HJoin c roomId k))).
    intros pc' [= <-]. cbn. eauto.
  - destruct Hpc as [Hne (id & q & Hc)]. cbn [fst snd]. destruct (tb_client_inv _ _ _ _ _ Hc) as (client & Hcc & Hid & _ & _).
    rewrite Hcc, tables_on_client by done.
    rewrite <-Hid in Hc. apply (ok_handler _ _ _ (ok_room_enter _ _ _ Hok roomId c (c_ID client) s q Hc) s (Some (HThen c k))).
    intros pc' [= <-]. cbn. eauto.
  - destruct k as [level|now2 t roomId level nickname params]; cbn.
    + rewrite tables_on_client by done. by apply (ok_handler _ _ _ Hok s None).
    + assert (tables_of (match w_clients w !! c with
        | Some client => (h_queue client now2 t roomId level nickname params w).2 | None => w end) = tables_of w) as ->.
      { destruct (w_clients w !! c); [|done]. unfold h_queue, next_message_id, group_Add, mbind, M_bind.
        by destruct (mqg_Add _ _). }
      by apply (ok_handler _ _ _ Hok s None).
Qed.

(** An effect of an ending. *)
Lemma life_inv_ending w H E l pc :
  E !! l = Some pc -> life_inv (mkLife w H E) ->
  life_inv (mkLife (e_next l pc w).2 H (put l (e_next l pc w).1 E)).
Proof.
  intros Hl Hok. unfold life_inv in *. cbn in *.
  destruct (lk_E _ _ _ Hok l pc Hl) as [[[id s] q] Hc]. destruct (tb_client_inv _ _ _ _ _ Hc) as (c & Hcc & Hid & Hs & _).
  unfold e_next. rewrite Hcc. destruct pc; cbn [fst snd put].
  - rewrite tables_SetUserData. subst s. eapply (ok_ending _ _ _ (ok_nil _ _ _ Hok l id (c_msc c) q Hc)); [done..|by left].
  - eapply (ok_ending _ _ _ (ok_room_ending _ _ _ Hok (c_roomId c) l (c_ID c))); [done..|by left].
  - unfold removeClient. rewrite Hcc. pose proof (ok_remove _ _ _ Hok l (c_ID c)) as Hrem.
    assert (tables_of (if decide (w_clientM w !! c_ID c = Some l) then upd_clientM (delete (c_ID c)) w else w) =
      mkTables (tb_cl (tables_of w)) (tb_ud (tables_of w)) (if decide (tb_clientM (tables_of w) !! c_ID c = Some l)
        then delete (c_ID c) (tb_clientM (tables_of w)) else tb_clientM (tables_of w)) (tb_rooms (tables_of w))
        (tb_mon (tables_of w)) (tb_users (tables_of w))) as ->.
    { unfold tables_of. cbn. by destruct (decide (w_clientM w !! c_ID c = Some l)). }
    eapply (ok_ending _ _ _ Hrem); [done..|]. right. cbn. intros id' Hid'.
    assert (w_clientM w !! id' = Some l) as Hin.
    { case_decide; [by apply lookup_delete_Some in Hid' as [_ ?]|done]. }
    destruct (lk_clientM _ _ _ Hok id' l Hin) as [(s' & q' & Hc') _]. rewrite Hc in Hc'. injection Hc' as <- <- <-.
    rewrite Hid, decide_True in Hid' by done. by rewrite lookup_delete_eq in Hid'.
  - rewrite tables_set_q. by apply ok_quit.
  - rewrite tables_on_client by done. eapply (ok_ending _ _ _ Hok); [done..|by left].
  - by apply (ok_done _ _ _ Hok).
Qed.

Lemma ok_quiet w w' H E : quiet_for w w' -> life_ok (tables_of w) H E -> life_ok (tables_of w') H E.
Proof.
  intros [->|(s & Hs & ->)] Hok; [done|]. set (t := tables_of w) in *. constructor; cbn; try apply Hok.
  - intros l id s' q Hc. rewrite lookup_insert_is_Some'. right. by eapply (lk_conn _ _ _ Hok).
  - intros s' l. rewrite lookup_insert. case_decide; [|apply (lk_SClient _ _ _ Hok)]. subst s'. intros [= <-].
    split; [done|]. intros l id q Hc. destruct (lk_conn _ _ _ Hok l id s q Hc). congruence.
  - intros s' l. rewrite lookup_insert. case_decide; [done|apply (lk_Client _ _ _ Hok)].
  - intros s' pc Hs'. pose proof (lk_H _ _ _ Hok s' pc Hs') as Hpc. destruct pc; try done. cbn in *.
    destruct Hpc as [-> Hu]. split; [done|]. rewrite lookup_insert_ne; [done|congruence].
Qed.

Lemma life_inv_step config c c' : life_inv c -> life_step config c c' -> life_inv c'.
Proof.
  intros Hok Hstep. destruct Hstep as [w H E s spare now1 now2 t m pc Hs _ Hpc|w H E s pc Hs|w H E ts1 l ts2 Hts _
    |w H E l pc Hl|w H E w' Hq].
  - apply (ok_handler _ _ _ Hok s (Some pc)). intros pc' [= <-]. revert Hpc. unfold h_start.
    repeat case_match; by intros [= <-].
  - by apply life_inv_handler.
  - apply (ok_monitor _ _ _ Hok l (monitors (ts1 ++ ts2))). cbn. rewrite Hts. apply monitors_split.
  - by apply life_inv_ending.
  - by apply (ok_quiet w).
Qed.

Lemma life_reachable config e c : rtc (life_step config) (life_init e) c -> life_inv c.
Proof.
  intros H. remember (life_init e) as c0 eqn:E. assert (life_inv c0) as H0 by (subst; apply life_inv_init).
  clear E. induction H; eauto using life_inv_step.
Qed.

End Steps.
