(* ===== verification/LifecycleRuns.v ===== *)
(** Runs of Lifecycle.v: how the sections of a handler and the effects of an ending compose
to the steps of Service.v, how a registration changes in one step, and a client that
ended and stays in a room. *)

From S2P Require Import Prelude GoText Json ProtoDef Protocol ToCompute Room Config Token Rpc State.
From S2P Require Import Client Subscribe Heartbeat Stat Service Interleave Lifecycle.
Local Open Scope Z_scope.

(** * Composition

Left alone, a handler and an ending do what Service.v and Client.v say in one piece. *)

Section Runs.
Context `{HB : BDMsg, HN : Net, HG : Gorsa, HZ : Zlib, HP : Proto}.

(** At most [n] sections with nothing in between. *)
Fixpoint h_run (config : ConfigT) (s : loc) (n : nat) (pc : hpc) (w : World) : option hpc * World :=
  match n with
  | O => (Some pc, w)
  | S n' => match h_next config s pc w with
            | (Some pc', w') => h_run config s n' pc' w'
            | (None, w') => (None, w')
            end
  end.
Fixpoint e_run (l : loc) (n : nat) (pc : epc) (w : World) : option epc * World :=
  match n with
  | O => (Some pc, w)
  | S n' => match e_next l pc w with
            | (Some pc', w') => e_run l n' pc' w'
            | (None, w') => (None, w')
            end
  end.

Definition h_ends (config : ConfigT) (s : loc) (pc : hpc) (w w' : World) : Prop :=
  exists n, h_run config s n pc w = (None, w').

Lemma h_ends_next config s pc w pc' w1 w' :
  h_next config s pc w = (Some pc', w1) -> h_ends config s pc' w1 w' -> h_ends config s pc w w'.
Proof. intros Hn [n Hr]. exists (S n). cbn. by rewrite Hn. Qed.

Lemma h_ends_last config s pc w w' : h_next config s pc w = (None, w') -> h_ends config s pc w w'.
Proof. intros Hn. exists 1%nat. cbn. by rewrite Hn. Qed.

Lemma refreshToken0_returns config spare token : refreshToken0 config spare token <> Stuck.
Proof.
  unfold refreshToken0, decrypt. case_match; [|done]. case_match; [|done].
  assert (hexToBytes spare token <> Stuck) as Hhex.
  { unfold hexToBytes. pose proof (hexToBytes_from_total (String.length token) (bytes_of_string token ++ spare)) as [Hlt Hge].
    destruct (decide (String.length token + String.length token mod 2 <= length (bytes_of_string token ++ spare))%nat) as [Hd|Hd].
    - by destruct (Hge Hd) as [b ->].
    - by rewrite (Hlt Hd). }
  destruct (hexToBytes spare token) as [b| |]; [|done..].
  destruct (decide (Z.to_nat (z / 8) = 0%nat)) as [Hz|Hz]; [unfold splitBytes; by rewrite decide_True|].
  rewrite splitBytes_cuts by done. by destruct (decrypt_blocks _ _).
Qed.

(** The two sections of [RoomManager.clientIn] in a row. *)
Lemma h_ends_room config s c roomId k w w' :
  h_ends config s (HThen c k) (roomM_clientIn c roomId w) w' -> h_ends config s (h_room c roomId k) w w'.
Proof.
  unfold h_room, roomM_clientIn, rm_clientIn. case_bool_decide as Hr; intros Hend.
  - destruct (w_clients w !! c); [|done]. by destruct w.
  - eapply h_ends_next; [done|]. eapply h_ends_next; [done|].
    destruct (w_clients w !! c) as [client|] eqn:Hc; cbn; by rewrite Hc.
Qed.

Lemma roomM_clientIn_client c roomId w client :
  w_clients w !! c = Some client ->
  exists client', w_clients (roomM_clientIn c roomId w) !! c = Some client' /\ c_ID client' = c_ID client.
Proof.
  intros Hc. unfold roomM_clientIn, rm_clientIn. rewrite Hc. case_bool_decide; cbn; [eauto|].
  rewrite lookup_alter_eq, Hc. by eexists.
Qed.

Lemma h_ends_register config spare now1 now2 s m w :
  h_ends config s (HRegister spare now1 m) w (dispatch config spare now1 now2 s MsgTypeRegister m w).2.
Proof.
  change (dispatch config spare now1 now2 s MsgTypeRegister m w) with (handleRegister config spare now1 s m w).
  unfold handleRegister, assert_SClient, recovering, Handshaked, Stop. run.
  destruct (user_data s w) as [|msc|c] eqn:Hd; [by apply h_ends_last; open_section; rewrite Hd| |by apply h_ends_last; open_section; rewrite Hd].
  destruct (match w_conns w !! msc with Some sc => sc_Handshaked sc | None => false end) eqn:Hh.
  { eapply h_ends_next; [open_section; by rewrite Hd, Hh|]. by apply h_ends_last. }
  destruct (Register_Unmarshal m zero_Register) as [register [e|]] eqn:Hm.
  { eapply h_ends_next; [open_section; by rewrite Hd, Hh, Hm|]. by apply h_ends_last. }
  pose proof (refreshToken0_returns config spare (rg_Token register)) as Hret.
  destruct (refreshToken0 config spare (rg_Token register)) as [[claims [e|]]|p|] eqn:Ht; [| | |done];
    (eapply h_ends_next; [open_section; by rewrite Hd, Hh, Hm, Ht|]);
    [unfold cm_clientIn; rewrite Ht; by apply h_ends_last| |unfold cm_clientIn; rewrite Ht; by apply h_ends_last].
  eapply h_ends_next; [done|]. apply h_ends_last. cbn. unfold cm_clientIn. rewrite Ht.
  by destruct (createClient _ _ _ _).
Qed.

Lemma h_ends_enter config spare now1 now2 s m w :
  h_ends config s (HEnter m) w (dispatch config spare now1 now2 s MsgTypeEnterRoom m w).2.
Proof.
  change (dispatch config spare now1 now2 s MsgTypeEnterRoom m w) with (handleEnterRoom s m w).
  unfold handleEnterRoom, assert_Client. run.
  destruct (user_data s w) as [| |c] eqn:Hd; [by apply h_ends_last; open_section; rewrite Hd..|].
  destruct (EnterRoom_Unmarshal m zero_EnterRoom) as [er [e|]] eqn:Hm; [by apply h_ends_last; open_section; rewrite Hd, Hm|].
  eapply h_ends_next; [open_section; by rewrite Hd, Hm|]. apply h_ends_room. by apply h_ends_last.
Qed.

(** The message is queued whatever the client did to its room. *)
Lemma h_ends_queue config s c client client' now2 t roomId level nickname params w :
  w_clients w !! c = Some client' -> c_ID client' = c_ID client ->
  h_ends config s (HThen c (ThenQueue now2 t roomId level nickname params)) w
    (h_queue client now2 t roomId level nickname params w).2.
Proof. intros Hc Hid. apply h_ends_last. cbn. rewrite Hc. unfold h_queue. by rewrite Hid. Qed.

Lemma h_ends_msg config spare now1 now2 s m w :
  h_ends config s (HMsg now1 now2 MsgTypeChat m) w (dispatch config spare now1 now2 s MsgTypeChat m w).2.
Proof.
  change (dispatch config spare now1 now2 s MsgTypeChat m w) with (handleMsg now1 now2 s MsgTypeChat m w).
  unfold handleMsg, assert_Client. unfold mbind, M_bind, modify, deref.
  destruct (user_data s w) as [| |c] eqn:Hd; [by apply h_ends_last; open_section; rewrite Hd..|].
  destruct (w_clients (heartBeat now1 c w) !! c) as [client|] eqn:Hc; [|by apply h_ends_last; open_section; rewrite Hd, Hc].
  unfold msg_fields. rewrite Z.eqb_refl.
  destruct (Chat_Unmarshal m zero_Chat) as [chat [e|]] eqn:Hm; [by apply h_ends_last; open_section; rewrite Hd, Hc, Hm|].
  destruct (_ && _) eqn:Hr; (eapply h_ends_next; [open_section; by rewrite Hd, Hc, Hm, Hr|]).
  - destruct (roomM_clientIn_client c (ch_RoomId chat) _ _ Hc) as (client' & Hc' & Hid).
    pose proof (h_ends_queue config s c client client' now2 MsgTypeChat (ch_RoomId chat) (ch_Level chat) (ch_Nickname chat)
      (Some {["content" := ch_Content chat]}) _ Hc' Hid) as Hq.
    assert (h_room c (ch_RoomId chat) (ThenQueue now2 MsgTypeChat (ch_RoomId chat) (ch_Level chat) (ch_Nickname chat)
      (Some {["content" := ch_Content chat]})) = HLeave c (ch_RoomId chat) (ThenQueue now2 MsgTypeChat (ch_RoomId chat)
      (ch_Level chat) (ch_Nickname chat) (Some {["content" := ch_Content chat]}))) as <-.
    { unfold h_room. rewrite bool_decide_false; [done|]. by apply andb_true_iff in Hr as [?%negb_true_iff%bool_decide_eq_false _]. }
    apply h_ends_room. exact Hq.
  - exact (h_ends_queue config s c client client now2 MsgTypeChat (c_roomId client) (ch_Level chat) (ch_Nickname chat)
      (Some {["content" := ch_Content chat]}) _ Hc eq_refl).
Qed.

Lemma removeClient_clients l w : w_clients (removeClient l w) = w_clients w.
Proof. unfold removeClient. case_match; [|done]. by case_decide. Qed.

Lemma e_run_ending l w : e_run l 6 EUserData w = (None, ending l w).
Proof.
  destruct (w_clients w !! l) as [c|] eqn:Hc; [|unfold ending; cbn; unfold e_next; by rewrite Hc].
  unfold ending. rewrite Hc.
  set (w1 := on_conn (c_msc c) (sc_SetUserData UD_nil) w).
  set (w2 := upd_rooms (fun m => rm_ending m (c_roomId c) l (c_ID c)) w1).
  assert (w_clients w1 !! l = Some c) as H1 by done. assert (w_clients w2 !! l = Some c) as H2 by done.
  assert (w_clients (removeClient l w2) !! l = Some c) as H3 by (by rewrite removeClient_clients).
  assert (w_clients (on_client l (set_c_q true) (removeClient l w2)) !! l = Some (set_c_q true c)) as H4
    by (cbn; by rewrite lookup_alter_eq, H3).
  cbn [e_run]. unfold e_next at 1. rewrite Hc. fold w1. unfold e_next at 1. rewrite H1. fold w2.
  unfold e_next at 1. rewrite H2. unfold e_next at 1. rewrite H3. unfold e_next at 1. rewrite H4.
  set (w4 := on_client l (set_c_q true) (removeClient l w2)) in *. clearbody w4. unfold e_next.
  assert (w_clients (on_client l (fun c => set_c_expireTimer (timer_Stop <$> c_expireTimer c) c) w4) !! l =
    Some (set_c_expireTimer (timer_Stop <$> c_expireTimer c) (set_c_q true c))) as -> by (cbn; by rewrite lookup_alter_eq, H4).
  done.
Qed.

End Runs.

(** * The steps of Service.v *)

Section Coarse.
Context `{HB : BDMsg, HL : !BDMsgLaws, HN : Net, HG : Gorsa, HZ : Zlib, HP : Proto}.

Lemma quiet_refl w : quiet_for w w.
Proof. by left. Qed.

Lemma quiet_same w w' : tables_of w' = tables_of w -> quiet_for w w'.
Proof. by left. Qed.

Lemma tables_close_if P order w : tables_of (close_if P order w) = tables_of w.
Proof.
  revert w. induction order as [|id order IH]; intros w; [done|]. unfold close_if in *. cbn. rewrite IH.
  repeat case_match; auto using tables_Close.
Qed.

Lemma tables_unspawn ts1 t ts2 w :
  w_tasks w = ts1 ++ t :: ts2 -> task_monitor t = None -> tables_of (upd_tasks (fun _ => ts1 ++ ts2) w) = tables_of w.
Proof. intros E Ht. unfold tables_of. cbn. f_equal. rewrite E. unfold monitors. rewrite !omap_app. cbn. by rewrite Ht. Qed.

Lemma tables_spawn t w : task_monitor t = None -> tables_of (spawn t w) = tables_of w.
Proof. intros Ht. unfold tables_of. cbn. f_equal. unfold monitors. rewrite omap_app. cbn. by rewrite Ht, app_nil_r. Qed.

Lemma tables_expire now l e w : tables_of (expire now l e w) = tables_of w.
Proof.
  unfold expire. repeat case_match; [|done..]. rewrite !tables_on_client; [done|..]; intros c; by destruct (c_expireTimer c).
Qed.

Lemma tables_a_iter l w : tables_of (a_iter l w) = tables_of w.
Proof.
  unfold a_iter, a_pop. destruct (w_clients w !! l) as [c|] eqn:Hc; [|done].
  destruct (c_q c); [done|]. assert (tables_of (on_client l (set_c_queue tail) w) = tables_of w) as Hpop by (by apply tables_on_client).
  destruct (head (c_queue c)) as [m|]; [|done]. unfold a_output. repeat case_match; try done.
  rewrite tables_on_conn by (intros ?; apply output_UserData). exact Hpop.
Qed.

Lemma tables_ServerHello l m w : tables_of (ServerHello l m w) = tables_of w.
Proof. unfold ServerHello. case_match; [|done]. by apply tables_on_client. Qed.

(** A publication, walked over any list of clients. *)
Lemma tables_foldl {A} (f : World -> A -> World) l w :
  (forall w x, tables_of (f w x) = tables_of w) -> tables_of (foldl f w l) = tables_of w.
Proof. intros Hf. revert w. induction l as [|x l IH]; intros w; [done|]. cbn. by rewrite IH, Hf. Qed.

Lemma tables_handleSubscription range payload w : tables_of (handleSubscription range payload w) = tables_of w.
Proof.
  unfold handleSubscription. destruct (FromRouterMessage_Unmarshal _ _) as [fr e].
  assert (forall fr w, tables_of (new_message (convert fr) w).2 = tables_of w) as Hnew by done.
  assert (forall id m w, tables_of (deliverToSingleClient id m w) = tables_of w) as Hone.
  { intros id m w1. unfold deliverToSingleClient. case_match; [apply tables_ServerHello|done]. }
  set (w1 := if negb _ then _ else w). assert (tables_of w1 = tables_of w) as <-.
  { unfold w1. case_match; [|done]. unfold deliverToUser. pose proof (Hnew fr w) as Hn.
    destruct (new_message _ _) as [m w2]. cbn in *. by rewrite Hone. }
  pose proof (Hnew fr w1) as Hn. unfold deliverToWorld, deliverToRoom, deliver_all. repeat case_match; try done; cbn in Hn; rewrite <-Hn.
  - apply tables_foldl. intros. apply tables_ServerHello.
  - apply tables_foldl. auto.
Qed.

Lemma tables_dispatch config spare now1 now2 s t m w :
  h_start spare now1 now2 t m = None -> tables_of (dispatch config spare now1 now2 s t m w).2 = tables_of w.
Proof.
  unfold h_start, dispatch. repeat case_match; try done; intros _.
  - unfold handleRefreshToken, assert_Client, recovering. run. destruct (user_data s w) as [| |c]; try done.
    assert (tables_of (heartBeat now1 c w) = tables_of w) as Hbeat by (by apply tables_on_client).
    destruct (RefreshToken_Unmarshal m zero_RefreshToken) as [rt [e|]]; [unfold client_Stop, modify; cbn; by rewrite tables_Close|].
    unfold refreshToken. destruct (refreshToken0 _ _ _) as [[claims [e|]]|p|]; cbn; try done; [by rewrite tables_spawn|].
    unfold client_Stop, modify. cbn. by rewrite tables_Close.
  - unfold handleHeartBeat, assert_Client. run. destruct (user_data s w) as [| |c]; try done. by apply tables_on_client.
Qed.

Lemma step_quiet config w w' :
  step config w w' ->
  quiet_for w w' \/
  (exists spare now1 now2 s t m pc, h_start spare now1 now2 t m = Some pc /\
    w' = (dispatch config spare now1 now2 s t m w).2) \/
  (exists ts1 l ts2, w_tasks w = ts1 ++ TMonitor l :: ts2 /\ monitor_ready l w = true /\
    w' = ending l (upd_tasks (fun _ => ts1 ++ ts2) w)).
Proof.
  intros Hs. destruct Hs as [w s sc Hs Hud|w s|w err|w spare now1 now2 s t m|w range payload _|w l _|w ts1 l ts2 Ht Hr
    |w ts1 l e ts2 now Ht|w l now|w now order _|w rooms _|w result now order conns|w now order1 order2|w order _].
  - left. right. exists s. split; [unfold tables_of; cbn; by rewrite lookup_fmap, Hs|].
    unfold tables_of. cbn. by rewrite fmap_insert, Hud.
  - left. apply quiet_same, tables_on_conn, stop_UserData.
  - left. unfold conn_closed. case_match; [apply quiet_refl|by apply quiet_same].
  - destruct (h_start spare now1 now2 t m) as [pc|] eqn:E.
    + right. left. exists spare, now1, now2, s, t, m, pc. done.
    + left. by apply quiet_same, tables_dispatch.
  - left. apply quiet_same, tables_handleSubscription.
  - left. apply quiet_same, tables_a_iter.
  - right. right. by exists ts1, l, ts2.
  - left. apply quiet_same. rewrite tables_expire. by eapply tables_unspawn.
  - left. apply quiet_same. unfold timer_fire. repeat case_match; try done.
    rewrite tables_on_conn by apply stop_UserData. by apply tables_on_client.
  - left. apply quiet_same. unfold initHeartBeat. case_match; [|done]. rewrite heartbeat_close_if. apply tables_close_if.
  - left. apply quiet_same. unfold consume. run. unfold consumeEvent, recovering. run.
    destruct (mqg_DrainTo rooms (w_mqg w) [] 10000) as [[msgs rest] g]. unfold on_rpc. cbn.
    by destruct (deliver (w_rpc w) msgs (w_rpc_env w)) as [[x|p|] e].
  - left. apply quiet_same. unfold discovery. by destruct (discover _ _ _ _ _ _) as [[r|p|] e].
  - left. apply quiet_same. unfold publish. by destruct (total_traffic order1 w).
  - left. apply quiet_same. rewrite CloseAll_close_if. apply tables_close_if.
Qed.

Lemma own_life config c c' : life_own config c c' -> life_step config c c'.
Proof. intros []; [by apply life_handler|by apply life_monitor|by apply life_ending]. Qed.

Lemma owns_life config c c' : rtc (life_own config) c c' -> rtc (life_step config) c c'.
Proof. apply rtc_subrel. intros ? ?. apply own_life. Qed.

(** A handler, and an ending, run from where they stand. *)
Lemma own_of_handler config w H E s pc w' :
  H !! s = Some pc -> h_ends config s pc w w' ->
  rtc (life_own config) (mkLife w H E) (mkLife w' (delete s H) E).
Proof.
  intros Hs [n Hn]. revert pc w H Hs Hn. induction n as [|n IH]; intros pc w H Hs Hn; [done|].
  cbn in Hn. pose proof (own_handler config w H E s pc Hs) as Hstep.
  destruct (h_next config s pc w) as [[pc'|] w1]; cbn in Hstep.
  - eapply rtc_l; [exact Hstep|]. rewrite <-(delete_insert_eq H s pc'). apply (IH pc'); [apply lookup_insert_eq|done].
  - injection Hn as <-. by apply rtc_once.
Qed.

Lemma own_of_ending config w H E l n pc w' :
  E !! l = Some pc -> e_run l n pc w = (None, w') ->
  rtc (life_own config) (mkLife w H E) (mkLife w' H (delete l E)).
Proof.
  revert pc w E. induction n as [|n IH]; intros pc w E Hl Hn; [done|].
  cbn in Hn. pose proof (own_ending config w H E l pc Hl) as Hstep.
  destruct (e_next l pc w) as [[pc'|] w1]; cbn in Hstep.
  - eapply rtc_l; [exact Hstep|]. rewrite <-(delete_insert_eq E l pc'). apply (IH pc'); [apply lookup_insert_eq|done].
  - injection Hn as <-. by apply rtc_once.
Qed.

Lemma life_of_handler config w H E s pc w' :
  H !! s = Some pc -> h_ends config s pc w w' ->
  rtc (life_step config) (mkLife w H E) (mkLife w' (delete s H) E).
Proof. intros. by eapply owns_life, own_of_handler. Qed.

Lemma life_of_ending config w H E l n pc w' :
  E !! l = Some pc -> e_run l n pc w = (None, w') ->
  rtc (life_step config) (mkLife w H E) (mkLife w' H (delete l E)).
Proof. intros. by eapply owns_life, own_of_ending. Qed.

Lemma h_start_ends config spare now1 now2 s t m w pc :
  h_start spare now1 now2 t m = Some pc -> h_ends config s pc w (dispatch config spare now1 now2 s t m w).2.
Proof.
  unfold h_start. destruct (Z.eqb_spec t MsgTypeRegister) as [->|_]; [intros [= <-]; apply h_ends_register|].
  destruct (Z.eqb_spec t MsgTypeEnterRoom) as [->|_]; [intros [= <-]; apply h_ends_enter|].
  destruct (Z.eqb_spec t MsgTypeChat) as [->|_]; [intros [= <-]; apply h_ends_msg|done].
Qed.

(** No connection, no user data. *)
Lemma dispatch_no_conn config spare now1 now2 s t m w :
  w_conns w !! s = None -> (dispatch config spare now1 now2 s t m w).2 = w.
Proof.
  intros Hs. assert (user_data s w = UD_nil) as Hd by (unfold user_data; by rewrite Hs).
  unfold dispatch, handleRegister, handleEnterRoom, handleMsg, handleRefreshToken, handleHeartBeat, assert_SClient, assert_Client.
  unfold mbind, M_bind. repeat case_match; simplify_eq; congruence || done.
Qed.

Lemma life_of_step config w w' :
  step config w w' -> rtc (life_step config) (mkLife w ∅ ∅) (mkLife w' ∅ ∅).
Proof.
  intros [Hq|[(spare & now1 & now2 & s & t & m & pc & Hpc & ->)|(ts1 & l & ts2 & Ht & Hr & ->)]]%step_quiet.
  - by apply rtc_once, life_others.
  - destruct (w_conns w !! s) as [sc|] eqn:Hs; [|by rewrite dispatch_no_conn].
    eapply rtc_l; [eapply (life_call config w ∅ ∅ s); [apply lookup_empty|by eexists|exact Hpc]|].
    pose proof (life_of_handler config w (<[s:=pc]> ∅) ∅ s pc _ (lookup_insert_eq _ _ _) (h_start_ends config spare now1 now2 s t m w pc Hpc)) as Hrun.
    by rewrite delete_insert_eq, delete_empty in Hrun.
  - eapply rtc_l; [by eapply life_monitor|].
    pose proof (life_of_ending config (upd_tasks (fun _ => ts1 ++ ts2) w) ∅ (<[l:=EUserData]> ∅) l 6 EUserData _
      (lookup_insert_eq _ _ _) (e_run_ending l _)) as Hrun.
    by rewrite delete_insert_eq, delete_empty in Hrun.
Qed.

Lemma life_of_steps config w w' :
  rtc (step config) w w' -> rtc (life_step config) (mkLife w ∅ ∅) (mkLife w' ∅ ∅).
Proof. induction 1 as [|w w1 w' Hs _ IH]; [done|]. etrans; [by apply life_of_step|done]. Qed.

End Coarse.

(** * One step *)

Section Changes.
Context `{HB : BDMsg, HL : !BDMsgLaws, HN : Net, HG : Gorsa, HZ : Zlib, HP : Proto}.

Definition with_rooms (rooms : RoomManager) (t : tables) : tables :=
  mkTables (tb_cl t) (tb_ud t) (tb_clientM t) rooms (tb_mon t) (tb_users t).

Lemma tables_rooms f w : tables_of (upd_rooms f w) = with_rooms (f (w_rooms w)) (tables_of w).
Proof. done. Qed.

Lemma tables_h_queue client now2 t roomId level nickname params w :
  tables_of (h_queue client now2 t roomId level nickname params w).2 = tables_of w.
Proof. unfold h_queue, next_message_id, group_Add, mbind, M_bind. by destruct (mqg_Add _ _). Qed.

(** The rooms after a section. *)
Definition h_rooms (pc : hpc) (w : World) : RoomManager :=
  match pc with
  | HLeave c roomId _ =>
      match w_clients w !! c with Some client => rm_ending (w_rooms w) roomId c (c_ID client) | None => w_rooms w end
  | HJoin c roomId _ =>
      match w_clients w !! c with Some client => rm_enter (w_rooms w) roomId c (c_ID client) | None => w_rooms w end
  | _ => w_rooms w
  end.

(** Only an admission touches more than the rooms. *)
Lemma h_next_tables config s pc w :
  match pc with HAdmit _ _ _ _ => True | _ =>
    tables_of (h_next config s pc w).2 = with_rooms (h_rooms pc w) (tables_of w)
  end.
Proof.
  assert (forall w', tables_of w' = tables_of w -> tables_of w' = with_rooms (w_rooms w) (tables_of w)) as Hsame
    by (by intros w' ->).
  destruct pc as [spare now m|spare now msc register|msc|msc|m|now1 now2 t m|c roomId k|c roomId k|c k]; cbn [h_rooms]; open_section; try done.
  - apply Hsame. by repeat case_match.
  - apply Hsame, tables_on_conn, handshake_UserData.
  - apply Hsame, tables_on_conn, stop_UserData.
  - apply Hsame. by repeat case_match.
  - apply Hsame. destruct (user_data s w) as [| |c]; try done.
    assert (tables_of (heartBeat now1 c w) = tables_of w) as <- by (by apply tables_on_client).
    cbn zeta. by repeat case_match.
  - cbn. by case_match.
  - cbn. case_match; [|done]. by rewrite tables_on_client.
  - apply Hsame. destruct k; cbn; [by apply tables_on_client|]. case_match; [apply tables_h_queue|done].
Qed.

Lemma e_next_clientM l pc w c :
  w_clients w !! l = Some c ->
  w_clientM (e_next l pc w).2 =
  match pc with EManager => if decide (w_clientM w !! c_ID c = Some l) then delete (c_ID c) (w_clientM w) else w_clientM w
           | _ => w_clientM w end.
Proof.
  intros Hc. unfold e_next. rewrite Hc. destruct pc; try done. cbn. unfold removeClient. rewrite Hc. by case_decide.
Qed.

Lemma e_next_cl l pc w l' id s :
  tb_cl (tables_of w) !! l' = Some (id, s, true) -> tb_cl (tables_of (e_next l pc w).2) !! l' = Some (id, s, true).
Proof.
  intros Hl'. unfold e_next. destruct (w_clients w !! l) as [c|] eqn:Hc; [|done]. destruct pc; cbn [snd].
  - by rewrite tables_SetUserData.
  - done.
  - unfold removeClient. rewrite Hc. by case_decide.
  - rewrite tables_set_q. cbn. rewrite lookup_alter. cbn in Hl'. case_decide; [|done]. subst. by rewrite Hl'.
  - by rewrite tables_on_client.
  - done.
Qed.

Lemma quiet_cl w w' l card : quiet_for w w' -> tb_cl (tables_of w) !! l = Some card -> tb_cl (tables_of w') !! l = Some card.
Proof. by intros [->|(s & _ & ->)]. Qed.

Lemma quiet_clientM w w' : quiet_for w w' -> w_clientM w' = w_clientM w.
Proof. intros [E|(s & _ & E)]; by apply (f_equal tb_clientM) in E. Qed.

Lemma life_step_ended config c c' l id s :
  life_step config c c' -> tb_cl (tables_of (lf_world c)) !! l = Some (id, s, true) ->
  tb_cl (tables_of (lf_world c')) !! l = Some (id, s, true).
Proof.
  intros Hstep Hl. destruct Hstep as [w H E s' spare now1 now2 t m pc Hs _ Hpc|w H E s' pc Hs|w H E ts1 l' ts2 Hts _
    |w H E l' pc Hl'|w H E w' Hq]; unfold lf_world in *; try done.
  - pose proof (h_next_tables config s' pc w) as Ht. destruct pc as [|spare now msc register| | | | | | |].
    2: { cbn [h_next snd]. destruct (tables_clientIn config spare now register msc w) as [->|(l0 & Hl0 & ->)]; [done|].
      cbn. rewrite lookup_insert_ne; [done|]. intros ->. congruence. }
    all: rewrite Ht; exact Hl.
  - by apply e_next_cl.
  - by apply (quiet_cl w).
Qed.

(** An accepted registration. *)
Lemma clientIn_admits config spare now register msc w claims :
  refreshToken0 config spare (rg_Token register) = Ret (claims, None) ->
  is_Some (w_conns w !! msc) -> (forall l c, w_clients w !! l = Some c -> is_Some (w_conns w !! c_msc c)) ->
  exists l w' client, cm_clientIn config spare now register msc w = (Ret (Some l, None), w') /\
    w_clientM w' = <[rg_UserId register := l]> (w_clientM w) /\ w_clients w !! l = None /\
    w_clients w' !! l = Some client /\ c_ID client = rg_UserId register /\ c_msc client = msc /\
    forall old oldc, w_clientM w !! rg_UserId register = Some old -> w_clients w !! old = Some oldc ->
      exists so, w_conns w' !! c_msc oldc = Some so /\ sc_Stopped so = true.
Proof.
  intros Htok Hmsc Hconn. rewrite cm_clientIn_eq, Htok. cbn zeta.
  set (w1 := match w_clientM w !! rg_UserId register with Some c => Close c w | None => w end).
  assert (w_clients w1 = w_clients w /\ w_clientM w1 = w_clientM w) as [E1 E2].
  { unfold w1. destruct (w_clientM w !! rg_UserId register) as [l0|]; [|done]. by destruct (Close_frame l0 w) as [f ->]. }
  pose proof (enrol_spec now register msc (tk_ExpireTime claims) w1) as Hspec.
  destruct (enrol now register msc (tk_ExpireTime claims) w1) as [l w2]. destruct Hspec as (Hl & Ecl & Eco & EM & _).
  exists l, w2, (new_client now register msc). rewrite EM, E2, Ecl, E1, lookup_insert_eq. split_and!; try done.
  - rewrite Hl, E1. apply not_elem_of_dom, is_fresh.
  - intros old oldc Hold Hc. destruct (Hconn old oldc Hc) as [so Hso].
    destruct (Close_stops old oldc w so Hc Hso) as (so' & Hso' & Hst).
    assert (w_conns w1 !! c_msc oldc = Some so') as Hw1 by (unfold w1; by rewrite Hold).
    rewrite Eco, lookup_alter. case_decide; [|eauto]. subst msc. rewrite Hw1. cbn. eexists. split; [done|].
    by rewrite set_Stopped.
Qed.

(** Closing clients leaves a connection that no client has. *)
Lemma Close_free l s w :
  (forall l c, w_clients w !! l = Some c -> c_msc c <> s) ->
  w_conns (Close l w) !! s = w_conns w !! s /\ w_clients (Close l w) = w_clients w.
Proof.
  intros Hfree. unfold Close. destruct (w_clients w !! l) as [c|] eqn:Hc; [|done].
  cbn. rewrite lookup_alter_ne; [done|by eapply Hfree].
Qed.

Lemma CloseAll_free order s w :
  (forall l c, w_clients w !! l = Some c -> c_msc c <> s) ->
  w_conns (CloseAll order w) !! s = w_conns w !! s /\ w_clients (CloseAll order w) = w_clients w.
Proof.
  unfold CloseAll. revert w. induction order as [|id order IH]; intros w Hfree; [done|]. cbn.
  destruct (cm_Client id w) as [l|]; [|by apply IH]. destruct (Close_free l s w Hfree) as [E1 E2].
  destruct (IH (Close l w)) as [E3 E4]; [by rewrite E2|]. by rewrite E3, E4.
Qed.

(** The connection of an accepted registration runs on. *)
Lemma clientIn_running config spare now register msc w sc :
  w_conns w !! msc = Some sc -> (forall l c, w_clients w !! l = Some c -> c_msc c <> msc) ->
  exists sc', w_conns (cm_clientIn config spare now register msc w).2 !! msc = Some sc' /\ sc_Stopped sc' = sc_Stopped sc.
Proof.
  intros Hsc Hfree. rewrite cm_clientIn_eq. destruct (refreshToken0 _ _ _) as [[claims [err|]]|p|]; try by exists sc.
  cbn zeta. set (w1 := match w_clientM w !! rg_UserId register with Some c => Close c w | None => w end).
  assert (w_conns w1 !! msc = Some sc) as Hw1.
  { unfold w1. destruct (w_clientM w !! rg_UserId register) as [l0|]; [|done]. by rewrite (proj1 (Close_free l0 msc w Hfree)). }
  pose proof (enrol_spec now register msc (tk_ExpireTime claims) w1) as Hspec.
  destruct (enrol now register msc (tk_ExpireTime claims) w1) as [l w2]. destruct Hspec as (_ & _ & Eco & _).
  cbn [snd]. rewrite Eco, lookup_alter_eq, Hw1. cbn. eexists. split; [done|]. apply set_Stopped.
Qed.

(** No registration makes or drops a connection. *)
Lemma clientIn_conns config spare now register msc w :
  dom (w_conns (cm_clientIn config spare now register msc w).2) = dom (w_conns w).
Proof.
  rewrite cm_clientIn_eq. destruct (refreshToken0 _ _ _) as [[claims [err|]]|p|]; try done.
  cbn zeta. set (w1 := match w_clientM w !! rg_UserId register with Some c => Close c w | None => w end).
  assert (dom (w_conns w1) = dom (w_conns w)) as E1.
  { unfold w1, Close. repeat case_match; try done. cbn. by rewrite dom_alter_L. }
  pose proof (enrol_spec now register msc (tk_ExpireTime claims) w1) as Hspec.
  destruct (enrol now register msc (tk_ExpireTime claims) w1) as [l w2]. destruct Hspec as (_ & _ & Eco & _).
  cbn [snd]. by rewrite Eco, dom_alter_L.
Qed.

(** Any registration: nothing in the manager changes, or a client is admitted. *)
Lemma clientIn_clientM config spare now register msc w id :
  let w' := (cm_clientIn config spare now register msc w).2 in
  is_Some (w_conns w !! msc) -> (forall l c, w_clients w !! l = Some c -> is_Some (w_conns w !! c_msc c)) ->
  w_clientM w' !! id = w_clientM w !! id \/
  id = rg_UserId register /\ exists l client, w_clientM w' !! id = Some l /\ w_clients w !! l = None /\
    w_clients w' !! l = Some client /\ c_ID client = id /\ c_msc client = msc /\
    forall old oldc, w_clientM w !! id = Some old -> w_clients w !! old = Some oldc ->
      exists so, w_conns w' !! c_msc oldc = Some so /\ sc_Stopped so = true.
Proof.
  cbn zeta. intros Hmsc Hconn.
  destruct (refreshToken0 config spare (rg_Token register)) as [[claims [err|]]|p|] eqn:Htok;
    [left; unfold cm_clientIn; by rewrite Htok| |left; unfold cm_clientIn; by rewrite Htok..].
  destruct (clientIn_admits config spare now register msc w claims Htok Hmsc Hconn)
    as (l & w' & client & E & EM & Hl & Hc & Hid & Hm & Hold).
  rewrite E. cbn [snd]. rewrite EM, lookup_insert. case_decide as Hd; [|by left]. right. split; [done|]. subst id.
  by exists l, client.
Qed.

End Changes.

(** ** Rest *)

Section Rest.
Context `{HB : BDMsg, HL : !BDMsgLaws, HN : Net, HG : Gorsa, HZ : Zlib, HP : Proto}.

(** The sections a handler, and an ending, has left at most. *)
Definition h_left (pc : hpc) : nat :=
  match pc with
  | HEnter _ | HMsg _ _ _ _ => 4
  | HRegister _ _ _ | HLeave _ _ _ => 3
  | HAdmit _ _ _ _ | HJoin _ _ _ => 2
  | _ => 1
  end.
Definition e_left (pc : epc) : nat :=
  match pc with EUserData => 6 | ERoom => 5 | EManager => 4 | EQuit => 3 | ETimer => 2 | EUsers => 1 end.

Lemma h_left_next config s pc w pc' w' : h_next config s pc w = (Some pc', w') -> (h_left pc' < h_left pc)%nat.
Proof.
  destruct pc as [spare now m|spare now msc register|msc|msc|m|now1 now2 t m|c roomId k|c roomId k|c k]; open_section.
  - pose proof (fun token => refreshToken0_returns config spare token) as Hret.
    repeat case_match; intros [= <- <-]; cbn; try lia; by exfalso; eapply Hret.
  - intros [= <- _]. cbn. lia.
  - done.
  - done.
  - repeat case_match; intros [= <- <-]. unfold h_room. case_bool_decide; cbn; lia.
  - cbn zeta. repeat case_match; intros [= <- <-]; cbn; lia.
  - intros [= <- _]. cbn. lia.
  - intros [= <- _]. cbn. lia.
  - by destruct k.
Qed.

Lemma e_next_tasks l pc w : w_tasks (e_next l pc w).2 = w_tasks w.
Proof.
  unfold e_next, removeClient. destruct (w_clients w !! l); [|done]. destruct pc; try done. cbn. by case_decide.
Qed.

Lemma e_left_next l pc w pc' w' : e_next l pc w = (Some pc', w') -> (e_left pc' < e_left pc)%nat.
Proof. unfold e_next. case_match; [|done]. by destruct pc; intros [= <- _]; cbn; lia. Qed.

End Rest.

(** ** Ghosts *)

(** A handler is about to put a client of this id into the room. *)
Definition entering `{BDMsg, Net} (r id : string) (c : life) : Prop :=
  exists s l k client, lf_handlers c !! s = Some (HJoin l r k) /\
    w_clients (lf_world c) !! l = Some client /\ c_ID client = id.

(** A client that has ended and is a member of a room, with nothing left that would take
it out: its connection carries nothing, no handler of it is past its assertion, its ending
is over. *)
Record ghost (l : loc) (r id : string) (s : loc) (t : tables) (H : gmap loc hpc) (E : gmap loc epc) : Prop := {
  gh_cl : tb_cl t !! l = Some (id, s, true);
  gh_ud : tb_ud t !! s = Some UD_nil;
  gh_E : E !! l = None;
  gh_H pc : H !! s = Some pc -> match pc with HRegister _ _ _ | HEnter _ | HMsg _ _ _ _ => True | _ => False end;
  gh_room : rm_lookup (tb_rooms t) r id = Some l;
}.

Section Ghosts.
Context `{HB : BDMsg, HL : !BDMsgLaws, HN : Net, HG : Gorsa, HZ : Zlib, HP : Proto}.
Context (l : loc) (r id : string) (s : loc).

Lemma ghost_own_handler config pc w :
  tb_ud (tables_of w) !! s = Some UD_nil ->
  match pc with HRegister _ _ _ | HEnter _ | HMsg _ _ _ _ => True | _ => False end ->
  h_next config s pc w = (None, w).
Proof.
  intros Hu Hpc. assert (user_data s w = UD_nil) as Hd.
  { revert Hu. unfold user_data, tables_of. cbn. rewrite lookup_fmap. by destruct (w_conns w !! s) as [sc|]; cbn; [intros [= ->]|]. }
  destruct pc; try done; open_section; by rewrite Hd.
Qed.

(** A section of a handler of another connection. *)
Lemma ghost_other_handler config w H E s' pc :
  life_inv (mkLife w H E) -> ghost l r id s (tables_of w) H E -> H !! s' = Some pc -> s' <> s ->
  ~ entering r id (mkLife w H E) ->
  tb_ud (tables_of (h_next config s' pc w).2) !! s = Some UD_nil /\
  rm_lookup (w_rooms (h_next config s' pc w).2) r id = Some l.
Proof.
  intros Hok [Hcl Hud _ _ Hroom] Hs' Hne Hent. unfold life_inv in Hok. cbn in Hok.
  pose proof (lk_H _ _ _ Hok s' pc Hs') as Hpc. pose proof (h_next_tables config s' pc w) as Ht.
  assert (forall c, (exists id' q, tb_cl (tables_of w) !! c = Some (id', s', q)) -> c <> l) as Hother.
  { intros c (id' & q & Hc) ->. congruence. }
  destruct pc as [spare now m|spare now msc register|msc|msc|m|now1 now2 t m|c roomId k|c roomId k|c k].
  2: { destruct Hpc as [-> _]. cbn [h_next snd].
    assert (forall w', tables_of w' = tables_of w -> tb_ud (tables_of w') !! s = Some UD_nil /\ rm_lookup (w_rooms w') r id = Some l) as Hsame.
    { intros w' Ew. rewrite Ew. split; [done|]. by rewrite (f_equal tb_rooms Ew : w_rooms w' = w_rooms w). }
    destruct (tables_clientIn config spare now register s' w) as [Ew|(l0 & _ & Ew)]; [by apply Hsame|].
    rewrite Ew. cbn. rewrite lookup_alter_ne by done. split; [done|].
    by rewrite (f_equal tb_rooms Ew : w_rooms _ = w_rooms w). }
  all: split; [rewrite Ht; exact Hud|]; change (w_rooms ?x) with (tb_rooms (tables_of x)); rewrite Ht; try exact Hroom; cbn.
  - destruct Hpc as [_ Hc]. destruct (w_clients w !! c) as [client|]; [|done].
    rewrite rm_ending_lookup by apply (lk_rooms _ _ _ Hok). unfold abs_ending. rewrite decide_False; [done|].
    intros (Er & Ei & Hl). apply (Hother c Hc). cbn in Hroom. congruence.
  - destruct (w_clients w !! c) as [client|] eqn:Hcc; [|done].
    rewrite rm_enter_lookup by apply (lk_rooms _ _ _ Hok). unfold abs_enter. rewrite decide_False; [done|].
    intros [<- Ei]. apply Hent. by exists s', c, k, client.
Qed.

Lemma ghost_ending pc l' w H E :
  life_inv (mkLife w H E) -> ghost l r id s (tables_of w) H E -> E !! l' = Some pc ->
  tb_ud (tables_of (e_next l' pc w).2) !! s = Some UD_nil /\ rm_lookup (w_rooms (e_next l' pc w).2) r id = Some l.
Proof.
  intros Hok [Hcl Hud HE _ Hroom] Hl'. unfold life_inv in Hok. cbn in Hok, Hroom.
  assert (l' <> l) as Hne by congruence. unfold e_next. destruct (w_clients w !! l') as [c|] eqn:Hc; [|done].
  destruct pc; cbn [snd].
  - rewrite tables_SetUserData. cbn [tb_ud]. rewrite lookup_alter. case_decide as Eq; [by rewrite Eq, Hud|done].
  - split; [done|]. cbn. rewrite rm_ending_lookup by apply (lk_rooms _ _ _ Hok). unfold abs_ending.
    rewrite decide_False; [done|]. intros (Er & Ei & Hl). congruence.
  - unfold removeClient. rewrite Hc. by case_decide.
  - rewrite tables_set_q. done.
  - rewrite tables_on_client by done. done.
  - done.
Qed.

Lemma ghost_step config c c' :
  life_inv c -> life_step config c c' -> ~ entering r id c ->
  ghost l r id s (tables_of (lf_world c)) (lf_handlers c) (lf_endings c) ->
  ghost l r id s (tables_of (lf_world c')) (lf_handlers c') (lf_endings c').
Proof.
  intros Hok Hstep Hent Hg. pose proof (life_step_ended config c c' l id s Hstep (gh_cl _ _ _ _ _ _ _ Hg)) as Hcl.
  destruct Hg as [Hcl0 Hud HE HH Hroom].
  destruct Hstep as [w H E s' spare now1 now2 t m pc Hs' _ Hpc|w H E s' pc Hs'|w H E ts1 l' ts2 Hts _|w H E l' pc Hl'|w H E w' Hq];
    unfold lf_world, lf_handlers, lf_endings in *.
  - split; try done. intros pc'. rewrite lookup_insert. case_decide; [|apply HH]. intros [= <-]. revert Hpc.
    unfold h_start. repeat case_match; by intros [= <-].
  - destruct (decide (s' = s)) as [->|Hne].
    + rewrite (ghost_own_handler config pc w Hud (HH _ Hs')) in *. cbn in *. split; try done.
      intros pc' [_ Hpc]%lookup_delete_Some. by apply HH.
    + destruct (ghost_other_handler config w H E s' pc Hok) as [Hud' Hroom']; try done. split; try done.
      intros pc'. assert (put s' (h_next config s' pc w).1 H !! s = H !! s) as ->; [|apply HH].
      destruct (h_next config s' pc w) as [[pc1|] w1]; cbn; [by apply lookup_insert_ne|by apply lookup_delete_ne].
  - split; try done. rewrite lookup_insert_ne; [done|]. intros ->.
    assert (true = false); [|done]. apply (lk_q _ _ _ Hok l id s true Hcl0). left. cbn. rewrite Hts, monitors_split. left.
  - destruct (ghost_ending pc l' w H E Hok) as [Hud' Hroom']; try done. split; try done.
    assert (l' <> l) as Hne by congruence. destruct (e_next l' pc w) as [[pc1|] w1]; cbn;
      [by rewrite lookup_insert_ne|by rewrite lookup_delete_ne].
  - split; try done.
    + destruct Hq as [->|(s0 & Hs0 & ->)]; [done|]. cbn. rewrite lookup_insert_ne; [done|congruence].
    + assert (w_rooms w' = w_rooms w) as E'; [|cbn; by rewrite E'].
      destruct Hq as [Ew|(s0 & Hs0 & Ew)]; exact (f_equal tb_rooms Ew).
Qed.

(** The end of the client, in the tables. *)
Lemma ghost_ended w c :
  w_clients w !! l = Some c -> is_Some (w_conns w !! c_msc c) ->
  tb_cl (tables_of (ending l w)) !! l = Some (c_ID c, c_msc c, true) /\
  tb_ud (tables_of (ending l w)) !! c_msc c = Some UD_nil.
Proof.
  intros Hc [sc Hs]. rewrite (ending_eq l c w Hc). unfold tables_of. cbn.
  rewrite !lookup_fmap, !lookup_alter_eq, Hc, Hs. cbn. by rewrite set_UserData.
Qed.

(** The rest of a handler that is past its assertion. *)
Lemma ghost_enters config k w :
  w_clients w !! l <> None -> rm_wf (w_rooms w) ->
  exists w', h_ends config s (HLeave l r k) w w' /\ tb_cl (tables_of w') = tb_cl (tables_of w) /\
    tb_ud (tables_of w') = tb_ud (tables_of w) /\
    forall c, w_clients w !! l = Some c -> rm_lookup (w_rooms w') r (c_ID c) = Some l.
Proof.
  intros Hc Hwf. destruct (w_clients w !! l) as [c|] eqn:Hl; [clear Hc|done].
  set (w1 := upd_rooms (fun m => rm_ending m r l (c_ID c)) w).
  set (w2 := on_client l (set_c_roomId r) (upd_rooms (fun m => rm_enter m r l (c_ID c)) w1)).
  set (w3 := (h_next config s (HThen l k) w2).2).
  pose proof (h_next_tables config s (HThen l k) w2) as Ht. fold w3 in Ht.
  assert (tables_of w2 = with_rooms (rm_enter (w_rooms w1) r l (c_ID c)) (tables_of w)) as Ht2
    by (unfold w2; by rewrite tables_on_client).
  exists w3. split.
  - eapply h_ends_next; [cbn; by rewrite Hl|]. fold w1. eapply h_ends_next; [cbn; by rewrite Hl|]. fold w1 w2.
    apply h_ends_last. unfold w3. by destruct k.
  - rewrite Ht, Ht2. split_and!; [done..|]. intros c' [= <-]. change (w_rooms w3) with (tb_rooms (tables_of w3)).
    rewrite Ht. change (h_rooms (HThen l k) w2) with (tb_rooms (tables_of w2)). rewrite Ht2. cbn.
    rewrite rm_enter_lookup by (by apply rm_ending_wf). unfold abs_enter. by rewrite decide_True.
Qed.

Lemma ghost_run config c c' :
  life_inv c -> ghost l r id s (tables_of (lf_world c)) (lf_handlers c) (lf_endings c) ->
  rtc (fun a b => life_step config a b /\ ~ entering r id a) c c' ->
  rm_lookup (w_rooms (lf_world c')) r id = Some l /\ (forall id', cm_Client id' (lf_world c') <> Some l) /\
  exists client, w_clients (lf_world c') !! l = Some client /\ c_q client = true.
Proof.
  intros Hok Hg Hrun. induction Hrun as [c|c1 c2 c3 [Hstep Hent] _ IH].
  - destruct (tb_client_inv _ _ _ _ _ (gh_cl _ _ _ _ _ _ _ Hg)) as (client & ? & _ & _ & ?).
    split_and!; [apply (gh_room _ _ _ _ _ _ _ Hg)| |by exists client]. intros id' Hid'.
    destruct (lk_clientM _ _ _ Hok id' l Hid') as [_ [Hm|(pc & Hpc & _)]].
    + assert (true = false); [|done]. apply (lk_q _ _ _ Hok l id s true (gh_cl _ _ _ _ _ _ _ Hg)). by left.
    + by rewrite (gh_E _ _ _ _ _ _ _ Hg) in Hpc.
  - apply IH; [by eapply life_inv_step|by eapply ghost_step].
Qed.

End Ghosts.

(** * Properties *)

(** What the server can be in, with handlers and endings under way. *)
Definition life_reaches `{BDMsg, Net, Gorsa} (config : ConfigT) (e : rpc_env) (c : life) : Prop :=
  rtc (life_step config) (life_init e) c.

(** C1: the invariant at the grain of locks. However the sections of the handlers and the
effects of the endings interleave with each other and with the rest of the server: a
registered id leads to a client of that id that has not ended, whose monitor waits or is in
an ending that has yet to remove it; two clients never share a connection; what a connection
carries as its client is the client of that connection; a member of a room is a client of
the member's id; and the users published are the clients whose monitor waits or is ending. *)
Theorem lifecycle_invariant `{HB : BDMsg, HL : !BDMsgLaws, HN : Net, HG : Gorsa, HZ : Zlib, HP : Proto} config e w H E :
  life_reaches config e (mkLife w H E) ->
  (forall id l, cm_Client id w = Some l -> exists c, w_clients w !! l = Some c /\ c_ID c = id /\ c_q c = false /\
     (TMonitor l ∈ w_tasks w \/ E !! l = Some EUserData \/ E !! l = Some ERoom \/ E !! l = Some EManager)) /\
  (forall l l' c c', w_clients w !! l = Some c -> w_clients w !! l' = Some c' -> c_msc c = c_msc c' -> l = l') /\
  (forall s sc l, w_conns w !! s = Some sc -> sc_UserData sc = UD_Client l ->
     exists c, w_clients w !! l = Some c /\ c_msc c = s) /\
  (forall r id l, rm_lookup (w_rooms w) r id = Some l -> is_client w id l) /\
  ni_LoginUsers (w_info w) = to_int32 (len (monitors (w_tasks w)) + Z.of_nat (size E)).
Proof.
  intros Hok%life_reachable. unfold life_inv in Hok. cbn in Hok. split_and!.
  - intros id l Hid. destruct (lk_clientM _ _ _ Hok id l Hid) as [(s & q & Hc) Hat].
    destruct (tb_client_inv _ _ _ _ _ Hc) as (c & Hcc & <- & <- & <-). exists c. split_and!; try done.
    + apply (lk_q _ _ _ Hok l _ _ _ Hc). destruct Hat as [|(pc & Hpc & Hr)]; [by left|]. right. exists pc. by destruct pc.
    + destruct Hat as [(t & Ht & Htl)%list_elem_of_omap|(pc & Hpc & Hr)]; [left; destruct t; by simplify_eq/=|]. right.
      destruct pc; try done; auto.
  - intros l l' c c' Hc Hc' Hmsc. apply tb_client in Hc, Hc'. unfold card in *. rewrite Hmsc in Hc. by eapply (lk_inj _ _ _ Hok).
  - intros s sc l Hs Hd. assert (user_data s w = UD_Client l) as Hu by (unfold user_data; by rewrite Hs).
    destruct (lk_Client _ _ _ Hok s l) as (id & q & Hc); [by apply tb_user_data|].
    destruct (tb_client_inv _ _ _ _ _ Hc) as (c & ? & _ & ? & _). by exists c.
  - intros r id l Hr. destruct (lk_member _ _ _ Hok r id l Hr) as (s & q & Hc).
    destruct (tb_client_inv _ _ _ _ _ Hc) as (c & ? & ? & _). by exists c.
  - apply (lk_users _ _ _ Hok).
Qed.

(** C8: what becomes of a registration. In one step the entry of the manager for an id stays,
or the ending of its own client takes it out, or a handler that admits a registration of that
id puts a new client on its connection in, with the connection of the client that was there
stopped. *)
Theorem registration_changes `{HB : BDMsg, HL : !BDMsgLaws, HN : Net, HG : Gorsa, HZ : Zlib, HP : Proto} config e c c' id :
  life_reaches config e c -> life_step config c c' ->
  let w := lf_world c in let w' := lf_world c' in
  cm_Client id w' = cm_Client id w \/
  (exists l, cm_Client id w = Some l /\ cm_Client id w' = None /\
     lf_endings c !! l = Some EManager /\ lf_endings c' !! l = Some EQuit) \/
  (exists s spare now register l client, lf_handlers c !! s = Some (HAdmit spare now s register) /\
     rg_UserId register = id /\ cm_Client id w' = Some l /\
     w_clients w !! l = None /\ w_clients w' !! l = Some client /\ c_ID client = id /\ c_msc client = s /\
     forall old oldc, cm_Client id w = Some old -> w_clients w !! old = Some oldc ->
       exists so, w_conns w' !! c_msc oldc = Some so /\ sc_Stopped so = true).
Proof.
  intros Hok%life_reachable Hstep. unfold life_inv, cm_Client in *.
  destruct Hstep as [w H E s spare now1 now2 t m pc Hs _ Hpc|w H E s pc Hs|w H E ts1 l ts2 Hts _|w H E l pc Hl|w H E w' Hq];
    unfold lf_world, lf_handlers, lf_endings in *; cbn zeta; try (by left).
  - pose proof (h_next_tables config s pc w) as Ht. destruct pc as [|spare now msc register| | | | | | |].
    2: { destruct (lk_H _ _ _ Hok s _ Hs) as [-> Hu]. cbn [h_next snd].
      assert (is_Some (w_conns w !! s)) as Hsc by (apply tb_conn; by eexists).
      assert (forall l c, w_clients w !! l = Some c -> is_Some (w_conns w !! c_msc c)) as Hconn.
      { intros l c Hc. destruct (lk_conn _ _ _ Hok l _ _ _ (tb_client _ _ _ Hc)) as [d Hd].
        apply tb_conn. by eexists. }
      destruct (clientIn_clientM config spare now register s w id Hsc Hconn) as [|(-> & l & client & Hrest)]; [by left|].
      right. right. exists s, spare, now, register, l, client. split; [exact Hs|]. split; [done|exact Hrest]. }
    all: left; exact (f_equal (fun t => tb_clientM t !! id) Ht).
  - destruct (lk_E _ _ _ Hok l pc Hl) as [[[id0 s] q] Hc]. destruct (tb_client_inv _ _ _ _ _ Hc) as (cl & Hcl & Hid & _).
    rewrite (e_next_clientM l pc w cl Hcl). destruct pc; try (by left). case_decide as Hd; [|by left].
    rewrite lookup_delete. case_decide as Heq; [|by left]. right. left. exists l. rewrite <-Heq.
    split_and!; try done. unfold e_next. rewrite Hcl. cbn. apply lookup_insert_eq.
  - left. by rewrite (quiet_clientM w w' Hq).
Qed.

(** C20: ended for good. A client whose ending is past the manager, with [c.q] set, keeps it
set whatever happens afterwards, and no id ever leads to it again. *)
Theorem ended_for_good `{HB : BDMsg, HL : !BDMsgLaws, HN : Net, HG : Gorsa, HZ : Zlib, HP : Proto} config e c c' l client :
  life_reaches config e c -> w_clients (lf_world c) !! l = Some client -> c_q client = true ->
  rtc (life_step config) c c' ->
  (exists client', w_clients (lf_world c') !! l = Some client' /\ c_ID client' = c_ID client /\
     c_msc client' = c_msc client /\ c_q client' = true) /\
  (forall id, cm_Client id (lf_world c') <> Some l) /\ TMonitor l ∉ w_tasks (lf_world c').
Proof.
  intros Hinit Hl Hq Hrun. apply tb_client in Hl. unfold card in Hl. rewrite Hq in Hl.
  assert (life_inv c') as Hok by (eapply life_reachable; by etrans). clear Hinit Hq.
  assert (tb_cl (tables_of (lf_world c')) !! l = Some (c_ID client, c_msc client, true)) as Hl'.
  { induction Hrun as [|c1 c2 c3 Hstep _ IH]; [done|]. eauto using life_step_ended. }
  destruct (tb_client_inv _ _ _ _ _ Hl') as (client' & ? & ? & ? & ?). split; [by exists client'|].
  assert (~ (l ∈ monitors (w_tasks (lf_world c')) \/ exists pc, lf_endings c' !! l = Some pc /\ running_at pc = true)) as Hn.
  { intros Hr. by apply (lk_q _ _ _ Hok l _ _ _ Hl') in Hr. }
  split.
  - intros id Hid. apply Hn. destruct (lk_clientM _ _ _ Hok id l Hid) as [_ [|(pc & Hpc & Hr)]]; [by left|].
    right. exists pc. by destruct pc.
  - intros Ht. apply Hn. left. apply list_elem_of_omap. by exists (TMonitor l).
Qed.

(** C9: the steps of Service.v are runs of sections. A handler of a registration, an entering
or a chat message, left alone, does in its sections what it does as one step; so does an
ending; and every state the server reaches in the steps of Service.v is reached here with no
handler and no ending under way. *)
Theorem lifecycle_refines `{HB : BDMsg, HL : !BDMsgLaws, HN : Net, HG : Gorsa, HZ : Zlib, HP : Proto} config e w :
  rtc (step config) (w_init e) w ->
  life_reaches config e (mkLife w ∅ ∅) /\
  (forall spare now1 now2 s t m pc, h_start spare now1 now2 t m = Some pc ->
     exists n, h_run config s n pc w = (None, (dispatch config spare now1 now2 s t m w).2)) /\
  (forall l, e_run l 6 EUserData w = (None, ending l w)).
Proof.
  intros Hrun. split; [by apply life_of_steps|]. split; [|intros l; apply e_run_ending].
  intros spare now1 now2 s t m pc. apply h_start_ends.
Qed.


(** * Witnesses *)

Section Examples.
#[local] Existing Instances test_bdmsg test_bdmsg_laws test_net test_zlib toy_rsa test_proto.

(** Ann's handler is about to enter room r2 when her connection is lost. *)
Definition r2_payload : bytes := jsb "{'RoomId':'r2'}".
Definition entering_r2 : gmap loc hpc := {[1%positive := HLeave 1%positive "r2" (ThenLevel 0)]}.

Lemma life_s1 : rtc (life_step open_config) (life_init (test_env ∅)) (mkLife w_s1 ∅ ∅).
Proof. apply life_of_steps, rtc_once, w_s1_step. Qed.
Lemma life_s2 : rtc (life_step open_config) (life_init (test_env ∅)) (mkLife w_s2 ∅ ∅).
Proof. apply life_of_steps, w_s2_reachable. Qed.

(** Ann's registration, its token accepted. *)
Definition admitting : gmap loc hpc :=
  {[1%positive := HAdmit [] 0 1%positive (Register_Unmarshal register_payload zero_Register).1]}.
Lemma admitting_steps :
  let called : gmap loc hpc := {[1%positive := HRegister [] 0 register_payload]} in
  life_step open_config (mkLife w_s1 ∅ ∅) (mkLife w_s1 called ∅) /\
  life_step open_config (mkLife w_s1 called ∅) (mkLife w_s1 admitting ∅).
Proof.
  split.
  - eapply (life_call open_config w_s1 ∅ ∅ 1%positive [] 0 0 MsgTypeRegister register_payload); [apply lookup_empty| |reflexivity].
    eexists. vm_compute. reflexivity.
  - pose proof (life_handler open_config w_s1 (<[1%positive := HRegister [] 0 register_payload]> ∅) ∅ 1%positive _ (lookup_insert_eq _ _ _)) as Hs.
    assert (h_next open_config 1%positive (HRegister [] 0 register_payload) w_s1 =
      (Some (HAdmit [] 0 1%positive (Register_Unmarshal register_payload zero_Register).1), w_s1)) as E by (vm_compute; reflexivity).
    rewrite E in Hs. cbn in Hs. by rewrite insert_insert_eq in Hs.
Qed.

Lemma life_admitting : rtc (life_step open_config) (life_init (test_env ∅)) (mkLife w_s1 admitting ∅).
Proof. destruct admitting_steps as [H1 H2]. eapply rtc_r; [eapply rtc_r; [apply life_s1|exact H1]|exact H2]. Qed.

Lemma life_entering : rtc (life_step open_config) (life_init (test_env ∅)) (mkLife w_s4 entering_r2 ∅).
Proof.
  eapply rtc_r; [eapply rtc_r; [eapply rtc_r; [apply life_s2|]|]|].
  - eapply (life_call open_config w_s2 ∅ ∅ 1%positive [] 0 0 MsgTypeEnterRoom r2_payload); [apply lookup_empty| |reflexivity].
    eexists. vm_compute. reflexivity.
  - pose proof (life_handler open_config w_s2 (<[1%positive := HEnter r2_payload]> ∅) ∅ 1%positive _ (lookup_insert_eq _ _ _)) as Hs.
    assert (h_next open_config 1%positive (HEnter r2_payload) w_s2 =
      (Some (HLeave 1%positive "r2" (ThenLevel 0)), w_s2)) as E by (vm_compute; reflexivity).
    rewrite E in Hs. cbn in Hs. rewrite insert_insert_eq in Hs. exact Hs.
  - apply life_others, quiet_same, tables_on_conn, stop_UserData.
Qed.

Lemma w_s4_facts : w_clients w_s4 !! 1%positive = Some (new_client 0 ann 1%positive) /\
  w_tasks w_s4 = [TOutput 1%positive] ++ TMonitor 1%positive :: [TExpire 1%positive (-1)] /\
  monitor_ready 1%positive w_s4 = true.
Proof. vm_compute. split_and!; reflexivity. Qed.

End Examples.

Lemma lifecycle_invariant_witness :
  exists c, w_clients w_s2 !! 1%positive = Some c /\ c_ID c = "ann" /\ c_q c = false.
Proof.
  destruct (@lifecycle_invariant test_bdmsg test_bdmsg_laws test_net toy_rsa test_zlib test_proto
    open_config _ w_s2 ∅ ∅ life_s2) as (H & _).
  destruct (H "ann" 1%positive) as (c & H1 & H2 & H3 & _); [vm_compute; reflexivity|].
  exists c. split; [exact H1|]. split; [exact H2|exact H3].
Defined.

Lemma registration_changes_witness :
  let w' := (@h_next test_bdmsg test_net toy_rsa open_config 1%positive
    (HAdmit [] 0 1%positive (Register_Unmarshal register_payload zero_Register).1) w_s1).2 in
  cm_Client "ann" w_s1 = None /\ exists l c, cm_Client "ann" w' = Some l /\ w_clients w' !! l = Some c /\ c_msc c = 1%positive.
Proof.
  intros w'. assert (cm_Client "ann" w_s1 = None) as H0 by (vm_compute; reflexivity). split; [exact H0|].
  assert (cm_Client "ann" w' = Some 1%positive) as H1 by (vm_compute; reflexivity).
  pose proof (@life_handler test_bdmsg test_net toy_rsa open_config w_s1 admitting ∅ 1%positive _
    (lookup_insert_eq _ _ _)) as Hs.
  destruct (@registration_changes test_bdmsg test_bdmsg_laws test_net toy_rsa test_zlib test_proto
    open_config _ _ _ "ann" life_admitting Hs) as [E|[(l & E & _)|(s & spare & now & register & l & c & Hh & _ & E & _ & Hc & _ & Hm & _)]].
  - change (cm_Client "ann" w' = cm_Client "ann" w_s1) in E. rewrite H0, H1 in E. discriminate.
  - change (cm_Client "ann" w_s1 = Some l) in E. rewrite H0 in E. discriminate.
  - exists l, c. split; [exact E|]. split; [exact Hc|]. rewrite Hm. cbn in Hh. unfold admitting in Hh.
    apply lookup_singleton_Some in Hh as [<- _]. reflexivity.
Defined.

Lemma ended_for_good_witness :
  exists w', w_clients w' !! 1%positive <> None /\ forall id, @cm_Client test_bdmsg test_net id w' <> Some 1%positive.
Proof.
  destruct w_s4_facts as (Hc & Ht & Hr).
  set (w := @ending test_bdmsg test_net 1%positive (upd_tasks (fun _ => [TOutput 1%positive] ++ [TExpire 1%positive (-1)]) w_s4)).
  assert (rtc (@life_step test_bdmsg test_net toy_rsa open_config) (life_init (test_env ∅)) (mkLife w ∅ ∅)) as Hrun.
  { apply (@life_of_steps test_bdmsg test_bdmsg_laws test_net toy_rsa test_zlib test_proto).
    eapply rtc_r; [exact w_s4_reachable|]. eapply step_monitor; [exact Ht|exact Hr]. }
  assert (exists client, w_clients w !! 1%positive = Some client /\ c_q client = true) as (client & Hl & Hq)
    by (eexists; vm_compute; split; reflexivity).
  destruct (@ended_for_good test_bdmsg test_bdmsg_laws test_net toy_rsa test_zlib test_proto open_config _ _ _
    1%positive client Hrun Hl Hq (rtc_refl _ _)) as ((client' & Hl' & _) & Hid & _).
  exists w. split; [change (w_clients w !! 1%positive = Some client') in Hl'; congruence|exact Hid].
Defined.

Lemma lifecycle_refines_witness :
  rtc (@life_step test_bdmsg test_net toy_rsa open_config) (life_init (test_env ∅)) (mkLife w_s3 ∅ ∅) /\
  cm_Client "ann" w_s3 = Some 1%positive.
Proof.
  destruct (@lifecycle_refines test_bdmsg test_bdmsg_laws test_net toy_rsa test_zlib test_proto
    open_config _ w_s3 w_s3_reachable) as (H & _).
  split; [exact H|vm_compute; reflexivity].
Defined.

