(* ===== verification/Settle.v ===== *)
(** How the server of Lifecycle.v comes to rest: the handlers and the endings under way and the
monitors of stopped connections, left alone, are done after a bounded number of sections,
whatever their order, and exactly the clients whose connection runs are then registered. *)

From S2P Require Import Prelude GoText Json ProtoDef Protocol ToCompute Room Config Token Rpc State.
From S2P Require Import Client Subscribe Heartbeat Stat Service Interleave Lifecycle LifecycleRuns.
Local Open Scope Z_scope.

(** * The sum of a measure over a map *)

Section Total.
Context {A : Type} (f : A -> nat).

Definition total (m : gmap loc A) : nat := map_fold (fun _ x n => f x + n)%nat 0%nat m.

Lemma total_insert m k x : m !! k = None -> total (<[k := x]> m) = (f x + total m)%nat.
Proof. intros Hk. unfold total. rewrite map_fold_insert_L; [done| |done]. intros. lia. Qed.

Lemma total_delete m k x : m !! k = Some x -> total m = (f x + total (delete k m))%nat.
Proof. intros Hk. rewrite <-(total_insert (delete k m) k x) by apply lookup_delete_eq. by rewrite insert_delete_id. Qed.

(** One goroutine has gone on. *)
Lemma total_put m k x y :
  m !! k = Some x -> (total (put k y m) + f x = total m + match y with Some y => f y | None => 0 end)%nat.
Proof.
  intros Hk. rewrite (total_delete m k x Hk). destruct y as [y|]; cbn; [|lia].
  rewrite <-(insert_delete_eq m k y), total_insert by apply lookup_delete_eq. lia.
Qed.

End Total.

(** * Work *)

Section Work.
Context `{HB : BDMsg, HL : !BDMsgLaws, HN : Net, HG : Gorsa, HZ : Zlib, HP : Proto}.

(** The sections left at most: an admission may make a client, with a monitor and its ending. *)
Definition h_work (pc : hpc) : nat :=
  match pc with HRegister _ _ _ | HAdmit _ _ _ _ => 7 + h_left pc | _ => h_left pc end.
Definition work (c : life) : nat :=
  (total h_work (lf_handlers c) + total e_left (lf_endings c) + 7 * length (monitors (w_tasks (lf_world c))))%nat.

Lemma h_work_next config s pc w :
  let '(pc', w') := h_next config s pc w in
  (match pc' with Some pc' => h_work pc' | None => 0 end + 7 * length (monitors (w_tasks w')) <
   h_work pc + 7 * length (monitors (w_tasks w)))%nat.
Proof.
  destruct (h_next config s pc w) as [pc' w'] eqn:E. pose proof (h_next_tables config s pc w) as Ht. rewrite E in Ht.
  destruct pc as [spare now m|spare now msc register|msc|msc|m|now1 now2 t m|c roomId k|c roomId k|c k].
  2: { cbn in E. injection E as <- <-. cbn [h_work h_left].
    destruct (tables_clientIn config spare now register msc w) as [Et|(l & _ & Et)]; apply (f_equal tb_mon) in Et;
      cbn in Et; rewrite Et, ?length_app; cbn; lia. }
  all: apply (f_equal tb_mon) in Ht; cbn in Ht; rewrite Ht; apply Nat.add_lt_mono_r;
    (destruct pc' as [pc'|]; [pose proof (h_left_next config s _ w pc' w' E) as Hlt|cbn; lia]).
  1: { revert E. open_section. repeat case_match; intros [= <- <-]; cbn; try lia;
         exfalso; by eapply (refreshToken0_returns config spare). }
  all: destruct pc'; try (cbn in *; lia); exfalso; revert E; open_section; unfold h_room; repeat case_match; congruence.
Qed.

Lemma work_decreases config c c' : life_own config c c' -> (work c' < work c)%nat.
Proof.
  intros [w H E s pc Hs|w H E ts1 l ts2 Hts Hr|w H E l pc Hl]; unfold work; cbn.
  - pose proof (h_work_next config s pc w) as Hw. destruct (h_next config s pc w) as [pc' w']. cbn.
    pose proof (total_put h_work H s pc pc' Hs). lia.
  - rewrite Hts, monitors_split. cbn [length]. pose proof (total_put e_left (<[l:=EUserData]> E) l EUserData None
      (lookup_insert_eq _ _ _)) as Hp. cbn in Hp. rewrite delete_insert_eq in Hp.
    assert (total e_left (delete l E) <= total e_left E)%nat.
    { destruct (E !! l) as [x|] eqn:Hx; [rewrite (total_delete e_left E l x Hx); lia|by rewrite delete_id]. }
    lia.
  - rewrite e_next_tasks. pose proof (total_put e_left E l pc (e_next l pc w).1 Hl) as Hp.
    destruct (e_next l pc w) as [[pc'|] w'] eqn:En; cbn in *; [apply e_left_next in En; lia|]. destruct pc; cbn in *; lia.
Qed.

Lemma work_bounds config n c c' : nsteps (life_own config) n c c' -> (n + work c' <= work c)%nat.
Proof.
  induction 1 as [c|n c c1 c' Hs _ IH]; [lia|]. pose proof (work_decreases config c c1 Hs). lia.
Qed.

(** Something is left to do, or everything has come to rest. *)
Definition at_rest (c : life) : Prop :=
  lf_handlers c = ∅ /\ lf_endings c = ∅ /\
  forall l, l ∈ monitors (w_tasks (lf_world c)) -> monitor_ready l (lf_world c) = false.

Lemma own_next config c : (exists c', life_own config c c') \/ at_rest c.
Proof.
  destruct c as [w H E]. destruct (decide (H = ∅)) as [HH|(s & pc & Hs)%map_choose]; [|left; eexists; by eapply own_handler].
  destruct (decide (E = ∅)) as [HE|(l & pc & Hl)%map_choose]; [|left; eexists; by eapply own_ending].
  destruct (decide (Exists (fun l => monitor_ready l w = true) (monitors (w_tasks w)))) as [Hex|Hno].
  - left. apply Exists_exists in Hex as (l & Hl & Hr). apply list_elem_of_omap in Hl as (t & Ht & Htl). destruct t; simplify_eq/=.
    apply list_elem_of_split in Ht as (ts1 & ts2 & Hts). eexists. by eapply own_monitor.
  - right. split_and!; [done..|]. cbn. intros l Hl. destruct (monitor_ready l w) eqn:E0; [|done].
    destruct Hno. apply Exists_exists. eauto.
Qed.

Lemma own_settles config c : exists c', rtc (life_own config) c c' /\ forall c'', ~ life_own config c' c''.
Proof.
  remember (work c) as n eqn:En. revert c En. induction (lt_wf n) as [n _ IH]. intros c ->.
  destruct (own_next config c) as [[c1 Hs]|Hr].
  - destruct (IH (work c1) (work_decreases _ _ _ Hs) c1 eq_refl) as (c' & H1 & H2). exists c'. split; [by eapply rtc_l|done].
  - exists c. split; [done|]. destruct Hr as (HH & HE & Hm). intros c'' Hs.
    destruct Hs as [w H E s pc Hs|w H E ts1 l ts2 Hts Hr|w H E l pc Hl]; cbn in *; subst;
      [by rewrite lookup_empty in Hs| |by rewrite lookup_empty in Hl].
    assert (monitor_ready l w = false); [|congruence]. apply Hm. rewrite Hts, monitors_split. left.
Qed.

End Work.

(** * Stopped connections *)

Section Lasting.
Context `{HB : BDMsg, HL : !BDMsgLaws, HN : Net, HG : Gorsa, HZ : Zlib, HP : Proto}.

(** The connection has stopped; it runs. *)
Definition stopped (w : World) (s : loc) : Prop := exists sc, w_conns w !! s = Some sc /\ sc_Stopped sc = true.
Definition running (w : World) (s : loc) : Prop := exists sc, w_conns w !! s = Some sc /\ sc_Stopped sc = false.

(** What has stopped stays so. *)
Definition lasting (w w' : World) : Prop := forall s, stopped w s -> stopped w' s.

Lemma lasting_refl w : lasting w w.
Proof. by intros s. Qed.

Lemma lasting_trans w1 w2 w3 : lasting w1 w2 -> lasting w2 w3 -> lasting w1 w3.
Proof. intros H1 H2 s Hs. auto. Qed.

Lemma lasting_same w w' : w_conns w' = w_conns w -> lasting w w'.
Proof. intros E s. unfold stopped. by rewrite E. Qed.

Lemma lasting_alter w w' s f :
  w_conns w' = alter f s (w_conns w) -> (forall c, sc_Stopped c = true -> sc_Stopped (f c) = true) -> lasting w w'.
Proof.
  intros E Hf s' (sc & Hs & Hst). unfold stopped. rewrite E, lookup_alter. case_decide; [|eauto].
  subst s'. rewrite Hs. cbn. eauto.
Qed.

Lemma lasting_set s d w : lasting w (on_conn s (sc_SetUserData d) w).
Proof. eapply (lasting_alter _ _ s); [reflexivity|]. intros c. by rewrite set_Stopped. Qed.

Lemma lasting_stop s w : lasting w (on_conn s sc_Stop w).
Proof. eapply (lasting_alter _ _ s); [reflexivity|]. intros c _. apply stop_Stopped. Qed.

Lemma lasting_Close l w : lasting w (Close l w).
Proof. unfold Close. case_match; [apply lasting_stop|apply lasting_refl]. Qed.

Lemma lasting_close_if P order w : lasting w (close_if P order w).
Proof.
  revert w. induction order as [|id order IH]; intros w; [apply lasting_refl|]. cbn.
  eapply lasting_trans; [|apply IH]. repeat case_match; auto using lasting_Close, lasting_refl.
Qed.

Lemma lasting_clientIn config spare now register msc w : lasting w (cm_clientIn config spare now register msc w).2.
Proof.
  rewrite cm_clientIn_eq. destruct (refreshToken0 _ _ _) as [[claims [err|]]|p|]; try apply lasting_refl. cbn zeta.
  set (w1 := match w_clientM w !! rg_UserId register with Some c => Close c w | None => w end).
  apply (lasting_trans _ w1); [unfold w1; case_match; [apply lasting_Close|apply lasting_refl]|].
  pose proof (enrol_spec now register msc (tk_ExpireTime claims) w1) as Hspec.
  destruct (enrol now register msc (tk_ExpireTime claims) w1) as [l w2]. destruct Hspec as (_ & _ & Eco & _).
  eapply lasting_alter; [exact Eco|]. intros c. by rewrite set_Stopped.
Qed.

Lemma lasting_h_next config s pc w : lasting w (h_next config s pc w).2.
Proof.
  destruct pc as [spare now m|spare now msc register|msc|msc|m|now1 now2 t m|c roomId k|c roomId k|c k]; open_section.
  - apply lasting_same. by repeat case_match.
  - apply lasting_clientIn.
  - eapply (lasting_alter _ _ msc); [reflexivity|]. intros c. by rewrite handshake_Stopped.
  - apply lasting_stop.
  - apply lasting_same. by repeat case_match.
  - apply lasting_same. cbn zeta. by repeat case_match.
  - apply lasting_same. cbn. by case_match.
  - apply lasting_same. cbn. by case_match.
  - apply lasting_same. destruct k; cbn; [done|]. case_match; [|done].
    unfold h_queue, next_message_id, group_Add, mbind, M_bind. by destruct (mqg_Add _ _).
Qed.

Lemma lasting_e_next l pc w : lasting w (e_next l pc w).2.
Proof.
  unfold e_next. case_match; [|apply lasting_refl]. destruct pc; cbn [snd]; [apply lasting_set|apply lasting_same..].
  all: unfold removeClient; repeat case_match; try done; by repeat case_decide.
Qed.

Lemma own_lasting config c c' : life_own config c c' -> lasting (lf_world c) (lf_world c').
Proof. intros []; cbn; [apply lasting_h_next|by apply lasting_same|apply lasting_e_next]. Qed.

Lemma owns_lasting config c c' : rtc (life_own config) c c' -> lasting (lf_world c) (lf_world c').
Proof.
  induction 1 as [c|c c1 c' Hs _ IH]; [apply lasting_refl|]. eapply lasting_trans; [by eapply own_lasting|done].
Qed.

(** The steps of Service.v are lasting. *)
Lemma lasting_dispatch config spare now1 now2 s t m w : lasting w (dispatch config spare now1 now2 s t m w).2.
Proof.
  destruct (h_start spare now1 now2 t m) as [pc|] eqn:Hst.
  - pose proof (own_of_handler config w {[s := pc]} ∅ s pc _ (lookup_singleton_eq _ _)
      (h_start_ends config spare now1 now2 s t m w pc Hst)) as Hrun. by apply owns_lasting in Hrun.
  - revert Hst. unfold h_start, dispatch. repeat case_match; try done; intros _; [| |apply lasting_refl].
    + unfold handleRefreshToken, assert_Client, recovering. run. destruct (user_data s w) as [| |c]; try apply lasting_refl.
      assert (lasting w (heartBeat now1 c w)) as Hbeat by (by apply lasting_same).
      destruct (RefreshToken_Unmarshal m zero_RefreshToken) as [rt [e|]];
        [unfold client_Stop, modify; cbn; eapply lasting_trans; [exact Hbeat|apply lasting_Close]|].
      unfold refreshToken. destruct (refreshToken0 _ _ _) as [[claims [e|]]|p|]; cbn; try done.
      unfold client_Stop, modify. cbn. eapply lasting_trans; [exact Hbeat|apply lasting_Close].
    + unfold handleHeartBeat, assert_Client. run. destruct (user_data s w) as [| |c]; try apply lasting_refl.
      by apply lasting_same.
Qed.

Lemma conns_handleSubscription range payload w : w_conns (handleSubscription range payload w) = w_conns w.
Proof.
  assert (forall l m w, w_conns (ServerHello l m w) = w_conns w) as Hh by (intros [l|] m w1; done).
  assert (forall id m w, w_conns (deliverToSingleClient id m w) = w_conns w) as H1.
  { intros id m w1. unfold deliverToSingleClient. by case_match. }
  assert (forall (f : World -> string -> World) ids w, (forall w id, w_conns (f w id) = w_conns w) ->
    w_conns (foldl f w ids) = w_conns w) as Hf.
  { intros f ids w1 Hid. revert w1. induction ids as [|id ids IH]; intros w1; [done|]. cbn. by rewrite IH, Hid. }
  unfold handleSubscription. destruct (FromRouterMessage_Unmarshal _ _) as [fr e].
  set (w1 := if negb _ then _ else w). assert (w_conns w1 = w_conns w) as <-.
  { unfold w1. case_match; [|done]. unfold deliverToUser. cbn. by rewrite H1. }
  unfold deliverToWorld, deliverToRoom, deliver_all. repeat case_match; try done; cbn.
  all: match goal with E : new_message _ _ = _ |- _ => injection E as _ <- end; rewrite Hf; auto.
Qed.

Lemma step_lasting config w w' : step config w w' -> lasting w w'.
Proof.
  intros Hs. destruct Hs as [w s sc Hs Hud|w s|w err|w spare now1 now2 s t m|w range payload _|w l _|w ts1 l ts2 Ht Hr
    |w ts1 l e ts2 now Ht|w l now|w now order _|w rooms _|w result now order conns|w now order1 order2|w order _].
  - intros s' (sc' & Hs' & Hst). exists sc'. split; [|done]. cbn. rewrite lookup_insert_ne; [done|congruence].
  - apply lasting_stop.
  - apply lasting_same. unfold conn_closed. by case_match.
  - apply lasting_dispatch.
  - apply lasting_same, conns_handleSubscription.
  - unfold a_iter, a_pop. destruct (w_clients w !! l) as [c|]; [|apply lasting_refl].
    destruct (c_q c); [apply lasting_refl|]. destruct (head (c_queue c)) as [m|]; [|by apply lasting_same].
    unfold a_output. repeat case_match; try (by apply lasting_same).
    eapply lasting_alter; [reflexivity|]. intros c'. by rewrite output_Stopped.
  - destruct (w_clients w !! l) as [c|] eqn:Hc; [|unfold ending; cbn; rewrite Hc; by apply lasting_same].
    rewrite (ending_eq l c) by done. eapply lasting_alter; [reflexivity|]. intros c'. by rewrite set_Stopped.
  - apply lasting_same. unfold expire. by repeat case_match.
  - unfold timer_fire. repeat case_match; try apply lasting_refl.
    eapply lasting_alter; [reflexivity|]. intros c' _. apply stop_Stopped.
  - unfold initHeartBeat. case_match; [|apply lasting_refl]. rewrite heartbeat_close_if. apply lasting_close_if.
  - apply lasting_same. unfold consume. run. unfold consumeEvent, recovering. run.
    destruct (mqg_DrainTo rooms (w_mqg w) [] 10000) as [[msgs rest] g]. unfold on_rpc. cbn.
    by destruct (deliver (w_rpc w) msgs (w_rpc_env w)) as [[x|p|] e].
  - apply lasting_same. unfold discovery. by destruct (discover _ _ _ _ _ _) as [[r|p|] e].
  - apply lasting_same. unfold publish. by destruct (total_traffic order1 w).
  - rewrite CloseAll_close_if. apply lasting_close_if.
Qed.

End Lasting.

(** * Who is registered *)

Section Registered.
Context `{HB : BDMsg, HL : !BDMsgLaws, HN : Net, HG : Gorsa, HZ : Zlib, HP : Proto}.

(** A step that restarts no connection: nothing in the code does. *)
Definition lasting_step (config : ConfigT) (c c' : life) : Prop :=
  life_step config c c' /\ lasting (lf_world c) (lf_world c').

(** A client is registered under its id or its connection has stopped, and an ending is of a
client whose connection has stopped. *)
Record run_inv (w : World) (E : gmap loc epc) : Prop := {
  ri_client l id s q : tb_cl (tables_of w) !! l = Some (id, s, q) -> stopped w s \/ w_clientM w !! id = Some l;
  ri_ending l pc id s q : E !! l = Some pc -> tb_cl (tables_of w) !! l = Some (id, s, q) -> stopped w s;
}.

Lemma run_inv_same w w' E :
  run_inv w E -> lasting w w' -> w_clientM w' = w_clientM w ->
  (forall l id s q, tb_cl (tables_of w') !! l = Some (id, s, q) -> exists q', tb_cl (tables_of w) !! l = Some (id, s, q')) ->
  run_inv w' E.
Proof.
  intros [H1 H2] Hl HM Hcl. constructor.
  - intros l id s q Hc. destruct (Hcl _ _ _ _ Hc) as [q' Hc']. rewrite HM. destruct (H1 l id s q' Hc'); auto.
  - intros l pc id s q Hpc Hc. destruct (Hcl _ _ _ _ Hc) as [q' Hc']. apply Hl. by eapply H2.
Qed.

Lemma run_inv_E w E E' : run_inv w E -> (forall l, is_Some (E' !! l) -> is_Some (E !! l)) -> run_inv w E'.
Proof.
  intros [H1 H2] HE. constructor; [done|]. intros l pc id s q Hpc Hc. destruct (HE l) as [pc' Hpc']; [by eexists|].
  by eapply H2.
Qed.

(** An admission: the client before it is stopped. *)
Lemma run_inv_admit config spare now register msc w H E :
  life_inv (mkLife w H E) -> is_Some (tb_ud (tables_of w) !! msc) -> run_inv w E ->
  run_inv (cm_clientIn config spare now register msc w).2 E.
Proof.
  intros Hok Hud Hri. unfold life_inv in Hok. cbn in Hok.
  pose proof (lasting_clientIn config spare now register msc w) as Hlast.
  destruct (refreshToken0 config spare (rg_Token register)) as [[claims [err|]]|p|] eqn:Htok;
    [unfold cm_clientIn in *; by rewrite Htok| |unfold cm_clientIn in *; by rewrite Htok..].
  destruct (clientIn_admits config spare now register msc w claims Htok) as (l & w' & client & Ew & EM & Hl & Hc & Hid & Hm & Hold).
  { by apply tb_conn. }
  { intros l c Hc. destruct (lk_conn _ _ _ Hok l _ _ _ (tb_client _ _ _ Hc)) as [d Hd]. apply tb_conn. by eexists. }
  destruct (tables_clientIn config spare now register msc w) as [Et|(l0 & Hl0 & Et)]; rewrite Ew in *; cbn [snd] in *.
  { exfalso. apply tb_client in Hc. rewrite Et in Hc. unfold tables_of in Hc. cbn in Hc.
    rewrite lookup_fmap, Hl in Hc. done. }
  assert (l = l0) as <-.
  { apply tb_client in Hc. rewrite Et in Hc. cbn in Hc. rewrite lookup_insert in Hc. case_decide; [done|].
    rewrite lookup_fmap, Hl in Hc. done. }
  destruct Hri as [H1 H2]. constructor.
  - intros l' id s q Hc'. rewrite Et in Hc'. cbn in Hc'. rewrite lookup_insert in Hc'. case_decide as Hd.
    + subst l'. injection Hc' as <- <- <-. right. by rewrite EM, lookup_insert_eq.
    + destruct (H1 l' id s q Hc') as [Hs|HM]; [left; auto|]. rewrite EM, lookup_insert. case_decide as Hi; [left|by right].
      destruct (tb_client_inv _ _ _ _ _ Hc') as (oldc & Holdc & _ & <- & _). rewrite <-Hi in HM. by apply (Hold l').
  - intros l' pc id s q Hpc Hc'. apply Hlast. rewrite Et in Hc'. cbn in Hc'. rewrite lookup_insert in Hc'. case_decide as Hd.
    + subst l'. destruct (lk_E _ _ _ Hok l pc Hpc) as [x Hx]. congruence.
    + by eapply H2.
Qed.

Lemma run_inv_step config c c' :
  life_inv c -> lasting_step config c c' -> run_inv (lf_world c) (lf_endings c) ->
  run_inv (lf_world c') (lf_endings c').
Proof.
  intros Hok [Hstep Hlast] Hri. pose proof Hok as Hok'. unfold life_inv in Hok'.
  destruct Hstep as [w H E s spare now1 now2 t m pc Hs _ Hpc|w H E s pc Hs|w H E ts1 l ts2 Hts Hr|w H E l pc Hl|w H E w' Hq];
    unfold lf_world, lf_handlers, lf_endings in *.
  - done.
  - pose proof (h_next_tables config s pc w) as Ht. destruct pc as [|spare now msc register| | | | | | |].
    2: { destruct (lk_H _ _ _ Hok' s _ Hs) as [-> Hu]. cbn [h_next snd]. eapply run_inv_admit; [exact Hok|by eexists|done]. }
    all: apply (run_inv_same w); [done..|exact (f_equal tb_clientM Ht)|]; intros l id s' q Hc; exists q;
      by rewrite <-(f_equal tb_cl Ht : _ = tb_cl (tables_of w)).
  - destruct Hri as [H1 H2]. constructor; [exact H1|]. intros l' pc id s q Hpc Hc. rewrite lookup_insert in Hpc.
    case_decide as Hd; [|by eapply H2]. subst l'. destruct (tb_client_inv _ _ _ _ _ Hc) as (cl & Hcl & _ & <- & _).
    cbn in Hcl. unfold monitor_ready in Hr. rewrite Hcl in Hr.
    destruct (w_conns w !! c_msc cl) as [sc|] eqn:Hsc; [|done]. by exists sc.
  - destruct (lk_E _ _ _ Hok' l pc Hl) as [[[id0 s0] q0] Hc0]. destruct (tb_client_inv _ _ _ _ _ Hc0) as (cl & Hcl & Hid & _ & _).
    assert (forall l' id s q, tb_cl (tables_of (e_next l pc w).2) !! l' = Some (id, s, q) ->
      exists q', tb_cl (tables_of w) !! l' = Some (id, s, q')) as Hcards.
    { intros l' id s q Hc. revert Hc. unfold e_next. rewrite Hcl. destruct pc; cbn [snd]; try (by eexists).
      - unfold removeClient. rewrite Hcl. case_decide; by eexists.
      - rewrite tables_set_q. cbn. rewrite lookup_alter. case_decide; [|by eexists]. subst l'.
        destruct (card <$> w_clients w !! l) as [[[i s1] q1]|] eqn:Ecard; rewrite lookup_fmap, Ecard; [|done].
        intros [= -> -> _]. by eexists.
      - rewrite tables_on_client by done. by eexists. }
    apply (run_inv_E _ E); [|intros l'; destruct (e_next l pc w) as [[pc'|] w1]; cbn].
    2: { rewrite lookup_insert. case_decide; [subst; by rewrite Hl|done]. }
    2: { rewrite lookup_delete. case_decide; [by intros [? ?]|done]. }
    destruct Hri as [H1 H2]. constructor.
    + intros l' id s q Hc. destruct (Hcards l' id s q Hc) as [q' Hc']. rewrite (e_next_clientM l pc w cl Hcl).
      destruct (H1 l' id s q' Hc') as [Hst|HM]; [left; by apply Hlast|].
      destruct pc; try (right; exact HM). case_decide as Hd; [|by right]. rewrite lookup_delete.
      case_decide as Heq; [left|by right]. assert (l' = l) as -> by congruence. apply Hlast. by eapply H2.
    + intros l' pc' id s q Hpc' Hc. destruct (Hcards l' id s q Hc) as [q' Hc']. apply Hlast. by eapply H2.
  - apply (run_inv_same w); [done..|by apply quiet_clientM|]. intros l id s q Hc. exists q.
    by destruct Hq as [Et|(s' & _ & Et)]; rewrite Et in Hc.
Qed.

(** What the server can be in. *)
Definition lasting_reaches (config : ConfigT) (e : rpc_env) (c : life) : Prop :=
  rtc (lasting_step config) (life_init e) c.

Lemma lasting_inv config e c :
  lasting_reaches config e c -> life_inv c /\ run_inv (lf_world c) (lf_endings c).
Proof.
  intros Hrun. unfold lasting_reaches in Hrun. remember (life_init e) as c0 eqn:Ec.
  assert (life_inv c0 /\ run_inv (lf_world c0) (lf_endings c0)) as H0.
  { subst. split; [apply life_inv_init|]. constructor; cbn; intros *; rewrite ?fmap_empty, lookup_empty; done. }
  clear Ec. induction Hrun as [c|c c1 c' Hs _ IH]; [done|]. apply IH. destruct H0 as [Hok Hri].
  split; [eapply life_inv_step; [done|apply Hs]|by eapply run_inv_step].
Qed.

Lemma owns_lasting_steps config c c' : rtc (life_own config) c c' -> rtc (lasting_step config) c c'.
Proof. apply rtc_subrel. intros a b Hs. split; [by apply own_life|by eapply own_lasting]. Qed.

(** The steps of Service.v. *)
Lemma lasting_of_steps config w w' :
  rtc (step config) w w' -> rtc (lasting_step config) (mkLife w ∅ ∅) (mkLife w' ∅ ∅).
Proof.
  induction 1 as [|w w1 w' Hs _ IH]; [done|]. etrans; [|exact IH]. clear IH w'. pose proof (step_lasting config w w1 Hs) as Hl.
  destruct (step_quiet config w w1 Hs) as [Hq|[(spare & now1 & now2 & s & t & m & pc & Hpc & ->)|(ts1 & l & ts2 & Ht & Hr & ->)]].
  - apply rtc_once. split; [by apply life_others|done].
  - destruct (w_conns w !! s) as [sc|] eqn:Hs'; [|by rewrite dispatch_no_conn].
    eapply rtc_l; [split; [eapply (life_call config w ∅ ∅ s); [apply lookup_empty|by eexists|exact Hpc]|apply lasting_refl]|].
    pose proof (own_of_handler config w (<[s:=pc]> ∅) ∅ s pc _ (lookup_insert_eq _ _ _) (h_start_ends config spare now1 now2 s t m w pc Hpc)) as Hrun.
    rewrite delete_insert_eq, delete_empty in Hrun. by apply owns_lasting_steps.
  - apply owns_lasting_steps. eapply rtc_l; [by eapply own_monitor|].
    pose proof (own_of_ending config (upd_tasks (fun _ => ts1 ++ ts2) w) ∅ (<[l:=EUserData]> ∅) l 6 EUserData _
      (lookup_insert_eq _ _ _) (e_run_ending l _)) as Hrun.
    by rewrite delete_insert_eq, delete_empty in Hrun.
Qed.

(** At rest, the ids lead to the clients whose connection runs. *)
Lemma rest_registered w :
  life_inv (mkLife w ∅ ∅) -> run_inv w ∅ -> at_rest (mkLife w ∅ ∅) ->
  forall id l, cm_Client id w = Some l <-> exists cl, w_clients w !! l = Some cl /\ c_ID cl = id /\ running w (c_msc cl).
Proof.
  intros Hok [H1 _] (_ & _ & Hm) id l. unfold life_inv in Hok. cbn in Hok, Hm. unfold cm_Client. split.
  - intros Hid. destruct (lk_clientM _ _ _ Hok id l Hid) as [(s & q & Hc) [Hmon|(pc & Hpc & _)]]; [|by rewrite lookup_empty in Hpc].
    destruct (tb_client_inv _ _ _ _ _ Hc) as (cl & Hcl & <- & <- & _). exists cl. split_and!; [done..|].
    destruct (tb_conn (c_msc cl) w) as [sc Hsc]; [by eapply (lk_conn _ _ _ Hok)|]. exists sc. split; [done|].
    pose proof (Hm l Hmon) as Hr. unfold monitor_ready in Hr. by rewrite Hcl, Hsc in Hr.
  - intros (cl & Hcl & <- & sc & Hsc & Hrun).
    destruct (H1 l (c_ID cl) (c_msc cl) (c_q cl) (tb_client _ _ _ Hcl)) as [(sc' & Hsc' & Hst)|]; [congruence|done].
Qed.

(** As many monitors as registered clients. *)
Lemma rest_count w :
  life_inv (mkLife w ∅ ∅) -> run_inv w ∅ -> at_rest (mkLife w ∅ ∅) ->
  length (monitors (w_tasks w)) = size (w_clientM w).
Proof.
  intros Hok Hri Hrest. pose proof (rest_registered w Hok Hri Hrest) as Hreg. destruct Hrest as (_ & _ & Hm).
  unfold life_inv in Hok. cbn in Hok, Hm. unfold cm_Client in Hreg.
  rewrite <-length_map_to_list, <-(length_fmap snd (map_to_list (w_clientM w))). apply Permutation_length, NoDup_Permutation.
  - apply (lk_NoDup _ _ _ Hok).
  - apply NoDup_fmap_2_strong; [|apply NoDup_map_to_list]. intros [id l] [id' l'] Hx%elem_of_map_to_list Hy%elem_of_map_to_list.
    cbn. intros <-. apply Hreg in Hx as (cl & Hcl & <- & _), Hy as (cl' & Hcl' & <- & _). congruence.
  - intros l. rewrite list_elem_of_fmap. split.
    + intros Hl. destruct (lk_mon _ _ _ Hok l Hl) as [[[[id s] q] Hc] _]. destruct (tb_client_inv _ _ _ _ _ Hc) as (cl & Hcl & Hid & Hs & _).
      exists (id, l). split; [done|]. apply elem_of_map_to_list, Hreg. exists cl. split_and!; [done..|].
      destruct (tb_conn (c_msc cl) w) as [sc Hsc]; [rewrite Hs; by eapply (lk_conn _ _ _ Hok)|]. exists sc. split; [done|].
      pose proof (Hm l Hl) as Hr. unfold monitor_ready in Hr. by rewrite Hcl, Hsc in Hr.
    + intros ([id l'] & -> & Hid%elem_of_map_to_list). cbn.
      destruct (lk_clientM _ _ _ Hok id l' Hid) as [_ [Hmon|(pc & Hpc & _)]]; [done|]. by rewrite lookup_empty in Hpc.
Qed.

End Registered.

(** * Properties *)

(** C19: the server comes to rest. In every reachable state, in the middle of any handlers and
endings, let the handlers and the endings under way and the monitors of stopped connections
run alone, in any order: they take at most [work c] sections; some run of theirs ends; and
wherever a run ends, nothing is under way any more, the ids lead to exactly the clients
whose connection runs, each under its own id, and their number is the one published. *)
Theorem lifecycle_settles `{HB : BDMsg, HL : !BDMsgLaws, HN : Net, HG : Gorsa, HZ : Zlib, HP : Proto} config e c :
  lasting_reaches config e c ->
  let rests c' := rtc (life_own config) c c' /\ forall c'', ~ life_own config c' c'' in
  (forall n c', nsteps (life_own config) n c c' -> (n <= work c)%nat) /\
  (exists c', rests c') /\
  forall c', rests c' ->
    lf_handlers c' = ∅ /\ lf_endings c' = ∅ /\
    (forall id l, cm_Client id (lf_world c') = Some l <->
       exists cl, w_clients (lf_world c') !! l = Some cl /\ c_ID cl = id /\ running (lf_world c') (c_msc cl)) /\
    ni_LoginUsers (w_info (lf_world c')) = to_int32 (Z.of_nat (size (w_clientM (lf_world c')))).
Proof.
  intros Hreach. cbn zeta. split_and!; [intros n c' Hn%work_bounds; lia|apply own_settles|].
  intros c' [Hrun Hrest]. assert (lasting_reaches config e c') as Hreach'
    by (unfold lasting_reaches; etrans; [exact Hreach|by apply owns_lasting_steps]).
  destruct (lasting_inv config e c' Hreach') as [Hok Hri].
  destruct (own_next config c') as [[c'' Hs]|Hat]; [by destruct (Hrest c'')|].
  destruct c' as [w H E]. pose proof Hat as (HH & HE & _). cbn in HH, HE. subst. cbn [lf_world lf_endings] in *.
  split_and!; [done..|by apply rest_registered|].
  rewrite <-rest_count by done. pose proof (lk_users _ _ _ Hok) as Hu. cbn in Hu. by rewrite Hu, map_size_empty, Z.add_0_r.
Qed.

(** * Witnesses *)

Section Examples.
#[local] Existing Instances test_bdmsg test_bdmsg_laws test_net test_zlib toy_rsa test_proto.

Lemma lasting_entering : lasting_reaches open_config (test_env ∅) (mkLife w_s4 entering_r2 ∅).
Proof.
  eapply rtc_r; [eapply rtc_r; [eapply rtc_r; [apply lasting_of_steps, w_s2_reachable|]|]|].
  - split; [eapply (life_call open_config w_s2 ∅ ∅ 1%positive [] 0 0 MsgTypeEnterRoom r2_payload)|apply lasting_refl];
      [apply lookup_empty| |reflexivity].
    eexists. vm_compute. reflexivity.
  - pose proof (life_handler open_config w_s2 (<[1%positive := HEnter r2_payload]> ∅) ∅ 1%positive _ (lookup_insert_eq _ _ _)) as Hs.
    assert (h_next open_config 1%positive (HEnter r2_payload) w_s2 =
      (Some (HLeave 1%positive "r2" (ThenLevel 0)), w_s2)) as E by (vm_compute; reflexivity).
    rewrite E in Hs. cbn in Hs. rewrite insert_insert_eq in Hs. split; [exact Hs|apply lasting_refl].
  - split; [apply life_others, quiet_same, tables_on_conn, stop_UserData|apply lasting_stop].
Qed.

End Examples.

(** Ann's connection is lost while she enters a room: nobody is registered in the end. *)
Lemma lifecycle_settles_witness :
  exists c', rtc (@life_own test_bdmsg test_net toy_rsa open_config) (mkLife w_s4 entering_r2 ∅) c' /\
    lf_handlers c' = ∅ /\ lf_endings c' = ∅ /\
    forall id l, cm_Client id (lf_world c') = Some l -> exists cl, w_clients (lf_world c') !! l = Some cl /\ c_ID cl = id.
Proof.
  destruct (@lifecycle_settles test_bdmsg test_bdmsg_laws test_net toy_rsa test_zlib test_proto
    open_config _ _ lasting_entering) as (_ & (c' & Hrun & Hrest) & H).
  destruct (H c' (conj Hrun Hrest)) as (HH & HE & Hreg & _).
  exists c'. split; [exact Hrun|]. split; [exact HH|]. split; [exact HE|].
  intros id l Hid. apply Hreg in Hid as (cl & Hcl & Hidc & _). exists cl. split; [exact Hcl|exact Hidc].
Defined.
