(* ===== verification/Races.v ===== *)
(** The delivery of a publication against handlers and endings, all of them lock by lock: the
sections of the subscription (Interleave.v) between those of registrations, enterings, chat
messages and endings (Lifecycle.v). Between the two sections of [RoomManager.clientIn] a
client is out of the room it enters again; this is where a delivery can miss it. *)

From S2P Require Import Prelude GoText Json ProtoDef Protocol ToCompute Room Config Token Rpc State.
From S2P Require Import Client Subscribe Heartbeat Stat Service Interleave Lifecycle LifecycleRuns.
Local Open Scope Z_scope.

Section Races.
Context `{HB : BDMsg, HN : Net, HG : Gorsa, HZ : Zlib, HP : Proto}.

(** The server with its handlers and endings, where the subscription stands, and its pushes. *)
Record race := mkRace { rc_life : life; rc_pc : dpc; rc_log : list (loc * loc) }.

Definition rc_world (s : race) : World := lf_world (rc_life s).

(** A section of the subscription; a message that arrives for a handler; a section of a
handler or of an ending, or a monitor that wakes up, the lock of the manager permitting;
the other goroutines, which are quiet and calm ([step_race]). *)
Inductive race_step (config : ConfigT) : race -> race -> Prop :=
  | race_subscription range w H E pc log :
      (forall m, iterates m (range m)) ->
      race_step config (mkRace (mkLife w H E) pc log)
        (let s := d_next range (mkD pc w log) in mkRace (mkLife (d_world s) H E) (d_pc s) (d_log s))
  | race_call w H E s spare now1 now2 t m pc' pc log :
      H !! s = None -> is_Some (w_conns w !! s) -> h_start spare now1 now2 t m = Some pc' ->
      race_step config (mkRace (mkLife w H E) pc log) (mkRace (mkLife w (<[s := pc']> H) E) pc log)
  | race_section c c' pc log :
      life_own config c c' -> (holds_manager pc -> w_clientM (lf_world c') = w_clientM (lf_world c)) ->
      race_step config (mkRace c pc log) (mkRace c' pc log)
  | race_others w w' H E pc log :
      quiet_for w w' -> calm w w' ->
      race_step config (mkRace (mkLife w H E) pc log) (mkRace (mkLife w' H E) pc log).

(** A run in which a property holds all the time. *)
Definition race_run (config : ConfigT) (P : race -> Prop) : race -> race -> Prop :=
  rtc (fun s s' => race_step config s s' /\ P s').

(** The arrival of a payload. *)
Definition race_receive (payload : bytes) (w : World) (H : gmap loc hpc) (E : gmap loc epc) (log : list (loc * loc)) : race :=
  mkRace (mkLife (d_receive payload w).2 H E) (d_receive payload w).1 log.

End Races.

(** * Lemmas *)

Section Lemmas.
Context `{HB : BDMsg, HL : !BDMsgLaws, HN : Net, HG : Gorsa, HZ : Zlib, HP : Proto}.

Lemma calm_only w w' : w_clients w' = w_clients w -> w_msgs w' = w_msgs w -> w_rooms w' = w_rooms w -> calm w w'.
Proof. intros. eapply calm_same; [done..|]. apply calm_refl. Qed.

(** The steps of Service.v are of the race: one of its quiet and calm steps, or a publication,
a handler or a monitor, which it has section by section. *)
Lemma step_race config w w' H E pc log :
  caches_ok w -> step config w w' ->
  race_step config (mkRace (mkLife w H E) pc log) (mkRace (mkLife w' H E) pc log) \/
  (exists range payload, w' = handleSubscription range payload w) \/
  (exists spare now1 now2 s t m pc, h_start spare now1 now2 t m = Some pc /\
    w' = (dispatch config spare now1 now2 s t m w).2) \/
  (exists ts1 l ts2, w_tasks w = ts1 ++ TMonitor l :: ts2 /\ monitor_ready l w = true /\
    w' = ending l (upd_tasks (fun _ => ts1 ++ ts2) w)).
Proof.
  intros Hw Hs. destruct (step_quiet config w w' Hs) as [Hq|Hrest]; [|by right; right].
  destruct (step_calm config w w' Hw Hs) as [Hc|(range & payload & _ & ->)]; [left; by apply race_others|].
  right. left. by exists range, payload.
Qed.

Lemma calm_h_next config s pc w : calm w (h_next config s pc w).2.
Proof.
  pose proof (calm_refl w) as H0.
  destruct pc as [spare now m|spare now msc register|msc|msc|m|now1 now2 t m|c roomId k|c roomId k|c k]; open_section.
  - by repeat case_match.
  - by apply calm_clientIn.
  - by apply calm_only.
  - by apply calm_only.
  - by repeat case_match.
  - destruct (user_data s w); try done. pose proof (calm_heartBeat w now1 c w H0) as Hb. cbn zeta. by repeat case_match.
  - cbn. case_match; [|done]. apply calm_upd_rooms; [apply rm_ending_move|done].
  - cbn. case_match; [|done]. apply calm_set; [done|]. apply calm_upd_rooms; [apply rm_enter_move|done].
  - destruct k; cbn; [by apply calm_set|]. case_match; [|done].
    apply calm_only; unfold h_queue, next_message_id, group_Add, mbind, M_bind; by destruct (mqg_Add _ _).
Qed.

Lemma calm_e_next l pc w : calm w (e_next l pc w).2.
Proof.
  pose proof (calm_refl w) as H0. unfold e_next. case_match; [|done]. destruct pc; cbn [snd].
  - by apply calm_only.
  - apply calm_upd_rooms; [apply rm_ending_move|done].
  - apply calm_only; unfold removeClient; repeat case_match; try done; by repeat case_decide.
  - by apply calm_set.
  - by apply calm_set.
  - by apply calm_only.
Qed.

Lemma own_calm config c c' : life_own config c c' -> calm (lf_world c) (lf_world c').
Proof. intros []; cbn; [apply calm_h_next|by apply calm_only|apply calm_e_next]. Qed.

Lemma life_sound c : life_inv c -> sound (lf_world c).
Proof.
  intros Hok. split; [|apply (lk_rooms _ _ _ Hok)]. intros id l Hid.
  destruct (lk_clientM _ _ _ Hok id l Hid) as [(s & q & Hc) _].
  destruct (tb_client_inv _ _ _ _ _ Hc) as (cl & Hcl & Hcid & _). by exists cl.
Qed.

Lemma sound_new msg w : sound w -> sound (new_message msg w).2.
Proof. intros [H1 H2]. by split. Qed.

Lemma sound_push c m w : sound w -> sound (ServerHello (Some c) m w).
Proof.
  intros [H1 H2]. split; [|done]. intros id l Hl. destruct (H1 id l Hl) as (cl & Hcl & Hid). unfold is_client. cbn.
  rewrite lookup_alter. case_decide; subst; rewrite Hcl; by eexists.
Qed.

(** The subscription leaves the tables. *)
Lemma d_next_quiet range s : tables_of (d_world (d_next range s)) = tables_of (d_world s).
Proof.
  destruct s as [[|fr|fr p|[|v ids] m next|c ids m next|[|v ids] m] w log]; cbn [d_next d_world]; try done.
  - unfold new_message. by repeat case_match.
  - by case_match.
  - apply tables_ServerHello.
  - by rewrite tables_ServerHello.
Qed.

Lemma d_receive_quiet payload w : tables_of (d_receive payload w).2 = tables_of w.
Proof. unfold d_receive. destruct (FromRouterMessage_Unmarshal _ _) as [fr e]. by case_match. Qed.

(** The invariants of both sides, in step. *)
Lemma race_inv_step config fr id l reg where_ log0 c0 s s' :
  c_ID c0 = id -> race_step config s s' -> stable fr id l reg where_ (rc_world s') ->
  life_inv (rc_life s) /\ d_inv fr id l reg where_ sound log0 c0 (mkD (rc_pc s) (rc_world s) (rc_log s)) ->
  life_inv (rc_life s') /\ d_inv fr id l reg where_ sound log0 c0 (mkD (rc_pc s') (rc_world s') (rc_log s')).
Proof.
  intros Hid Hs Hst [Hok Hd].
  destruct Hs as [range w H E pc log Hr|w H E s spare now1 now2 t m pc' pc log Hs Hc Hpc|c c' pc log Hown _|w w' H E pc log Hq Hc];
    unfold rc_world in *; cbn [rc_life rc_pc rc_log lf_world] in *.
  - cbn zeta in *. cbn [rc_life rc_pc rc_log lf_world] in *.
    split; [unfold life_inv in *; cbn [lf_world lf_handlers lf_endings] in *; by rewrite d_next_quiet|].
    assert (d_inv fr id l reg where_ sound log0 c0 (d_next range (mkD pc w log))) as Hd'
      by (apply d_inv_own; try done; [intros w0; apply sound_new|intros c1 m1 w0 H1 _; by apply sound_push]).
    by destruct (d_next range (mkD pc w log)).
  - split; [|done]. apply (life_inv_step config _ _ Hok). by eapply life_call.
  - assert (life_inv c') as Hok' by (apply (life_inv_step config _ _ Hok); by apply own_life).
    split; [done|]. eapply d_inv_others; [by apply life_sound|by eapply own_calm|done|done].
  - assert (life_inv (mkLife w' H E)) as Hok' by (apply (life_inv_step config _ _ Hok); by apply life_others).
    split; [done|]. eapply d_inv_others; [exact (life_sound _ Hok')|done..].
Qed.

(** The only member of a room enters it again: the room has a new map, and the old one
is empty. *)
Lemma rm_reenter m client id roomId p :
  roomId <> "" -> rm_clients m !! roomId = Some p -> rm_maps m !! p = Some {[id := client]} ->
  rm_maps (rm_clientIn m client id roomId).1 !! p = Some ∅.
Proof.
  intros Hr Hp Hm. unfold rm_clientIn. rewrite bool_decide_false by done. cbn [fst].
  assert (rm_ending m roomId client id =
    {| rm_clients := delete roomId (rm_clients m); rm_maps := <[p := ∅]> (rm_maps m) |}) as ->.
  { unfold rm_ending, rm_lookup, rm_inner. rewrite Hp, Hm. cbn. rewrite lookup_singleton_eq, decide_True by done.
    by rewrite delete_singleton_eq, decide_True. }
  unfold rm_enter, rm_make. cbn. rewrite lookup_delete_eq. set (p2 := fresh _).
  assert (p2 <> p) as Hne.
  { intros E. assert (p2 ∉ dom (<[p := ∅]> (rm_maps m))) as Hf by apply is_fresh. apply Hf. rewrite E. set_solver. }
  destruct (rm_search _ _ _ _); cbn; rewrite ?lookup_insert_ne, ?lookup_insert_eq by done; done.
Qed.

(** What the handler of [EnterRoom] does, lock by lock. *)
Lemma enter_sections config s m er l c w H E :
  H !! s = Some (HEnter m) -> user_data s w = UD_Client l -> w_clients w !! l = Some c ->
  EnterRoom_Unmarshal m zero_EnterRoom = (er, None) -> er_RoomId er <> "" ->
  let k := ThenLevel (er_Level er) in
  let wl := upd_rooms (fun m => rm_ending m (er_RoomId er) l (c_ID c)) w in
  let wj := on_client l (set_c_roomId (er_RoomId er)) (upd_rooms (fun m => rm_enter m (er_RoomId er) l (c_ID c)) wl) in
  life_own config (mkLife w H E) (mkLife w (<[s := HLeave l (er_RoomId er) k]> H) E) /\
  life_own config (mkLife w (<[s := HLeave l (er_RoomId er) k]> H) E) (mkLife wl (<[s := HJoin l (er_RoomId er) k]> H) E) /\
  life_own config (mkLife wl (<[s := HJoin l (er_RoomId er) k]> H) E) (mkLife wj (<[s := HThen l k]> H) E) /\
  life_own config (mkLife wj (<[s := HThen l k]> H) E) (mkLife (on_client l (set_c_level (er_Level er)) wj) (delete s H) E).
Proof.
  intros Hs Hud Hc Hm Hr. cbn zeta.
  assert (forall w pc H', H' !! s = Some pc -> life_own config (mkLife w H' E)
    (mkLife (h_next config s pc w).2 (put s (h_next config s pc w).1 H') E)) as Hstep by (intros; by apply own_handler).
  split_and!.
  - pose proof (Hstep w _ _ Hs) as H1. cbn [h_next] in H1. unfold h_enter in H1. rewrite Hud, Hm in H1.
    unfold h_room in H1. by rewrite bool_decide_false in H1 by done.
  - pose proof (Hstep w _ _ (lookup_insert_eq H s (HLeave l (er_RoomId er) (ThenLevel (er_Level er))))) as H1.
    cbn [h_next fst snd put] in H1. rewrite Hc in H1. by rewrite insert_insert_eq in H1.
  - set (wl := upd_rooms _ _).
    pose proof (Hstep wl _ _ (lookup_insert_eq H s (HJoin l (er_RoomId er) (ThenLevel (er_Level er))))) as H1.
    cbn [h_next fst snd put] in H1. assert (w_clients wl !! l = Some c) as Hcl by done. rewrite Hcl in H1.
    by rewrite insert_insert_eq in H1.
  - set (wj := on_client l _ _).
    pose proof (Hstep wj _ _ (lookup_insert_eq H s (HThen l (ThenLevel (er_Level er))))) as H1.
    cbn [h_next fst snd put] in H1. by rewrite delete_insert_eq in H1.
Qed.

End Lemmas.

(** * Properties *)

(** C5: delivery against everything else, lock by lock. While a publication is delivered,
any sections of registrations, enterings, chat messages and endings come in between, and
any other goroutine. A client whose registration and place do not change gets it exactly as
often as it is for it, once as its user and once as one of its audience, and not more
often at any time before; a client that is not registered gets nothing. What is pushed is
the publication, behind what was queued. *)
Theorem locked_delivery `{HB : BDMsg, HL : !BDMsgLaws, HN : Net, HG : Gorsa, HZ : Zlib, HP : Proto}
    config e payload w H E log l c reg where_ s :
  let fr := (FromRouterMessage_Unmarshal payload zero_FromRouterMessage).1 in
  let P := stable fr (c_ID c) l reg where_ in
  life_reaches config e (mkLife w H E) -> w_clients w !! l = Some c -> P w ->
  race_run config (fun s => P (rc_world s)) (race_receive payload w H E log) s ->
  exists pushed, rc_log s = log ++ pushed /\
    (length (pushes l pushed) <= share fr (c_ID c) reg where_)%nat /\
    (rc_pc s = DReceive -> length (pushes l pushed) = share fr (c_ID c) reg where_) /\
    (forall p, p ∈ pushed -> wire <$> w_msgs (rc_world s) !! p.2 = Some (wire (convert fr))) /\
    exists c' k, w_clients (rc_world s) !! l = Some c' /\ c_queue c' = drop k (c_queue c ++ pushes l pushed).
Proof.
  cbn zeta. set (fr := _.1). intros Hreach Hc Hst Hrun. pose proof (life_reachable _ _ _ Hreach) as Hok.
  assert (life_inv (rc_life (race_receive payload w H E log)) /\
    d_inv fr (c_ID c) l reg where_ sound log c (mkD (d_receive payload w).1 (d_receive payload w).2 log)) as Hinv.
  { split; [unfold life_inv, race_receive in *; cbn in *; by rewrite d_receive_quiet|].
    apply d_inv_receive; try done; [intros w0; apply sound_new|intros c1 m1 w0 H1 _; by apply sound_push|].
    exact (life_sound _ Hok). }
  change (mkD _ _ _) with (mkD (rc_pc (race_receive payload w H E log)) (rc_world (race_receive payload w H E log))
    (rc_log (race_receive payload w H E log))) in Hinv.
  assert (life_inv (rc_life s) /\ d_inv fr (c_ID c) l reg where_ sound log c (mkD (rc_pc s) (rc_world s) (rc_log s))) as [_ Hd].
  { clear Hreach Hok Hc Hst. revert Hinv. generalize (race_receive payload w H E log) as s0, Hrun. clear Hrun.
    intros s0 Hrun. induction Hrun as [s0|s0 s1 s2 [Hstep Hst] _ IH]; [done|]. intros Hinv. by eapply IH, race_inv_step. }
  destruct Hd as [_ _ _ (pushed & Hlog & Hn & Hm & c' & k & Hc' & _ & _ & Hq)].
  exists pushed. split_and!; [done|cbn in Hn; lia| |done|by exists c', k].
  intros Hpc. cbn [d_pc] in Hn. rewrite Hpc in Hn. cbn in Hn. lia.
Qed.

(** C38: a delivery that misses a member. The subscription fetches the map of a room and gives
the lock back before it walks the map. When the only member enters its room again in
between, its handler takes it out and in again under two locks, which leaves the fetched map
empty for good. The member is registered all the time, it is out of the room only between
the two locks, it is back in the room before the map is walked and stays there, and the
publication reaches nobody. *)
Theorem delivery_race `{HB : BDMsg, HL : !BDMsgLaws, HN : Net, HG : Gorsa, HZ : Zlib, HP : Proto}
    config e (range : gmap string loc -> list string) payload w H E log l c p m er :
  let fr := (FromRouterMessage_Unmarshal payload zero_FromRouterMessage).1 in
  let registered (s : race) := w_clientM (rc_world s) !! c_ID c = Some l in
  let member (s : race) := rm_lookup (w_rooms (rc_world s)) (fr_ToRoomId fr) (c_ID c) = Some l in
  let re_enters (s : race) := exists k, lf_handlers (rc_life s) !! c_msc c = Some (HJoin l (fr_ToRoomId fr) k) in
  (forall m, iterates m (range m)) -> life_reaches config e (mkLife w H E) ->
  w_clients w !! l = Some c -> w_clientM w !! c_ID c = Some l ->
  user_data (c_msc c) w = UD_Client l -> H !! c_msc c = Some (HEnter m) ->
  EnterRoom_Unmarshal m zero_EnterRoom = (er, None) -> er_RoomId er = fr_ToRoomId fr ->
  fr_ToUserId fr = "" -> fr_ToRoomId fr <> "world" -> fr_ToRoomId fr <> "" ->
  rm_clients (w_rooms w) !! fr_ToRoomId fr = Some p -> rm_maps (w_rooms w) !! p = Some {[c_ID c := l]} ->
  exists w1 w2,
    let fetched := mkRace (mkLife w1 (delete (c_msc c) H) E) (DRoom fr p) log in
    race_run config (fun s => registered s /\ (member s \/ re_enters s)) (race_receive payload w H E log) fetched /\
    member fetched /\
    race_run config (fun s => registered s /\ member s) fetched (mkRace (mkLife w2 (delete (c_msc c) H) E) DReceive log).
Proof.
  cbn zeta. set (fr := _.1). intros Hr Hreach Hc Hreg Hud Hs Her Eroom Hu Hnw Hne Hp Hm.
  pose proof (lk_rooms _ _ _ (life_reachable _ _ _ Hreach)) as Hwf. cbn in Hwf.
  assert (race_receive payload w H E log = mkRace (mkLife w H E) (DAudience fr) log) as ->.
  { unfold race_receive, d_receive, fr in *. destruct (FromRouterMessage_Unmarshal payload _) as [fr' x]. cbn in *.
    by rewrite bool_decide_true. }
  assert (rm_lookup (w_rooms w) (fr_ToRoomId fr) (c_ID c) = Some l) as Hin.
  { unfold rm_lookup, rm_inner. rewrite Hp, Hm. apply lookup_singleton_eq. }
  destruct (enter_sections config (c_msc c) m er l c w H E Hs Hud Hc Her) as (S1 & S2 & S3 & S4); [congruence|].
  rewrite Eroom in S1, S2, S3, S4. set (k := ThenLevel _) in *. set (wl := upd_rooms _ w) in *.
  set (wj := on_client l (set_c_roomId _) _) in *. set (w1 := on_client l (set_c_level _) wj) in *.
  pose proof (rm_reenter (w_rooms w) l (c_ID c) (fr_ToRoomId fr) p Hne Hp Hm) as Hold.
  pose proof (rm_clientIn_lookup (w_rooms w) l (c_ID c) (fr_ToRoomId fr) (fr_ToRoomId fr) (c_ID c) Hwf Hne) as Hnew.
  rewrite decide_True in Hnew by done. unfold rm_clientIn in Hold, Hnew. rewrite bool_decide_false in Hold, Hnew by done.
  change (rm_maps (w_rooms w1) !! p = Some ∅) in Hold.
  change (rm_lookup (w_rooms w1) (fr_ToRoomId fr) (c_ID c) = Some l) in Hnew.
  assert (forall c1 c2 pc, life_own config c1 c2 -> w_clientM (lf_world c2) = w_clientM (lf_world c1) ->
    race_step config (mkRace c1 pc log) (mkRace c2 pc log)) as Hlife by (intros; by apply race_section).
  pose proof (fun w pc H => race_subscription config range w H E pc log Hr) as Hsub. cbn zeta in Hsub.
  set (m0 := (new_message (convert fr) w1).1). set (w2 := (new_message (convert fr) w1).2).
  exists w1, w2. split_and!; [|exact Hnew|].
  - eapply rtc_l; [split; [pose proof (Hsub w (DAudience fr) H) as S0; cbn [d_next] in S0;
      rewrite !bool_decide_false, Hp in S0 by done; exact S0|by split; [|left]]|].
    eapply rtc_l; [split; [apply Hlife; [exact S1|done]|by split; [|left]]|].
    eapply rtc_l; [split; [apply Hlife; [exact S2|done]|split; [done|right; exists k; apply lookup_insert_eq]]|].
    eapply rtc_l; [split; [apply Hlife; [exact S3|done]|split; [done|left; exact Hnew]]|].
    apply rtc_once. split; [apply Hlife; [exact S4|done]|split; [done|left; exact Hnew]].
  - eapply rtc_l; [split; [pose proof (Hsub w1 (DRoom fr p) (delete (c_msc c) H)) as S5; cbn [d_next] in S5;
      rewrite Hold in S5; cbn in S5|]|].
    all: assert (range (∅ : gmap string loc) = []) as Erange by (apply Permutation_nil_r; by rewrite (Hr ∅)).
    + rewrite Erange in S5. exact S5.
    + by split.
    + apply rtc_once. split; [exact (Hsub w2 (DIds [] m0 None) (delete (c_msc c) H))|by split].
Qed.

(** * Witnesses *)

Section Examples.
#[local] Existing Instances test_bdmsg test_bdmsg_laws test_net test_zlib toy_rsa test_proto.

(** Ann, the only member of room r1, is about to enter it again. *)
Definition entering_r1 : gmap loc hpc := {[1%positive := HEnter enter_payload]}.

Lemma life_s3 : life_reaches open_config (test_env ∅) (mkLife w_s3 ∅ ∅).
Proof. apply life_of_steps, w_s3_reachable. Qed.

Lemma life_entering_r1 : life_reaches open_config (test_env ∅) (mkLife w_s3 entering_r1 ∅).
Proof.
  eapply rtc_r; [apply life_s3|].
  eapply (life_call open_config w_s3 ∅ ∅ 1%positive [] 0 0 MsgTypeEnterRoom enter_payload); [apply lookup_empty| |reflexivity].
  eexists. vm_compute. reflexivity.
Qed.

(** The subscription alone, as a run of the race. *)
Lemma own_race config (P : World -> Prop) range s s' H E :
  (forall m, iterates m (range m)) -> (forall w w', w_clientM w' = w_clientM w -> w_rooms w' = w_rooms w -> P w -> P w') ->
  P (d_world s) -> own_steps range s s' ->
  race_run config (fun s => P (rc_world s)) (mkRace (mkLife (d_world s) H E) (d_pc s) (d_log s))
    (mkRace (mkLife (d_world s') H E) (d_pc s') (d_log s')).
Proof.
  intros Hr Htab H0 Hs. revert H0. induction Hs as [s|s s1 s2 -> _ IH]; intros H0; [apply rtc_refl|].
  destruct (d_next_tables range s) as [E1 E2]. assert (P (d_world (d_next range s))) as H1 by (by eapply Htab).
  eapply rtc_l; [|by apply IH]. destruct s as [pc w log]. split; [by apply race_subscription|exact H1].
Qed.

End Examples.

(** While Ann's handler waits, she gets what is for her room. *)
Lemma locked_delivery_witness :
  exists s, @race_run test_bdmsg test_net toy_rsa test_zlib open_config
      (fun s => stable r1_fr "ann" 1%positive true (Some 1%positive) (rc_world s))
      (race_receive r1_payload w_s3 entering_r1 ∅ []) s /\
    rc_pc s = DReceive /\ length (pushes 1%positive (rc_log s)) = 1%nat.
Proof.
  destruct ann_in_r1 as (Hc & Hreg & Hroom & Hmap & Hlook).
  assert (stable r1_fr "ann" 1%positive true (Some 1%positive) w_s3) as Hst.
  { split; [split; [intros _; reflexivity|intros _; exact Hreg]|]. split; [exact Hroom|].
    intros E. pose proof (eq_trans (eq_sym Hlook) E) as F. inversion F. }
  destruct (@own_receive test_bdmsg test_net map_range r1_payload w_s3 []) as [log' Hown].
  assert (@race_run test_bdmsg test_net toy_rsa test_zlib open_config
      (fun s => stable r1_fr "ann" 1%positive true (Some 1%positive) (rc_world s))
      (race_receive r1_payload w_s3 entering_r1 ∅ [])
      (mkRace (mkLife (handleSubscription map_range r1_payload w_s3) entering_r1 ∅) DReceive log')) as Hrun.
  { refine (own_race open_config (stable r1_fr "ann" 1%positive true (Some 1%positive)) map_range _ _ entering_r1 ∅
      map_range_iterates _ _ Hown).
    - intros w w' E1 E2. unfold stable. rewrite E1, E2. exact (fun H => H).
    - assert ((d_receive r1_payload w_s3).2 = w_s3) as E by (vm_compute; reflexivity). cbn [d_world]. rewrite E. exact Hst. }
  eexists. split; [exact Hrun|]. split; [reflexivity|].
  pose proof (@locked_delivery test_bdmsg test_bdmsg_laws test_net toy_rsa test_zlib test_proto open_config (test_env ∅) r1_payload w_s3
    entering_r1 ∅ [] 1%positive ann_client true (Some 1%positive)
    (mkRace (mkLife (handleSubscription map_range r1_payload w_s3) entering_r1 ∅) DReceive log') life_entering_r1 Hc) as H.
  cbn zeta in H. rewrite r1_payload_fr in H.
  destruct (H Hst Hrun) as (pushed & Hlog & _ & Hlen & _). cbn [rc_log] in *. rewrite Hlog.
  exact (Hlen eq_refl).
Defined.

(** Ann enters her room again at the wrong moment. *)
Lemma delivery_race_witness :
  exists w1 w2, rm_lookup (w_rooms w1) "r1" "ann" = Some 1%positive /\
    @race_run test_bdmsg test_net toy_rsa test_zlib open_config
      (fun s => w_clientM (rc_world s) !! "ann" = Some 1%positive /\ rm_lookup (w_rooms (rc_world s)) "r1" "ann" = Some 1%positive)
      (mkRace (mkLife w1 ∅ ∅) (DRoom r1_fr 1%positive) []) (mkRace (mkLife w2 ∅ ∅) DReceive []).
Proof.
  destruct ann_in_r1 as (Hc & Hreg & Hroom & Hmap & Hlook).
  pose proof (@delivery_race test_bdmsg test_bdmsg_laws test_net toy_rsa test_zlib test_proto open_config (test_env ∅) map_range r1_payload
    w_s3 entering_r1 ∅ [] 1%positive ann_client 1%positive enter_payload (Build_EnterRoom "r1" "" 0)) as H.
  cbn zeta in H. rewrite r1_payload_fr in H.
  destruct (H map_range_iterates life_entering_r1 Hc Hreg) as (w1 & w2 & _ & H1 & H2);
    [vm_compute; reflexivity|reflexivity|vm_compute; reflexivity|reflexivity|reflexivity|discriminate|discriminate|exact Hroom|exact Hmap|].
  exists w1, w2. split; [exact H1|exact H2].
Defined.
