(* ===== verification/Purge.v ===== *)
(** The purge of the output queues (connectsvc/subscribe.go, [subscriber.purge]),
whose call in the timer loop is commented out: when more than 10000 messages
are queued, messages are dropped from the fronts of queues chosen by a heap. *)

From S2P Require Import Prelude Protocol Room ToCompute Rpc State Client Stat.
Local Open Scope Z_scope.

(** * Package binaryheap

A heap made with a comparator: [Push], and [Pop], which takes a minimal element
out. Of the order the code relies on nothing but that. *)
Class BinaryHeap := {
  Heap : Type;
  NewWith : Heap;
  heap_Push : (loc -> loc -> Z) -> loc -> Heap -> Heap;
  heap_Pop : (loc -> loc -> Z) -> Heap -> option (loc * Heap);
  heap_Values : Heap -> list loc;
}.
Class BinaryHeapLaws `{BinaryHeap} : Prop := {
  new_values : heap_Values NewWith = [];
  push_values cmp x h : heap_Values (heap_Push cmp x h) ≡ₚ x :: heap_Values h;
  pop_values cmp h x h' : heap_Pop cmp h = Some (x, h') -> heap_Values h ≡ₚ x :: heap_Values h';
  pop_none cmp h : heap_Pop cmp h = None -> heap_Values h = [];
}.

Section Purge.
Context `{BDMsg, Net, BinaryHeap}.

(** * Operations *)

(** The importance of the message in front of a client's queue. The heap holds
clients with messages only, so the nil message the code would dereference
otherwise does not come up; its importance counts as zero here. *)
Definition front_importance (w : World) (c : Client) : Z :=
  match head (c_queue c) with
  | Some m => match w_msgs w !! m with Some msg => tc_Importance msg | None => 0 end
  | None => 0
  end.

Definition topComparator (w : World) (a b : loc) : Z :=
  match w_clients w !! a, w_clients w !! b with
  | Some c1, Some c2 =>
      let importanceDiff := to_int64 (- (to_int64 (front_importance w c1 - front_importance w c2))) in
      if negb (importanceDiff =? 0) then importanceDiff else to_int64 (c_level c1 - c_level c2)
  | _, _ => 0
  end.

Definition has_messages (w : World) (l : loc) : bool :=
  match w_clients w !! l with Some c => 0 <? len (c_queue c) | None => false end.

(** The loop that fills the heap. *)
Definition fill_heap (order : list string) (w : World) : Heap :=
  foldl (fun h id => match cm_Client id w with
                     | Some client => if has_messages w client
                                      then heap_Push (topComparator w) client h else h
                     | None => h
                     end) NewWith order.

(** The loop that drops, [n] times unless the heap runs empty. *)
Fixpoint purge_loop (n : nat) (h : Heap) (w : World) : World :=
  match n with
  | O => w
  | S n' =>
      match heap_Pop (topComparator w) h with
      | None => w
      | Some (client, h) =>
          let w := on_client client (set_c_queue tail) w in
          let h := if has_messages w client then heap_Push (topComparator w) client h else h in
          purge_loop n' h w
      end
  end.

(** [subscriber.purge]; the map is walked in the order [order1] to count and in
the order [order2] to fill the heap. *)
Definition purge (order1 order2 : list string) (w : World) : World :=
  let outQueue := stat order1 w in
  if 10000 <? outQueue then purge_loop (Z.to_nat (outQueue - 10000)) (fill_heap order2 w) w else w.

End Purge.

(** * Lemmas *)

Section Lemmas.
Context `{HB : BDMsg, HN : Net, HH : BinaryHeap, HHL : !BinaryHeapLaws}.

Definition qlen (w : World) (l : loc) : nat :=
  match w_clients w !! l with Some c => length (c_queue c) | None => 0 end.

Definition total_of (w : World) (ls : list loc) : nat := sum_list_with (qlen w) ls.

Lemma has_messages_qlen w l : has_messages w l = true <-> (0 < qlen w l)%nat.
Proof. unfold has_messages, qlen, len. destruct (w_clients w !! l); [lia|]. split; [done|lia]. Qed.

Lemma total_perm w ls ls' : ls ≡ₚ ls' -> total_of w ls = total_of w ls'.
Proof. intros E. unfold total_of. by rewrite E. Qed.

Lemma qlen_pop w l l' :
  qlen (on_client l (set_c_queue tail) w) l' = if decide (l' = l) then pred (qlen w l) else qlen w l'.
Proof.
  unfold qlen. cbn. rewrite lookup_alter. case_decide as E.
  - subst. rewrite decide_True by done. destruct (w_clients w !! l'); [|done]. cbn. rewrite length_tl. lia.
  - by rewrite decide_False by congruence.
Qed.

Lemma total_zero w ls : (forall l, l ∈ ls -> qlen w l = 0%nat) -> total_of w ls = 0%nat.
Proof.
  intros Hz. unfold total_of. induction ls as [|x ls IH]; [done|]. cbn. rewrite (Hz x), IH; set_solver.
Qed.

Lemma total_pop_notin w l ls :
  l ∉ ls -> total_of (on_client l (set_c_queue tail) w) ls = total_of w ls.
Proof.
  intros Hl. unfold total_of. induction ls as [|x ls IH]; [done|]. cbn.
  rewrite IH by set_solver. rewrite qlen_pop, decide_False by set_solver. done.
Qed.

Lemma total_pop w l ls :
  NoDup ls -> l ∈ ls -> (0 < qlen w l)%nat ->
  S (total_of (on_client l (set_c_queue tail) w) ls) = total_of w ls.
Proof.
  intros Hnd Hl Hq. apply elem_of_Permutation in Hl as [ls' E]. rewrite E in Hnd.
  apply NoDup_cons in Hnd as [Hnot _]. rewrite !(total_perm _ _ _ E).
  unfold total_of. cbn. fold (total_of (on_client l (set_c_queue tail) w) ls'). fold (total_of w ls').
  rewrite total_pop_notin by done. rewrite qlen_pop, decide_True by done. lia.
Qed.

(** The heap holds the clients of [ls] that have messages. *)
Definition heap_of (w : World) (ls : list loc) (h : Heap) : Prop :=
  NoDup (heap_Values h) /\ forall l, l ∈ heap_Values h <-> l ∈ ls /\ (0 < qlen w l)%nat.

(** A world with some messages dropped from fronts of queues of [ls]. *)
Definition dropped (ls : list loc) (w w' : World) : Prop :=
  (exists cs, w' = upd_clients (fun _ => cs) w) /\
  (forall l c, w_clients w !! l = Some c ->
     exists k, w_clients w' !! l = Some (set_c_queue (drop k) c) /\ (l ∉ ls -> k = 0%nat)).

Lemma dropped_refl ls w : dropped ls w w.
Proof.
  split; [exists (w_clients w); by destruct w|]. intros l c Hc. exists 0%nat. split; [|done].
  rewrite Hc. unfold set_c_queue. rewrite drop_0. by destruct c.
Qed.

Lemma dropped_pop ls w l w' :
  l ∈ ls -> dropped ls (on_client l (set_c_queue tail) w) w' -> dropped ls w w'.
Proof.
  intros Hl [[cs ->] Hd]. split; [by exists cs|]. intros l' c Hc. cbn in Hd. destruct (decide (l' = l)) as [->|Hne].
  - destruct (Hd l (set_c_queue tail c)) as (k & Hk & _); [by rewrite lookup_alter_eq, Hc|].
    exists (S k). split; [|done]. cbn. rewrite Hk. unfold set_c_queue. cbn. do 2 f_equal.
    destruct (c_queue c); [by destruct k|done].
  - destruct (Hd l' c) as (k & Hk & ?); [by rewrite lookup_alter_ne by done|]. by exists k.
Qed.

Lemma purge_loop_spec n ls h w :
  NoDup ls -> heap_of w ls h ->
  let w' := purge_loop n h w in
  total_of w' ls = (total_of w ls - n)%nat /\ dropped ls w w'.
Proof.
  intros Hnd. revert h w. induction n as [|n IH]; intros h w [Hh Hin]; cbn zeta; cbn [purge_loop].
  { split; [lia|apply dropped_refl]. }
  destruct (heap_Pop (topComparator w) h) as [[l h1]|] eqn:Hpop.
  - apply pop_values in Hpop. assert (l ∈ ls /\ (0 < qlen w l)%nat) as [Hl Hq].
    { apply Hin. rewrite Hpop. set_solver. }
    set (w1 := on_client l (set_c_queue tail) w).
    rewrite Hpop in Hh. apply NoDup_cons in Hh as [Hnot Hh1].
    set (h2 := if has_messages w1 l then heap_Push (topComparator w1) l h1 else h1).
    assert (heap_of w1 ls h2) as Hheap.
    { assert (forall x, x ∈ heap_Values h1 <-> x <> l /\ x ∈ ls /\ (0 < qlen w x)%nat) as Hin1.
      { intros x. specialize (Hin x). rewrite Hpop, elem_of_cons in Hin. split.
        - intros Hx. split; [by intros ->|]. tauto.
        - intros [Hne Hx]. apply Hin in Hx. tauto. }
      unfold h2. destruct (has_messages w1 l) eqn:Hm.
      - split; [rewrite push_values; by constructor|]. intros x.
        rewrite push_values, elem_of_cons, Hin1. unfold w1 in *. rewrite has_messages_qlen in Hm.
        rewrite qlen_pop in *. destruct (decide (x = l)) as [->|]; [|tauto].
        rewrite decide_True in Hm by done. tauto.
      - split; [done|]. intros x. rewrite Hin1. unfold w1 in *. rewrite qlen_pop.
        assert (~ (0 < qlen (on_client l (set_c_queue tail) w) l)%nat) as Hz
          by (rewrite <-has_messages_qlen, Hm; done).
        rewrite qlen_pop, decide_True in Hz by done.
        destruct (decide (x = l)) as [->|]; [|tauto]. split; [tauto|]. intros [_ ?]. lia. }
    destruct (IH h2 w1 Hheap) as [Ht Hd]. rewrite Ht.
    split; [|by apply (dropped_pop ls w l)].
    pose proof (total_pop w l ls Hnd Hl Hq) as Hp. fold w1 in Hp. lia.
  - apply pop_none in Hpop. split; [|apply dropped_refl].
    rewrite total_zero; [lia|]. intros l Hl. destruct (decide (0 < qlen w l)%nat) as [Hq|]; [|lia].
    assert (l ∈ heap_Values h) as Hx by (by apply Hin). rewrite Hpop in Hx. set_solver.
Qed.

(** The registered clients, in the order of the walk. *)
Definition registered (order : list string) (w : World) : list loc :=
  omap (fun id => cm_Client id w) order.

Lemma registered_NoDup `{HZ : Zlib} order w : world_ok w -> NoDup order -> NoDup (registered order w).
Proof.
  intros Hw. unfold registered. induction 1 as [|id order Hid Hnd IH]; cbn; [constructor|].
  destruct (cm_Client id w) as [l|] eqn:Hl; [|done]. constructor; [|done].
  intros (id' & Hid' & Hl')%list_elem_of_omap.
  destruct (wok_clientM w Hw id l Hl) as [(c & Hc & <-) _].
  destruct (wok_clientM w Hw id' l Hl') as [(c' & Hc' & <-) _]. by simplify_eq.
Qed.

Lemma fill_heap_spec order w :
  NoDup (registered order w) -> heap_of w (registered order w) (fill_heap order w).
Proof.
  assert (forall ids h, NoDup (heap_Values h ++ registered ids w) ->
    let h' := foldl (fun h id => match cm_Client id w with
                     | Some client => if has_messages w client
                                      then heap_Push (topComparator w) client h else h
                     | None => h
                     end) h ids in
    NoDup (heap_Values h') /\
    forall l, l ∈ heap_Values h' <-> l ∈ heap_Values h \/ l ∈ registered ids w /\ (0 < qlen w l)%nat) as Hgen.
  { induction ids as [|id ids IH]; intros h Hnd; cbn zeta; cbn [foldl].
    { cbn in Hnd. rewrite app_nil_r in Hnd. split; [done|]. cbn. set_solver. }
    unfold registered in Hnd |- *. cbn [omap list_omap] in Hnd |- *. fold (registered ids w) in Hnd |- *.
    destruct (cm_Client id w) as [l0|]; [|by apply IH].
    destruct (has_messages w l0) eqn:Hm.
    - apply has_messages_qlen in Hm. destruct (IH (heap_Push (topComparator w) l0 h)) as [H1 H2].
      { rewrite push_values. cbn [app]. by rewrite Permutation_middle. }
      split; [done|]. intros l. rewrite H2, push_values, !elem_of_cons. naive_solver.
    - assert (~ (0 < qlen w l0)%nat) as Hz by (rewrite <-has_messages_qlen, Hm; done).
      destruct (IH h) as [H1 H2].
      { apply NoDup_app in Hnd as (Ha & Hb & Hc). apply NoDup_cons in Hc as [_ Hc].
        apply NoDup_app. split_and!; [done| |done]. intros x Hx Hx'. apply (Hb x Hx). by right. }
      split; [done|]. intros l. rewrite H2, elem_of_cons. naive_solver. }
  intros Hnd. unfold fill_heap. destruct (Hgen order NewWith) as [H1 H2].
  { by rewrite new_values. }
  split; [done|]. intros l. rewrite H2, new_values. set_solver.
Qed.

Lemma sum_queue_len order w :
  sum_of (map (queue_len w) order) = Z.of_nat (total_of w (registered order w)).
Proof.
  unfold registered, total_of. induction order as [|id order IH]; [done|]. cbn [map sum_of omap list_omap].
  rewrite IH. unfold queue_len. destruct (cm_Client id w) as [l|]; [|lia]. cbn [sum_list_with].
  unfold qlen at 2. destruct (w_clients w !! l); unfold len; lia.
Qed.

End Lemmas.

(** * Properties *)

(** The purge. As long as the queued messages can be counted in 32 bits, at most 10000
are left, none is dropped without need, and those dropped come off the fronts
of the queues of registered clients; nothing else changes. Which queues lose
messages is up to the heap. *)
Theorem purge_bound `{HB : BDMsg, HN : Net, HZ : Zlib, HH : BinaryHeap, HHL : !BinaryHeapLaws} order1 order2 w :
  world_ok w -> iterates (w_clientM w) order1 -> iterates (w_clientM w) order2 ->
  let total w := sum_of (map (queue_len w) order2) in
  total w < 2 ^ 31 ->
  let w' := purge order1 order2 w in
  total w' = Z.min (total w) 10000 /\
  (exists cs, w' = upd_clients (fun _ => cs) w) /\
  forall l c, w_clients w !! l = Some c ->
    exists k, w_clients w' !! l = Some (set_c_queue (drop k) c) /\
      (w_clientM w !! c_ID c <> Some l -> k = 0%nat).
Proof.
  intros Hw Ho1 Ho2 total Hsmall. cbn zeta. unfold total in *.
  assert (NoDup (registered order2 w)) as Hnd by (eapply registered_NoDup; [done|by eapply iterates_NoDup]).
  assert (stat order1 w = sum_of (map (queue_len w) order2)) as Hstat.
  { unfold stat. rewrite stat_fold by lia. rewrite (sum_perm _ (map (queue_len w) order2)).
    - apply wrap_s_id; [lia|]. rewrite sum_queue_len in *. lia.
    - unfold iterates in *. by rewrite Ho1, Ho2. }
  assert (forall w', dropped (registered order2 w) w w' ->
    sum_of (map (queue_len w') order2) = Z.of_nat (total_of w' (registered order2 w)) /\
    (exists cs, w' = upd_clients (fun _ => cs) w) /\
    forall l c, w_clients w !! l = Some c -> exists k, w_clients w' !! l = Some (set_c_queue (drop k) c) /\
      (w_clientM w !! c_ID c <> Some l -> k = 0%nat)) as Hfin.
  { intros w' [[cs ->] Hd]. split; [apply (sum_queue_len order2 (upd_clients (fun _ => cs) w))|].
    split; [eauto|]. intros l c Hc. destruct (Hd l c Hc) as (k & Hk & Hz). exists k. split; [done|].
    intros Hn. apply Hz. intros (id & Hid & Hl)%list_elem_of_omap.
    destruct (wok_clientM w Hw id l Hl) as [(c' & Hc' & <-) _]. simplify_eq. }
  unfold purge. rewrite Hstat. rewrite (sum_queue_len order2 w) in *. set (n := total_of w (registered order2 w)) in *.
  destruct (10000 <? Z.of_nat n) eqn:Hbig.
  - destruct (purge_loop_spec (Z.to_nat (Z.of_nat n - 10000)) (registered order2 w) (fill_heap order2 w) w Hnd)
      as [Ht Hd]; [by apply fill_heap_spec|].
    destruct (Hfin _ Hd) as (-> & H2 & H3). split; [|done]. rewrite Ht. fold n. lia.
  - destruct (Hfin w (dropped_refl _ w)) as (_ & H2 & H3). split; [|done].
    rewrite ?(sum_queue_len order2 w). fold n. lia.
Qed.

(** * Witnesses *)

(** A heap kept as a sorted list. *)
Fixpoint sorted_insert (cmp : loc -> loc -> Z) (x : loc) (l : list loc) : list loc :=
  match l with
  | [] => [x]
  | y :: l' => if cmp x y <=? 0 then x :: l else y :: sorted_insert cmp x l'
  end.
Definition list_heap : BinaryHeap := {|
  Heap := list loc;
  NewWith := [];
  heap_Push := sorted_insert;
  heap_Pop := fun _ h => match h with [] => None | x :: h => Some (x, h) end;
  heap_Values := fun h => h;
|}.
Lemma list_heap_laws : @BinaryHeapLaws list_heap.
Proof.
  constructor; cbn; [done| |by intros ? [|y l] x h' [= <- <-]|by intros ? [|y l]].
  intros cmp x h. induction h as [|y h IH]; cbn; [done|]. destruct (cmp x y <=? 0); [done|].
  rewrite IH. by apply perm_swap.
Qed.

(** A client with one message too many. *)
Definition w_full : @World test_bdmsg test_net :=
  on_client 2%positive (set_c_queue (fun q => q ++ replicate 10001 1%positive))
    (upd_msgs <[1%positive := sample_message]> w_ann2).

Lemma w_full_ok : @world_ok test_bdmsg test_net test_zlib w_full.
Proof.
  apply world_ok_on_client; [|by apply world_ok_msgs, w_ann2_ok].
  intros c. cbn [set_c_queue c_ID c_msc c_q c_queue]. split_and!; try done.
  intros m [?|[-> _]%elem_of_replicate]%elem_of_app; [by left|]. right. by eexists.
Qed.

Lemma purge_bound_witness :
  sum_of (map (queue_len (@purge test_bdmsg test_net list_heap ["ann"] ["ann"] w_full)) ["ann"]) = 10000.
Proof.
  destruct (@purge_bound test_bdmsg test_net test_zlib list_heap list_heap_laws ["ann"] ["ann"] w_full)
    as (H & _).
  - apply w_full_ok.
  - exact (Permutation_refl ["ann"]).
  - exact (Permutation_refl ["ann"]).
  - vm_compute. reflexivity.
  - rewrite H. vm_compute. reflexivity.
Defined.
