(* ===== verification/Naming.v ===== *)
(** The address under which the server registers itself (connectsvc/naming.go):
several services on the internet are asked for the server's address, and the
answer given most often wins. *)

From S2P Require Import Prelude GoText Json Config.
Local Open Scope Z_scope.

(** http.Get with ioutil.ReadAll: the body that could be read, or the error of
the request. *)
Class Http := { http_Get : string -> bytes + error }.

(** * The regular expression

[(\d{1,3}\.){3}\d{1,3}]. A digit is no dot, so the only way to match a group
is to take the whole run of digits before the dot. *)
Definition match_group (s : string) : option (string * string) :=
  let '(d, r) := span_digits s in
  if (1 <=? str_len d) && (str_len d <=? 3) then
    match r with
    | String c r' => if char_is 46 c then Some (String.append d (String c ""), r') else None
    | EmptyString => None
    end
  else None.

(** The match that starts at the beginning of the text; the last run is taken
as long as possible. *)
Definition match_here (s : string) : option string :=
  '(a, s) ← match_group s; '(b, s) ← match_group s; '(c, s) ← match_group s;
  let '(d, _) := span_digits s in
  if 1 <=? str_len d then Some (String.append a (String.append b (String.append c (str_take 3 d)))) else None.

(** [re.FindString]: the leftmost match, the empty string if there is none. *)
Fixpoint FindString (s : string) : string :=
  match match_here s with
  | Some ip => ip
  | None => match s with String _ s' => FindString s' | EmptyString => "" end
  end.

(** * Operations *)

Section Naming.
Context `{Http}.

(** [extractIp]: a body without an address gives the empty string, not an error. *)
Definition extractIp (url : string) : string * option error :=
  match http_Get url with
  | inr err => ("", Some err)
  | inl body => (FindString (string_of_bytes body), None)
  end.

(** The first loop of [resolveIp]. *)
Definition vote (dns : list string) : gmap string Z :=
  fold_left (fun ipVotes dns =>
    match extractIp dns with
    | (ip, None) =>
        let '(count, ipVotes) := match ipVotes !! ip with
                                 | Some count => (count, ipVotes)
                                 | None => (0, <[ip := 0]> ipVotes)
                                 end in
        <[ip := count + 1]> ipVotes
    | (_, Some _) => ipVotes
    end) dns ∅.

(** The second loop, over the map in the given order. *)
Definition top (ipVotes : gmap string Z) (order : list string) : Z * string :=
  fold_left (fun '(topVote, topIp) ip =>
    let vote := default 0 (ipVotes !! ip) in
    if topVote <? vote then (vote, ip) else (topVote, topIp)) order (0, "").

(** [resolveIp], which walks its map in the order [range] gives. *)
Definition resolveIp (range : gmap string Z -> list string) (config : ConfigT) : outcome string :=
  let ipVotes := vote (cf_IpResolver config) in
  let '(topVote, topIp) := top ipVotes (range ipVotes) in
  if bool_decide (topIp = "") then Panic (PText "no available dns") else Ret topIp.

Definition getPort (config : ConfigT) : Z :=
  ta_Port (bs_ListenAddr (cs_BDMsgSvcConfT (ss_Connect (cf_ServiceS config)))).

Definition resolveInternetAddress (range : gmap string Z -> list string) (config : ConfigT)
    : outcome string :=
  match resolveIp range config with
  | Ret ip => Ret (String.append ip (String.append ":" (format_int (getPort config))))
  | Panic p => Panic p
  | Stuck => Stuck
  end.

(** [getInternetAddress]: the value and [cachedInternetAddress] after the call. *)
Definition getInternetAddress (range : gmap string Z -> list string) (config : ConfigT)
    : M string string := fun cachedInternetAddress =>
  if bool_decide (cachedInternetAddress = "") then
    match resolveInternetAddress range config with
    | Ret a => (Ret a, a)
    | Panic p => (Panic p, cachedInternetAddress)
    | Stuck => (Stuck, cachedInternetAddress)
    end
  else (Ret cachedInternetAddress, cachedInternetAddress).

End Naming.

(** * Specification *)

Definition octet (d : string) : Prop := str_all is_digit d = true /\ 1 <= str_len d <= 3.
Definition quad (q : string) : Prop :=
  exists a b c d, octet a /\ octet b /\ octet c /\ octet d /\
    q = String.append a (String "." (String.append b (String "." (String.append c (String "." d))))).

(** How many of the services answered with [ip]. *)
Definition votes_for `{Http} (dns : list string) (ip : string) : Z :=
  len (filter (fun url => extractIp url = (ip, None)) dns).

(** * Lemmas *)

Lemma span_digits_spec s d r :
  span_digits s = (d, r) -> s = String.append d r /\ str_all is_digit d = true /\
  match r with String c _ => is_digit c = false | EmptyString => True end.
Proof.
  revert d r. induction s as [|c s IH]; intros d r; cbn; [by intros [= <- <-]|].
  destruct (is_digit c) eqn:Hc; [|by intros [= <- <-]].
  destruct (span_digits s) as [d' r'] eqn:E. intros [= <- <-].
  destruct (IH d' r' eq_refl) as (-> & Hd & Hr). cbn. by rewrite Hc, Hd.
Qed.

Lemma span_digits_here d r :
  str_all is_digit d = true -> match r with String c _ => is_digit c = false | EmptyString => True end ->
  span_digits (String.append d r) = (d, r).
Proof.
  intros Hd Hr. induction d as [|c d IH]; cbn in *.
  - destruct r as [|c r]; cbn; [done|]. by rewrite Hr.
  - apply andb_true_iff in Hd as [Hc Hd]. by rewrite Hc, IH.
Qed.

Lemma char_is_dot c : char_is 46 c = true -> c = "."%char.
Proof. intros H%char_is_eq. by subst. Qed.

Lemma match_group_sound s g r :
  match_group s = Some (g, r) -> exists d, octet d /\ g = String.append d "." /\ s = String.append g r.
Proof.
  unfold match_group. destruct (span_digits s) as [d rest] eqn:E.
  destruct (span_digits_spec s d rest E) as (-> & Hd & _).
  destruct ((1 <=? str_len d) && (str_len d <=? 3)) eqn:Hl; [|done].
  destruct rest as [|c r']; [done|]. destruct (char_is 46 c) eqn:Hc; [|done]. intros [= <- <-].
  apply char_is_dot in Hc as ->. exists d. split; [split; [done|lia]|]. split; [done|].
  by rewrite str_app_assoc.
Qed.

Lemma match_group_complete d r :
  octet d -> match_group (String.append d (String "." r)) = Some (String.append d ".", r).
Proof.
  intros [Hd Hl]. unfold match_group. rewrite span_digits_here by done.
  replace ((1 <=? str_len d) && (str_len d <=? 3)) with true by lia. done.
Qed.

Lemma str_all_take p n s : str_all p s = true -> str_all p (str_take n s) = true.
Proof.
  revert n. induction s as [|c s IH]; intros [|n]; cbn; try done.
  intros [-> Hs]%andb_true_iff. by apply IH.
Qed.

Lemma str_take_length n s : String.length (str_take n s) = Nat.min n (String.length s).
Proof. revert n. induction s as [|c s IH]; intros [|n]; cbn; try done. by rewrite IH. Qed.

Lemma match_here_sound s ip :
  match_here s = Some ip -> quad ip /\ exists post, s = String.append ip post.
Proof.
  unfold match_here. intros H. apply bind_Some in H as ([a s1] & Ha & H).
  apply bind_Some in H as ([b s2] & Hb & H). apply bind_Some in H as ([c s3] & Hc & H).
  destruct (match_group_sound s a s1 Ha) as (da & Hda & -> & ->).
  destruct (match_group_sound s1 b s2 Hb) as (db & Hdb & -> & ->).
  destruct (match_group_sound s2 c s3 Hc) as (dc & Hdc & -> & ->).
  destruct (span_digits s3) as [d r] eqn:E. destruct (span_digits_spec s3 d r E) as (-> & Hd & _).
  destruct (1 <=? str_len d) eqn:Hl; [|done]. injection H as <-. split.
  - exists da, db, dc, (str_take 3 d). split_and!; [done..| |by rewrite !str_app_assoc].
    split; [by apply str_all_take|]. unfold str_len in *. rewrite str_take_length. lia.
  - exists (String.append (str_drop 3 d) r).
    rewrite !str_app_assoc. rewrite <-(str_app_assoc (str_take 3 d)). by rewrite str_take_drop.
Qed.

Lemma match_here_complete q post : quad q -> exists ip, match_here (String.append q post) = Some ip.
Proof.
  intros (a & b & c & d & Ha & Hb & Hc & Hd & ->). unfold match_here.
  rewrite !str_app_assoc. cbn [String.append]. rewrite match_group_complete by done. cbn.
  rewrite !str_app_assoc. cbn [String.append]. rewrite match_group_complete by done. cbn.
  rewrite !str_app_assoc. cbn [String.append]. rewrite match_group_complete by done. cbn.
  destruct (span_digits (String.append d post)) as [d' r] eqn:E.
  destruct Hd as [Hd Hl]. destruct d as [|x d]; [cbn in Hl; unfold str_len in Hl; cbn in Hl; lia|].
  cbn in E, Hd. apply andb_true_iff in Hd as [Hx _]. rewrite Hx in E.
  destruct (span_digits (String.append d post)) as [d2 r2]. injection E as <- <-.
  replace (1 <=? str_len (String x d2)) with true by (unfold str_len; cbn; lia). eauto.
Qed.

Lemma quad_nonempty q : quad q -> q <> "".
Proof. intros (a & b & c & d & [_ Ha] & _ & _ & _ & ->). destruct a; [unfold str_len in Ha; cbn in Ha; lia|done]. Qed.

Lemma FindString_quad s : FindString s <> "" -> quad (FindString s).
Proof.
  induction s as [|c s IH]; [done|]. cbn [FindString].
  destruct (match_here (String c s)) as [ip|] eqn:E; [|done].
  intros _. by destruct (match_here_sound _ _ E).
Qed.

Section Votes.
Context `{Http}.

Definition add_vote (ipVotes : gmap string Z) (url : string) : gmap string Z :=
  match extractIp url with
  | (ip, None) => <[ip := default 0 (ipVotes !! ip) + 1]> ipVotes
  | (_, Some _) => ipVotes
  end.

Lemma vote_add dns : vote dns = fold_left add_vote dns ∅.
Proof.
  unfold vote. generalize (∅ : gmap string Z). induction dns as [|url dns IH]; intros m; [done|].
  cbn [fold_left]. rewrite IH. f_equal. unfold add_vote. destruct (extractIp url) as [ip [e|]]; [done|].
  destruct (m !! ip) as [n|]; cbn; [done|]. by rewrite insert_insert_eq.
Qed.

Lemma votes_for_cons url dns ip :
  votes_for (url :: dns) ip = (if decide (extractIp url = (ip, None)) then 1 else 0) + votes_for dns ip.
Proof.
  unfold votes_for. destruct (decide (extractIp url = (ip, None))) as [E|E].
  - rewrite filter_cons_True by done. by rewrite len_cons.
  - by rewrite filter_cons_False.
Qed.

Lemma add_vote_spec dns m ip :
  (forall ip n, m !! ip = Some n -> 0 < n) ->
  default 0 (fold_left add_vote dns m !! ip) = default 0 (m !! ip) + votes_for dns ip /\
  (forall ip n, fold_left add_vote dns m !! ip = Some n -> 0 < n).
Proof.
  revert m. induction dns as [|url dns IH]; intros m Hm.
  { split; [|done]. replace (votes_for [] ip) with 0 by done. cbn [fold_left]. by rewrite Z.add_0_r. }
  cbn [fold_left].
  assert (forall ip n, add_vote m url !! ip = Some n -> 0 < n) as Hm'.
  { intros ip' n. unfold add_vote. destruct (extractIp url) as [ip0 [e|]]; [apply Hm|].
    rewrite lookup_insert. case_decide; [|apply Hm]. intros [= <-].
    destruct (m !! ip0) as [k|] eqn:Hk; cbn; [|lia]. specialize (Hm _ _ Hk). lia. }
  destruct (IH _ Hm') as [-> Hpos]. split; [|done]. rewrite votes_for_cons.
  unfold add_vote. destruct (extractIp url) as [ip0 [e|]].
  - rewrite decide_False by congruence. lia.
  - rewrite lookup_insert. destruct (decide (ip0 = ip)) as [->|Hne].
    + rewrite decide_True by done. cbn. lia.
    + rewrite decide_False by congruence. lia.
Qed.

(** The map holds the number of votes of every address that has any. *)
Lemma vote_spec dns ip :
  default 0 (vote dns !! ip) = votes_for dns ip /\ (is_Some (vote dns !! ip) <-> 0 < votes_for dns ip).
Proof.
  rewrite vote_add. destruct (add_vote_spec dns ∅ ip) as [Hv Hpos].
  { intros *. by rewrite lookup_empty. }
  rewrite lookup_empty in Hv. cbn [default from_option] in Hv. rewrite Z.add_0_l in Hv.
  split; [done|]. rewrite <-Hv.
  destruct (fold_left add_vote dns ∅ !! ip) as [n|] eqn:E; cbn.
  - specialize (Hpos _ _ E). split; [lia|by eexists].
  - split; [by intros [? ?]|lia].
Qed.

Lemma top_spec (m : gmap string Z) order v0 ip0 :
  let '(v, ip) := fold_left (fun '(topVote, topIp) ip =>
    let vote := default 0 (m !! ip) in
    if topVote <? vote then (vote, ip) else (topVote, topIp)) order (v0, ip0) in
  v0 <= v /\ (forall i, i ∈ order -> default 0 (m !! i) <= v) /\
  ((v, ip) = (v0, ip0) \/ ip ∈ order /\ default 0 (m !! ip) = v /\ v0 < v).
Proof.
  revert v0 ip0. induction order as [|i order IH]; intros v0 ip0; cbn [fold_left].
  { split; [lia|]. split; [set_solver|by left]. }
  set (n := default 0 (m !! i)). cbn zeta. fold n. destruct (v0 <? n) eqn:Hn.
  - specialize (IH n i). destruct (fold_left _ order (n, i)) as [v ip].
    destruct IH as (H1 & H2 & H3). split; [lia|]. split.
    + intros j [->|Hj]%elem_of_cons; [fold n; lia|auto].
    + right. destruct H3 as [[= -> ->]|(? & ? & ?)]; [split; [set_solver|lia]|split; [set_solver|lia]].
  - specialize (IH v0 ip0). destruct (fold_left _ order (v0, ip0)) as [v ip].
    destruct IH as (H1 & H2 & H3). split; [lia|]. split.
    + intros j [->|Hj]%elem_of_cons; [fold n; lia|auto].
    + destruct H3 as [?|(? & ? & ?)]; [by left|right; split; [set_solver|done]].
Qed.

Lemma top_max m order :
  let '(v, ip) := top m order in
  0 <= v /\ (forall i, i ∈ order -> default 0 (m !! i) <= v) /\
  ((v, ip) = (0, "") \/ ip ∈ order /\ default 0 (m !! ip) = v /\ 0 < v).
Proof. apply (top_spec m order 0 ""). Qed.

End Votes.

(** * Properties *)

(** The search for an address in a text. [FindString] gives an address that
occurs in the text, four groups of one to three digits with dots between
them, and gives the empty string only if the text holds none. *)
Theorem FindString_spec s :
  (quad (FindString s) /\ exists pre post, s = String.append pre (String.append (FindString s) post)) \/
  (FindString s = "" /\ forall pre q post, s = String.append pre (String.append q post) -> ~ quad q).
Proof.
  induction s as [|c s IH].
  - right. split; [done|]. intros pre q post E Hq. destruct pre; [|done]. cbn in E.
    by destruct q; [apply (quad_nonempty _ Hq)|].
  - cbn [FindString]. destruct (match_here (String c s)) as [ip|] eqn:E.
    { left. destruct (match_here_sound _ _ E) as [Hq [post ->]]. split; [done|]. by exists "", post. }
    destruct IH as [(Hq & pre & post & Hs)|[He Hno]].
    + left. split; [done|]. exists (String c pre), post. cbn. by rewrite <-Hs.
    + right. split; [done|]. intros pre q post Hs Hq. destruct pre as [|x pre].
      * cbn in Hs. destruct (match_here_complete q post Hq) as [ip Hip]. congruence.
      * cbn in Hs. injection Hs as _ Hs. by apply (Hno pre q post Hs).
Qed.

(** The vote. [resolveIp] returns an address that was given, and given at
least as often as any other answer; in whatever order the votes are walked. It panics
exactly when the empty answer, which services that answer without an address
give, has as many votes as every address, in particular when nobody answers. *)
Theorem resolveIp_majority `{Http} range config :
  (forall m, iterates m (range m)) ->
  let votes := votes_for (cf_IpResolver config) in
  match resolveIp range config with
  | Ret ip => quad ip /\ 0 < votes ip /\ forall ip', votes ip' <= votes ip
  | Panic _ => forall ip', votes ip' <= votes ""
  | Stuck => False
  end.
Proof.
  intros Hr votes. unfold resolveIp. set (m := vote (cf_IpResolver config)).
  assert (forall ip, default 0 (m !! ip) = votes ip /\ (is_Some (m !! ip) <-> 0 < votes ip)) as Hm
    by apply vote_spec.
  pose proof (top_max m (range m)) as Ht.
  destruct (top m (range m)) as [v ip]. destruct Ht as (Hv0 & Hmax & Hwho).
  assert (forall ip', votes ip' <= v) as Hall.
  { intros ip'. destruct (decide (0 < votes ip')) as [Hpos|]; [|lia].
    apply Hm, (iterates_elem m (range m) ip' (Hr m)), Hmax in Hpos. by rewrite (proj1 (Hm ip')) in Hpos. }
  case_bool_decide as Hip.
  - subst ip. intros ip'. specialize (Hall ip'). destruct Hwho as [[= ->]|(_ & Hv & _)].
    + assert (0 <= votes "") by apply len_nonneg. lia.
    + rewrite (proj1 (Hm "")) in Hv. lia.
  - destruct Hwho as [[= -> ->]|(_ & Hv & Hpos)]; [done|]. rewrite (proj1 (Hm ip)) in Hv. subst v.
    split; [|done]. unfold votes, votes_for in Hpos.
    destruct (filter (fun url => extractIp url = (ip, None)) (cf_IpResolver config)) as [|url l] eqn:E; [done|].
    assert (url ∈ url :: l) as Hurl by set_solver. rewrite <-E in Hurl.
    apply list_elem_of_filter in Hurl as [Hurl _]. unfold extractIp in Hurl.
    destruct (http_Get url) as [body|err]; [|done]. injection Hurl as <-.
    by apply FindString_quad.
Qed.

(** * Witnesses *)

(** Two services agree, one answers without an address, one does not answer. *)
Definition test_http : Http := {| http_Get := fun url =>
  if bool_decide (url = "u1") then inl (bytes_of_string "<b>Your IP: 81.2.3.4</b>")
  else if bool_decide (url = "u2") then inl (bytes_of_string "81.2.3.4")
  else if bool_decide (url = "u3") then inl (bytes_of_string "busy") else inr (EText "timeout") |}.
Definition resolver_config : ConfigT :=
  Build_ConfigT "p" (cf_ServiceS sample_config) (cf_Manager sample_config) (cf_Mq sample_config)
    (cf_Redis sample_config) (cf_RedisPubSub sample_config) ["u1"; "u2"; "u3"; "u4"] "" false.

Lemma resolveIp_majority_witness :
  @resolveIp test_http (fun m => (map_to_list m).*1) resolver_config = Ret "81.2.3.4" /\
  quad "81.2.3.4" /\ forall ip, @votes_for test_http (cf_IpResolver resolver_config) ip <= 2.
Proof.
  pose proof (@resolveIp_majority test_http (fun m => (map_to_list m).*1) resolver_config
    (fun m => iterates_self m)) as H. cbn zeta in H.
  assert (@resolveIp test_http (fun m => (map_to_list m).*1) resolver_config = Ret "81.2.3.4") as E
    by (vm_compute; reflexivity).
  rewrite E in H. destruct H as (H1 & _ & H3). split; [exact E|]. split; [exact H1|exact H3].
Defined.
