(* ===== verification/Redis.v ===== *)
(** The redis clients of the connector (connectsvc/naming.go, plainrpc.go, subscribe.go): with
which options they are made, which hashes they touch, and the timer of the subscriber. *)

From S2P Require Import Prelude GoText Json ProtoDef Protocol ToCompute Room Config Token Rpc State Client.
Local Open Scope Z_scope.

(** * Package redis *)

Record UniversalOptions := { uo_MasterName : string; uo_Addrs : list string; uo_Password : string }.
Record Options := { op_Addr : string; op_Password : string }.

(** The clients, and the hashes behind them in a state of the redis servers. *)
Class RedisServers := {
  redis_state : Type;
  UniversalClient : Type;
  RedisClient : Type;
  NewUniversalClient : UniversalOptions -> UniversalClient;
  NewClient : Options -> RedisClient;
  HGetAll : UniversalClient -> string -> redis_state -> gmap string string + error;
  HSet : UniversalClient -> string -> string -> bytes -> redis_state -> redis_state;
  HDel : UniversalClient -> string -> string -> redis_state -> redis_state;
}.

(** A hash that answers reads back what was set, without what was deleted; the hashes of
other keys stay. *)
Class RedisLaws `{RedisServers} : Prop := {
  HSet_same c k f v st h : HGetAll c k st = inl h -> HGetAll c k (HSet c k f v st) = inl (<[f := string_of_bytes v]> h);
  HSet_other c k k' f v st : k <> k' -> HGetAll c k' (HSet c k f v st) = HGetAll c k' st;
  HDel_same c k f st h : HGetAll c k st = inl h -> HGetAll c k (HDel c k f st) = inl (delete f h);
  HDel_other c k k' f st : k <> k' -> HGetAll c k' (HDel c k f st) = HGetAll c k' st;
}.

Section Clients.
Context `{RedisServers}.

Definition newNamingRedisClient (config : ConfigT) : UniversalClient :=
  NewUniversalClient {|
    uo_MasterName := re_MasterName (cf_Redis config);
    uo_Addrs := re_Addresses (cf_Redis config);
    uo_Password := re_Password (cf_Redis config)
  |}.

Definition newComputeServiceRedisClient (config : ConfigT) : UniversalClient :=
  NewUniversalClient {|
    uo_MasterName := re_MasterName (cf_Redis config);
    uo_Addrs := re_Addresses (cf_Redis config);
    uo_Password := re_Password (cf_Redis config)
  |}.

(** The query of [initRpcServerDiscovery]. *)
Definition compute_servers (config : ConfigT) (st : redis_state) : gmap string string + error :=
  HGetAll (newComputeServiceRedisClient config) "compute-servers" st.

(** The calls of [RegisterNamingService] and [UnregisterNamingService]. *)
Definition naming_HSet (config : ConfigT) (address : string) (jsonText : bytes) (st : redis_state) : redis_state :=
  HSet (newNamingRedisClient config) "go-servers" address jsonText st.
Definition naming_HDel (config : ConfigT) (address : string) (st : redis_state) : redis_state :=
  HDel (newNamingRedisClient config) "go-servers" address st.

(** ** The subscriber *)

(** [type subscriber struct] *)
Record subscriber := { sb_redisSubClient : option RedisClient; sb_timer : Timer }.

Definition two_seconds : Z := 2000000000.
Definition armed (now : Z) : Timer := {| tm_deadline := Some (timer_when now two_seconds) |}.

Definition subscriberClient (now : Z) : subscriber := {| sb_redisSubClient := None; sb_timer := armed now |}.

(** [subscribe] makes the client unless there is one. *)
Definition subscribe_client (config : ConfigT) (s : subscriber) : subscriber :=
  match sb_redisSubClient s with
  | None => {| sb_redisSubClient := Some (NewClient {|
                 op_Addr := rp_Address (cf_RedisPubSub config); op_Password := rp_Password (cf_RedisPubSub config) |});
               sb_timer := sb_timer s |}
  | Some _ => s
  end.

(** The goroutine of [subscribe]: when the timer fires it is set again; the call of [purge]
is commented out. *)
Definition purge_tick (now : Z) (s : subscriber) : subscriber :=
  match tm_deadline (sb_timer s) with
  | Some d => if d <=? now then {| sb_redisSubClient := sb_redisSubClient s; sb_timer := armed now |} else s
  | None => s
  end.

End Clients.

(** * Properties *)

(** The hash of the servers is the table of Main.v: publishing sets the own entry and
unregistering deletes it; and neither is seen by the discovery of compute servers, although
it asks the same redis. *)
Theorem naming_table `{RedisLaws} config address jsonText st servers :
  HGetAll (newNamingRedisClient config) "go-servers" st = inl servers ->
  HGetAll (newNamingRedisClient config) "go-servers" (naming_HSet config address jsonText st) =
    inl (<[address := string_of_bytes jsonText]> servers) /\
  HGetAll (newNamingRedisClient config) "go-servers" (naming_HDel config address st) = inl (delete address servers) /\
  compute_servers config (naming_HSet config address jsonText st) = compute_servers config st /\
  compute_servers config (naming_HDel config address st) = compute_servers config st.
Proof.
  intros Hs. unfold compute_servers, naming_HSet, naming_HDel.
  change (newComputeServiceRedisClient config) with (newNamingRedisClient config). split_and!.
  - by apply HSet_same.
  - by apply HDel_same.
  - by apply HSet_other.
  - by apply HDel_other.
Qed.

(** The database number of the configuration makes no difference to either client. *)
Theorem redis_db_ignored `{RedisServers} config db :
  let other := Build_ConfigT (cf_PidFile config) (cf_ServiceS config) (cf_Manager config) (cf_Mq config)
    (Build_Redis (re_MasterName (cf_Redis config)) (re_Addresses (cf_Redis config)) (re_Password (cf_Redis config)) db)
    (cf_RedisPubSub config) (cf_IpResolver config) (cf_PemFile config) (cf_DisableHeartBeat config) in
  newNamingRedisClient other = newNamingRedisClient config /\
  newComputeServiceRedisClient other = newComputeServiceRedisClient config.
Proof. done. Qed.

(** The subscriber keeps its first client, whatever it is configured with later, and its
timer is always armed, two seconds after it last fired at most. *)
Theorem subscriber_kept `{RedisServers} now config0 acts :
  let s0 := subscribe_client config0 (subscriberClient now) in
  let s := foldl (fun s a => match a with inl config => subscribe_client config s | inr t => purge_tick t s end) s0 acts in
  sb_redisSubClient s = sb_redisSubClient s0 /\
  exists t, sb_timer s = armed t /\ (t = now \/ inr t ∈ acts).
Proof.
  cbn zeta. set (s0 := subscribe_client config0 (subscriberClient now)).
  induction acts as [|a acts IH] using rev_ind; [split; [done|]; exists now; split; [done|by left]|].
  rewrite foldl_snoc. destruct IH as (IH1 & t & IH2 & IH3).
  set (s := foldl _ s0 acts) in *. destruct a as [config|t'].
  - assert (subscribe_client config s = s) as -> by (unfold subscribe_client; by rewrite IH1).
    split; [done|]. exists t. set_solver.
  - unfold purge_tick. rewrite IH2. cbn. case_match; cbn.
    + split; [done|]. exists t'. set_solver.
    + split; [done|]. exists t. rewrite IH2. set_solver.
Qed.
