(* ===== verification/LogFactory.v ===== *)
(** The log configuration (connectsvc/logfactory.go): log.json, the loggers built
from it, their levels and the directories of their files, and the part of the
program's start that sets the loggers up. *)

From S2P Require Import Prelude GoText Json Decode Config.
Local Open Scope Z_scope.

(** * Packages lumber, units and os

The levels of lumber, the size a text denotes, and what the constructors and
the file system answer. *)
Class Lumber := {
  lumber_TRACE : Z; lumber_DEBUG : Z; lumber_INFO : Z;
  lumber_WARN : Z; lumber_ERROR : Z; lumber_FATAL : Z;
  FromHumanSize : string -> Z * option error;
  os_Stat : string -> option error;
  os_MkdirAll : string -> option error;
  NewFileLogger : string -> Z -> Z -> option error;
  gologf_SetOutput : string -> option error;
}.

(** * Data *)

Definition TIMEFORMAT : string := "2006-01-02 15:04:05.000".

Record appender := {
  ap_Enable : bool;
  ap_AppenderType : string;
  ap_Level : string;
  ap_Filename : string;
  ap_Pattern : string;
  ap_Rotate : bool;
  ap_Maxlines : string;
}.
Record LoggerT := { lg_Name : string; lg_Appenders : list appender }.
Record LogConfigT := { lc_Refresh : string; lc_Loggers : list LoggerT }.

(** A logger inside a MultiLogger. *)
Inductive log_target :=
  | ConsoleLog (level : Z)
  | FileLog (file : string) (level size : Z).

(** * Operations *)

Definition substr (s : string) (pos length : Z) : outcome string :=
  let runes := runes s in
  let l := pos + length in
  let l := if len runes <? l then len runes else l in
  if (0 <=? pos) && (pos <=? l)
  then Ret (string_of_runes (take (Z.to_nat (l - pos)) (drop (Z.to_nat pos) runes)))
  else Panic (PRt SliceBounds).

Definition getParentDirectory (dir : string) : outcome string :=
  substr dir 0 (strings_LastIndex dir "/").

Section Factory.
Context `{Lumber}.

Definition stringToLevel (levelText : string) : Z :=
  if bool_decide (levelText = "TRACE") then lumber_TRACE
  else if bool_decide (levelText = "DEBUG") then lumber_DEBUG
  else if bool_decide (levelText = "INFO") then lumber_INFO
  else if bool_decide (levelText = "WARN") then lumber_WARN
  else if bool_decide (levelText = "ERROR") then lumber_ERROR
  else if bool_decide (levelText = "FATAL") then lumber_FATAL
  else -1.

(** The case "file" of [initLogger]: the new logger, or the error returned. *)
Definition file_appender (appenderDesc : appender) : outcome (log_target + error) :=
  match getParentDirectory (ap_Filename appenderDesc) with
  | Panic p => Panic p
  | Stuck => Stuck
  | Ret dir =>
      let mkdir := match os_Stat dir with Some _ => os_MkdirAll dir | None => None end in
      match mkdir with
      | Some err => Ret (inr err)
      | None =>
          match FromHumanSize (ap_Maxlines appenderDesc) with
          | (_, Some err) => Ret (inr err)
          | (size, None) =>
              let level := stringToLevel (ap_Level appenderDesc) in
              match NewFileLogger (ap_Filename appenderDesc) level size with
              | None => Ret (inl (FileLog (ap_Filename appenderDesc) level size))
              | Some err1 => Ret (inr err1)
              end
          end
      end
  end.

(** The loop over the appenders of a logger: what was added to the
MultiLogger [log] and the root path so far. *)
Fixpoint init_appenders (name : string) (appenders : list appender) (log : list log_target)
    (rootPath : string) : outcome (list log_target * string + error) :=
  match appenders with
  | [] => Ret (inl (log, rootPath))
  | a :: rest =>
      if ap_Enable a then
        if bool_decide (ap_AppenderType a = "console") then
          init_appenders name rest (log ++ [ConsoleLog (stringToLevel (ap_Level a))]) rootPath
        else if bool_decide (ap_AppenderType a = "file") then
          match file_appender a with
          | Ret (inl fileLog) =>
              let rootPath := if bool_decide (name = "root") && bool_decide (ap_Level a = "INFO")
                              then ap_Filename a else rootPath in
              init_appenders name rest (log ++ [fileLog]) rootPath
          | Ret (inr err) => Ret (inr err)
          | Panic p => Panic p
          | Stuck => Stuck
          end
        else init_appenders name rest log rootPath
      else init_appenders name rest log rootPath
  end.

(** [initLogger] on the package variable [logger]: the root path or the error,
and the loggers that were stored before. *)
Fixpoint initLogger (loggers : list LoggerT) (rootPath : string)
    : M (gmap string (list log_target)) (string + error) :=
  match loggers with
  | [] => mret (inl rootPath)
  | logDesc :: rest =>
      match init_appenders (lg_Name logDesc) (lg_Appenders logDesc) [] rootPath with
      | Ret (inl (log, rootPath)) =>
          modify <[lg_Name logDesc := log]> ≫= fun _ => initLogger rest rootPath
      | Ret (inr err) => mret (inr err)
      | Panic p => throw p
      | Stuck => stuck
      end
  end.

(** ** log.json *)

Definition appender_fields : list (rfield appender) :=
  let mk a en ty lv fn pt ro ml :=
    Build_appender (default (ap_Enable a) en) (default (ap_AppenderType a) ty) (default (ap_Level a) lv)
      (default (ap_Filename a) fn) (default (ap_Pattern a) pt) (default (ap_Rotate a) ro)
      (default (ap_Maxlines a) ml) in
  [ rlens "enable" ap_Enable (fun a x => mk a (Some x) None None None None None None) (plain set_bool);
    rlens "type" ap_AppenderType (fun a x => mk a None (Some x) None None None None None) (plain set_string);
    rlens "level" ap_Level (fun a x => mk a None None (Some x) None None None None) (plain set_string);
    rlens "filename" ap_Filename (fun a x => mk a None None None (Some x) None None None) (plain set_string);
    rlens "pattern" ap_Pattern (fun a x => mk a None None None None (Some x) None None) (plain set_string);
    rlens "rotate" ap_Rotate (fun a x => mk a None None None None None (Some x) None) (plain set_bool);
    rlens "maxlines" ap_Maxlines (fun a x => mk a None None None None None None (Some x)) (plain set_string) ].

Definition LoggerT_fields : list (rfield LoggerT) :=
  [ rlens "name" lg_Name (fun l x => Build_LoggerT x (lg_Appenders l)) (plain set_string);
    rlens "appenders" lg_Appenders (fun l x => Build_LoggerT (lg_Name l) x)
      (slice (struct appender_fields) (Build_appender false "" "" "" "" false "")) ].

Definition LogConfigT_fields : list (rfield LogConfigT) :=
  [ rlens "refresh" lc_Refresh (fun c x => Build_LogConfigT x (lc_Loggers c)) (plain set_string);
    rlens "loggers" lc_Loggers (fun c x => Build_LogConfigT (lc_Refresh c) x)
      (slice (struct LoggerT_fields) (Build_LoggerT "" [])) ].

Context `{Files}.

Definition ParseConfig2 : LogConfigT + error :=
  match os_Open "./log.json" with
  | Some err => inr err
  | None =>
      match ioutil_ReadAll "./log.json" with
      | (_, Some err) => inr err
      | (blob, None) =>
          match Unmarshal (struct LogConfigT_fields) blob (Build_LogConfigT "" []) with
          | (_, Some err) => inr err
          | (loggerConfig, None) => inl loggerConfig
          end
      end
  end.

(** ** The start *)

(** The package variables; a nil logger is [None]. *)
Record log_vars := {
  lv_logger : gmap string (list log_target);
  lv_log : option (list log_target);
  lv_timerLog : option (list log_target);
}.

(** [init]: the loggers, or the code of [os.Exit], or a panic. *)
Definition log_init : outcome (log_vars + Z) :=
  match ParseConfig2 with
  | inr _ => Ret (inr 1)
  | inl loggerConfig =>
      match initLogger (lc_Loggers loggerConfig) "" ∅ with
      | (Ret (inr _), _) => Ret (inr 1)
      | (Ret (inl rootPath), logger) =>
          match gologf_SetOutput rootPath with
          | Some _ => Ret (inr 1)
          | None => Ret (inl (Build_log_vars logger (logger !! "root") (logger !! "timer")))
          end
      | (Panic p, _) => Panic p
      | (Stuck, _) => Stuck
      end
  end.

Definition GetLogger (v : log_vars) : option (list log_target) := lv_log v.

End Factory.

(** * Lemmas *)

Definition no_slash (s : string) : Prop := str_all (fun c => negb (code c =? 47)) s = true.

Lemma LastIndex_no_slash s : no_slash s -> strings_LastIndex s "/" = -1.
Proof.
  unfold no_slash. induction s as [|c s IH]; [done|]. cbn [str_all strings_LastIndex].
  intros [Hc Hs]%andb_true_iff. rewrite IH by done. cbn.
  by destruct (code c =? 47) eqn:E; [|rewrite Z.eqb_sym in E; change (code "/") with 47; rewrite E].
Qed.

Lemma LastIndex_slash dir base :
  no_slash base -> strings_LastIndex (String.append dir (String "/" base)) "/" = str_len dir.
Proof.
  intros Hb. unfold str_len. induction dir as [|c dir IH].
  - cbn [String.append strings_LastIndex]. rewrite LastIndex_no_slash by done. done.
  - cbn [String.append strings_LastIndex String.length]. rewrite IH.
    replace (Z.of_nat (String.length dir) =? -1) with false by lia. lia.
Qed.

Lemma string_of_runes_ascii l :
  is_ascii (String.string_of_list_ascii l) = true -> string_of_runes (map code l) = String.string_of_list_ascii l.
Proof.
  induction l as [|c l IH]; [done|]. intros [Hc Hl]%andb_true_iff. cbn [map].
  change (string_of_runes (code c :: map code l)) with
    (String.append (encode_rune (code c)) (string_of_runes (map code l))).
  rewrite encode_rune_ascii by lia. by rewrite IH.
Qed.

Lemma list_ascii_app s t :
  String.list_ascii_of_string (String.append s t) =
  String.list_ascii_of_string s ++ String.list_ascii_of_string t.
Proof. induction s as [|c s IH]; cbn; [done|]. by rewrite IH. Qed.

Lemma list_ascii_length s : length (String.list_ascii_of_string s) = String.length s.
Proof. induction s as [|c s IH]; cbn; [done|]. by rewrite IH. Qed.

Lemma is_ascii_app s t : is_ascii (String.append s t) = is_ascii s && is_ascii t.
Proof. unfold is_ascii. induction s as [|c s IH]; cbn; [done|]. by rewrite IH, andb_assoc. Qed.

(** What the appenders of a logger become. *)
Definition file_kind (a : appender) : bool :=
  ap_Enable a && negb (bool_decide (ap_AppenderType a = "console")) && bool_decide (ap_AppenderType a = "file").
Definition appender_target `{Lumber} (a : appender) : list log_target :=
  if ap_Enable a && bool_decide (ap_AppenderType a = "console") then [ConsoleLog (stringToLevel (ap_Level a))]
  else if file_kind a then
    [FileLog (ap_Filename a) (stringToLevel (ap_Level a)) (FromHumanSize (ap_Maxlines a)).1]
  else [].
Definition logger_targets `{Lumber} (l : LoggerT) : list log_target := concat (map appender_target (lg_Appenders l)).

(** The root path: the file of the last INFO appender of a logger named root. *)
Definition root_step (name path : string) (a : appender) : string :=
  if file_kind a && bool_decide (name = "root") && bool_decide (ap_Level a = "INFO") then ap_Filename a else path.
Definition root_path (path : string) (loggers : list LoggerT) : string :=
  fold_left (fun p l => fold_left (root_step (lg_Name l)) (lg_Appenders l) p) loggers path.

(** The last logger of a name. *)
Definition last_named (loggers : list LoggerT) (name : string) : option LoggerT :=
  List.find (fun l => bool_decide (lg_Name l = name)) (rev loggers).

(** The file logs that are built, in the order of the file. *)
Definition files_of (apps : list appender) : list appender := filter (fun a => file_kind a = true) apps.
Definition all_files (loggers : list LoggerT) : list appender := concat (map (fun l => files_of (lg_Appenders l)) loggers).

Section Files_of.
Context `{Lumber}.

(** The directory of a log file is there, or can be made. *)
Definition has_dir (a : appender) : Prop :=
  exists dir, getParentDirectory (ap_Filename a) = Ret dir /\ (os_Stat dir = None \/ os_MkdirAll dir = None).

(** A file log that can be built. *)
Definition usable (a : appender) : Prop :=
  has_dir a /\ exists size, FromHumanSize (ap_Maxlines a) = (size, None) /\
    NewFileLogger (ap_Filename a) (stringToLevel (ap_Level a)) size = None.

(** One that cannot, for lack of its directory, for its size, or for its file. *)
Inductive unusable (a : appender) : error -> Prop :=
  | no_directory dir e0 e :
      getParentDirectory (ap_Filename a) = Ret dir -> os_Stat dir = Some e0 -> os_MkdirAll dir = Some e ->
      unusable a e
  | bad_size size e : has_dir a -> FromHumanSize (ap_Maxlines a) = (size, Some e) -> unusable a e
  | no_file size e :
      has_dir a -> FromHumanSize (ap_Maxlines a) = (size, None) ->
      NewFileLogger (ap_Filename a) (stringToLevel (ap_Level a)) size = Some e -> unusable a e.

(** One without a directory in its name. *)
Definition bare_name (a : appender) : Prop := strings_LastIndex (ap_Filename a) "/" < 0.

(** What comes of building the [files] one after the other, when [x] does if all can be built:
the first that cannot decides. *)
Inductive built {A} (files : list appender) (x : A) : outcome (A + error) -> Prop :=
  | built_all : Forall usable files -> built files x (Ret (inl x))
  | built_error before a after e :
      files = before ++ a :: after -> Forall usable before -> unusable a e -> built files x (Ret (inr e))
  | built_panic before a after :
      files = before ++ a :: after -> Forall usable before -> bare_name a -> built files x (Panic (PRt SliceBounds)).

End Files_of.

Section Factory_lemmas.
Context `{Lumber}.

Lemma built_after {A} pre files (x : A) r : Forall usable pre -> built files x r -> built (pre ++ files) x r.
Proof.
  intros Hp Hb. destruct Hb as [Hf|b a k e -> Hf He|b a k -> Hf Hn].
  - apply built_all. by apply Forall_app.
  - eapply (built_error _ _ (pre ++ b)); [by rewrite <-app_assoc|by apply Forall_app|done].
  - eapply (built_panic _ _ (pre ++ b)); [by rewrite <-app_assoc|by apply Forall_app|done].
Qed.

(** A failure stays one whatever follows. *)
Lemma built_before {A B} files post (x : A) (y : B) r :
  built files x r ->
  match r with
  | Ret (inl z) => z = x /\ Forall usable files
  | Ret (inr e) => built (files ++ post) y (Ret (inr e))
  | Panic p => built (files ++ post) y (Panic p)
  | Stuck => False
  end.
Proof.
  intros Hb. destruct Hb as [Hf|b a k e -> Hf He|b a k -> Hf Hn]; [done|..]; rewrite <-app_assoc; cbn.
  - by eapply built_error.
  - by eapply built_panic.
Qed.

Lemma getParentDirectory_cases name :
  (exists dir, getParentDirectory name = Ret dir) \/
  strings_LastIndex name "/" < 0 /\ getParentDirectory name = Panic (PRt SliceBounds).
Proof.
  unfold getParentDirectory, substr. case_match eqn:E; [left; by eexists|]. right. split; [|done].
  pose proof (len_nonneg (runes name)). case_match; lia.
Qed.

(** One file log. *)
Lemma file_appender_built a :
  built [a] (FileLog (ap_Filename a) (stringToLevel (ap_Level a)) (FromHumanSize (ap_Maxlines a)).1) (file_appender a).
Proof.
  unfold file_appender. destruct (getParentDirectory_cases (ap_Filename a)) as [[dir Ed]|[Hn ->]];
    [rewrite Ed|by eapply (built_panic _ _ [])].
  destruct (match os_Stat dir with Some _ => _ | None => _ end) as [e|] eqn:Em.
  { destruct (os_Stat dir) as [e0|] eqn:Es; [|done]. eapply (built_error _ _ [] a [] e); [done..|]. by eapply no_directory. }
  assert (has_dir a) as Hdir by (exists dir; split; [done|]; destruct (os_Stat dir); auto).
  destruct (FromHumanSize (ap_Maxlines a)) as [size [e|]] eqn:Ez;
    [eapply (built_error _ _ [] a [] e); [done..|]; by eapply bad_size|].
  destruct (NewFileLogger _ _ _) as [e|] eqn:Ef; [eapply (built_error _ _ [] a [] e); [done..|]; by eapply no_file|].
  apply built_all. constructor; [|done]. split; [done|]. by exists size.
Qed.

Lemma init_appenders_built name apps log path :
  built (files_of apps) (log ++ concat (map appender_target apps), fold_left (root_step name) apps path)
    (init_appenders name apps log path).
Proof.
  revert log path. induction apps as [|a l IH]; intros log path; [cbn; rewrite app_nil_r; by apply built_all|].
  cbn [init_appenders map concat fold_left]. rewrite app_assoc.
  assert (forall log1 path1, log1 = log ++ appender_target a -> path1 = root_step name path a -> file_kind a = false ->
    built (files_of (a :: l)) ((log ++ appender_target a) ++ concat (map appender_target l),
      fold_left (root_step name) l (root_step name path a)) (init_appenders name l log1 path1)) as Hgo.
  { intros log1 path1 -> -> Hk. unfold files_of. rewrite filter_cons_False by (by rewrite Hk). apply IH. }
  unfold appender_target, root_step, file_kind in Hgo |- *.
  destruct (ap_Enable a) eqn:Een; cbn [andb] in *; [|by apply Hgo; [rewrite app_nil_r| |]].
  case_bool_decide as Hc; cbn [negb andb] in *; [by apply Hgo|].
  case_bool_decide as Hf; cbn [andb] in *; [|by apply Hgo; [rewrite app_nil_r| |]].
  assert (file_kind a = true) as Hk by (unfold file_kind; by rewrite Een, bool_decide_false, bool_decide_true).
  unfold files_of. rewrite filter_cons_True by done. change (a :: filter ?P l) with ([a] ++ files_of l).
  pose proof (built_before [a] (files_of l) _ ((log ++ [FileLog (ap_Filename a) (stringToLevel (ap_Level a)) (FromHumanSize (ap_Maxlines a)).1])
     ++ concat (map appender_target l), fold_left (root_step name) l (if bool_decide (name = "root") && bool_decide (ap_Level a = "INFO")
       then ap_Filename a else path)) _ (file_appender_built a)) as Hb.
  destruct (file_appender a) as [[t|e]|p|]; [destruct Hb as [-> Hu]|exact Hb|exact Hb|done].
  apply built_after; [done|apply IH].
Qed.

Lemma find_app {A} (f : A -> bool) l k :
  List.find f (l ++ k) = match List.find f l with Some x => Some x | None => List.find f k end.
Proof. induction l as [|x l IH]; [done|]. cbn. by destruct (f x). Qed.

Lemma initLogger_built loggers path m :
  built (all_files loggers) (root_path path loggers) (initLogger loggers path m).1 /\
  forall path', (initLogger loggers path m).1 = Ret (inl path') -> forall name,
    (initLogger loggers path m).2 !! name =
    match last_named loggers name with Some l => Some (logger_targets l) | None => m !! name end.
Proof.
  revert path m. induction loggers as [|l loggers IH]; intros path m; [split; [by apply built_all|done]|].
  cbn [initLogger]. unfold all_files, root_path. cbn [map concat fold_left].
  fold (all_files loggers) (root_path (fold_left (root_step (lg_Name l)) (lg_Appenders l) path) loggers).
  pose proof (built_before _ (all_files loggers) _ (root_path (fold_left (root_step (lg_Name l)) (lg_Appenders l) path) loggers)
    _ (init_appenders_built (lg_Name l) (lg_Appenders l) [] path)) as Ha.
  destruct (init_appenders _ _ [] path) as [[[log path1]|e]|p|]; [|by run; split..|done].
  destruct Ha as [[= -> ->] Hu]. run. fold (logger_targets l).
  destruct (IH (fold_left (root_step (lg_Name l)) (lg_Appenders l) path) (<[lg_Name l := logger_targets l]> m)) as [IH1 IH2].
  split; [by apply built_after|]. intros path' Hp name. rewrite (IH2 _ Hp). unfold last_named. cbn [rev].
  rewrite find_app. destruct (List.find _ (rev loggers)); [done|]. cbn.
  case_bool_decide as Hn; [subst name; by rewrite lookup_insert_eq|]. by rewrite lookup_insert_ne.
Qed.
End Factory_lemmas.

(** * Properties *)

(** The directory of a log file. For an ASCII path it is what stands before the last
slash; for a path without a slash there is no answer: the index -1 becomes the
end of a slice, which panics while the program starts. *)
Theorem getParentDirectory_spec dir base :
  no_slash base ->
  (is_ascii dir = true -> is_ascii base = true ->
   getParentDirectory (String.append dir (String "/" base)) = Ret dir) /\
  getParentDirectory base = Panic (PRt SliceBounds).
Proof.
  intros Hb. split.
  - intros Hd Ha. unfold getParentDirectory, substr. rewrite LastIndex_slash by done.
    assert (is_ascii (String.append dir (String "/" base)) = true) as Hall
      by (rewrite is_ascii_app, Hd; exact Ha).
    rewrite runes_ascii by done. rewrite list_ascii_app. unfold len, str_len.
    rewrite length_map, length_app, !list_ascii_length. cbn [String.length].
    replace (_ <? _) with false by lia. rewrite Z.add_0_l, Z.sub_0_r.
    replace ((0 <=? 0) && (0 <=? Z.of_nat (String.length dir))) with true by lia.
    rewrite drop_0, Nat2Z.id, map_app, take_app_length' by (by rewrite length_map, list_ascii_length).
    rewrite string_of_runes_ascii; rewrite String.string_of_list_ascii_of_string; done.
  - unfold getParentDirectory, substr. rewrite LastIndex_no_slash by done.
    pose proof (len_nonneg (runes base)).
    replace (len (runes base) <? 0 + -1) with false by lia.
    by replace ((0 <=? 0) && (0 <=? 0 + -1)) with false by lia.
Qed.

(** C32: the start of the loggers, in every case. Without a log.json that can be read, it exits
with 1. Otherwise the file logs that are enabled are built in the order of the file, and
the first that cannot be decides: it exits with 1 if the directory is missing and cannot be
made, if the size is no size, or if the file cannot be opened, and it panics if the name has
no directory. If all of them can be built, it exits with 1 when the output of the package
log cannot be set to the root path, and else every name has the logger of its last entry,
with a target for each of its enabled appenders in their order, and the server logs to
the one named root and to the one named timer. *)
Theorem log_init_spec `{Lumber, Files} :
  match ParseConfig2 with
  | inr _ => log_init = Ret (inr 1)
  | inl cfg =>
      (exists before a after, all_files (lc_Loggers cfg) = before ++ a :: after /\ Forall usable before /\
         ((exists e, unusable a e) /\ log_init = Ret (inr 1) \/
          bare_name a /\ log_init = Panic (PRt SliceBounds))) \/
      Forall usable (all_files (lc_Loggers cfg)) /\
      match gologf_SetOutput (root_path "" (lc_Loggers cfg)) with
      | Some _ => log_init = Ret (inr 1)
      | None => exists v, log_init = Ret (inl v) /\
          (forall name, lv_logger v !! name = logger_targets <$> last_named (lc_Loggers cfg) name) /\
          lv_log v = logger_targets <$> last_named (lc_Loggers cfg) "root" /\
          lv_timerLog v = logger_targets <$> last_named (lc_Loggers cfg) "timer"
      end
  end.
Proof.
  unfold log_init. destruct ParseConfig2 as [cfg|e]; [|done].
  destruct (initLogger_built (lc_Loggers cfg) "" ∅) as [Hb Hm].
  destruct (initLogger (lc_Loggers cfg) "" ∅) as [r m]. cbn [fst snd] in *.
  destruct Hb as [Hu|before a after e Hf Hu He|before a after Hf Hu Hn].
  - right. split; [done|]. destruct (gologf_SetOutput _); [done|]. eexists. split; [done|]. cbn.
    assert (forall name, m !! name = logger_targets <$> last_named (lc_Loggers cfg) name) as Hl.
    { intros name. rewrite (Hm _ eq_refl). by destruct (last_named _ name). }
    by rewrite !Hl.
  - left. exists before, a, after. split_and!; [done..|]. left. split; [by exists e|done].
  - left. exists before, a, after. split_and!; [done..|]. by right.
Qed.

(** Bytes are counted before the slash, runes are taken: beyond ASCII the
result keeps a part of the file name. *)
Example getParentDirectory_utf8 :
  getParentDirectory (String (chr 195) (String (chr 169) "/x.log")) =
  Ret (String (chr 195) (String (chr 169) "/")).
Proof. vm_compute. reflexivity. Qed.

(** * Witnesses *)

Lemma getParentDirectory_spec_witness :
  getParentDirectory "logs/all.log" = Ret "logs" /\ getParentDirectory "all.log" = Panic (PRt SliceBounds).
Proof.
  destruct (getParentDirectory_spec "logs" "all.log" eq_refl) as [H1 H2].
  split; [exact (H1 eq_refl eq_refl)|exact H2].
Defined.

(** The loggers of test/log.json. *)
Definition log_json : bytes := jsb "{ 'refresh':'10s', 'loggers': [
  { 'name': 'root', 'appenders': [
    { 'enable': true, 'type': 'console', 'level': 'INFO' },
    { 'enable': true, 'type': 'file', 'level': 'INFO', 'filename':'./logs/connector.info.txt', 'rotate': true, 'maxlines': '50K' },
    { 'enable': true, 'type': 'file', 'level': 'ERROR', 'filename':'./logs/connector.err.txt', 'rotate': true, 'maxlines': '50K' } ] },
  { 'name': 'timer', 'appenders': [
    { 'enable': true, 'type': 'file', 'level': 'INFO', 'filename':'./logs/connector.timer.txt', 'rotate': true, 'maxlines': '50K' } ] } ] }".

Definition test_lumber : Lumber := {|
  lumber_TRACE := 0; lumber_DEBUG := 1; lumber_INFO := 2; lumber_WARN := 3; lumber_ERROR := 4; lumber_FATAL := 5;
  FromHumanSize t := if bool_decide (t = "50K") then (50000, None) else (0, Some (EText "invalid size"));
  os_Stat _ := None; os_MkdirAll _ := None; NewFileLogger _ _ _ := None; gologf_SetOutput _ := None;
|}.
Definition log_files : Files := {|
  os_Open name := if bool_decide (name = "./log.json") then None else Some (EText "no such file");
  ioutil_ReadAll _ := (log_json, None);
|}.

Example log_json_loggers :
  match @log_init test_lumber log_files with
  | Ret (inl v) => GetLogger v = Some [ConsoleLog 2; FileLog "./logs/connector.info.txt" 2 50000;
      FileLog "./logs/connector.err.txt" 4 50000] /\ lv_timerLog v = Some [FileLog "./logs/connector.timer.txt" 2 50000]
  | _ => False
  end.
Proof. vm_compute. split; reflexivity. Qed.
