(* ===== verification/Main.v ===== *)
(** The start and the end of the process (server/connector/main.go, [init] of
connectsvc/token.go, [Start] and [newService] of connectsvc/connectsvc.go,
[RegisterNamingService] and [UnregisterNamingService], common/service/debugsvc,
server/connector/internal/manager): what runs when, and what is left. *)

From S2P Require Import Prelude GoText Json Decode ProtoDef Protocol ToCompute Room Config Token Rpc State.
From S2P Require Import Client Subscribe Heartbeat Stat Service Naming.
Local Open Scope Z_scope.

(** * The initialization of the package *)

Section Init.
Context `{Resolver, Files}.

(** [ioutil.ReadFile] *)
Definition ReadFile (path : string) : bytes * option error :=
  match os_Open path with
  | Some err => ([], Some err)
  | None => ioutil_ReadAll path
  end.

Definition read1 (path : string) : outcome bytes :=
  match ReadFile path with
  | (_, Some err) => Panic (PErr err)
  | (dat, None) => Ret dat
  end.

(** Of package gorsa: setting the public key from its PEM text. *)
Variable SetPublicKey : string -> option error.

(** [init] of token.go, with the arguments of the process: the configuration, or
the code of [os.Exit]. *)
Definition token_init (args : list string) : outcome (ConfigT + Z) :=
  match flag_Parse args defaultConf with
  | None => Ret (inr 2)
  | Some conf =>
      match ParseConfig conf zero_ConfigT with
      | (_, Some _) => Ret (inr 1)
      | (Config, None) =>
          if negb (bool_decide (cf_PemFile Config = "")) then
            match read1 (cf_PemFile Config) with
            | Ret pubPEMData =>
                match SetPublicKey (string_of_bytes pubPEMData) with
                | Some err => Panic (PErr err)
                | None => Ret (inl Config)
                end
            | Panic p => Panic p
            | Stuck => Stuck
            end
          else Ret (inl Config)
      end
  end.

End Init.

(** * The process *)

(** The goroutines that run for as long as the process: the subscription, the
publication of the figures, the heartbeat check, the consumer, the discovery of
compute servers, the server that accepts connections, the debug service. *)
Inductive routine := GSubscribe | GNaming | GHeartBeat | GConsumer | GDiscovery | GServer | GDebug.
#[export] Instance routine_eq_dec : EqDecision routine.
Proof. solve_decision. Defined.

(** [type ManagerSet struct] is empty; so is what it does. *)
Inductive ManagerSet := NewManagerSet (conf : ManagerConfT).
Definition ManagerSet_Close (s : ManagerSet) : option error := None.

(** The state of the server, [cachedInternetAddress], the redis hash "go-servers",
the goroutines. *)
Record Process `{BDMsg, Net} := mkProcess {
  ps_world : World;
  ps_cached : string;
  ps_servers : gmap string bytes;
  ps_routines : list routine;
}.

Section Start.
Context `{HB : BDMsg, HN : Net, HG : Gorsa, HZ : Zlib, HP : Proto, HH : Http}.

Definition set_world (w : World) (p : Process) : Process :=
  mkProcess _ _ w (ps_cached p) (ps_servers p) (ps_routines p).
Definition set_servers (f : gmap string bytes -> gmap string bytes) (p : Process) : Process :=
  mkProcess _ _ (ps_world p) (ps_cached p) (f (ps_servers p)) (ps_routines p).
Definition go (g : routine) (p : Process) : Process :=
  mkProcess _ _ (ps_world p) (ps_cached p) (ps_servers p) (ps_routines p ++ [g]).

(** A call of [getInternetAddress]. *)
Definition own_address (range : gmap string Z -> list string) (config : ConfigT) : M Process string := fun p =>
  let '(r, cached) := getInternetAddress range config (ps_cached p) in
  (r, mkProcess _ _ (ps_world p) cached (ps_servers p) (ps_routines p)).

(** A call on the state of the server. *)
Definition on_world {A} (f : M World A) : M Process A := fun p =>
  let '(r, w) := f (ps_world p) in (r, set_world w p).

(** ** Naming *)

(** The function of the ticker in [RegisterNamingService]: the memory figure is read
through a pointer that is nil when it could not be measured. *)
Definition naming_tick (range : gmap string Z -> list string) (config : ConfigT) (now : Z)
    (order1 order2 : list string) (cpu : option (list string)) (vmStat : option string) : M Process unit :=
  memoryUsage ← deref (fun _ => vmStat);
  tempInfo ← on_world (fun w => let '(i, w) := publish now order1 order2 w in (Ret i, w));
  match NamingInfo_Marshal cpu memoryUsage tempInfo with
  | (jsonText, None) =>
      address ← own_address range config;
      modify (set_servers <[address := jsonText]>)
  | (_, Some _) => mret tt
  end.

Definition RegisterNamingService (range : gmap string Z -> list string) (config : ConfigT) : M Process unit :=
  own_address range config ≫= fun _ => modify (go GNaming).

Definition UnregisterNamingService (range : gmap string Z -> list string) (config : ConfigT) : M Process unit :=
  address ← own_address range config; modify (set_servers (delete address)).

(** ** The service *)

(** [initHeartBeat] runs unless it is disabled. *)
Definition go_initHeartBeat (config : ConfigT) : M Process unit :=
  if negb (cf_DisableHeartBeat config) then modify (go GHeartBeat) else mret tt.

Definition initMessageConsumer : M Process unit := modify (go GConsumer).

(** The function of the ticker runs once before [initRpcServerDiscovery] returns. *)
Definition initRpcServerDiscovery (result : gmap string string + error) (now : Z) (order conns : list string)
    : M Process unit :=
  modify (go GDiscovery) ≫= fun _ => on_world (discovery result now order conns).

Definition newService (range : gmap string Z -> list string) (config : ConfigT)
    (result : gmap string string + error) (now : Z) (order conns : list string) : M Process unit :=
  modify (go GSubscribe) ≫= fun _ =>
  RegisterNamingService range config ≫= fun _ =>
  deferring
    (go_initHeartBeat config ≫= fun _ =>
     initMessageConsumer ≫= fun _ =>
     initRpcServerDiscovery result now order conns)
    (UnregisterNamingService range config).

(** [Start]; [listen] is [net.ListenTCP]. *)
Definition Start (listen : TCPAddr -> option error) (range : gmap string Z -> list string) (config : ConfigT)
    (result : gmap string string + error) (now : Z) (order conns : list string) : M Process (option error) :=
  match listen (bs_ListenAddr (cs_BDMsgSvcConfT (ss_Connect (cf_ServiceS config)))) with
  | Some _ => mret (Some (EDef ErrAddress))
  | None =>
      newService range config result now order conns ≫= fun _ =>
      modify (go GServer) ≫= fun _ => mret None
  end.

(** [debugsvc.Start] *)
Definition debugsvc_Start (listen : TCPAddr -> option error) (conf : ServiceConfT) : M Process (option error) :=
  match listen (sv_ListenAddr conf) with
  | Some _ => mret (Some (EDef ErrAddress))
  | None => modify (go GDebug) ≫= fun _ => mret None
  end.

(** ** main *)

(** Up to the wait for a signal; [false] when it returns before. *)
Definition main_start (listen : TCPAddr -> option error) (range : gmap string Z -> list string) (config : ConfigT)
    (result : gmap string string + error) (now : Z) (order conns : list string) : M Process bool :=
  err ← Start listen range config result now order conns;
  match (err : option error) with
  | Some _ => mret false
  | None =>
      if ServiceConfT_Check (ss_Debug (cf_ServiceS config))
      then debugsvc_Start listen (ss_Debug (cf_ServiceS config)) ≫= fun _ => mret true
      else mret true
  end.

(** From the signal on: the debug service and the server stop, then the clients are
closed, in the order of their map. *)
Definition main_stop (order : list string) (p : Process) : Process :=
  let p := mkProcess _ _ (ps_world p) (ps_cached p) (ps_servers p)
             (filter (fun g => g <> GDebug /\ g <> GServer) (ps_routines p)) in
  set_world (CloseAll order (ps_world p)) p.

(** ** The process as a transition system *)

Inductive pstep (range : gmap string Z -> list string) (config : ConfigT) : Process -> Process -> Prop :=
  | pstep_server p w :
      GServer ∈ ps_routines p -> step config (ps_world p) w -> pstep range config p (set_world w p)
  | pstep_naming p p' now order1 order2 cpu vmStat :
      GNaming ∈ ps_routines p ->
      naming_tick range config now order1 order2 cpu vmStat p = (Ret tt, p') -> pstep range config p p'.

(** The state in which [main] starts. *)
Definition ps_init (e : rpc_env) (servers : gmap string bytes) : Process :=
  mkProcess _ _ (w_init e) "" servers [].

End Start.

(** * Lemmas *)

Section Lemmas.
Context `{HB : BDMsg, HL : !BDMsgLaws, HN : Net, HG : Gorsa, HZ : Zlib, HP : Proto, HH : Http}.

Lemma bind_Ret {S A B} (m : M S A) (k : A -> M S B) s a s' :
  m s = (Ret a, s') -> (m ≫= k) s = k a s'.
Proof. unfold mbind, M_bind. by intros ->. Qed.

Lemma own_address_cached range config (p : Process) :
  ps_cached p <> "" -> own_address range config p = (Ret (ps_cached p), p).
Proof.
  intros Hc. unfold own_address, getInternetAddress. rewrite bool_decide_false by done. by destruct p.
Qed.

Lemma resolve_nonempty range config a : resolveInternetAddress range config = Ret a -> a <> "".
Proof.
  unfold resolveInternetAddress. destruct (resolveIp range config) as [ip|q|]; [|done..].
  intros [= <-]. by destruct ip.
Qed.

Lemma own_address_first range config (p : Process) a :
  ps_cached p = "" -> resolveInternetAddress range config = Ret a ->
  own_address range config p = (Ret a, mkProcess _ _ (ps_world p) a (ps_servers p) (ps_routines p)).
Proof. intros Hc Ha. unfold own_address, getInternetAddress. rewrite bool_decide_true by done. by rewrite Ha. Qed.

Lemma discovery_returns result now order conns (w : World) :
  exists w', discovery result now order conns w = (Ret tt, w') /\ w_clientM w' = w_clientM w.
Proof.
  unfold discovery, discover. destruct result as [result|e]; [|by eexists].
  destruct (close_unlisted_map conns result (w_rpc_env w)) as (s & Hs & _).
  unfold mbind, M_bind. rewrite Hs. by eexists.
Qed.

(** What [newService] leaves, once the own address is known. *)
Definition routines_of (config : ConfigT) : list routine :=
  [GSubscribe; GNaming] ++ (if cf_DisableHeartBeat config then [] else [GHeartBeat]) ++ [GConsumer; GDiscovery].

Lemma newService_spec range config result now order conns (p : Process) a :
  ps_cached p = "" -> resolveInternetAddress range config = Ret a ->
  newService range config result now order conns p =
  (Ret tt, mkProcess _ _ (discovery result now order conns (ps_world p)).2 a
     (delete a (ps_servers p)) (ps_routines p ++ routines_of config)).
Proof.
  intros Hc Ha. pose proof (resolve_nonempty _ _ _ Ha) as Hne. unfold newService.
  erewrite bind_Ret by reflexivity. unfold RegisterNamingService.
  assert (own_address range config (go GSubscribe p) =
    (Ret a, mkProcess _ _ (ps_world p) a (ps_servers p) (ps_routines p ++ [GSubscribe]))) as Hown
    by (by apply own_address_first).
  erewrite bind_Ret by (erewrite bind_Ret by exact Hown; reflexivity).
  unfold deferring, go_initHeartBeat, initMessageConsumer, initRpcServerDiscovery, on_world. run.
  destruct (discovery_returns result now order conns (ps_world p)) as (w' & Hd & _).
  unfold routines_of, UnregisterNamingService.
  destruct (cf_DisableHeartBeat config); cbn; rewrite Hd; cbn;
    (erewrite bind_Ret by (by apply own_address_cached)); unfold modify, set_servers; cbn; by rewrite <-!app_assoc.
Qed.

Lemma naming_tick_spec range config now o1 o2 cpu vmStat (p : Process) r p' :
  ps_cached p <> "" -> naming_tick range config now o1 o2 cpu vmStat p = (r, p') ->
  match vmStat with
  | Some mem => r = Ret tt /\ ps_world p' = (publish now o1 o2 (ps_world p)).2 /\ ps_cached p' = ps_cached p /\
      ps_routines p' = ps_routines p /\
      ps_servers p' = <[ps_cached p := (NamingInfo_Marshal cpu mem (publish now o1 o2 (ps_world p)).1).1]> (ps_servers p)
  | None => r = Panic (PRt NilDeref) /\ p' = p
  end.
Proof.
  intros Hc. unfold naming_tick. destruct vmStat as [mem|]; [|intros [= <- <-]; done].
  erewrite bind_Ret by reflexivity.
  destruct (publish now o1 o2 (ps_world p)) as [i w] eqn:E.
  erewrite bind_Ret by (unfold on_world; rewrite E; reflexivity). cbn [NamingInfo_Marshal].
  erewrite bind_Ret by (by apply own_address_cached). intros [= <- <-]. done.
Qed.

(** The invariant of a started process. *)
Record ps_ok (a : string) (servers : gmap string bytes) (p : Process) : Prop := {
  pso_world : world_ok (ps_world p);
  pso_cached : ps_cached p = a;
  pso_address : a <> "";
  pso_servers b : b <> a -> ps_servers p !! b = servers !! b;
}.

Lemma ps_ok_step range config a servers p p' :
  ps_ok a servers p -> pstep range config p p' -> ps_ok a servers p'.
Proof.
  intros [Hw Hc Ha Hs] Hstep. destruct Hstep as [p w _ Hstep|p p' now o1 o2 cpu vm _ Ht].
  - constructor; try done. by eapply step_ok.
  - apply naming_tick_spec in Ht; [|by rewrite Hc]. destruct vm as [mem|]; [|by destruct Ht].
    destruct Ht as (_ & Hw' & Hc' & _ & Hs'). constructor; [|congruence|done|].
    + rewrite Hw'. pose proof (step_ok config _ _ Hw (step_publish config (ps_world p) now o1 o2)) as H. exact H.
    + intros b Hb. rewrite Hs', lookup_insert_ne by congruence. by apply Hs.
Qed.

End Lemmas.

(** * Properties *)


(** C16: [Start] and its two ways to fail. If the address cannot be listened on, it says so
and has done nothing. If no service tells the own address, it panics with nothing
but the subscription started. Otherwise it returns no error, and what runs is the
subscription, the naming, the heartbeat check unless it is disabled, the consumer, the
discovery, which has already looked once, and the server. *)
Theorem Start_spec `{HB : BDMsg, HN : Net, HH : Http} listen range config result now order conns p :
  ps_cached p = "" ->
  let '(r, p') := Start listen range config result now order conns p in
  match listen (bs_ListenAddr (cs_BDMsgSvcConfT (ss_Connect (cf_ServiceS config)))),
        resolveInternetAddress range config with
  | Some _, _ => r = Ret (Some (EDef ErrAddress)) /\ p' = p
  | None, Ret a => r = Ret None /\ ps_cached p' = a /\ ps_servers p' = delete a (ps_servers p) /\
      ps_world p' = (discovery result now order conns (ps_world p)).2 /\
      ps_routines p' = ps_routines p ++ routines_of config ++ [GServer]
  | None, Panic e => r = Panic e /\ p' = go GSubscribe p
  | None, Stuck => False
  end.
Proof.
  intros Hc. unfold Start.
  destruct (listen _); [done|]. destruct (resolveInternetAddress range config) as [a|e|] eqn:Ha.
  - erewrite bind_Ret by (by apply newService_spec). run. split_and!; try done. by rewrite <-app_assoc.
  - unfold newService, RegisterNamingService, own_address, getInternetAddress. run.
    rewrite bool_decide_true, Ha by done. split; [done|]. by destruct p.
  - exfalso. revert Ha. unfold resolveInternetAddress, resolveIp. destruct (top _ _). by case_bool_decide.
Qed.

(** C3: a started process keeps the invariant of the server, and of the table the servers
share it changes its own entry only. That entry is gone when [Start] returns: the
deferred [UnregisterNamingService] runs then, not when the server stops. *)
Theorem process_safety `{HB : BDMsg, HL : !BDMsgLaws, HN : Net, HG : Gorsa, HZ : Zlib, HP : Proto, HH : Http}
    listen range config result now order conns e servers a p0 p :
  resolveInternetAddress range config = Ret a ->
  Start listen range config result now order conns (ps_init e servers) = (Ret None, p0) ->
  rtc (pstep range config) p0 p ->
  ps_servers p0 !! a = None /\ world_ok (ps_world p) /\
  (forall b, b <> a -> ps_servers p !! b = servers !! b) /\
  (forall r p', own_address range config p = (r, p') -> r = Ret a /\ p' = p).
Proof.
  intros Ha Hstart Hsteps.
  assert (ps_ok a servers p0 /\ ps_servers p0 !! a = None) as [Hok Hgone].
  { unfold Start in Hstart. destruct (listen _); [done|].
    erewrite bind_Ret in Hstart by (by apply newService_spec). injection Hstart as <-. cbn.
    split; [|apply lookup_delete_eq]. constructor; cbn; [|done| |].
    - destruct (discovery_returns result now order conns (w_init e)) as (w' & E & _).
      pose proof (step_ok config _ _ (world_ok_init e) (step_discovery config (w_init e) result now order conns)) as H.
      exact H.
    - by eapply resolve_nonempty.
    - intros b Hb. by rewrite lookup_delete_ne by congruence. }
  split; [done|]. assert (ps_ok a servers p) as Hp.
  { clear Hstart Hgone. induction Hsteps as [p|p p1 p2 Hs _ IH]; [done|]. apply IH. by eapply ps_ok_step. }
  destruct Hp as [Hw Hc Hne Hs]. split_and!; [done..|].
  intros r p' Hown. rewrite own_address_cached in Hown by congruence. injection Hown as <- <-. by rewrite Hc.
Qed.

(** A server that published itself stays in the table after it has stopped: no step
from the signal to the end of [main] takes its entry away. And a machine that cannot
measure its memory does not get that far: the publication panics in its goroutine,
which ends the process. *)
Theorem registration_outlives_server `{HB : BDMsg, HN : Net, HH : Http} range config now o1 o2 cpu mem p order :
  ps_cached p <> "" ->
  (exists p', naming_tick range config now o1 o2 cpu (Some mem) p = (Ret tt, p') /\
    is_Some (ps_servers (main_stop order p') !! ps_cached p)) /\
  naming_tick range config now o1 o2 cpu None p = (Panic (PRt NilDeref), p).
Proof.
  intros Hc. split; [|done]. destruct (naming_tick range config now o1 o2 cpu (Some mem) p) as [r p'] eqn:E.
  apply naming_tick_spec in E as (-> & _ & _ & _ & Hs); [|done]. exists p'. split; [done|].
  cbn. rewrite Hs, lookup_insert_eq. by eexists.
Qed.

(** C21: the end of [main]: from any state the process can be in, nobody stays registered. The
server is down and [CloseAll] has run; from then on the monitors alone take at most as many
steps as there are monitors, some run of theirs ends in a state where none has a step left, and
in every such state no id leads to a client. *)
Theorem shutdown_empties `{HB : BDMsg, HL : !BDMsgLaws, HN : Net, HG : Gorsa, HZ : Zlib, HP : Proto}
    config e w order p :
  rtc (step config) (w_init e) w -> ps_world p = w -> iterates (w_clientM w) order ->
  let p' := main_stop order p in
  let rests w' := rtc monitor_step (ps_world p') w' /\ forall w'', ~ monitor_step w' w'' in
  (GServer ∉ ps_routines p') /\
  (forall n w', nsteps monitor_step n (ps_world p') w' -> (n <= length (monitors (w_tasks w)))%nat) /\
  (exists w', rests w') /\ forall w', rests w' -> w_clientM w' = ∅.
Proof.
  intros Hw%reachable_ok Hp Ho. cbn zeta. unfold main_stop. cbn. subst w.
  destruct (CloseAll_spec order (ps_world p) Hw Ho) as (Hw1 & _ & Hstop).
  split_and!; [rewrite list_elem_of_filter; tauto| |by apply monitors_drain|].
  - intros n w' Hn. apply monitor_steps_bound in Hn; [|done]. by rewrite CloseAll_tasks in Hn.
  - intros w' [Hsteps Hrest]. apply map_empty. intros id. destruct (w_clientM w' !! id) as [l|] eqn:Hl; [|done].
    apply (monitors_rest _ w' Hw1 Hsteps Hrest) in Hl as [Hl Hready].
    destruct (wok_clientM _ Hw1 id l Hl) as [(c & Hc & _) _].
    destruct (Hstop id l c Hl Hc) as (sc & Hsc & Hs). unfold monitor_ready in Hready. rewrite Hc, Hsc in Hready. congruence.
Qed.

(** * Witnesses *)

Section Examples.
#[local] Existing Instances test_bdmsg test_bdmsg_laws test_net test_zlib test_proto toy_rsa test_http
  test_resolver test_files.

Definition votes_range (m : gmap string Z) : list string := (map_to_list m).*1.
Definition own : string := "81.2.3.4:6000".
Definition servers0 : gmap string bytes := {["other:1" := []]}.
Definition p_init : Process := ps_init (test_env ∅) servers0.
Definition p_started : Process :=
  (Start (fun _ => None) votes_range resolver_config (inr (EText "down")) 0 [] [] p_init).2.

Lemma own_resolved : resolveInternetAddress votes_range resolver_config = Ret own.
Proof. vm_compute. reflexivity. Qed.

Lemma p_started_eq :
  Start (fun _ => None) votes_range resolver_config (inr (EText "down")) 0 [] [] p_init = (Ret None, p_started).
Proof. unfold p_started. rewrite (surjective_pairing (Start _ _ _ _ _ _ _ p_init)) at 1. f_equal. Qed.

Lemma Start_spec_witness :
  Start (fun _ => Some (EText "in use")) votes_range resolver_config (inr (EText "down")) 0 [] [] p_init =
    (Ret (Some (EDef ErrAddress)), p_init) /\
  ps_routines p_started = [GSubscribe; GNaming; GHeartBeat; GConsumer; GDiscovery; GServer] /\
  ps_cached p_started = own.
Proof.
  split.
  - pose proof (Start_spec (fun _ => Some (EText "in use")) votes_range resolver_config (inr (EText "down")) 0
      [] [] p_init eq_refl) as H. destruct (Start _ _ _ _ _ _ _ p_init) as [r p']. by destruct H as [-> ->].
  - pose proof (Start_spec (fun _ => None) votes_range resolver_config (inr (EText "down")) 0 [] [] p_init eq_refl) as H.
    rewrite p_started_eq, own_resolved in H. destruct H as (_ & Hc & _ & _ & H). split; [rewrite H; reflexivity|exact Hc].
Defined.

Lemma p_started_cached : ps_cached p_started = own.
Proof.
  unfold p_started, Start. cbn [fst snd]. erewrite bind_Ret by (apply newService_spec; [reflexivity|apply own_resolved]).
  reflexivity.
Qed.

Lemma process_safety_witness :
  ps_servers p_started !! own = None /\ ps_servers p_started !! "other:1" = Some [].
Proof.
  destruct (process_safety (fun _ => None) votes_range resolver_config (inr (EText "down")) 0 [] [] (test_env ∅)
    servers0 own p_started p_started own_resolved p_started_eq (rtc_refl _ _)) as (H1 & _ & H2 & _).
  split; [exact H1|]. rewrite H2 by done. reflexivity.
Defined.

Lemma registration_outlives_server_witness :
  exists p', naming_tick votes_range resolver_config 0 [] [] None (Some "42.5") p_started = (Ret tt, p') /\
    is_Some (ps_servers (main_stop [] p') !! own).
Proof.
  assert (ps_cached p_started = own) as E by apply p_started_cached.
  rewrite <-E. apply (registration_outlives_server votes_range resolver_config 0 [] [] None "42.5" p_started []).
  rewrite E. done.
Defined.

Lemma shutdown_empties_witness :
  exists w', rtc monitor_step (ps_world (main_stop ["ann"] (set_world w_s2 p_init))) w' /\ w_clientM w' = ∅.
Proof.
  destruct (shutdown_empties open_config (test_env ∅) w_s2 ["ann"] (set_world w_s2 p_init) w_s2_reachable eq_refl)
    as (_ & _ & (w' & H1 & H2) & H3); [exact (Permutation_refl ["ann"])|].
  exists w'. split; [exact H1|]. apply H3. split; [exact H1|exact H2].
Defined.

(** The key file is missing. *)
Example start_from_the_command_line :
  token_init (fun _ => None) ["-c"; "missing.conf"] = Ret (inr 1) /\ token_init (fun _ => None) ["-x"] = Ret (inr 2) /\
  token_init (fun _ => None) [] = Panic (PErr (EText "no such file")).
Proof. vm_compute. split_and!; reflexivity. Qed.
End Examples.
