(* ===== verification/Shutdown.v ===== *)
(** The second half of [main] (server/connector/main.go): the pid file, the wait for a
signal, and the end of the process, step by step against the goroutines of the server at
the grain of their locks. *)

From S2P Require Import Prelude GoText Json Decode ProtoDef Protocol ToCompute Room Config Token Rpc State.
From S2P Require Import Client Subscribe Heartbeat Stat Service Interleave Lifecycle LifecycleRuns Naming Main.
Local Open Scope Z_scope.

(** Where [main] stands, once it has started the services: before [pidf.New]; in the
[select]; before each of the calls that follow; before the deferred [pidF.Close]; behind it. *)
Inductive mpc :=
  | MPidFile | MSelect | MStopDebug | MWaitRequests | MStopServer | MCloseAll | MWaitClients | MManagers | MSleep
  | MDeferred | MExit.

(** How far [main] is. *)
Definition m_index (pc : mpc) : nat :=
  match pc with
  | MPidFile => 0 | MSelect => 1 | MStopDebug => 2 | MWaitRequests => 3 | MStopServer => 4 | MCloseAll => 5
  | MWaitClients => 6 | MManagers => 7 | MSleep => 8 | MDeferred => 9 | MExit => 10
  end.

Section Shutdown.
Context `{HB : BDMsg, HN : Net, HG : Gorsa, HZ : Zlib, HP : Proto}.

(** With the server, the goroutines of the process, and the pid file [main] holds. *)
Record main_state := mkMain {
  mn_pc : mpc;
  mn_life : life;
  mn_routines : list routine;
  mn_pidF : option string;
}.

(** What [main] waits for: a signal or the end of the service, the requests to the debug
service, the clients. *)
Record waits := { wt_select : bool; wt_requests : bool; wt_clients : bool }.

Definition stop_routine (g : routine) (rs : list routine) : list routine := filter (fun g' => g' <> g) rs.

(** The next call of [main]; [None] while it waits and when it has returned. The clients
are closed in the order of their map. *)
Definition main_next (config : ConfigT) (order : list string) (wt : waits) (s : main_state) : option main_state :=
  let '(mkMain pc lf rs pidF) := s in
  match pc with
  | MPidFile => Some (mkMain MSelect lf rs (Some (cf_PidFile config)))
  | MSelect => if wt_select wt then Some (mkMain MStopDebug lf rs pidF) else None
  | MStopDebug =>
      if decide (GDebug ∈ rs) then Some (mkMain MWaitRequests lf (stop_routine GDebug rs) pidF)
      else Some (mkMain MStopServer lf rs pidF)
  | MWaitRequests => if wt_requests wt then Some (mkMain MStopServer lf rs pidF) else None
  | MStopServer => Some (mkMain MCloseAll lf (stop_routine GServer rs) pidF)
  | MCloseAll =>
      Some (mkMain MWaitClients (mkLife (CloseAll order (lf_world lf)) (lf_handlers lf) (lf_endings lf)) rs pidF)
  | MWaitClients => if wt_clients wt then Some (mkMain MManagers lf rs pidF) else None
  | MManagers => let _ := ManagerSet_Close in Some (mkMain MSleep lf rs pidF)
  | MSleep => Some (mkMain MDeferred lf rs pidF)
  | MDeferred => Some (mkMain MExit lf rs None)
  | MExit => None
  end.

(** [main] and the rest of the process; once the server has stopped no connection is accepted. *)
Inductive main_step (config : ConfigT) : main_state -> main_state -> Prop :=
  | main_own order wt s s' :
      iterates (w_clientM (lf_world (mn_life s))) order -> main_next config order wt s = Some s' ->
      main_step config s s'
  | main_others pc lf lf' rs pidF :
      life_step config lf lf' ->
      (GServer ∉ rs -> dom (w_conns (lf_world lf')) = dom (w_conns (lf_world lf))) ->
      main_step config (mkMain pc lf rs pidF) (mkMain pc lf' rs pidF).

(** After [main_start]. *)
Definition main_init (p : Process) : main_state :=
  mkMain MPidFile (mkLife (ps_world p) ∅ ∅) (ps_routines p) None.

(** [main] alone, with everything it waits for there. *)
Definition all_there : waits := {| wt_select := true; wt_requests := true; wt_clients := true |}.
Fixpoint main_run (config : ConfigT) (order : list string) (n : nat) (s : main_state) : main_state :=
  match n with
  | O => s
  | S n' => match main_next config order all_there s with
            | Some s' => main_run config order n' s'
            | None => s
            end
  end.

End Shutdown.

(** * Lemmas *)

Section Lemmas.
Context `{HB : BDMsg, HN : Net, HG : Gorsa, HZ : Zlib, HP : Proto}.

Lemma stop_routine_elem g g' rs : g' ∈ stop_routine g rs <-> g' <> g /\ g' ∈ rs.
Proof. unfold stop_routine. by rewrite list_elem_of_filter. Qed.

(** The routines without those [main] stops. *)
Definition others (rs : list routine) : list routine := filter (fun g => g <> GDebug /\ g <> GServer) rs.

Lemma others_stop g rs : g = GDebug \/ g = GServer -> others (stop_routine g rs) = others rs.
Proof.
  intros Hg. unfold others, stop_routine. induction rs as [|x rs IH]; [done|]. rewrite filter_cons.
  case_decide as Hx; rewrite !filter_cons.
  - rewrite IH. done.
  - rewrite (decide_False (P := x <> GDebug /\ x <> GServer)); [done|]. destruct x, Hg; subst; try done; naive_solver.
Qed.

(** What holds wherever [main] stands. *)
Record main_ok (config : ConfigT) (rs0 : list routine) (s : main_state) : Prop := {
  mo_pid : mn_pidF s = match mn_pc s with MPidFile | MExit => None | _ => Some (cf_PidFile config) end;
  mo_server : (m_index MStopServer < m_index (mn_pc s))%nat -> GServer ∉ mn_routines s;
  mo_debug : (m_index MStopDebug < m_index (mn_pc s))%nat -> GDebug ∉ mn_routines s;
  mo_others : others (mn_routines s) = others rs0;
  mo_before : (m_index (mn_pc s) <= m_index MStopDebug)%nat -> mn_routines s = rs0;
}.

Lemma main_ok_step config rs0 s s' : main_ok config rs0 s -> main_step config s s' -> main_ok config rs0 s'.
Proof.
  intros Hok Hstep. destruct Hstep as [order wt s s' _ Hn|pc lf lf' rs pidF _ _]; [|by destruct Hok].
  destruct s as [pc lf rs pidF]. destruct Hok as [H1 H2 H3 H4 H5]. cbn in *.
  destruct pc; cbn in Hn; repeat case_match; simplify_eq; constructor; cbn; intros; auto with lia;
    try (by apply H2; lia); try (by apply H3; lia); try lia; rewrite ?stop_routine_elem, ?others_stop by auto; naive_solver lia.
Qed.

(** The steps of the process are runs of the server. *)
Lemma main_step_life `{HL : !BDMsgLaws} config s s' :
  main_step config s s' -> rtc (life_step config) (mn_life s) (mn_life s').
Proof.
  intros Hstep. destruct Hstep as [order wt [pc [w H E] rs pidF] s' _ Hn|pc lf lf' rs pidF Hs _]; [|by apply rtc_once].
  destruct pc; cbn in Hn; repeat case_match; simplify_eq; try apply rtc_refl.
  cbn. apply rtc_once, life_others, quiet_same. rewrite CloseAll_close_if. apply tables_close_if.
Qed.

Lemma main_life `{HL : !BDMsgLaws} config e p s :
  rtc (step config) (w_init e) (ps_world p) -> rtc (main_step config) (main_init p) s ->
  rtc (life_step config) (life_init e) (mn_life s).
Proof.
  intros Hp%life_of_steps Hs. etrans; [exact Hp|]. change (mkLife (ps_world p) ∅ ∅) with (mn_life (main_init p)).
  induction Hs as [s|s s1 s2 Hstep _ IH]; [done|]. etrans; [by eapply main_step_life|done].
Qed.

Lemma stop_routine_absent g rs : g ∉ rs -> stop_routine g rs = rs.
Proof.
  intros Hg. unfold stop_routine. induction rs as [|x rs IH]; [done|]. apply not_elem_of_cons in Hg as [Hx Hg].
  rewrite filter_cons_True by congruence. by rewrite IH.
Qed.

Lemma stop_both rs : stop_routine GServer (stop_routine GDebug rs) = others rs.
Proof.
  unfold stop_routine, others. induction rs as [|x rs IH]; [done|]. rewrite !filter_cons.
  destruct (decide (x <> GDebug)) as [Hd|Hd]; [rewrite filter_cons|]; repeat case_decide; rewrite ?IH; naive_solver.
Qed.

End Lemmas.

(** * Properties *)

(** The order of the shutdown. Wherever [main] stands, whatever the rest of the process
does: it holds the pid file from [pidf.New] to the deferred [Close]; what it started runs
until it is woken; the debug service and the server run no more behind the calls that stop
them; and the other goroutines are never stopped. *)
Theorem shutdown_order `{HB : BDMsg, HN : Net, HG : Gorsa, HZ : Zlib, HP : Proto} config p s :
  rtc (main_step config) (main_init p) s ->
  mn_pidF s = match mn_pc s with MPidFile | MExit => None | _ => Some (cf_PidFile config) end /\
  ((m_index (mn_pc s) <= m_index MStopDebug)%nat -> mn_routines s = ps_routines p) /\
  ((m_index MStopDebug < m_index (mn_pc s))%nat -> GDebug ∉ mn_routines s) /\
  ((m_index MStopServer < m_index (mn_pc s))%nat -> GServer ∉ mn_routines s) /\
  (forall g, g <> GDebug -> g <> GServer -> g ∈ mn_routines s <-> g ∈ ps_routines p).
Proof.
  intros Hs. assert (main_ok config (ps_routines p) s) as [H1 H2 H3 H4 H5].
  { remember (main_init p) as s0 eqn:E. assert (main_ok config (ps_routines p) s0) as H0 by (subst; constructor; cbn; done || lia).
    clear E. induction Hs as [s|s s1 s2 Hstep _ IH]; [done|]. by apply IH, (main_ok_step config _ s). }
  split_and!; try done. intros g Hd Hg. assert (g ∈ others (mn_routines s) <-> g ∈ others (ps_routines p)) as Hiff by (by rewrite H4).
  unfold others in Hiff. rewrite !list_elem_of_filter in Hiff. naive_solver.
Qed.

(** Alone, [main] does what Main.v says in one piece. With a signal there, no requests
and no clients to wait for, it runs from its [select] to its end, and leaves the goroutines
and the state of [main_stop]. *)
Theorem shutdown_alone `{HB : BDMsg, HN : Net} config order p H E pidF :
  let p' := main_stop order p in
  main_run config order 9 (mkMain MSelect (mkLife (ps_world p) H E) (ps_routines p) pidF) =
    mkMain MExit (mkLife (ps_world p') H E) (ps_routines p') None.
Proof.
  cbn zeta. cbn [main_run main_next all_there wt_select wt_requests wt_clients]. unfold main_stop. cbn.
  change (filter _ (ps_routines p)) with (others (ps_routines p)). rewrite <-stop_both.
  destruct (decide (GDebug ∈ ps_routines p)) as [Hd|Hd]; cbn; [done|]. by rewrite (stop_routine_absent GDebug).
Qed.


(** * Witnesses *)

Section Examples.
#[local] Existing Instances test_bdmsg test_bdmsg_laws test_net test_zlib toy_rsa test_proto.

Lemma shutdown_order_witness :
  main_step resolver_config (main_init p_started)
    (mkMain MSelect (mkLife (ps_world p_started) ∅ ∅) (ps_routines p_started) (Some (cf_PidFile resolver_config))) /\
  forall g, g <> GDebug -> g <> GServer ->
    g ∈ mn_routines (mkMain MSelect (mkLife (ps_world p_started) ∅ ∅) (ps_routines p_started)
      (Some (cf_PidFile resolver_config))) <-> g ∈ ps_routines p_started.
Proof.
  assert (main_step resolver_config (main_init p_started)
    (mkMain MSelect (mkLife (ps_world p_started) ∅ ∅) (ps_routines p_started) (Some (cf_PidFile resolver_config)))) as Hs.
  { apply (main_own resolver_config (map_range (w_clientM (ps_world p_started))) all_there); [apply map_range_iterates|reflexivity]. }
  split; [exact Hs|]. destruct (shutdown_order resolver_config p_started _ (rtc_once _ _ Hs)) as (_ & _ & _ & _ & H). exact H.
Defined.

(** The server is told to stop while Ann's registration waits for the manager. *)
Definition p_s1 : Process := mkProcess _ _ w_s1 "" ∅ [GServer].
Definition stopped_at : main_state := mkMain MCloseAll (mkLife w_s1 admitting ∅) [] (Some (cf_PidFile open_config)).

Lemma stopped_at_reachable : rtc (main_step open_config) (main_init p_s1) stopped_at.
Proof.
  assert (forall s s', w_clientM (lf_world (mn_life s)) = ∅ -> main_next open_config [] all_there s = Some s' ->
    main_step open_config s s') as Hown by (intros s s' E; apply main_own; rewrite E; exact (Permutation_refl [])).
  destruct admitting_steps as [Hcall Haccept].
  eapply rtc_l; [apply main_others; [exact Hcall|intros _; reflexivity]|].
  eapply rtc_l; [apply main_others; [exact Haccept|intros _; reflexivity]|].
  do 4 (eapply rtc_l; [apply Hown; [vm_compute; reflexivity|reflexivity]|]). apply rtc_refl.
Qed.


End Examples.
