(* ===== verification/TestClient.v ===== *)
(** The test client (tool/testclient/main.go) and what the server makes of it. The program
names four things that pconnector does not define any more; they are parameters. *)

From S2P Require Import Prelude GoText Json ProtoDef Protocol ToCompute Room Config Token Rpc State.
From S2P Require Import Client Subscribe Heartbeat Stat Service Interleave Lifecycle LifecycleRuns.
Local Open Scope Z_scope.

(** What the test client takes from pconnector and pconnector does not have; what
[Unmarshal] reads of a reply to the registration is not looked at. *)
Class OldProtocol := {
  MsgTypeClientHello : Z;
  ConnectReply_Unmarshal : bytes -> option error;
  ServerHello_Unmarshal : bytes -> string * option error;
  ClientHello_Marshal : string -> bytes * option error;
}.

(** Where [main] stands: waiting to be connected, saying hello, at its end. *)
Inductive tpc := TConnecting | TTalking | TDone.

(** [type client struct], of whose connection what was given to [Output] and whether it
stopped counts; with the lines printed. *)
Record client := mkclient {
  cl_connected : bool;
  cl_out : list (Z * bytes);
  cl_stopped : bool;
}.
Record tstate := mkT { ts_pc : tpc; ts_client : client; ts_screen : list string }.

Definition Output (t : Z) (m : bytes) (c : client) : client :=
  mkclient (cl_connected c) (cl_out c ++ [(t, m)]) (cl_stopped c).
Definition upd_client (f : client -> client) (s : tstate) : tstate := mkT (ts_pc s) (f (ts_client s)) (ts_screen s).
Definition Println (line : string) (s : tstate) : tstate := mkT (ts_pc s) (ts_client s) (ts_screen s ++ [line]).

(** [client.doRegister]: the request stays at its zero value. *)
Definition doRegister (c : client) : client :=
  let mr := (Register_Marshal zero_Register).1 in Output MsgTypeRegister mr c.

(** [newClient] *)
Definition newClient : client := doRegister (mkclient false [] false).

Definition defaultAddr : string := "127.0.0.1:9001".

(** [parseFlag] *)
Definition parseFlag (args : list string) : option string := flag_String ["addr"; "a"] args defaultAddr.

Section TestClient.
Context `{OldProtocol}.

(** The handlers. *)
Definition handleConnectReply (m : bytes) : M tstate unit :=
  let _ := ConnectReply_Unmarshal m in
  modify (upd_client (fun c => mkclient true (cl_out c) (cl_stopped c))).

Definition handleServerHello (m : bytes) : M tstate unit :=
  let '(message, err) := ServerHello_Unmarshal m in
  match err with
  | Some _ => throw (PErr (EDef ErrParameter))
  | None => modify (Println message)
  end.

(** [client.clientHello] *)
Definition clientHello (msg : string) : tstate -> tstate :=
  upd_client (Output MsgTypeClientHello (ClientHello_Marshal msg).1).

(** The handlers [newClient] gives to its mux. *)
Definition mux : gmap Z (bytes -> M tstate unit) := ∅.

(** [main] up to its first loop; [None] is an end with 2. [dial] is [net.Dial]. *)
Definition test_main (dial : string -> option string) (args : list string) : option tstate :=
  serverAddr ← parseFlag args;
  mret match dial serverAddr with
       | Some err => mkT TDone (mkclient false [] false) [err]
       | None => mkT TConnecting newClient []
       end.

(** A turn of the first loop; the two cases of the second one. *)
Definition connecting (s : tstate) : tstate :=
  if cl_connected (ts_client s)
  then mkT TTalking (ts_client s) (ts_screen s ++ ["connected"]) else s.
Definition disconnected (s : tstate) : tstate := mkT TDone (ts_client s) (ts_screen s ++ ["disconnected"]).

(** A message for which the mux has a handler; the connection stops; [main] goes on. *)
Inductive tstep : tstate -> tstate -> Prop :=
  | t_message t m h s : mux !! t = Some h -> tstep s (h m s).2
  | t_lost s : tstep s (upd_client (fun c => mkclient (cl_connected c) (cl_out c) true) s)
  | t_connecting s : ts_pc s = TConnecting -> tstep s (connecting s)
  | t_StopD s : ts_pc s = TTalking -> cl_stopped (ts_client s) = true -> tstep s (disconnected s)
  | t_hello now s : ts_pc s = TTalking -> tstep s (clientHello now s).

End TestClient.

(** * Lemmas *)

(** The registration of the test client, as the server reads it. *)
Lemma zero_Register_read : Register_Unmarshal (Register_Marshal zero_Register).1 zero_Register = (zero_Register, None).
Proof. vm_compute. reflexivity. Qed.

(** No key decrypts the empty token. *)
Lemma empty_token `{Gorsa} config spare :
  cf_PemFile config <> "" -> match refreshToken0 config spare "" with Ret (_, None) => False | _ => True end.
Proof.
  intros Hpem. unfold refreshToken0, decrypt. rewrite bool_decide_false by done. cbn [negb].
  destruct rsa_bitlen as [bits|]; [|exact I]. rewrite (hexToBytes_encode [] spare : hexToBytes spare "" = Ret []).
  destruct (decide (Z.to_nat (bits / 8) = 0%nat)) as [Hn|Hn]; [unfold splitBytes; by rewrite decide_True|].
  rewrite splitBytes_cuts, cuts_short by (done || cbn; lia). by rewrite decide_True.
Qed.

(** * Properties *)

(** The test client never gets anywhere. It gives no handler to its mux, so that nothing
it receives makes it connected: from its start on, whatever arrives and also when its
connection is lost, it has sent its empty registration and nothing else, printed nothing,
and waits. *)
Theorem test_client_waits `{OldProtocol} dial args s0 s :
  test_main dial args = Some s0 -> ts_pc s0 <> TDone -> rtc tstep s0 s ->
  ts_pc s = TConnecting /\ cl_connected (ts_client s) = false /\ ts_screen s = [] /\
  cl_out (ts_client s) = [(MsgTypeRegister, (Register_Marshal zero_Register).1)].
Proof.
  intros Hmain Hpc Hrun.
  assert (s0 = mkT TConnecting newClient []) as ->.
  { unfold test_main in Hmain. destruct (parseFlag args) as [addr|]; [|done]. cbn in Hmain.
    destruct (dial addr) as [err|]; injection Hmain as <-; [by destruct Hpc|done]. }
  clear Hmain Hpc. remember (mkT TConnecting newClient []) as s0 eqn:E0.
  assert (ts_pc s0 = TConnecting /\ cl_connected (ts_client s0) = false /\ ts_screen s0 = [] /\
    cl_out (ts_client s0) = [(MsgTypeRegister, (Register_Marshal zero_Register).1)]) as Hinv by (by subst).
  clear E0. induction Hrun as [s|s s1 s2 Hstep _ IH]; [done|]. apply IH. destruct Hinv as (H1 & H2 & H3 & H4).
  destruct Hstep as [t m h s Hm|s|s Hs|s Hs _|now s Hs]; try congruence.
  - unfold mux in Hm. by rewrite lookup_empty in Hm.
  - done.
  - unfold connecting. by rewrite H2.
Qed.

(** C39: what the server makes of the test client. Without a key file it is admitted, under the
empty user id, and the connection of the test client that was there before is stopped; with
a key file its connection is stopped and nothing else happens. *)
Theorem test_client_meets_server `{HB : BDMsg, HL : !BDMsgLaws, HN : Net, HG : Gorsa, HZ : Zlib, HP : Proto}
    config e spare now1 now2 s w sc :
  rtc (step config) (w_init e) w -> w_conns w !! s = Some sc -> sc_UserData sc = UD_SClient s -> sc_Handshaked sc = false ->
  forall t m, cl_out newClient = [(t, m)] ->
  let w' := (dispatch config spare now1 now2 s t m w).2 in
  (cf_PemFile config = "" -> exists l c, cm_Client "" w' = Some l /\ w_clients w !! l = None /\
     w_clients w' !! l = Some c /\ c_msc c = s /\
     forall old oldc, cm_Client "" w = Some old -> w_clients w !! old = Some oldc ->
       exists so, w_conns w' !! c_msc oldc = Some so /\ sc_Stopped so = true) /\
  (cf_PemFile config <> "" -> w' = on_conn s sc_Stop w).
Proof.
  intros Hreach Hs Hd Hh t m Hout.
  assert (t = MsgTypeRegister /\ m = (Register_Marshal zero_Register).1) as [-> ->] by (by injection Hout as <- <-).
  clear Hout. apply life_of_steps, life_reachable in Hreach as Hok.
  unfold life_inv in Hok. cbn in Hok. cbn zeta.
  change (dispatch config spare now1 now2 s MsgTypeRegister (Register_Marshal zero_Register).1 w)
    with (handleRegister config spare now1 s (Register_Marshal zero_Register).1 w).
  assert (handleRegister config spare now1 s (Register_Marshal zero_Register).1 w =
    recovering (r ← cm_clientIn config spare now1 zero_Register s;
      match r with
      | (_, Some _) => throw (PErr (EDef ErrUnexpected))
      | (_, None) => modify (on_conn s sc_Handshake)
      end) (fun _ => Stop s) w) as ->.
  { unfold handleRegister, assert_SClient, user_data, Handshaked. unfold mbind at 1, M_bind at 1. rewrite Hs, Hd.
    unfold recovering. unfold gets. unfold mbind at 1, M_bind at 1. rewrite Hs, Hh, zero_Register_read. reflexivity. }
  split.
  - intros Hpem.
    destruct (clientIn_admits config spare now1 zero_Register s w (Build_Token "" "" "" 0 (-1)))
      as (l & w' & c & E & EM & Hl & Hc & _ & Hm & Hold).
    { unfold refreshToken0. by rewrite bool_decide_true. }
    { by eexists. }
    { intros l c Hc. apply tb_conn. by eapply (lk_conn _ _ _ Hok), tb_client. }
    unfold recovering. unfold mbind, M_bind. rewrite E. cbn [snd modify]. exists l, c. split_and!; try done.
    + unfold cm_Client. cbn. rewrite EM. apply lookup_insert_eq.
    + intros old oldc Ho Hoc. destruct (Hold old oldc Ho Hoc) as (so & Hso & Hst). cbn. rewrite lookup_alter.
      case_decide as Es; [|eauto]. rewrite Es, Hso. eexists. split; [done|]. by rewrite handshake_Stopped.
  - intros Hpem. pose proof (empty_token config spare Hpem) as Ht. unfold recovering, mbind, M_bind, cm_clientIn.
    pose proof (refreshToken0_returns config spare (rg_Token zero_Register)) as Hret.
    change (rg_Token zero_Register) with "" in *. by destruct (refreshToken0 config spare "") as [[claims [err|]]|p|].
Qed.

(** * Witnesses *)

Section Examples.
#[local] Existing Instances test_bdmsg test_bdmsg_laws test_net test_zlib toy_rsa test_proto.

Definition test_old : OldProtocol := {|
  MsgTypeClientHello := 7;
  ConnectReply_Unmarshal _ := None;
  ServerHello_Unmarshal m := (string_of_bytes m, None);
  ClientHello_Marshal s := (bytes_of_string s, None);
|}.

Example test_client_flags :
  parseFlag ["-a"; "b:1"] = Some "b:1" /\ parseFlag ["--addr=c:2"; "x"] = Some "c:2" /\ parseFlag [] = Some "127.0.0.1:9001" /\
  parseFlag ["-b"] = None.
Proof. vm_compute. split_and!; reflexivity. Qed.

(** If the handlers were given to the mux, the client would get on. *)
Example connected_by_a_reply :
  ts_pc (connecting (@handleConnectReply test_old [] (mkT TConnecting newClient [])).2) = TTalking.
Proof. vm_compute. reflexivity. Qed.

End Examples.

Lemma test_client_waits_witness :
  let s := mkT TConnecting (mkclient false (cl_out newClient) true) [] in
  ts_pc (connecting s) = TConnecting /\ ts_screen (connecting s) = [].
Proof.
  intros s. destruct (@test_client_waits test_old (fun _ => None) [] (mkT TConnecting newClient []) (connecting s))
    as (H1 & _ & H2 & _).
  - vm_compute. reflexivity.
  - discriminate.
  - eapply rtc_l; [apply (@t_lost test_old)|]. apply rtc_once. apply (@t_connecting test_old). reflexivity.
  - split; [exact H1|exact H2].
Defined.

Lemma test_client_meets_server_witness :
  exists l, cm_Client "" (@dispatch test_bdmsg test_net toy_rsa open_config [] 0 0 1%positive MsgTypeRegister
    (Register_Marshal zero_Register).1 w_s1).2 = Some l.
Proof.
  destruct (@test_client_meets_server test_bdmsg test_bdmsg_laws test_net toy_rsa test_zlib test_proto open_config
    (test_env ∅) [] 0 0 1%positive w_s1 (Build_test_conn false false (UD_SClient 1%positive) [])
    (rtc_once _ _ w_s1_step) eq_refl eq_refl eq_refl MsgTypeRegister (Register_Marshal zero_Register).1 eq_refl)
    as [H _].
  destruct (H eq_refl) as (l & c & Hl & _). exists l. exact Hl.
Defined.
