(* ===== verification/HttpCli.v ===== *)
(** The HTTP client of the common services (common/service/httpcli): where a
call goes and what it makes of the answer. *)

From S2P Require Import Prelude GoText ProtoDef Config.
Local Open Scope Z_scope.

(** * Packages netutil and http *)

Record Response := { resp_StatusCode : Z; resp_Body : io_Reader }.
Class HttpClient := {
  client_Post : string -> string -> bytes -> Response + error;
  client_Get : string -> Response + error;
  client_Close : option error;
}.

(** * Data *)

Record callOptions := { co_url : string; co_addr : string; co_https : bool }.
Definition zero_callOptions : callOptions := Build_callOptions "" "" false.
(** [type CallOption struct]: a function on the options. *)
Definition CallOption : Type := callOptions -> callOptions.
Record BaseProxy := { bp_defAddr : string }.

Definition ErrRemoteServer : error := EText "remote server internal error".

(** * Operations *)

Definition WithURL (url : string) : CallOption := fun o => Build_callOptions url (co_addr o) (co_https o).
Definition WithAddr (addr : string) : CallOption := fun o => Build_callOptions (co_url o) addr (co_https o).
Definition WithHttps : CallOption := fun o => Build_callOptions (co_url o) (co_addr o) true.

Definition NewBaseProxy (conf : UpstreamConfT) : BaseProxy := {| bp_defAddr := up_Addr conf |}.

(** The url of a call. *)
Definition call_url (p : BaseProxy) (api : string) (o : callOptions) : string :=
  if negb (bool_decide (co_url o = "")) then co_url o
  else
    let addr := if negb (bool_decide (co_addr o = "")) then co_addr o else bp_defAddr p in
    if co_https o then String.append "https://" (String.append addr api)
    else String.append "http://" (String.append addr api).

Section Call.
Context `{HttpClient} {P R : Type} `{Marshaler P} `{Unmarshaler R}.

(** [BaseProxy.Close] *)
Definition BaseProxy_Close (p : BaseProxy) : option error := client_Close.

(** [BaseProxy.Call]: the value of [result] after the call and the error. What
[MarshalWrite] returns is not looked at: the buffer stays empty on failure. *)
Definition Call (p : BaseProxy) (api : string) (param : option P) (result : option R)
    (options : list CallOption) : option R * option error :=
  let o := fold_left (fun o option => option o) options zero_callOptions in
  let url := call_url p api o in
  let answer := match param with
                | Some param =>
                    let '(b, _) := MarshalWrite buffer_Write [] param in
                    client_Post url DefaultRequestContentType b
                | None => client_Get url
                end in
  match answer with
  | inr err => (result, Some err)
  | inl resp =>
      if negb (resp_StatusCode resp =? 200) then (result, Some ErrRemoteServer)
      else match result with
           | Some result =>
               match ReadUnmarshal (resp_Body resp) result with
               | (result, Some err) => (Some result, Some err)
               | (result, None) => (Some result, None)
               end
           | None => (None, None)
           end
  end.

End Call.

(** * Properties *)

(** A call succeeds exactly when the request got an answer with status 200
and, if a result is wanted, its body could be read and unmarshalled; the
result is then the unmarshalled one. The body posted is the marshalled
parameter, or nothing if it cannot be marshalled. *)
Theorem Call_success {P R : Type} `{HM : Marshaler P, HU : Unmarshaler R, HC : HttpClient}
    (p : BaseProxy) api (param : option P) (result result' : option R) options :
  let url := call_url p api (fold_left (fun o option => option o) options zero_callOptions) in
  Call p api param result options = (result', None) <->
  exists resp,
    match param with
    | Some x => client_Post url DefaultRequestContentType
                  (match Marshal x with (b, None) => b | (_, Some _) => [] end)
    | None => client_Get url
    end = inl resp /\ resp_StatusCode resp = 200 /\
    match result with
    | None => result' = None
    | Some r => read_err (resp_Body resp) = None /\
                exists r', Unmarshal (read_all (resp_Body resp)) r = (r', None) /\ result' = Some r'
    end.
Proof.
  intros url. unfold Call. fold url.
  set (a1 := match param with Some param => let '(b, _) := _ in _ | None => _ end).
  set (a2 := match param with Some x => _ | None => _ end).
  assert (a1 = a2) as ->.
  { unfold a1, a2, MarshalWrite. destruct param as [x|]; [|done]. by destruct (Marshal x) as [b [e|]]. }
  clearbody a2. destruct a2 as [resp|err].
  2:{ split; [done|]. by intros (? & ? & _). }
  destruct (Z.eqb_spec (resp_StatusCode resp) 200) as [Hs|Hs]; cbn [negb].
  2:{ split; [done|]. by intros (? & [= <-] & ? & _). }
  destruct result as [r|].
  2:{ split; [intros [= <-]; eauto|]. by intros (? & [= <-] & _ & ->). }
  unfold ReadUnmarshal. destruct (read_err (resp_Body resp)) as [e|] eqn:He.
  { split; [done|]. intros (? & [= <-] & _ & ? & _). congruence. }
  destruct (Unmarshal (read_all (resp_Body resp)) r) as [r' [e|]] eqn:Hu.
  { split; [done|]. intros (? & [= <-] & _ & _ & r2 & Hr2 & _). congruence. }
  split; [intros [= <-]; eauto 8|]. intros (? & [= <-] & _ & _ & r2 & Hr2 & ->). congruence.
Qed.
